(* ===== verification/_CoqProject ===== *)
-Q . S2P
Prelude.v
Go.v
Tokens.v
Models.v
ReferencePlatform.v
World.v
Metrics.v
Sql.v
Storage.v
Invariant.v
Backend.v
Sqlite.v
Postgres.v
MemoryQueue.v
SortedQueue.v
RateLimitedQueue.v
Router.v
Queue.v
Worker.v
Email.v
QueueDepth.v
Api.v
Config.v
Database.v
Main.v
Examples.v
Delivery.v
Bucket.v
Outcomes.v
Recovery.v
PoolBehaviour.v
EmailBehaviour.v
EmailConversation.v
Handlers.v
Backends.v
Ownership.v
Calm.v
NoCrash.v
System.v
