(* ===== verification/Prelude.v ===== *)
(** * RJQ, a job queue in Go: verification library

    RJQ takes jobs over HTTP, saves each one in a database table, delivers them
    to a pool of workers through one of three queues, and retries, preempts,
    sweeps and recovers them.  This library translates the Go code of the
    program into definitions that can be executed, and proves what makes it
    correct.

    ** How the program is modelled

    The goroutines of the program share one state, the [World] of [World.v]:
    the jobs table, the metrics, the three queues, the worker pool, the
    contexts, and the clock.  A Go function that touches it is a [prog]
    ([Go.v]), a tree of atomic actions: a critical section of a mutex, a SQL
    statement, a channel operation or [select], an update of a metric, a read
    of the clock.  An action happens or parks its goroutine; a program returns,
    panics, or runs out of the bound given to one of its loops.  What the
    program does not decide is part of the state as well and is never fixed by
    a theorem unless it says so: which statements the driver refuses
    ([w_faults]), which ready case a [select] takes ([w_coins]), the UUIDs.

    A [go] statement is a constructor of [prog].  The same programs are
    executed in two ways.  [run env p w] runs one goroutine to its end, [env]
    being what the others do while it is parked ([alone] when there are none);
    [executes] adds the goroutines it has started.  The theorems on the
    functional behaviour of an operation are about these two.  [sys_steps]
    interleaves all goroutines action by action, from the one goroutine
    [main] on; the invariants of [System.v] are about it.  Two judgements link
    the program of a goroutine to the interleavings.  [safe] ([Go.v]): each
    component proves once that its programs follow the protocol of the process
    ([sys_protocol] in [Invariant.v]), and the lemma [safe_sys] turns this into
    an invariant of every interleaving.  [own] ([Tokens.v]): the same with a
    multiset of tokens, the right to close a channel or the duty to call
    [wg.Done], that a goroutine holds and may hand to one it starts; the lemma
    [own_sys] concludes that no goroutine misuses a channel or a wait group.

    ** Files

    - [Prelude.v]: machine integers, tactics and generic lemmas.
    - [Go.v]: programs, [run], interleavings, [safe].  [Tokens.v]: [own].
    - [Models.v]: [pkg/models/job.go] (constants and [Job]), error values, JSON
      values, and the class [Platform] of what the program takes from the
      libraries it links, with the laws it relies on ([PlatformLaws]).
      [ReferencePlatform.v] is an instance, so that the laws can hold and
      everything can be evaluated.
    - [World.v], [Metrics.v]: the structs and the shared state; the metrics of
      [internal/metrics/metrics.go].
    - [Sql.v]: the statements of the backends on the jobs table.  [Storage.v]:
      the interface of [internal/storage/interface.go] ([Storage]) and its
      contract ([StorageSpec]), stated on a map from ids to jobs.  [Sqlite.v]
      and [Postgres.v]: the two backends, function by function, and the proofs
      that they meet the contract; [Backend.v] has what these share.
    - [Invariant.v]: the invariant of the process, [sys_inv].
    - [MemoryQueue.v], [SortedQueue.v], [RateLimitedQueue.v], [Router.v]: the
      queues of [internal/queue], one Module each, with a definition for each
      method.  [Queue.v]: the interface the pool and the API call, with the
      router as its instance.
    - [Worker.v]: [internal/worker/pool.go].  [Module Context] has contexts and
      cancellation, [Module Pool] the pool, the worker loop with its deferred
      functions, [Preempt] and the supervisor, for any [Processor].
    - [Email.v]: [internal/jobs/email/email_worker.go], the processor of the
      program: [Process], the goroutine it starts, and the conversation of
      [net/smtp] with its deadlines.
    - [QueueDepth.v]: [internal/metrics/queue_depth.go].  [Api.v]: the handlers
      of [internal/api/handlers.go], its routes, and the loop of the server.
      [Config.v]: [internal/config/config.go].  [Database.v], [Main.v]:
      [cmd/server/main.go]; [launch] goes from the counters to the workers,
      [boot] on to the server, [serve] on to the end, and [main] is the whole.
    - [Examples.v]: the concrete processes the witnesses run.
    - The properties: [System.v] (all interleavings), [Backends.v] (storage),
      [Delivery.v] (what comes out of the queues), [Bucket.v] (the rate limit),
      [Outcomes.v] (retries), [Recovery.v] (restart and sweepers),
      [PoolBehaviour.v] (workers), [EmailBehaviour.v] and
      [EmailConversation.v] (emails), [Handlers.v] (the API and [main]).
      [Ownership.v], [Calm.v] and [NoCrash.v] are the tokens of this program
      and the proof that each of its goroutines respects them.

    The clients of the storage are proved against [StorageSpec], not against a
    backend; those of the queue against [Queue] and [QueueSafe].

    ** What is shown

    - In every interleaving of the goroutines [main] starts, and whatever
      statements fail: no job that has a row is lost or altered in what was
      submitted; what the queues, slots and workers hold was saved before; the
      priority queue is ordered; the pool is in a state in which [Preempt]
      cannot panic; with a usable configuration no goroutine dies, a channel is
      closed once and only when nobody sends, and no wait group goes below
      zero (C1, C2, C4, C5, C6, C29).
    - Both backends refine one map of jobs, read back what they saved, list the
      unfinished jobs completely and in order, count correctly, and leave the
      table alone when they report an error (C3, C23, C24, C33, C39, C40).
    - The queues: FIFO order, the priority queue as a stable sort, the slice
      operations of [insertLocked], the three results of [Enqueue], one token
      for each rate-limited job, the rate limit over any run of the bucket,
      the order in which the router polls and that it returns (C7, C8, C25 to
      C28, C30 to C32).
    - Outcomes: what [Nack] does, that retries are bounded, what a worker makes
      of a job, of a failing one and of one that panics, the restart of dead
      workers, the choice of [Preempt] (C10, C11, C12, C14, C15, C16, C34).
    - Emails: an email reported sent has gone through the whole conversation
      with every step accepted, the password does not travel in clear, nothing
      waits past a deadline, a stuck sender does not keep its worker, the
      message is read as it was written, and what a failing [QUIT] does (C17 to
      C22).
    - Restart: what recovery and the sweepers deliver, and how [main] starts
      (C13, C36 to C38).
    - The API: what [POST /jobs] and [POST /jobs/{id}/retry] do (C9, C35).

    Several theorems state behaviour the documentation does not promise: the
    copies recovery makes (C37), the accepted email that is reported as failed
    (C22), and, not among the numbered ones, the backlog that does not fit
    ([recover_fails_without_room]), the queue a preempted job loses
    ([router_requeues_into_fifo]), the two meanings of a reset
    ([reset_attempts]), the wait without a refill ([wait_without_refill]), the
    unchecked rate ([missing_rate_crashes]), the header a subject can add
    ([header_injection]) and the email a preempted job still sends
    ([cancelled_sender_delivers]).

    ** Bounds

    The loops of the code that poll ([Router.DequeueOrWait], the wait for a
    token, the worker loop) take a bound on their rounds and end in
    [OutOfFuel] when it is used up.  C31 shows that the rounds of a wait of
    [d] are one more than there are ten milliseconds in [d] and that one poll
    of the token is enough below the router; C32 and [wait_without_refill] say when
    the wait for a token ends and when it does not.  Tickers and the loops of
    the workers, the supervisor and the server have the bound [turns].  The invariants hold for every bound.
    Loops over lists are structural and have none.

    ** Assumptions and what is not modelled

    - A job handed to a queue is not written any more, so a [*Job] is a value.
      Sending, receiving, locking and a statement are atomic; the mutexes
      themselves do not appear.  A goroutine that waits on a timer is ready
      from the deadline on.
    - A statement the driver refuses has no effect; a query may fail before
      any of its rows.  The order of rows that compare equal is open.  Columns
      the program never leaves out are not [NULL].  SQLite keeps instants as
      they are, Postgres keeps [timestamptz_store] of them; SQLite integers
      have 64 bits, those of Postgres 32.
    - JSON encoding and decoding, the JSONB column and the TIMESTAMPTZ column
      are the class [Platform]; opening a database is the class [SqlDriver];
      reading the configuration file is the class [Viper]; the matching of
      paths and the text of the metrics page are the class [HttpLibs].
    - The answers of the mail server are an oracle ([net_answers]): each is an
      acceptance or a refusal after a delay, or silence.  What was sent is kept
      with its answer ([net_wire]).  The TLS handshake, certificates and the
      bytes of the protocol are not modelled.
    - [srv.Shutdown] refuses new requests and lets [main] go on at any moment
      after that; [log.Fatal] is a panic of [main].
    - Not modelled: the failure of [ListenAndServe], closing the databases, the
      encoding of HTTP, the timeout of the middleware, the text of the
      dashboard page, log lines. *)

From stdpp Require Export base tactics option list gmap strings pretty sorting.
From Stdlib Require Export ZArith Lia ZifyBool.

#[global] Set Default Goal Selector "!".
Open Scope Z_scope.

(** ** The hint database of the development *)

Create HintDb go.

(** ** Machine integers

    A Go [int] has 64 bits on the platforms the program is built for; the
    arithmetic of the program wraps around. *)

Definition int64_min : Z := - 2 ^ 63.
Definition int64_max : Z := 2 ^ 63 - 1.

Definition wrap64 (z : Z) : Z := (z + 2 ^ 63) mod 2 ^ 64 - 2 ^ 63.

Definition in_int64 (z : Z) : bool := (int64_min <=? z) && (z <=? int64_max).
Definition in_int32 (z : Z) : bool := (- 2 ^ 31 <=? z) && (z <=? 2 ^ 31 - 1).

Lemma wrap64_id z : int64_min <= z <= int64_max -> wrap64 z = z.
Proof.
  unfold wrap64, int64_min, int64_max; intros H.
  rewrite Z.mod_small; lia.
Qed.

Lemma wrap64_range z : int64_min <= wrap64 z <= int64_max.
Proof.
  unfold wrap64, int64_min, int64_max.
  pose proof (Z.mod_pos_bound (z + 2 ^ 63) (2 ^ 64)); lia.
Qed.

Lemma in_int64_spec z : in_int64 z = true <-> int64_min <= z <= int64_max.
Proof. unfold in_int64. rewrite andb_true_iff, !Z.leb_le. done. Qed.

(** ** Durations, in nanoseconds as in [time.Duration] *)

Definition Nanosecond : Z := 1.
Definition Millisecond : Z := 1000000.
Definition Second : Z := 1000000000.
Definition Minute : Z := 60 * Second.

(** ** Tactics *)

(** Splits conjunctions, pairs, existentials and [bool] conjunctions in the
    hypotheses, and does the injections. *)
Ltac des :=
  repeat match goal with
  | H : _ /\ _ |- _ => destruct H
  | H : ex _ |- _ => destruct H
  | H : _ && _ = true |- _ => apply andb_true_iff in H
  | H : (_, _) = (_, _) |- _ => injection H as ?; subst
  | H : Some _ = Some _ |- _ => injection H as ?; subst
  end.

(** Case analysis on the innermost scrutinee of the goal, keeping the
    equation. *)
Ltac case_goal :=
  match goal with
  | |- context [match ?x with _ => _ end] =>
      lazymatch x with
      | context [match _ with _ => _ end] => fail
      | _ => destruct x eqn:?
      end
  end.
Ltac case_hyp H :=
  match type of H with
  | context [match ?x with _ => _ end] =>
      lazymatch x with
      | context [match _ with _ => _ end] => fail
      | _ => destruct x eqn:?
      end
  end.

(** ** Lists *)

Lemma Forall_filter_keep {A} (P Q : A -> Prop) `{forall x, Decision (Q x)} (l : list A) :
  Forall P l -> Forall P (filter Q l).
Proof.
  rewrite !Forall_forall. intros Hl x Hx. apply Hl.
  by apply list_elem_of_filter in Hx as [_ ?].
Qed.

Lemma filter_none {A} (P : A -> Prop) `{forall x, Decision (P x)} (l : list A) :
  Forall (fun x => ~ P x) l -> filter P l = [].
Proof. induction 1; [done|]. by rewrite filter_cons_False. Qed.

Lemma insert_at_length {A} (l1 l2 : list A) i x y :
  i = length l1 -> <[i := x]> (l1 ++ y :: l2) = l1 ++ x :: l2.
Proof. intros ->. by rewrite insert_app_r_alt, Nat.sub_diag by done. Qed.

Lemma omap_Some {A} (l : list A) : omap (fun p => p) (Some <$> l) = l.
Proof. induction l as [|x l IH]; simpl; [done|]. by f_equal. Qed.

(** ** Strings *)

Lemma bool_decide_eqb (x y : string) : bool_decide (x = y) = (x =? y)%string.
Proof. case_bool_decide as H; symmetry; [by apply String.eqb_eq | by apply String.eqb_neq]. Qed.
