(* ===== verification/Go.v ===== *)
(** * Goroutines as programs of atomic actions

    A Go function that touches shared state is a [prog S A]: a finite tree of
    atomic actions on a state [S] that returns a value of [A], panics, or runs
    out of the fuel given to its loop.  One action is what the code does
    atomically: a critical section of a mutex, one SQL statement, one channel
    operation or [select], one update of a metric, one read of the clock.  An
    action either happens ([Go]) or parks the goroutine, for ever or until a
    timer fires ([Park]).

    The same program is executed in two ways.  [run] is the sequential
    execution of one goroutine, with a function [env] for what the rest of the
    program does while it is parked.  [sys_step] interleaves any number of
    goroutines, starting new ones and letting time pass at any moment.
    [safe P Q p w] is the rely/guarantee judgement that links the two: run from
    [w] among goroutines that respect the rely of the protocol [P], every action
    of [p] keeps the invariant of [P] and respects its guarantee, and [Q] holds
    of what [p] returns. *)

From S2P Require Import Prelude.

Class Clocked (S : Type) := {
  clock : S -> Z;
  set_clock : Z -> S -> S;
  clock_set_clock t s : clock (set_clock t s) = t;
}.

Inductive action_result (S X : Type) : Type :=
| Go (x : X) (s : S)
| Park (deadline : option Z).
Arguments Go {S X} x s.
Arguments Park {S X} deadline.

Inductive prog (S A : Type) : Type :=
| Ret (a : A)
| Throw (msg : string)
| OutOfFuel
| Act {X : Type} (act : S -> action_result S X) (k : X -> prog S A)
| Spawn (child : prog S unit) (k : prog S A).
Arguments Ret {S A} a.
Arguments Throw {S A} msg.
Arguments OutOfFuel {S A}.
Arguments Act {S A X} act k.
Arguments Spawn {S A} child k.

(** Induction along one goroutine, leaving the ones it starts alone. *)
Definition prog_ind' {S A} (P : prog S A -> Prop)
    (ret : forall a, P (Ret a)) (throw : forall m, P (Throw m)) (fuel : P OutOfFuel)
    (act : forall X act k, (forall x, P (k x)) -> P (@Act S A X act k))
    (spawn : forall c k, P k -> P (Spawn c k)) : forall p, P p :=
  fix go p := match p with
              | Ret a => ret a
              | Throw m => throw m
              | OutOfFuel => fuel
              | Act a k => act _ a k (fun x => go (k x))
              | Spawn c k => spawn c k (go k)
              end.

(** How a function body ends; [catch] is what [defer] and [recover] see. *)
Inductive exit_ (A : Type) : Type :=
| Returned (a : A)
| Panicked (msg : string).
Arguments Returned {A} a.
Arguments Panicked {A} msg.

Fixpoint catch {S A B} (p : prog S A) (h : exit_ A -> prog S B) : prog S B :=
  match p with
  | Ret a => h (Returned a)
  | Throw m => h (Panicked m)
  | OutOfFuel => OutOfFuel
  | Act act k => Act act (fun x => catch (k x) h)
  | Spawn c k => Spawn c (catch k h)
  end.

#[global] Instance prog_ret {S} : MRet (prog S) := fun A a => Ret a.

#[global] Instance prog_bind {S} : MBind (prog S) := fun A B f =>
  fix bind (p : prog S A) : prog S B :=
    match p with
    | Ret a => f a
    | Throw m => Throw m
    | OutOfFuel => OutOfFuel
    | Act act k => Act act (fun x => bind (k x))
    | Spawn c k => Spawn c (bind k)
    end.

(** [defer d] around a body: [d] runs on return and on panic, then the body's
    own ending goes on. *)
Definition defer_ {S A} (d : prog S unit) (body : prog S A) : prog S A :=
  catch body (fun e =>
    d ;;
    match e with
    | Returned a => Ret a
    | Panicked m => Throw m
    end).

Definition act_ {S X} (f : S -> X * S) : prog S X :=
  Act (fun s => let '(x, s') := f s in Go x s') Ret.
Definition gets {S X} (f : S -> X) : prog S X := act_ (fun s => (f s, s)).
Definition modify {S} (f : S -> S) : prog S unit := act_ (fun s => (tt, f s)).

(** [go p()] *)
Definition go {S} (p : prog S unit) : prog S unit := Spawn p (Ret tt).

Section timed.
Context {S : Type} `{Clocked S}.

(** [time.Now()] *)
Definition now : prog S Z := gets clock.

(** Parks until the clock reaches [t]. *)
Definition wait_until (t : Z) : prog S unit :=
  Act (fun s => if clock s <? t then Park (Some t) else Go tt s) Ret.

(** [time.Sleep(d)] *)
Definition sleep (d : Z) : prog S unit := t0 ← now; wait_until (t0 + d).

(** When a ticker fires next, a tick that was due at [tick] being received at
    [t]: its channel keeps one tick, the others that fell due are dropped. *)
Definition ticker_next (tick interval t : Z) : Z :=
  tick + interval * ((t - tick) / interval + 1).

(** [for range ticker.C { body }] *)
Fixpoint ticker_loop (n : nat) (tick interval : Z) (body : prog S unit) : prog S unit :=
  match n with
  | O => OutOfFuel
  | Datatypes.S n =>
      wait_until tick;;
      t ← now;
      body;;
      ticker_loop n (ticker_next tick interval t) interval body
  end.

(** The goroutine of a ticker loop; [time.NewTicker] panics on an interval that
    is not positive. *)
Definition every (n : nat) (interval : Z) (body : prog S unit) : prog S unit :=
  if interval <=? 0 then Throw "non-positive interval for NewTicker"
  else t ← now; ticker_loop n (t + interval) interval body.
End timed.

(** ** Sequential execution *)

Inductive outcome (S A : Type) : Type :=
| Done (a : A) (s : S)
| Crash (msg : string) (s : S)
| Blocked (s : S)
| Spinning (s : S).
Arguments Done {S A} a s.
Arguments Crash {S A} msg s.
Arguments Blocked {S A} s.
Arguments Spinning {S A} s.

Definition final_state {S A} (o : outcome S A) : S :=
  match o with Done _ s | Crash _ s | Blocked s | Spinning s => s end.

Section run.
Context {S : Type} `{Clocked S}.
(** What the other goroutines do while this one is parked. *)
Variable env : S -> S.

(** The state in which a parked goroutine is tried again: a timer it waits
    for has fired. *)
Definition wake (d : option Z) (s : S) : S :=
  match d with
  | Some t => set_clock (Z.max (clock s) t) s
  | None => s
  end.

Fixpoint run {A} (p : prog S A) (s : S) : outcome S A :=
  match p with
  | Ret a => Done a s
  | Throw m => Crash m s
  | OutOfFuel => Spinning s
  | Act act k =>
      match act s with
      | Go x s' => run (k x) s'
      | Park d =>
          let s1 := env (wake d s) in
          match act s1 with
          | Go x s' => run (k x) s'
          | Park _ => Blocked s1
          end
      end
  | Spawn _ k => run k s
  end.

(** The goroutines this one starts along that execution. *)
Fixpoint spawned {A} (p : prog S A) (s : S) : list (prog S unit) :=
  match p with
  | Ret _ | Throw _ | OutOfFuel => []
  | Act act k =>
      match act s with
      | Go x s' => spawned (k x) s'
      | Park d =>
          match act (env (wake d s)) with
          | Go x s' => spawned (k x) s'
          | Park _ => []
          end
      end
  | Spawn c k => c :: spawned k s
  end.

Lemma run_bind {A B} (p : prog S A) (f : A -> prog S B) s :
  run (p ≫= f) s =
    match run p s with
    | Done a s' => run (f a) s'
    | Crash m s' => Crash m s'
    | Blocked s' => Blocked s'
    | Spinning s' => Spinning s'
    end.
Proof.
  revert s. induction p as [| | |X act k IH|c k IH] using prog_ind'; intros s; cbn; try done.
  destruct (act s); [apply IH|].
  cbn. destruct (act (env _)); [apply IH | done].
Qed.

Lemma run_catch {A B} (p : prog S A) (h : exit_ A -> prog S B) s :
  run (catch p h) s =
    match run p s with
    | Done a s' => run (h (Returned a)) s'
    | Crash m s' => run (h (Panicked m)) s'
    | Blocked s' => Blocked s'
    | Spinning s' => Spinning s'
    end.
Proof.
  revert s. induction p as [| | |X act k IH|c k IH] using prog_ind'; intros s; cbn; try done.
  destruct (act s); [apply IH|].
  cbn. destruct (act (env _)); [apply IH | done].
Qed.

Lemma spawned_bind {A B} (p : prog S A) (f : A -> prog S B) s :
  spawned (p ≫= f) s =
    spawned p s ++ match run p s with Done a s' => spawned (f a) s' | _ => [] end.
Proof.
  revert s. induction p as [| | |X act k IH|c k IH] using prog_ind'; intros s; cbn; try done.
  - destruct (act s); [apply IH|].
    cbn. destruct (act (env _)); [apply IH | done].
  - f_equal. apply IH.
Qed.

Lemma run_defer {A} (d : prog S unit) (body : prog S A) s :
  run (defer_ d body) s =
    match run body s with
    | Done a s1 =>
        match run d s1 with
        | Done _ s2 => Done a s2
        | Crash m s2 => Crash m s2
        | Blocked s2 => Blocked s2
        | Spinning s2 => Spinning s2
        end
    | Crash m s1 =>
        match run d s1 with
        | Done _ s2 => Crash m s2
        | Crash m' s2 => Crash m' s2
        | Blocked s2 => Blocked s2
        | Spinning s2 => Spinning s2
        end
    | Blocked s1 => Blocked s1
    | Spinning s1 => Spinning s1
    end.
Proof.
  unfold defer_. rewrite run_catch.
  destruct (run body s); try done; rewrite run_bind; by destruct (run d _).
Qed.

(** How a program ends, and the goroutines it has started by then. *)
Definition executes {A} (p : prog S A) (s : S) (o : outcome S A) (l : list (prog S unit)) : Prop :=
  run p s = o /\ spawned p s = l.

Lemma executes_ret {A} (a : A) s : executes (Ret a) s (Done a s) [].
Proof. done. Qed.

Lemma executes_act_ {X} (f : S -> X * S) s : executes (act_ f) s (Done (f s).1 (f s).2) [].
Proof. split; cbn; by destruct (f s). Qed.

Lemma executes_go c s : executes (go c) s (Done tt s) [c].
Proof. done. Qed.

(** An action that is the whole program. *)
Lemma executes_act {A} (act : S -> action_result S A) s o :
  run (Act act Ret) s = o -> executes (Act act Ret) s o [].
Proof. intros <-. split; [done|]. cbn. by repeat case_match. Qed.

Lemma executes_bind {A B} (p : prog S A) (f : A -> prog S B) s a s1 o l l' :
  executes p s (Done a s1) l -> executes (f a) s1 o l' ->
  executes (p ≫= f) s o (l ++ l').
Proof. intros [Hr Hl] [<- <-]. split; [by rewrite run_bind, Hr|by rewrite spawned_bind, Hr, Hl]. Qed.

Lemma run_act_ {X} (f : S -> X * S) s : run (act_ f) s = Done (f s).1 (f s).2.
Proof. cbn. destruct (f s); done. Qed.
Lemma run_gets {X} (f : S -> X) s : run (gets f) s = Done (f s) s.
Proof. done. Qed.
Lemma run_now s : run now s = Done (clock s) s.
Proof. done. Qed.
Lemma run_modify (f : S -> S) s : run (modify f) s = Done tt (f s).
Proof. done. Qed.
End run.

Create Rewrite HintDb go_run.
#[export] Hint Rewrite @run_bind @run_catch @run_act_ @run_gets @run_now @run_modify : go_run.

(** The environment of a goroutine that runs while nothing else does. *)
Definition alone {S} (s : S) : S := s.

(** ** Interleaving *)

(** [act_step p s p' s']: the goroutine [p] does its next action. *)
Inductive act_step {S A} : prog S A -> S -> prog S A -> S -> Prop :=
| act_step_go X (act : S -> action_result S X) k s x s' :
    act s = Go x s' -> act_step (Act act k) s (k x) s'.

Section interleaving.
Context {S : Type} `{Clocked S}.
(** One action of one of the goroutines, the start of a new one, or the
    passing of time. *)
Inductive sys_step : list (prog S unit) * S -> list (prog S unit) * S -> Prop :=
| sys_act ts s i p p' s' :
    ts !! i = Some p -> act_step p s p' s' ->
    sys_step (ts, s) (<[i := p']> ts, s')
| sys_spawn ts s i c k :
    ts !! i = Some (Spawn c k) ->
    sys_step (ts, s) (<[i := k]> ts ++ [c], s)
| sys_time ts s t : clock s <= t -> sys_step (ts, s) (ts, set_clock t s).

Definition sys_steps := rtc sys_step.

(** A sequential run of one goroutine is one of the interleavings. *)
Lemma run_sys_steps ts s i (p : prog S unit) :
  ts !! i = Some p ->
  exists p', sys_steps (ts, s)
    (<[i := p']> ts ++ spawned alone p s, final_state (run alone p s)).
Proof.
  assert (forall ts s p, ts !! i = Some p ->
    exists p', sys_steps (ts, s) (<[i := p']> ts ++ [], s)) as Hrefl.
  { intros ts0 s0 p0 Hi. exists p0. by rewrite list_insert_id, app_nil_r. }
  revert ts s. induction p as [b| | |X act k IH|c k IH] using prog_ind'; simpl; intros ts s Hi;
    try by eapply Hrefl.
  - assert (forall s0 x s1, act s0 = Go x s1 -> exists p', sys_steps (ts, s0)
      (<[i := p']> ts ++ spawned alone (k x) s1, final_state (run alone (k x) s1))) as Hgo.
    { intros s0 x s1 Hact.
      destruct (IH x (<[i := k x]> ts) s1) as [p' Hp'].
      { apply list_lookup_insert_eq. by eapply lookup_lt_Some. }
      exists p'. rewrite list_insert_insert_eq in Hp'. eapply rtc_l; [|exact Hp'].
      eapply sys_act; [exact Hi|]. by apply act_step_go. }
    destruct (act s) as [x s1|d] eqn:Hact; [by eapply Hgo|].
    assert (sys_steps (ts, s) (ts, wake d s)) as Htime.
    { destruct d as [t|]; [|done]. apply rtc_once, sys_time. lia. }
    change (alone (wake d s)) with (wake d s).
    destruct (act (wake d s)) as [x s1|d'] eqn:Hact'.
    + destruct (Hgo _ _ _ Hact') as [p' Hp']. exists p'. by etrans.
    + destruct (Hrefl ts (wake d s) _ Hi) as [p' Hp']. exists p'. by etrans.
  - pose proof (lookup_lt_Some _ _ _ Hi) as Hlt.
    destruct (IH (<[i := k]> ts ++ [c]) s) as [p' Hp'].
    { rewrite lookup_app_l by (by rewrite length_insert). by apply list_lookup_insert_eq. }
    exists p'. eapply rtc_l; [by apply (sys_spawn _ _ _ _ _ Hi)|].
    rewrite insert_app_l in Hp' by (by rewrite length_insert).
    rewrite list_insert_insert_eq, <- app_assoc in Hp'. exact Hp'.
Qed.

(** The same for the first part of a goroutine. *)
Lemma bind_sys_steps ts s i {A} (p : prog S A) (f : A -> prog S unit) a s' l :
  ts !! i = Some (p ≫= f) -> executes alone p s (Done a s') l ->
  sys_steps (ts, s) (<[i := f a]> ts ++ l, s').
Proof.
  revert ts s l. induction p as [b| | |X act k IH|c k IH] using prog_ind';
    intros ts s l Hi [Hrun Hl]; simpl in *; try done.
  - injection Hrun as -> ->. subst l. by rewrite list_insert_id, app_nil_r.
  - assert (forall s0 x s1, act s0 = Go x s1 -> executes alone (k x) s1 (Done a s') l ->
      sys_steps (ts, s0) (<[i := f a]> ts ++ l, s')) as Hgo.
    { intros s0 x s1 Hact Hex. eapply rtc_l.
      { eapply sys_act; [exact Hi|]. by apply act_step_go. }
      rewrite <- (list_insert_insert_eq ts i (f a) (k x ≫= f)). apply (IH x); [|done].
      apply list_lookup_insert_eq. by eapply lookup_lt_Some. }
    destruct (act s) as [x s1|d] eqn:Hact; [by eapply Hgo|].
    destruct (act (alone (wake d s))) as [x s1|d'] eqn:Hact'; [|done].
    assert (sys_steps (ts, s) (ts, wake d s)) as Htime.
    { destruct d as [t|]; [|done]. apply rtc_once, sys_time. lia. }
    etrans; [exact Htime|]. by eapply Hgo.
  - pose proof (lookup_lt_Some _ _ _ Hi) as Hlt. subst l.
    eapply rtc_l; [by apply (sys_spawn _ _ _ _ _ Hi)|].
    replace (<[i := f a]> ts ++ c :: spawned alone k s)
      with (<[i := f a]> (<[i := k ≫= f]> ts ++ [c]) ++ spawned alone k s).
    + apply IH; [|done].
      rewrite lookup_app_l by (by rewrite length_insert). by apply list_lookup_insert_eq.
    + rewrite insert_app_l by (by rewrite length_insert).
      by rewrite list_insert_insert_eq, <- app_assoc.
Qed.
End interleaving.

(** ** The rely/guarantee judgement *)

(** An invariant, what a goroutine knows of the steps of the others, and what
    it promises of its own. *)
Record protocol (S : Type) `{Clocked S} : Type := Protocol {
  Inv : S -> Prop;
  Rely : S -> S -> Prop;
  Guar : S -> S -> Prop;
  rely_preorder : PreOrder Rely;
  guar_rely s s' : Guar s s' -> Rely s s';
  inv_time s t : Inv s -> clock s <= t -> Inv (set_clock t s);
  rely_time s t : clock s <= t -> Rely s (set_clock t s);
}.
Arguments Protocol {S _} Inv Rely Guar.
Arguments Inv {S _}.
Arguments Rely {S _}.
Arguments Guar {S _}.
#[export] Existing Instance rely_preorder.

Section safe.
Context {S : Type} `{Clocked S}.

(** [w0] is a state the goroutine has seen: the present one is related to it
    by the rely.  [Q] holds of the returned value and the last state seen. *)
Fixpoint safe (P : protocol S) {A} (Q : S -> A -> Prop) (p : prog S A) (w0 : S) : Prop :=
  match p with
  | Ret a => Q w0 a
  | Throw _ | OutOfFuel => True
  | Act act k =>
      forall s x s', Rely P w0 s -> Inv P s -> act s = Go x s' ->
        Guar P s s' /\ Inv P s' /\ safe P Q (k x) s'
  | Spawn c k => safe P (fun _ _ => True) c w0 /\ safe P Q k w0
  end.

(** [P'] may be used where [P] was proved. *)
Definition refines (P P' : protocol S) : Prop :=
  (forall s, Inv P' s -> Inv P s) /\
  (forall s s', Rely P' s s' -> Rely P s s') /\
  (forall s s', Inv P' s -> Inv P s' -> Guar P s s' -> Inv P' s' /\ Guar P' s s').

Section one.
Variable P : protocol S.

Lemma safe_ret {A} (Q : S -> A -> Prop) a w0 : Q w0 a -> safe P Q (Ret a) w0.
Proof. done. Qed.

Lemma safe_weaken {A} (Q Q' : S -> A -> Prop) p w0 :
  (forall w a, Rely P w0 w -> Q w a -> Q' w a) -> safe P Q p w0 -> safe P Q' p w0.
Proof.
  revert w0. induction p as [| | |X act k IH|c k IH] using prog_ind'; simpl; intros w0 HQ; auto.
  - apply HQ. done.
  - intros Hp s x s' HR Hs Hact. destruct (Hp s x s' HR Hs Hact) as (HG & Hs' & Hk).
    split_and!; [done..|]. apply IH; [|done].
    intros w a Hw. apply HQ. by etrans; [|etrans]; [|apply guar_rely|].
  - intros [Hc Hk]. split; [done|]. by apply IH.
Qed.

Lemma safe_catch {A B} (Q : S -> A -> Prop) (Q' : S -> B -> Prop) p h w0 :
  safe P Q p w0 ->
  (forall w a, Rely P w0 w -> Q w a -> safe P Q' (h (Returned a)) w) ->
  (forall w m, Rely P w0 w -> safe P Q' (h (Panicked m)) w) ->
  safe P Q' (catch p h) w0.
Proof.
  revert w0. induction p as [| | |X act k IH|c k IH] using prog_ind'; simpl;
    intros w0 Hp Hr Ht; auto.
  - by apply Hr.
  - by apply Ht.
  - intros s x s' HR Hs Hact. destruct (Hp s x s' HR Hs Hact) as (HG & Hs' & Hk).
    assert (Rely P w0 s') as HR' by (by etrans; [|apply guar_rely]).
    split_and!; [done..|]. apply IH; [done|..].
    + intros w a Hw. apply Hr. by etrans.
    + intros w m Hw. apply Ht. by etrans.
  - destruct Hp as [Hc Hk]. split; [done|]. by apply IH.
Qed.

Lemma safe_bind {A B} (Q : S -> A -> Prop) (Q' : S -> B -> Prop) (p : prog S A) f w0 :
  safe P Q p w0 ->
  (forall w a, Rely P w0 w -> Q w a -> safe P Q' (f a) w) ->
  safe P Q' (p ≫= f) w0.
Proof.
  revert w0. induction p as [| | |X act k IH|c k IH] using prog_ind'; simpl;
    intros w0 Hp Hf; auto.
  - by apply Hf.
  - intros s x s' HR Hs Hact. destruct (Hp s x s' HR Hs Hact) as (HG & Hs' & Hk).
    split_and!; [done..|]. apply IH; [done|].
    intros w a Hw. apply Hf. by etrans; [|etrans]; [|apply guar_rely|].
  - destruct Hp as [Hc Hk]. split; [done|]. by apply IH.
Qed.

Lemma safe_defer {A} (Q : S -> A -> Prop) (d : prog S unit) body w0 :
  (forall w w' a, Rely P w w' -> Q w a -> Q w' a) ->
  (forall w, Rely P w0 w -> safe P (fun _ _ => True) d w) ->
  safe P Q body w0 -> safe P Q (defer_ d body) w0.
Proof.
  intros Hmono Hd Hb. eapply safe_catch; [exact Hb|..].
  - intros w a Hw Ha. eapply safe_bind; [by apply Hd|]. simpl. eauto.
  - intros w m Hw. eapply safe_bind; [by apply Hd|]. done.
Qed.

Lemma safe_act_ {X} (Q : S -> X -> Prop) (f : S -> X * S) w0 :
  (forall s, Rely P w0 s -> Inv P s ->
     Guar P s (f s).2 /\ Inv P (f s).2 /\ Q (f s).2 (f s).1) ->
  safe P Q (act_ f) w0.
Proof.
  intros Hf s x s' HR Hs Heq. specialize (Hf s HR Hs).
  destruct (f s) as [x0 s0]; simplify_eq/=. done.
Qed.

Lemma safe_go (Q : S -> unit -> Prop) c w0 :
  safe P (fun _ _ => True) c w0 -> Q w0 tt -> safe P Q (go c) w0.
Proof. done. Qed.

(** Sequential execution of a safe program, the environment being allowed. *)
Lemma safe_run env {A} (Q : S -> A -> Prop) (p : prog S A) w0 s :
  safe P Q p w0 -> Rely P w0 s -> Inv P s ->
  (forall s, Inv P s -> Rely P s (env s) /\ Inv P (env s)) ->
  Rely P s (final_state (run env p s)) /\ Inv P (final_state (run env p s)).
Proof.
  intros Hp HR Hs Henv. revert w0 s Hp HR Hs.
  induction p as [| | |X act k IH|c k IH] using prog_ind'; intros w0 s Hp HR Hs;
    simpl in *; try done; [|destruct Hp as [_ Hk]; by apply (IH w0)].
  destruct (act s) as [x s'|d] eqn:Hact.
  - destruct (Hp s x s' HR Hs Hact) as (HG & Hs' & Hk).
    destruct (IH x s' s') as (? & ?); [done..|].
    split; [|done]. by etrans; [apply guar_rely|].
  - assert (Inv P (wake d s) /\ Rely P s (wake d s)) as [Hw HRw].
    { destruct d; simpl; [|done]. split; [apply inv_time | apply rely_time]; auto; lia. }
    destruct (Henv _ Hw) as [HRe He].
    assert (Rely P s (env (wake d s))) as HR' by (by etrans).
    destruct (act (env (wake d s))) as [x s'|] eqn:Hact'; [|done].
    destruct (Hp _ x s' ltac:(by etrans) He Hact') as (HG & Hs' & Hk).
    destruct (IH x s' s') as (? & ?); [done..|].
    split; [|done]. by etrans; [|etrans; [apply guar_rely|]].
Qed.

(** A goroutine somewhere in the middle of a safe program. *)
Definition goroutine_safe (s : S) (p : prog S unit) : Prop :=
  exists w0, Rely P w0 s /\ safe P (fun _ _ => True) p w0.

Lemma goroutine_safe_mono s s' p :
  Rely P s s' -> goroutine_safe s p -> goroutine_safe s' p.
Proof. intros HR (w0 & Hw & Hp). exists w0. split; [by etrans|done]. Qed.

Lemma safe_sys_step c c' :
  sys_step c c' ->
  Forall (goroutine_safe c.2) c.1 -> Inv P c.2 ->
  Forall (goroutine_safe c'.2) c'.1 /\ Inv P c'.2 /\ Rely P c.2 c'.2.
Proof.
  intros Hstep Hts Hs.
  assert (forall s', Rely P c.2 s' -> Forall (goroutine_safe s') c.1) as Hmono.
  { intros s' HR. eapply Forall_impl; [exact Hts|]. eauto using goroutine_safe_mono. }
  destruct Hstep as [ts s i p p' s1 Hi Hact|ts s i p k Hi|ts s t Ht]; simpl in *.
  - destruct Hact as [X act k s x s' Hact].
    destruct (proj1 (Forall_lookup _ _) Hts _ _ Hi) as (w0 & HR & Hp).
    destruct (Hp _ _ _ HR Hs Hact) as (HG%guar_rely & Hs' & Hk).
    split_and!; [|done..]. apply Forall_insert; [by apply Hmono|].
    exists s'. by split.
  - destruct (proj1 (Forall_lookup _ _) Hts _ _ Hi) as (w0 & HR & Hc & Hk).
    split_and!; [|done..]. apply Forall_app. split; [|by repeat econstructor].
    apply Forall_insert; [done|]. by exists w0.
  - assert (Rely P s (set_clock t s)) by (by apply rely_time).
    split_and!; [by apply Hmono|by apply inv_time|done].
Qed.

(** Every interleaving of safe goroutines keeps the invariant and moves the
    state along the rely. *)
Lemma safe_sys c c' :
  sys_steps c c' ->
  Forall (goroutine_safe c.2) c.1 -> Inv P c.2 ->
  Forall (goroutine_safe c'.2) c'.1 /\ Inv P c'.2 /\ Rely P c.2 c'.2.
Proof.
  intros Hsteps Hts Hs. revert Hts Hs.
  induction Hsteps as [|c c1 c2 Hstep _ IH]; intros Hts Hs; [done|].
  destruct (safe_sys_step _ _ Hstep Hts Hs) as (Hts' & Hs' & HR).
  destruct (IH Hts' Hs') as (? & ? & ?). split_and!; [done..|]. by etrans.
Qed.
End one.

Lemma safe_refines P P' {A} (Q : S -> A -> Prop) (p : prog S A) w0 :
  refines P P' -> safe P Q p w0 -> safe P' Q p w0.
Proof.
  intros (HI & HR & HG). revert Q w0.
  induction p as [| | |A X act k IH|A c IHc k IH]; simpl; intros Q w0 Hp; auto.
  2: { destruct Hp as [Hc Hk]. split; auto. }
  intros s x s' Hw Hs Hact. destruct (Hp s x s') as (HG' & Hs' & Hk); [auto..|].
  destruct (HG s s' Hs Hs' HG') as [? ?].
  split_and!; [done..|]. by apply IH.
Qed.
End safe.

#[global] Arguments safe : simpl never.
