(* ===== verification/Tokens.v ===== *)
(** * Goroutines that own tokens

    A second judgement on programs, for what goroutines owe one another: that a
    wait group counts the goroutines that are to call [Done], that one of them
    only may close a channel.  Tokens are ghost state: a goroutine owns a
    multiset of them, an action may trade those of its own goroutine, and a
    goroutine that is started is given some of its parent's.  The invariant
    relates the state to the tokens of all goroutines together.

    [own P G Q E p w n]: run from [w] with the tokens [n] among goroutines that
    follow [P], every action of [p] keeps the invariant whatever the others
    own, what [p] returns and the tokens it then has satisfy [Q], what it
    panics with and the tokens satisfy [E], and a goroutine it starts ends with
    no panic but those of [G]. *)

From stdpp Require Import gmultiset.
From S2P Require Import Prelude Go.

Record token_protocol (S T : Type) `{Clocked S} `{Countable T} : Type := TokenProtocol {
  TInv : gmultiset T -> S -> Prop;
  TRely : S -> S -> Prop;
  trely_preorder : PreOrder TRely;
  tinv_time n s t : TInv n s -> clock s <= t -> TInv n (set_clock t s);
  trely_time s t : clock s <= t -> TRely s (set_clock t s);
}.
Arguments TokenProtocol {S T _ _ _}.
Arguments TInv {S T _ _ _}.
Arguments TRely {S T _ _ _}.
#[export] Existing Instance trely_preorder.

Section own.
Context {S T : Type} `{Clocked S} `{Countable T}.
Variable P : token_protocol S T.
(** The panics that may end a goroutine. *)
Variable G : string -> Prop.
Implicit Types (n f : gmultiset T) (s w : S).

Notation post A := (S -> A -> gmultiset T -> Prop).

Fixpoint own {A} (Q : post A) (E : post string) (p : prog S A) w0 n : Prop :=
  match p with
  | Ret a => Q w0 a n
  | Throw m => E w0 m n
  | OutOfFuel => True
  | Act act k =>
      forall f s x s', TRely P w0 s -> TInv P (f ⊎ n) s -> act s = Go x s' ->
        exists n', TRely P s s' /\ TInv P (f ⊎ n') s' /\ own Q E (k x) s' n'
  | Spawn c k =>
      exists n1 n2, n = n1 ⊎ n2 /\
        own (fun _ _ _ => True) (fun _ m _ => G m) c w0 n1 /\ own Q E k w0 n2
  end.

Lemma own_weaken {A} (Q Q' : post A) (E E' : post string) p w0 n :
  own Q E p w0 n ->
  (forall w a n, TRely P w0 w -> Q w a n -> Q' w a n) ->
  (forall w m n, TRely P w0 w -> E w m n -> E' w m n) ->
  own Q' E' p w0 n.
Proof.
  revert w0 n. induction p as [| | |X act k IH|c k IH] using prog_ind'; simpl;
    intros w0 n Hp HQ HE; auto.
  - by apply HQ.
  - by apply HE.
  - intros f s x s' HR Hs Hact. destruct (Hp f s x s' HR Hs Hact) as (n' & HG & Hs' & Hk).
    assert (TRely P w0 s') by (by etrans). exists n'. split_and!; [done..|]. apply IH; [done|..].
    + intros w a m Hw. apply HQ. by etrans.
    + intros w a m Hw. apply HE. by etrans.
  - destruct Hp as (n1 & n2 & -> & Hc & Hk). exists n1, n2. split_and!; auto.
Qed.

Lemma own_catch {A B} (Q : post A) (E : post string) (Q' : post B) (E' : post string) p h w0 n :
  own Q E p w0 n ->
  (forall w a n, TRely P w0 w -> Q w a n -> own Q' E' (h (Returned a)) w n) ->
  (forall w m n, TRely P w0 w -> E w m n -> own Q' E' (h (Panicked m)) w n) ->
  own Q' E' (catch p h) w0 n.
Proof.
  revert w0 n. induction p as [| | |X act k IH|c k IH] using prog_ind'; simpl;
    intros w0 n Hp HQ HE; auto.
  - by apply HQ.
  - by apply HE.
  - intros f s x s' HR Hs Hact. destruct (Hp f s x s' HR Hs Hact) as (n' & HG & Hs' & Hk).
    assert (TRely P w0 s') by (by etrans). exists n'. split_and!; [done..|]. apply IH; [done|..].
    + intros w a m Hw. apply HQ. by etrans.
    + intros w a m Hw. apply HE. by etrans.
  - destruct Hp as (n1 & n2 & -> & Hc & Hk). exists n1, n2. split_and!; auto.
Qed.

Lemma own_bind {A B} (Q : post A) (Q' : post B) (E : post string) (p : prog S A) g w0 n :
  own Q E p w0 n ->
  (forall w a n, TRely P w0 w -> Q w a n -> own Q' E (g a) w n) ->
  own Q' E (p ≫= g) w0 n.
Proof.
  revert w0 n. induction p as [| | |X act k IH|c k IH] using prog_ind'; simpl;
    intros w0 n Hp HQ; auto.
  - by apply HQ.
  - intros f s x s' HR Hs Hact. destruct (Hp f s x s' HR Hs Hact) as (n' & HG & Hs' & Hk).
    exists n'. split_and!; [done..|]. apply IH; [done|].
    intros w a m Hw. apply HQ. by etrans; [|etrans].
  - destruct Hp as (n1 & n2 & -> & Hc & Hk). exists n1, n2. split_and!; auto.
Qed.

(** [defer d]: [d] runs with the tokens the body has left on either ending. *)
Lemma own_defer {A} (Q Q' : post A) (E E' : post string) (d : prog S unit) body w0 n :
  own Q E body w0 n ->
  (forall w a n, TRely P w0 w -> Q w a n -> own (fun w _ n => Q' w a n) E' d w n) ->
  (forall w m n, TRely P w0 w -> E w m n -> own (fun w _ n => E' w m n) E' d w n) ->
  own Q' E' (defer_ d body) w0 n.
Proof.
  intros Hb HQ HE. eapply own_catch; [exact Hb|..].
  - intros w a m Hw Ha. eapply own_bind; [by apply HQ|]. by intros.
  - intros w a m Hw Ha. eapply own_bind; [by apply HE|]. by intros.
Qed.

Lemma own_go (Q : post unit) E c w0 n n1 n2 :
  n = n1 ⊎ n2 -> own (fun _ _ _ => True) (fun _ m _ => G m) c w0 n1 -> Q w0 tt n2 ->
  own Q E (go c) w0 n.
Proof. intros -> Hc HQ. by exists n1, n2. Qed.

Lemma own_act_ {X} (Q : post X) E (g : S -> X * S) w0 n :
  (forall f s, TRely P w0 s -> TInv P (f ⊎ n) s ->
     exists n', TRely P s (g s).2 /\ TInv P (f ⊎ n') (g s).2 /\ Q (g s).2 (g s).1 n') ->
  own Q E (act_ g) w0 n.
Proof.
  intros Hg f s x s' HR Hs Heq. destruct (Hg f s HR Hs) as (n' & HG & Hs' & HQ).
  destruct (g s) as [x0 s0]; simplify_eq/=. eauto.
Qed.

(** ** All goroutines together *)

Definition total (ns : list (gmultiset T)) : gmultiset T := foldr (⊎) ∅ ns.

Lemma total_app ns ns' : total (ns ++ ns') = total ns ⊎ total ns'.
Proof. induction ns as [|n ns IH]; simpl; [multiset_solver|]. rewrite IH. multiset_solver. Qed.

Lemma total_insert ns i n : ns !! i = Some n ->
  exists f, total ns = f ⊎ n /\ forall n', total (<[i := n']> ns) = f ⊎ n'.
Proof.
  revert i. induction ns as [|n0 ns IH]; intros [|i] Hi; simplify_eq/=.
  - exists (total ns). split; [|intros n']; multiset_solver.
  - destruct (IH i Hi) as (f & -> & Hf). exists (n0 ⊎ f). split; [multiset_solver|].
    intros n'. rewrite Hf. multiset_solver.
Qed.

(** A goroutine somewhere in the middle of its program. *)
Definition goroutine_owns s (p : prog S unit) n : Prop :=
  exists w0, TRely P w0 s /\ own (fun _ _ _ => True) (fun _ m _ => G m) p w0 n.

Definition all_own (c : list (prog S unit) * S) : Prop :=
  exists ns, Forall2 (goroutine_owns c.2) c.1 ns /\ TInv P (total ns) c.2.

Lemma goroutines_mono s s' ts ns : TRely P s s' ->
  Forall2 (goroutine_owns s) ts ns -> Forall2 (goroutine_owns s') ts ns.
Proof.
  intros HR Hts. eapply Forall2_impl; [exact Hts|]. intros p n (w0 & Hw & Hp). exists w0. split; [by etrans|done].
Qed.

Lemma own_sys_step c c' : sys_step c c' -> all_own c -> all_own c' /\ TRely P c.2 c'.2.
Proof.
  intros Hstep (ns & Hts & Hs).
  destruct Hstep as [ts s i p p' s1 Hi Hact|ts s i p k Hi|ts s t Ht]; simpl in *.
  - destruct Hact as [X act k s x s' Hact].
    destruct (Forall2_lookup_l _ _ _ _ _ Hts Hi) as (n & Hn & w0 & HR & Hp).
    destruct (total_insert ns i n Hn) as (f & Htotal & Hins). rewrite Htotal in Hs.
    destruct (Hp f s x s' HR Hs Hact) as (n' & HG & Hs' & Hk). split; [|done].
    exists (<[i := n']> ns). simpl. rewrite Hins. split; [|done].
    apply Forall2_insert; [by eapply goroutines_mono|]. by exists s'.
  - destruct (Forall2_lookup_l _ _ _ _ _ Hts Hi) as (n & Hn & w0 & HR & n1 & n2 & -> & Hc & Hk).
    destruct (total_insert ns i _ Hn) as (f & Htotal & Hins). split; [|done].
    exists (<[i := n2]> ns ++ [n1]). simpl. split.
    + apply Forall2_app; [apply Forall2_insert; [done|by exists w0]|].
      apply Forall2_cons; split; [by exists w0|done].
    + rewrite total_app, Hins. simpl. rewrite Htotal in Hs.
      replace (f ⊎ n2 ⊎ (n1 ⊎ ∅)) with (f ⊎ (n1 ⊎ n2)) by multiset_solver. done.
  - assert (TRely P s (set_clock t s)) by (by apply trely_time). split; [|done].
    exists ns. split; [by eapply goroutines_mono|by apply tinv_time].
Qed.

Lemma own_sys c c' : sys_steps c c' -> all_own c -> all_own c'.
Proof.
  intros Hsteps. induction Hsteps as [|c c1 c2 Hstep _ IH]; intros Hc; [done|].
  apply IH. by eapply own_sys_step.
Qed.

(** A goroutine that has panicked did so with a message of [G]. *)
Lemma all_own_panics ts s i m : all_own (ts, s) -> ts !! i = Some (Throw m) -> G m.
Proof.
  intros (ns & Hts & _) Hi.
  by destruct (Forall2_lookup_l _ _ _ _ _ Hts Hi) as (n & _ & w0 & _ & Hp).
Qed.

End own.

(** ** Programs that touch no token

    [calm V p]: whatever [p] does leaves [V] of the state as it is, it does not
    panic and it starts nothing. *)
Section calm.
Context {S V : Type}.
Variable view : S -> V.

Fixpoint calm {A} (p : prog S A) : Prop :=
  match p with
  | Ret _ | OutOfFuel => True
  | Throw _ | Spawn _ _ => False
  | Act act k => forall s x s', act s = Go x s' -> view s' = view s /\ calm (k x)
  end.

Lemma calm_bind {A B} (p : prog S A) (f : A -> prog S B) :
  calm p -> (forall a, calm (f a)) -> calm (p ≫= f).
Proof.
  induction p as [| | |X act k IH|c k IH] using prog_ind'; simpl; intros Hp Hf; try done.
  intros s x s' Hact. destruct (Hp s x s' Hact) as [Hv Hk]. split; [done|]. by apply IH.
Qed.

Lemma calm_act_ {X} (g : S -> X * S) : (forall s, view (g s).2 = view s) -> calm (act_ g).
Proof. intros Hg s x s' Heq. specialize (Hg s). destruct (g s). by simplify_eq/=. Qed.

Lemma calm_gets {X} (g : S -> X) : calm (gets g).
Proof. by apply calm_act_. Qed.

Lemma calm_defer {A} (d : prog S unit) (body : prog S A) : calm d -> calm body -> calm (defer_ d body).
Proof.
  intros Hd. induction body as [| | |X act k IH|c k IH] using prog_ind'; simpl; intros Hb; try done.
  - by apply calm_bind.
  - intros s x s' Hact. destruct (Hb s x s' Hact) as [Hv Hk]. split; [done|]. by apply IH.
Qed.
End calm.

#[global] Arguments own : simpl never.
#[global] Arguments calm : simpl never.
