(* ===== verification/Models.v ===== *)
(** * The shared data model

    [pkg/models/job.go]: the constants and the [Job] struct, with the parts
    of Go they are made of: error values, JSON values and the behaviour of the
    libraries the program links ([Platform]). *)

From Stdlib Require Import SpecFloat.
From S2P Require Import Prelude Go.

(** ** Errors

    [fmt.Errorf] with and without [%w], the errors of package [context], and
    errors that come from a driver, the network or a processor. *)

Inductive error : Type :=
| Errorf (msg : string)
| Wrap (msg : string) (err : error)
| External (msg : string)
| Canceled
| DeadlineExceeded.

Fixpoint error_string (e : error) : string :=
  match e with
  | Errorf msg | External msg => msg
  | Wrap msg err => msg +:+ ": " +:+ error_string err
  | Canceled => "context canceled"
  | DeadlineExceeded => "context deadline exceeded"
  end.

(** ** Statuses, priorities, queue types *)

Definition StatusPending : string := "pending".
Definition StatusProcessing : string := "processing".
Definition StatusCompleted : string := "completed".
Definition StatusFailed : string := "failed".

Definition PriorityNormal : Z := 1.
Definition PriorityUrgent : Z := 2.
Definition PrioritySuperUrgent : Z := 3.

Definition QueueTypeFIFO : string := "fifo".
Definition QueueTypePriority : string := "priority".
Definition QueueTypeRateLimited : string := "rate-limited".

(** ** JSON values as [encoding/json] decodes them into an [interface{}] *)

Inductive json : Type :=
| JNull
| JBool (b : bool)
| JNum (f : spec_float)
| JStr (s : string)
| JArr (l : list json)
| JObj (m : gmap string json).

(** A [map[string]interface{}]; [None] is the nil map. *)
Notation payload := (option (gmap string json)).

(** ** Jobs

    Times are instants in nanoseconds.  A [*models.Job] is never written after
    it has been handed to a queue, so a job is a value; a nil pointer is
    [None]. *)

Record Job : Type := mkJob {
  ID : string;
  JobType : string;
  Payload : payload;
  QueueType : string;
  Priority : Z;
  Status : string;
  RetryCount : Z;
  MaxRetries : Z;
  CreatedAt : Z;
  UpdatedAt : Z;
  ProcessedAt : option Z;
  ErrorMessage : string;
}.

(** [job.Status = s] and [job.RetryCount = n]. *)
Definition set_Status (s : string) (j : Job) : Job :=
  mkJob (ID j) (JobType j) (Payload j) (QueueType j) (Priority j) s
    (RetryCount j) (MaxRetries j) (CreatedAt j) (UpdatedAt j) (ProcessedAt j)
    (ErrorMessage j).
Definition set_RetryCount (n : Z) (j : Job) : Job :=
  mkJob (ID j) (JobType j) (Payload j) (QueueType j) (Priority j) (Status j)
    n (MaxRetries j) (CreatedAt j) (UpdatedAt j) (ProcessedAt j)
    (ErrorMessage j).

(** ** What the program takes from the libraries it links *)

Class Platform := {
  (** [json.Marshal] of a payload; [None] is an error. *)
  json_marshal : payload -> option string;
  (** [json.Unmarshal] into a nil map; [None] is an error. *)
  json_unmarshal : string -> option payload;
  (** The text a Postgres [JSONB] column gives back for the text stored. *)
  jsonb_store : string -> option string;
  (** The instant a Postgres [TIMESTAMPTZ] column keeps. *)
  timestamptz_store : Z -> Z;
  (** [ORDER BY] of the SQL engine: which order it gives to rows that compare
      equal is not specified. *)
  order_by {A : Type} (le : A -> A -> bool) : list A -> list A;
}.

Definition total_preorder {A} (le : A -> A -> bool) : Prop :=
  (forall x y, le x y = true \/ le y x = true) /\
  (forall x y z, le x y = true -> le y z = true -> le x z = true).

Class PlatformLaws `{Platform} : Prop := {
  (** A map that came out of the JSON decoder survives encoding. *)
  json_roundtrip m s0 : json_unmarshal s0 = Some m ->
    exists s, json_marshal m = Some s /\ json_unmarshal s = Some m;
  (** [json.Marshal] writes at least one byte. *)
  json_marshal_nonempty m s : json_marshal m = Some s -> s <> "";
  jsonb_same_value s s' m : json_unmarshal s = Some m ->
    jsonb_store s = Some s' -> s' <> "" /\ json_unmarshal s' = Some m;
  timestamptz_mono t t' : t <= t' -> timestamptz_store t <= timestamptz_store t';
  (** The decoder reads the empty object. *)
  json_unmarshal_empty_object : json_unmarshal "{}" = Some (Some ∅);
  order_by_perm {A} (le : A -> A -> bool) l : order_by le l ≡ₚ l;
  order_by_sorted {A} (le : A -> A -> bool) l : total_preorder le ->
    StronglySorted (fun x y => le x y = true) (order_by le l);
}.
