(* ===== verification/ReferencePlatform.v ===== *)
(** * A platform

    A concrete [Platform] that satisfies [PlatformLaws], for running the model
    on concrete inputs.  Its JSON texts are not real ones: the maps of strings
    are written in binary, which is all the payloads of an email need. *)

From Stdlib Require Import Ascii.
From S2P Require Import Prelude Go Models.

(** ** Texts for maps of strings *)

Fixpoint bits_of (p : positive) : string :=
  match p with
  | xH => ""
  | xO p => String "0"%char (bits_of p)
  | xI p => String "1"%char (bits_of p)
  end.

Fixpoint of_bits (s : string) : option positive :=
  match s with
  | "" => Some xH
  | String "0"%char s => xO <$> of_bits s
  | String "1"%char s => xI <$> of_bits s
  | _ => None
  end%string.

Lemma of_bits_of p : of_bits (bits_of p) = Some p.
Proof. induction p as [p IH|p IH|]; simpl; by rewrite ?IH. Qed.

Definition string_of_json (j : json) : option string :=
  match j with JStr s => Some s | _ => None end.

Definition ref_marshal (p : payload) : option string :=
  match p with
  | None => Some "null"
  | Some m =>
      Some (String "{"%char (bits_of (encode (omap string_of_json m : gmap string string))))
  end.

Definition read_strings (rest : string) : option payload :=
  match of_bits rest with
  | Some p =>
      match (decode p : option (gmap string string)) with
      | Some m => Some (Some ((JStr <$> m) : gmap string json))
      | None => None
      end
  | None => None
  end.

Definition ref_unmarshal (s : string) : option payload :=
  if (s =? "null")%string then Some None
  else if (s =? "{}")%string then Some (Some ∅)
  else match s with
       | String c rest => if Ascii.eqb c "{" then read_strings rest else None
       | "" => None
       end.

Definition holds {A} (le : A -> A -> bool) (x y : A) : Prop := le x y = true.
#[export] Instance holds_dec {A} (le : A -> A -> bool) : RelDecision (holds le).
Proof. intros x y. unfold holds. apply _. Defined.

Definition ref_order {A} (le : A -> A -> bool) (l : list A) : list A :=
  merge_sort (holds le) l.

#[export] Instance ref_platform : Platform := {|
  json_marshal := ref_marshal;
  json_unmarshal := ref_unmarshal;
  jsonb_store := Some;
  timestamptz_store t := t / 1000 * 1000;
  order_by _ := ref_order;
|}.

Lemma ref_unmarshal_strings s m : ref_unmarshal s = Some (Some m) ->
  exists m0 : gmap string string, m = JStr <$> m0.
Proof.
  unfold ref_unmarshal, read_strings. intros Hs. repeat case_match; simplify_eq; [|by eauto].
  exists ∅. by rewrite fmap_empty.
Qed.

Lemma ref_roundtrip (m0 : gmap string string) :
  exists s, ref_marshal (Some (JStr <$> m0)) = Some s /\
    ref_unmarshal s = Some (Some (JStr <$> m0)).
Proof.
  eexists. split; [done|].
  replace (omap string_of_json (JStr <$> m0)) with m0.
  - unfold ref_unmarshal. rewrite (proj2 (String.eqb_neq _ "{}")).
    + simpl. unfold read_strings. by rewrite of_bits_of, decode_encode.
    + intros [= Hb]. pose proof (of_bits_of (encode m0)) as Ho. by rewrite Hb in Ho.
  - apply map_eq. intros i. rewrite lookup_omap, lookup_fmap. by destruct (m0 !! i).
Qed.

Lemma ref_order_total {A} (le : A -> A -> bool) : total_preorder le ->
  forall l, StronglySorted (fun x y => le x y = true) (ref_order le l).
Proof.
  intros [Htot Htrans] l.
  assert (Transitive (holds le)) by (intros x y z; apply Htrans).
  assert (Total (holds le)) by (intros x y; apply Htot).
  by apply (StronglySorted_merge_sort (holds le)).
Qed.

#[export] Instance ref_platform_laws : PlatformLaws.
Proof.
  split; simpl.
  - intros [m|] s0 Hs.
    + destruct (ref_unmarshal_strings _ _ Hs) as [m0 ->]. apply ref_roundtrip.
    + by exists "null".
  - by intros [m|] s [= <-].
  - intros s s' m Hs [= <-]. split; [|done]. by intros ->.
  - intros t t' Ht. pose proof (Z.div_le_mono t t' 1000). lia.
  - done.
  - intros A le l. apply merge_sort_Permutation.
  - intros A le l Hle. by apply ref_order_total.
Qed.
