(* ===== verification/World.v ===== *)
(** * The state of the running process

    The structs of the program, and [World], the state its goroutines share:
    the jobs table, the metrics, the three queues, the worker pool and the
    network, with the clock and what is not the program's to choose: which
    statements fail, which ready case a [select] takes, which UUIDs are drawn,
    which requests arrive, when the signal to stop comes ([w_signal]) and what
    the mail server answers.  [w_srvclosed] is set once the HTTP server has
    been told to shut down. *)

From S2P Require Import Prelude Go Models.

(** ** Channels *)

Record chan (A : Type) : Type := mkChan {
  ch_buf : list A;
  ch_cap : nat;
  ch_closed : bool;
}.
Arguments mkChan {A}.
Arguments ch_buf {A}.
Arguments ch_cap {A}.
Arguments ch_closed {A}.

Definition make_chan {A} (cap : nat) : chan A := mkChan [] cap false.
Definition chan_has_room {A} (c : chan A) : bool := (length (ch_buf c) <? ch_cap c)%nat.
Definition chan_push {A} (x : A) (c : chan A) : chan A :=
  mkChan (ch_buf c ++ [x]) (ch_cap c) (ch_closed c).
Definition chan_rest {A} (c : chan A) : chan A :=
  mkChan (tail (ch_buf c)) (ch_cap c) (ch_closed c).
Definition chan_close {A} (c : chan A) : chan A :=
  mkChan (ch_buf c) (ch_cap c) true.

(** ** The jobs table *)

Record Row : Type := mkRow {
  id : string;
  job_type : string;
  payload_text : string;
  queue_type : string;
  priority : Z;
  status : string;
  retry_count : Z;
  max_retries : Z;
  created_at : Z;
  updated_at : Z;
  processed_at : option Z;
  error_message : option string;
}.

Notation table := (gmap string Row).

(** ** Metrics: counters by label, gauges, histogram observations *)

Record Metrics : Type := mkMetrics {
  JobsSubmitted : gmap string Z;
  JobsCompleted : gmap string Z;
  JobsFailed : gmap string Z;
  JobsRetried : gmap string Z;
  JobsPreempted : gmap string Z;
  JobsRecovered : Z;
  WorkersBusy : Z;
  RecoveryDuration : Z;
  JobWaitDuration : list (string * Z);
  JobProcessingDuration : list (string * Z);
}.

(** ** The queues *)

Record MemoryQueue : Type := mkMemoryQueue {
  mq_jobs : chan Job;
  mq_wg : Z;
  mq_closed : bool;
  mq_done : bool;
}.

Record SortedQueue : Type := mkSortedQueue {
  sq_jobs : list Job;
  sq_signal : chan unit;
  sq_closed : bool;
  sq_done : bool;
}.

Record RateLimitedQueue : Type := mkRateLimitedQueue {
  rq_memory : MemoryQueue;
  rq_rate : Z;
  rq_burst : Z;
  rq_tokens : Z;
  rq_stopRefill : bool;
  (** the next tick of the refill ticker *)
  rq_ticker : Z;
}.

(** ** The worker pool *)

Record Context_ : Type := mkContext {
  ctx_deadline : Z;
  ctx_err : option error;
}.

Record workerState : Type := mkWorkerState {
  currentJob : option Job;
  (** the context the cancel function belongs to *)
  cancel : option nat;
}.

Record Pool : Type := mkPool {
  p_count : Z;
  p_timeout : Z;
  p_cooldown : Z;
  p_wg : Z;
  p_done : bool;
  (** [None] is the nil pointer the slice holds before [Start] *)
  p_workers : list (option workerState);
  p_preemptQueue : list (option Job);
  p_preemptSignal : list (option (chan unit));
  p_workerDied : chan Z;
  p_aliveWorkers : Z;
}.

(** ** What comes from outside

    A request, with the body of [POST /jobs] once decoded ([None] is a body
    that is not JSON of the expected shape). *)

Record CreateRequest : Type := mkCreateRequest {
  req_JobType : string;
  req_Payload : payload;
  req_Queue : string;
  req_Priority : Z;
}.

Record Request : Type := mkRequest {
  rq_method : string;
  rq_path : string;
  rq_body : option CreateRequest;
}.

(** What the mail server says to a command, after a delay or never. *)
Inductive answer : Type :=
| Accepts (delay : Z) (extensions : list string)
| Refuses (delay : Z) (msg : string)
| Silence.

Inductive smtp_command : Type :=
| Dial (addr : string)
| Greeting
| Ehlo
| Helo
| StartTLS (serverName : string)
| Auth (user pass : string)
| AbortAuth
| Mail (from : string)
| Rcpt (to : string)
| Data
| Message (msg : string)
| Quit
| Hangup.

(** The network: the answers to come, what each conversation has sent with the
    answer it drew, and the channels on which the senders report, one for each conversation. *)
Record Net : Type := mkNet {
  net_answers : list answer;
  net_wire : list (nat * (smtp_command * answer));
  net_results : list (chan (option error));
}.

(** ** The world *)

Record World : Type := mkWorld {
  w_clock : Z;
  w_faults : list bool;
  w_coins : list nat;
  w_uuids : list string;
  w_requests : list Request;
  w_signal : option Z;
  w_srvclosed : bool;
  w_db : table;
  w_met : Metrics;
  w_fifo : MemoryQueue;
  w_prio : SortedQueue;
  w_rl : RateLimitedQueue;
  w_pool : Pool;
  w_ctxs : list Context_;
  w_net : Net;
}.

Definition with_clock x w :=
  mkWorld x (w_faults w) (w_coins w) (w_uuids w) (w_requests w) (w_signal w) (w_srvclosed w) (w_db w)
    (w_met w) (w_fifo w) (w_prio w) (w_rl w) (w_pool w) (w_ctxs w) (w_net w).
Definition with_faults x w :=
  mkWorld (w_clock w) x (w_coins w) (w_uuids w) (w_requests w) (w_signal w) (w_srvclosed w) (w_db w)
    (w_met w) (w_fifo w) (w_prio w) (w_rl w) (w_pool w) (w_ctxs w) (w_net w).
Definition with_coins x w :=
  mkWorld (w_clock w) (w_faults w) x (w_uuids w) (w_requests w) (w_signal w) (w_srvclosed w) (w_db w)
    (w_met w) (w_fifo w) (w_prio w) (w_rl w) (w_pool w) (w_ctxs w) (w_net w).
Definition with_uuids x w :=
  mkWorld (w_clock w) (w_faults w) (w_coins w) x (w_requests w) (w_signal w) (w_srvclosed w) (w_db w)
    (w_met w) (w_fifo w) (w_prio w) (w_rl w) (w_pool w) (w_ctxs w) (w_net w).
Definition with_requests x w :=
  mkWorld (w_clock w) (w_faults w) (w_coins w) (w_uuids w) x (w_signal w) (w_srvclosed w) (w_db w)
    (w_met w) (w_fifo w) (w_prio w) (w_rl w) (w_pool w) (w_ctxs w) (w_net w).
Definition with_signal x w :=
  mkWorld (w_clock w) (w_faults w) (w_coins w) (w_uuids w) (w_requests w) x (w_srvclosed w) (w_db w)
    (w_met w) (w_fifo w) (w_prio w) (w_rl w) (w_pool w) (w_ctxs w) (w_net w).
Definition with_srvclosed x w :=
  mkWorld (w_clock w) (w_faults w) (w_coins w) (w_uuids w) (w_requests w) (w_signal w) x
    (w_db w) (w_met w) (w_fifo w) (w_prio w) (w_rl w) (w_pool w) (w_ctxs w) (w_net w).
Definition with_db x w :=
  mkWorld (w_clock w) (w_faults w) (w_coins w) (w_uuids w) (w_requests w) (w_signal w) (w_srvclosed w) x
    (w_met w) (w_fifo w) (w_prio w) (w_rl w) (w_pool w) (w_ctxs w) (w_net w).
Definition with_met x w :=
  mkWorld (w_clock w) (w_faults w) (w_coins w) (w_uuids w) (w_requests w) (w_signal w) (w_srvclosed w) (w_db w)
    x (w_fifo w) (w_prio w) (w_rl w) (w_pool w) (w_ctxs w) (w_net w).
Definition with_fifo x w :=
  mkWorld (w_clock w) (w_faults w) (w_coins w) (w_uuids w) (w_requests w) (w_signal w) (w_srvclosed w) (w_db w)
    (w_met w) x (w_prio w) (w_rl w) (w_pool w) (w_ctxs w) (w_net w).
Definition with_prio x w :=
  mkWorld (w_clock w) (w_faults w) (w_coins w) (w_uuids w) (w_requests w) (w_signal w) (w_srvclosed w) (w_db w)
    (w_met w) (w_fifo w) x (w_rl w) (w_pool w) (w_ctxs w) (w_net w).
Definition with_rl x w :=
  mkWorld (w_clock w) (w_faults w) (w_coins w) (w_uuids w) (w_requests w) (w_signal w) (w_srvclosed w) (w_db w)
    (w_met w) (w_fifo w) (w_prio w) x (w_pool w) (w_ctxs w) (w_net w).
Definition with_pool x w :=
  mkWorld (w_clock w) (w_faults w) (w_coins w) (w_uuids w) (w_requests w) (w_signal w) (w_srvclosed w) (w_db w)
    (w_met w) (w_fifo w) (w_prio w) (w_rl w) x (w_ctxs w) (w_net w).
Definition with_ctxs x w :=
  mkWorld (w_clock w) (w_faults w) (w_coins w) (w_uuids w) (w_requests w) (w_signal w) (w_srvclosed w) (w_db w)
    (w_met w) (w_fifo w) (w_prio w) (w_rl w) (w_pool w) x (w_net w).
Definition with_net x w :=
  mkWorld (w_clock w) (w_faults w) (w_coins w) (w_uuids w) (w_requests w) (w_signal w) (w_srvclosed w) (w_db w)
    (w_met w) (w_fifo w) (w_prio w) (w_rl w) (w_pool w) (w_ctxs w) x.

#[export] Instance world_clocked : Clocked World.
Proof. refine {| clock := w_clock; set_clock := with_clock |}. done. Defined.

(** A program of this process. *)
Notation M := (prog World).

(** ** Pointers to a [MemoryQueue]

    The program has two: the FIFO queue and the one embedded in the
    rate-limited queue. *)

Inductive mqref : Type := FIFORef | RateLimitedRef.

#[export] Instance mqref_eq_dec : EqDecision mqref.
Proof. solve_decision. Defined.

Definition rq_with_memory (q : MemoryQueue) (r : RateLimitedQueue) : RateLimitedQueue :=
  mkRateLimitedQueue q (rq_rate r) (rq_burst r) (rq_tokens r) (rq_stopRefill r) (rq_ticker r).

Definition get_mq (q : mqref) (w : World) : MemoryQueue :=
  match q with FIFORef => w_fifo w | RateLimitedRef => rq_memory (w_rl w) end.
Definition set_mq (q : mqref) (m : MemoryQueue) (w : World) : World :=
  match q with
  | FIFORef => with_fifo m w
  | RateLimitedRef => with_rl (rq_with_memory m (w_rl w)) w
  end.

(** ** [select]

    A case that is ready gives its result and its effect. *)

Notation alt X := (World -> option (X * World)).

(** The choice among [n] ready cases. *)
Definition flip (n : nat) (w : World) : nat * World :=
  if (n <=? 1)%nat then (0%nat, w)
  else match w_coins w with
       | [] => (0%nat, w)
       | c :: cs => ((c mod n)%nat, with_coins cs w)
       end.

(** The timer channel made by [time.After]. *)
Definition after {X} (t : Z) (x : X) : alt X :=
  fun w => if t <=? w_clock w then Some (x, w) else None.

Definition select_action {X} (alts : list (alt X)) (w : World) : option (X * World) :=
  let n := length (omap (fun a => a w) alts) in
  let '(i, w1) := flip n w in
  omap (fun a => a w1) alts !! i.

(** [select] with no default; [timer] is when its timer case fires. *)
Definition select_ {X} (alts : list (alt X)) (timer : option Z) : M X :=
  Act (fun w => match select_action alts w with
                | Some (x, w') => Go x w'
                | None => Park timer
                end) Ret.

(** [select] with a default case. *)
Definition select_default {X} (alts : list (alt X)) (d : X) : M X :=
  act_ (fun w => match select_action alts w with
                 | Some (x, w') => (x, w')
                 | None => (d, w)
                 end).

(** ** The next database statement: does the driver report an error? *)

Definition next_fault (w : World) : bool * World :=
  match w_faults w with
  | [] => (false, w)
  | b :: bs => (b, with_faults bs w)
  end.
