(* ===== verification/Metrics.v ===== *)
(** * Metrics ([internal/metrics/metrics.go])

    The Prometheus counters, gauges and histograms of the process, and the
    updates the program makes to them.  An update is one atomic action. *)

From S2P Require Import Prelude Go Models World.

Definition empty_metrics : Metrics := mkMetrics ∅ ∅ ∅ ∅ ∅ 0 0 0 [] [].

(** [vec.WithLabelValues(label).Add(n)]: the series is created at 0. *)
Definition vec_add (label : string) (n : Z) (vec : gmap string Z) : gmap string Z :=
  <[label := default 0 (vec !! label) + n]> vec.

Definition submitted_inc (q : string) (m : Metrics) : Metrics :=
  mkMetrics (vec_add q 1 (JobsSubmitted m)) (JobsCompleted m) (JobsFailed m) (JobsRetried m)
    (JobsPreempted m) (JobsRecovered m) (WorkersBusy m) (RecoveryDuration m)
    (JobWaitDuration m) (JobProcessingDuration m).
Definition completed_inc (q : string) (m : Metrics) : Metrics :=
  mkMetrics (JobsSubmitted m) (vec_add q 1 (JobsCompleted m)) (JobsFailed m) (JobsRetried m)
    (JobsPreempted m) (JobsRecovered m) (WorkersBusy m) (RecoveryDuration m)
    (JobWaitDuration m) (JobProcessingDuration m).
Definition failed_add (q : string) (n : Z) (m : Metrics) : Metrics :=
  mkMetrics (JobsSubmitted m) (JobsCompleted m) (vec_add q n (JobsFailed m)) (JobsRetried m)
    (JobsPreempted m) (JobsRecovered m) (WorkersBusy m) (RecoveryDuration m)
    (JobWaitDuration m) (JobProcessingDuration m).
Definition retried_add (q : string) (n : Z) (m : Metrics) : Metrics :=
  mkMetrics (JobsSubmitted m) (JobsCompleted m) (JobsFailed m) (vec_add q n (JobsRetried m))
    (JobsPreempted m) (JobsRecovered m) (WorkersBusy m) (RecoveryDuration m)
    (JobWaitDuration m) (JobProcessingDuration m).
Definition preempted_add (q : string) (n : Z) (m : Metrics) : Metrics :=
  mkMetrics (JobsSubmitted m) (JobsCompleted m) (JobsFailed m) (JobsRetried m)
    (vec_add q n (JobsPreempted m)) (JobsRecovered m) (WorkersBusy m) (RecoveryDuration m)
    (JobWaitDuration m) (JobProcessingDuration m).
Definition recovered_inc (m : Metrics) : Metrics :=
  mkMetrics (JobsSubmitted m) (JobsCompleted m) (JobsFailed m) (JobsRetried m)
    (JobsPreempted m) (JobsRecovered m + 1) (WorkersBusy m) (RecoveryDuration m)
    (JobWaitDuration m) (JobProcessingDuration m).
Definition busy_add (n : Z) (m : Metrics) : Metrics :=
  mkMetrics (JobsSubmitted m) (JobsCompleted m) (JobsFailed m) (JobsRetried m)
    (JobsPreempted m) (JobsRecovered m) (WorkersBusy m + n) (RecoveryDuration m)
    (JobWaitDuration m) (JobProcessingDuration m).
Definition recovery_set (n : Z) (m : Metrics) : Metrics :=
  mkMetrics (JobsSubmitted m) (JobsCompleted m) (JobsFailed m) (JobsRetried m)
    (JobsPreempted m) (JobsRecovered m) (WorkersBusy m) n
    (JobWaitDuration m) (JobProcessingDuration m).
Definition wait_observe (q : string) (n : Z) (m : Metrics) : Metrics :=
  mkMetrics (JobsSubmitted m) (JobsCompleted m) (JobsFailed m) (JobsRetried m)
    (JobsPreempted m) (JobsRecovered m) (WorkersBusy m) (RecoveryDuration m)
    ((q, n) :: JobWaitDuration m) (JobProcessingDuration m).
Definition processing_observe (q : string) (n : Z) (m : Metrics) : Metrics :=
  mkMetrics (JobsSubmitted m) (JobsCompleted m) (JobsFailed m) (JobsRetried m)
    (JobsPreempted m) (JobsRecovered m) (WorkersBusy m) (RecoveryDuration m)
    (JobWaitDuration m) ((q, n) :: JobProcessingDuration m).

(** One update of a metric. *)
Definition metric (f : Metrics -> Metrics) : M unit :=
  modify (fun w => with_met (f (w_met w)) w).

Lemma run_metric env f w : run env (metric f) w = Done tt (with_met (f (w_met w)) w).
Proof. done. Qed.
