(* ===== verification/Sql.v ===== *)
(** * The SQL statements

    The statements of [sqlite.go] and [postgres.go] as functions on the jobs
    table.  The table maps the primary key to the row.  A statement is one
    atomic action; it may fail as a whole, with no effect, because the driver
    reports an error or because a constraint of the schema rejects it. *)

From S2P Require Import Prelude Go Models World.

Definition driver_error : error := External "driver error".

(** [CHECK(status IN ('pending','processing','completed','failed'))] *)
Definition valid_status (s : string) : bool :=
  bool_decide (s ∈ [StatusPending; StatusProcessing; StatusCompleted; StatusFailed]).

(** [status IN ('completed', 'failed')] *)
Definition terminal_status (s : string) : bool :=
  bool_decide (s ∈ [StatusCompleted; StatusFailed]).

(** ** Opening a database

    [sql.Open(driver, dsn)] is the driver's; [db.Ping()] may fail. *)
Class SqlDriver := { sql_open : string -> string -> option error }.

Definition db_ping : M (option error) :=
  act_ (fun w => let '(bad, w1) := next_fault w in
                 (if bad then Some driver_error else None, w1)).

(** [CREATE TABLE IF NOT EXISTS jobs ...]: the rows of an earlier process are
    kept; a table that is made is empty, as the model has it from the start. *)
Definition create_table (t : table) : option (table * Z) := Some (t, 0).

(** ** Statements *)

(** [db.Exec]: the number of affected rows, or an error. *)
Definition db_exec (stmt : table -> option (table * Z)) : M (Z + error) :=
  act_ (fun w =>
    let '(bad, w1) := next_fault w in
    if bad then (inr driver_error, w1)
    else match stmt (w_db w1) with
         | Some (t, n) => (inl n, with_db t w1)
         | None => (inr driver_error, w1)
         end).

(** [db.QueryRow] and its [Scan]. *)
Definition db_query {X} (q : table -> X) : M (X + error) :=
  act_ (fun w =>
    let '(bad, w1) := next_fault w in
    (if bad then inr driver_error else inl (q (w_db w1)), w1)).

(** [rows.Next()] until it is false, and [rows.Err()]: the driver may fail on
    the way to any row, and the rows before it have been delivered. *)
Fixpoint fetch {X} (l : list X) (w : World) : list X * option error * World :=
  let '(bad, w1) := next_fault w in
  if bad then ([], Some driver_error, w1)
  else match l with
       | [] => ([], None, w1)
       | x :: l => let '(xs, err, w2) := fetch l w1 in (x :: xs, err, w2)
       end.

(** [db.Query] and the loop over its rows: a [SELECT] reads one state of the
    table. *)
Definition db_rows {X} (q : table -> list X) : M (list X * option error + error) :=
  act_ (fun w =>
    let '(bad, w1) := next_fault w in
    if bad then (inr driver_error, w1)
    else let '(xs, err, w2) := fetch (q (w_db w1)) w1 in (inl (xs, err), w2)).

(** What one schema accepts as a row: the [CHECK] constraint and the range of
    its [INTEGER] columns. *)
Definition row_ok (int_ok : Z -> bool) (r : Row) : bool :=
  valid_status (status r) && int_ok (priority r) && int_ok (retry_count r) &&
  int_ok (max_retries r).

Section statements.
Variable int_ok : Z -> bool.

(** [INSERT INTO jobs ...]: the primary key must be new. *)
Definition insert_row (r : Row) (t : table) : option (table * Z) :=
  match t !! id r with
  | Some _ => None
  | None => if row_ok int_ok r then Some (<[id r := r]> t, 1) else None
  end.

(** [UPDATE jobs SET ... WHERE id = i AND cond]. *)
Definition update_row (i : string) (cond : Row -> bool) (set : Row -> Row)
    (t : table) : option (table * Z) :=
  match t !! i with
  | Some r =>
      if cond r then
        if row_ok int_ok (set r) then Some (<[i := set r]> t, 1) else None
      else Some (t, 0)
  | None => Some (t, 0)
  end.
End statements.

(** The [SET] clauses of the four updates. *)
Definition set_status_columns (s err : string) (t : Z) (r : Row) : Row :=
  mkRow (id r) (job_type r) (payload_text r) (queue_type r) (priority r) s
    (retry_count r) (max_retries r) (created_at r) t
    (if terminal_status s then Some t else processed_at r) (Some err).

Definition set_retry_columns (s : string) (n : Z) (err : string) (t : Z) (r : Row) : Row :=
  mkRow (id r) (job_type r) (payload_text r) (queue_type r) (priority r) s
    n (max_retries r) (created_at r) t
    (if terminal_status s then Some t else processed_at r) (Some err).

Definition set_pending_columns (t : Z) (r : Row) : Row :=
  mkRow (id r) (job_type r) (payload_text r) (queue_type r) (priority r) StatusPending
    (retry_count r) (max_retries r) (created_at r) t (processed_at r) (error_message r).

Definition set_reset_columns (count : Row -> Z) (extra t : Z) (r : Row) : Row :=
  mkRow (id r) (job_type r) (payload_text r) (queue_type r) (priority r) StatusPending
    (count r) (max_retries r + extra) (created_at r) t (processed_at r) (Some "").

(** The job read from a row, the payload column having been decoded. *)
Definition job_of_row (p : payload) (r : Row) : Job :=
  mkJob (id r) (job_type r) p (queue_type r) (priority r) (status r)
    (retry_count r) (max_retries r) (created_at r) (updated_at r)
    (processed_at r) (default "" (error_message r)).

(** ** Queries *)

Definition status_is (s : string) (r : Row) : bool := bool_decide (status r = s).
Definition queue_is (q : string) (r : Row) : bool := bool_decide (queue_type r = q).

(** [ORDER BY priority DESC, created_at ASC] *)
Definition by_priority (x y : Row) : bool :=
  (priority y <? priority x) ||
  ((priority x =? priority y) && (created_at x <=? created_at y)).
(** [ORDER BY created_at ASC] and [DESC] *)
Definition by_created (x y : Row) : bool := created_at x <=? created_at y.
Definition by_created_desc (x y : Row) : bool := created_at y <=? created_at x.

Definition rows (t : table) : list Row := (map_to_list t).*2.

(** [SELECT ... FROM jobs WHERE p ORDER BY le]. *)
Definition select_rows `{Platform} (p : Row -> bool) (le : Row -> Row -> bool)
    (t : table) : list Row :=
  order_by le (filter (fun r => p r = true) (rows t)).

(** [SELECT k, COUNT( * ) ... GROUP BY k], the groups in no specified order. *)
Definition group_count `{Platform} {K} `{EqDecision K} (k : Row -> K) (l : list Row) :
    list (K * Z) :=
  order_by (fun _ _ => true)
    ((fun x => (x, Z.of_nat (length (filter (fun r => k r = x) l)))) <$> remove_dups (k <$> l)).
