(* ===== verification/Storage.v ===== *)
(** * The storage interface ([internal/storage/interface.go])

    [Storage] is the Go interface: what the queues, the pool and the API call.
    [StorageSpec] is what an implementation promises them, stated on a map
    from ids to jobs; the clients' theorems are proved from it, and
    [Sqlite.v] and [Postgres.v] prove it of the two backends. *)

From S2P Require Import Prelude Go Models World Metrics Sql.

Class Storage := {
  SaveJob : Job -> M (option error);
  GetJob : string -> M (option Job * option error);
  UpdateJobStatus : string -> string -> string -> M (option error);
  ListPendingJobs : M (list Job * option error);
  ListRecentJobs : Z -> M (list Job * option error);
  GetProcessingJobs : M (list Job * option error);
  ListAllPendingJobs : M (list Job * option error);
  UpdateJobRetry : string -> string -> Z -> string -> M (option error);
  Requeue : string -> M (option error);
  ListPendingByQueue : string -> M (list Job * option error);
  ListProcessingByQueue : string -> M (list Job * option error);
  ResetForRetry : string -> Z -> M (option error);
  CountByQueueAndStatus : M (gmap string (gmap string Z) * option error);
}.

(** ** The abstract jobs map *)

(** [UpdateJobStatus] and [UpdateJobRetry] on a job, at the instant [t]. *)
Definition with_status (s err : string) (t : Z) (j : Job) : Job :=
  mkJob (ID j) (JobType j) (Payload j) (QueueType j) (Priority j) s
    (RetryCount j) (MaxRetries j) (CreatedAt j) t
    (if terminal_status s then Some t else ProcessedAt j) err.

Definition with_retry (s : string) (n : Z) (err : string) (t : Z) (j : Job) : Job :=
  set_RetryCount n (with_status s err t j).

(** [Requeue]: pending again, the retry count and the error kept. *)
Definition requeued (t : Z) (j : Job) : Job :=
  mkJob (ID j) (JobType j) (Payload j) (QueueType j) (Priority j) StatusPending
    (RetryCount j) (MaxRetries j) (CreatedAt j) t (ProcessedAt j) (ErrorMessage j).

(** [ResetForRetry], the retry count being [n] afterwards. *)
Definition reset_for_retry (n extra t : Z) (j : Job) : Job :=
  mkJob (ID j) (JobType j) (Payload j) (QueueType j) (Priority j) StatusPending
    n (MaxRetries j + extra) (CreatedAt j) t (ProcessedAt j) "".

(** What a job saved at first is read back as. *)
Definition as_saved (time : Z -> Z) (p : payload) (j : Job) : Job :=
  mkJob (ID j) (JobType j) p (QueueType j) (Priority j) (Status j)
    (RetryCount j) (MaxRetries j) (time (CreatedAt j)) (time (UpdatedAt j)) None "".

(** The counters an update of the status moves. *)
Definition status_counter (s q : string) (m : Metrics) : Metrics :=
  if (s =? StatusCompleted)%string then completed_inc q m
  else if (s =? StatusFailed)%string then failed_add q 1 m else m.

Definition retry_counter (s q : string) (m : Metrics) : Metrics :=
  if (s =? StatusPending)%string then retried_add q 1 m
  else if (s =? StatusFailed)%string then failed_add q 1 m else m.

(** [ORDER BY priority DESC, created_at ASC] on jobs. *)
Definition job_before (x y : Job) : bool :=
  (Priority y <? Priority x) ||
  ((Priority x =? Priority y) && (CreatedAt x <=? CreatedAt y)).

Definition unfinished (j : Job) : bool :=
  (Status j =? StatusPending)%string || (Status j =? StatusProcessing)%string.

(** ** Jobs are never lost

    The table only grows, and a row keeps its identity: what was submitted
    stays as it was submitted. *)

Definition row_le (r r' : Row) : Prop :=
  id r' = id r /\ job_type r' = job_type r /\ payload_text r' = payload_text r /\
  queue_type r' = queue_type r /\ priority r' = priority r /\
  created_at r' = created_at r /\ max_retries r <= max_retries r' /\
  (is_Some (processed_at r) -> is_Some (processed_at r')).

Definition table_le (t t' : table) : Prop :=
  forall i r, t !! i = Some r -> exists r', t' !! i = Some r' /\ row_le r r'.

Definition table_ok (t : table) : Prop :=
  forall i r, t !! i = Some r -> id r = i /\ valid_status (status r) = true.

Definition db_ok (w : World) : Prop := table_ok (w_db w).
Definition db_le (w w' : World) : Prop := table_le (w_db w) (w_db w').

#[export] Instance row_le_preorder : PreOrder row_le.
Proof.
  split; [by intros r; repeat split|].
  intros r1 r2 r3 H1 H2. destruct H1 as (?&?&?&?&?&?&?&?), H2 as (?&?&?&?&?&?&?&?).
  repeat split; try congruence; [lia|auto].
Qed.

#[export] Instance db_le_preorder : PreOrder db_le.
Proof.
  split.
  - intros w i r Hr. exists r. by split.
  - intros w1 w2 w3 H12 H23 i r Hr.
    destruct (H12 i r Hr) as (r2 & Hr2 & Hle). destruct (H23 i r2 Hr2) as (r3 & Hr3 & Hle').
    exists r3. split; [done|]. by etrans.
Qed.

(** What a storage operation does to the process: it moves the table and the
    metrics and nothing else. *)
Definition storage_step (w w' : World) : Prop :=
  db_le w w' /\
  w' = with_faults (w_faults w') (with_met (w_met w') (with_db (w_db w') w)).

Definition db_protocol : protocol World.
Proof.
  refine {| Inv := db_ok; Rely := db_le; Guar := storage_step |}.
  - by intros w w' [? _].
  - done.
  - intros w t _ i r Hr. by exists r.
Defined.

(** The table holds a row for the id: once saved, saved for ever. *)
Definition saved (i : string) (w : World) : Prop := is_Some (w_db w !! i).

Lemma saved_mono i w w' : db_le w w' -> saved i w -> saved i w'.
Proof. intros Hle [r Hr]. destruct (Hle _ _ Hr) as (r' & Hr' & _). by exists r'. Qed.

#[export] Hint Resolve saved_mono : go.

(** What a result of each kind says about the table. *)
Definition saved_post (j : Job) (w : World) (err : option error) : Prop :=
  err = None -> saved (ID j) w.
Definition got_post (i : string) (w : World) (r : option Job * option error) : Prop :=
  forall j, r.1 = Some j -> ID j = i /\ saved i w.
Definition listed_post (w : World) (r : list Job * option error) : Prop :=
  Forall (fun j => saved (ID j) w) r.1.
Definition any_post {A} (w : World) (a : A) : Prop := True.

(** ** What a backend promises *)

Class StorageSpec `{Storage} := {
  (** The jobs a table holds, when it is one the backend wrote. *)
  st_ok : table -> Prop;
  st_view : table -> gmap string Job;
  (** How the backend keeps instants, and the integers its columns take. *)
  st_time : Z -> Z;
  st_int : Z -> bool;
  (** The retry count after [ResetForRetry]. *)
  st_reset : Z -> Z;
  (** The payloads it can keep, and what they are read back as. *)
  st_payload_ok : payload -> Prop;
  st_payload : payload -> payload;
  st_view_id t i j : st_ok t -> st_view t !! i = Some j -> ID j = i;

  SaveJob_spec env w j :
    st_ok (w_db w) -> w_faults w = [] -> st_view (w_db w) !! ID j = None ->
    valid_status (Status j) = true -> st_payload_ok (Payload j) ->
    st_int (Priority j) = true -> st_int (RetryCount j) = true ->
    st_int (MaxRetries j) = true ->
    exists t', run env (SaveJob j) w = Done None (with_db t' w) /\ st_ok t' /\
      st_view t' = <[ID j := as_saved st_time (st_payload (Payload j)) j]> (st_view (w_db w));
  SaveJob_duplicate env w j j0 :
    st_ok (w_db w) -> w_faults w = [] -> st_view (w_db w) !! ID j = Some j0 ->
    exists e, run env (SaveJob j) w = Done (Some e) w;

  GetJob_spec env w i : st_ok (w_db w) -> w_faults w = [] ->
    run env (GetJob i) w = Done (st_view (w_db w) !! i, None) w;

  UpdateJobStatus_spec env w i s err j :
    st_ok (w_db w) -> w_faults w = [] -> valid_status s = true ->
    st_view (w_db w) !! i = Some j ->
    exists t', run env (UpdateJobStatus i s err) w =
        Done None (with_met (status_counter s (QueueType j) (w_met w)) (with_db t' w)) /\
      st_ok t' /\
      st_view t' = <[i := with_status s err (st_time (w_clock w)) j]> (st_view (w_db w));
  UpdateJobStatus_missing env w i s err :
    st_ok (w_db w) -> w_faults w = [] -> st_view (w_db w) !! i = None ->
    run env (UpdateJobStatus i s err) w =
      Done (Some (Errorf ("job " +:+ i +:+ " not found"))) w;

  UpdateJobRetry_spec env w i s n err j :
    st_ok (w_db w) -> w_faults w = [] -> valid_status s = true -> st_int n = true ->
    st_view (w_db w) !! i = Some j ->
    exists t', run env (UpdateJobRetry i s n err) w =
        Done None (with_met (retry_counter s (QueueType j) (w_met w)) (with_db t' w)) /\
      st_ok t' /\
      st_view t' = <[i := with_retry s n err (st_time (w_clock w)) j]> (st_view (w_db w));
  UpdateJobRetry_missing env w i s n err :
    st_ok (w_db w) -> w_faults w = [] -> st_view (w_db w) !! i = None ->
    run env (UpdateJobRetry i s n err) w =
      Done (Some (Errorf ("job " +:+ i +:+ " not found"))) w;

  Requeue_spec env w i :
    st_ok (w_db w) -> w_faults w = [] ->
    exists t', run env (Requeue i) w = Done None (with_db t' w) /\ st_ok t' /\
      st_view t' = alter (requeued (st_time (w_clock w))) i (st_view (w_db w));

  ResetForRetry_spec env w i extra j :
    st_ok (w_db w) -> w_faults w = [] -> st_view (w_db w) !! i = Some j ->
    Status j = StatusFailed -> st_int extra = true -> st_int (MaxRetries j + extra) = true ->
    exists t', run env (ResetForRetry i extra) w = Done None (with_db t' w) /\ st_ok t' /\
      st_view t' = <[i := reset_for_retry (st_reset (RetryCount j)) extra
                            (st_time (w_clock w)) j]> (st_view (w_db w));
  ResetForRetry_refused env w i extra :
    st_ok (w_db w) -> w_faults w = [] -> st_int extra = true ->
    (forall j, st_view (w_db w) !! i = Some j -> Status j <> StatusFailed) ->
    run env (ResetForRetry i extra) w =
      Done (Some (Errorf "job not found or not in failed state")) w;

  ListPendingJobs_spec env w :
    st_ok (w_db w) -> w_faults w = [] ->
    exists l, run env ListPendingJobs w = Done (l, None) w /\
      l ≡ₚ filter (fun j => unfinished j = true) (map_to_list (st_view (w_db w))).*2 /\
      StronglySorted (fun x y => job_before x y = true) l;

  (** No operation of the backend loses or rewrites a job, whatever statement
      fails and whatever else is running. *)
  storage_safe_save j w : safe db_protocol (saved_post j) (SaveJob j) w;
  storage_safe_get i w : safe db_protocol (got_post i) (GetJob i) w;
  storage_safe_status i s err w : safe db_protocol any_post (UpdateJobStatus i s err) w;
  storage_safe_retry i s n err w : safe db_protocol any_post (UpdateJobRetry i s n err) w;
  storage_safe_requeue i w : safe db_protocol any_post (Requeue i) w;
  storage_safe_reset i extra w : 0 <= extra ->
    safe db_protocol any_post (ResetForRetry i extra) w;
  storage_safe_pending w : safe db_protocol listed_post ListPendingJobs w;
  storage_safe_recent n w : safe db_protocol any_post (ListRecentJobs n) w;
  storage_safe_processing w : safe db_protocol any_post GetProcessingJobs w;
  storage_safe_all_pending w : safe db_protocol any_post ListAllPendingJobs w;
  storage_safe_pending_by q w : safe db_protocol any_post (ListPendingByQueue q) w;
  storage_safe_processing_by q w : safe db_protocol any_post (ListProcessingByQueue q) w;
  storage_safe_count w : safe db_protocol any_post CountByQueueAndStatus w;
}.

#[export] Hint Resolve storage_safe_save storage_safe_get storage_safe_status
  storage_safe_retry storage_safe_requeue storage_safe_reset storage_safe_pending
  storage_safe_recent storage_safe_processing storage_safe_all_pending
  storage_safe_pending_by storage_safe_processing_by storage_safe_count : go.

(** A job occurs once among the values of a jobs map. *)
Lemma NoDup_view_filter (P : Job -> Prop) `{!forall j, Decision (P j)} (m : gmap string Job) :
  (forall i j, m !! i = Some j -> ID j = i) ->
  NoDup (ID <$> filter P (map_to_list m).*2).
Proof.
  intros Hid. apply NoDup_fmap_2_strong.
  - intros x y. rewrite !list_elem_of_filter, !list_elem_of_fmap.
    intros (_ & [i x'] & -> & Hx%elem_of_map_to_list) (_ & [k y'] & -> & Hy%elem_of_map_to_list).
    simpl. rewrite (Hid _ _ Hx), (Hid _ _ Hy). congruence.
  - apply NoDup_filter, NoDup_fmap_2_strong; [|apply NoDup_map_to_list].
    intros [i x] [k y] Hx%elem_of_map_to_list Hy%elem_of_map_to_list. simpl. intros ->.
    rewrite <- (Hid _ _ Hx), <- (Hid _ _ Hy). done.
Qed.
