(* ===== verification/Invariant.v ===== *)
(** * The invariant of the process

    [sys_inv] holds between any two actions of the running program, and
    [sys_protocol] is the protocol every goroutine follows.  The files of the
    components prove that their programs follow it; [System.v] draws the
    conclusions. *)

From S2P Require Import Prelude Go Models World Metrics Sql Storage.

(** The jobs the process holds in memory: in the queues, in the preemption
    slots and in the hands of the workers. *)
Definition running_jobs (p : Pool) : list Job :=
  omap (fun ws => ws ≫= currentJob) (p_workers p).
Definition slot_jobs (p : Pool) : list Job := omap (fun s => s) (p_preemptQueue p).

Definition held (w : World) : list Job :=
  ch_buf (mq_jobs (w_fifo w)) ++ sq_jobs (w_prio w) ++
  ch_buf (mq_jobs (rq_memory (w_rl w))) ++ slot_jobs (w_pool w) ++ running_jobs (w_pool w).

(** A worker that has a job has its cancel function. *)
Definition worker_ok (n : nat) (ws : option workerState) : Prop :=
  forall s, ws = Some s -> is_Some (currentJob s) ->
  exists c, cancel s = Some c /\ (c < n)%nat.

Definition chan_ok {A} (c : chan A) : Prop := (length (ch_buf c) <= ch_cap c)%nat.

Record sys_inv (w : World) : Prop := SysInv {
  (** the table is one the statements wrote *)
  inv_db : db_ok w;
  (** what is held in memory was saved before *)
  inv_held : Forall (fun j => saved (ID j) w) (held w);
  (** the priority queue is in order *)
  inv_sorted : StronglySorted (fun x y => job_before x y = true) (sq_jobs (w_prio w));
  (** the bucket is within its bounds *)
  inv_tokens : Z.min 0 (rq_burst (w_rl w)) <= rq_tokens (w_rl w) <= rq_burst (w_rl w);
  (** no channel is over its capacity *)
  inv_fifo : chan_ok (mq_jobs (w_fifo w));
  inv_rl : chan_ok (mq_jobs (rq_memory (w_rl w)));
  inv_signal : chan_ok (sq_signal (w_prio w));
  inv_died : chan_ok (p_workerDied (w_pool w));
  (** the pool's slices fit, and a job comes with its cancel function *)
  inv_workers : Forall (worker_ok (length (w_ctxs w))) (p_workers (w_pool w));
  inv_slots : length (p_preemptQueue (w_pool w)) = length (p_workers (w_pool w));
  inv_count : p_count (w_pool w) = Z.of_nat (length (p_workers (w_pool w)));
}.

(** What every goroutine can count on. *)
Definition sys_le (w w' : World) : Prop :=
  db_le w w' /\ (length (w_ctxs w) <= length (w_ctxs w'))%nat.

#[export] Instance sys_le_preorder : PreOrder sys_le.
Proof.
  split.
  - intros w. split; [done|lia].
  - intros w1 w2 w3 [H1 H2] [H3 H4]. split; [by etrans|lia].
Qed.

Lemma sys_le_same w w' : w_db w' = w_db w -> w_ctxs w' = w_ctxs w -> sys_le w w'.
Proof. intros Hdb Hc. split; [|by rewrite Hc]. intros i r Hr. exists r. by rewrite Hdb. Qed.
#[export] Hint Resolve sys_le_same : go.

Lemma held_mono w w' : db_le w w' -> forall l,
  Forall (fun j => saved (ID j) w) l -> Forall (fun j => saved (ID j) w') l.
Proof. intros Hle l Hl. eapply Forall_impl; [exact Hl|]. simpl. eauto with go. Qed.

Definition sys_protocol : protocol World.
Proof.
  refine {| Inv := sys_inv; Rely := sys_le; Guar := sys_le |}.
  - done.
  - intros w t [] _. by constructor.
  - intros w t _. split; [|done]. intros i r Hr. by exists r.
Defined.

(** A storage operation follows the protocol of the process. *)
Lemma storage_step_inv w w' :
  sys_inv w -> db_ok w' -> storage_step w w' -> sys_inv w' /\ sys_le w w'.
Proof.
  intros [] Hok [Hle Heq]. split.
  - assert (held w' = held w) as Hh by (by rewrite Heq).
    rewrite Heq in *. constructor; simpl in *; try done.
    change (Forall (fun j => saved (ID j) (with_faults (w_faults w')
      (with_met (w_met w') (with_db (w_db w') w)))) (held w)).
    eapply held_mono; [|done]. done.
  - split; [done|]. by rewrite Heq.
Qed.

Lemma safe_lift {A} (Q : World -> A -> Prop) p w :
  safe db_protocol Q p w -> safe sys_protocol Q p w.
Proof.
  apply safe_refines. split_and!.
  - by intros s [].
  - by intros s s' [].
  - intros s s' Hs Hs' HG. by apply storage_step_inv.
Qed.
#[export] Hint Extern 5 (safe sys_protocol _ _ _) => apply safe_lift : go.

Lemma saved_sys_mono i w w' : sys_le w w' -> saved i w -> saved i w'.
Proof. intros [? _]. by apply saved_mono. Qed.
#[export] Hint Resolve saved_sys_mono : go.

Lemma rely_saved i w w' : Rely sys_protocol w w' -> saved i w -> saved i w'.
Proof. apply saved_sys_mono. Qed.
#[export] Hint Resolve rely_saved : go.

(** ** Actions that follow the protocol *)

(** An action that changes neither the table nor what is held, and keeps the
    rest of the invariant. *)
Lemma safe_sys_act {X} (Q : World -> X -> Prop) (f : World -> X * World) w0 :
  (forall w, sys_le w0 w -> sys_inv w ->
     sys_inv (f w).2 /\ sys_le w (f w).2 /\ Q (f w).2 (f w).1) ->
  safe sys_protocol Q (act_ f) w0.
Proof.
  intros Hf. apply safe_act_. intros w HR Hw. destruct (Hf w HR Hw) as (? & ? & ?). done.
Qed.

Lemma safe_sys_gets {X} (f : World -> X) w0 : safe sys_protocol any_post (gets f) w0.
Proof. apply safe_sys_act. intros w _ Hw. by split. Qed.

Lemma safe_sys_now w0 : safe sys_protocol any_post now w0.
Proof. apply safe_sys_gets. Qed.

Lemma safe_sys_metric f w0 : safe sys_protocol any_post (metric f) w0.
Proof. apply safe_sys_act. intros w _ []. split_and!; [by constructor|by apply sys_le_same|done]. Qed.

Lemma safe_sys_wait_until t w0 : safe sys_protocol any_post (wait_until t) w0.
Proof.
  intros w x w' _ Hw. destruct (_ <? _); [done|]. by intros [= <- <-].
Qed.

Lemma safe_sys_sleep d w0 : safe sys_protocol any_post (sleep d) w0.
Proof.
  eapply (safe_bind _ any_post); [apply safe_sys_now|]. intros. apply safe_sys_wait_until.
Qed.

Lemma safe_sys_every n interval body w0 :
  (forall w, safe sys_protocol any_post body w) ->
  safe sys_protocol any_post (every n interval body) w0.
Proof.
  intros Hb. unfold every. case_match; [done|].
  eapply (safe_bind _ any_post); [apply safe_sys_now|]. intros w1 t _ _. clear w0.
  revert w1. generalize (t + interval). induction n as [|n IH]; intros tick w1; [done|].
  cbn [ticker_loop].
  eapply (safe_bind _ any_post); [apply safe_sys_wait_until|]. intros w2 _ _ _.
  eapply (safe_bind _ any_post); [apply safe_sys_now|]. intros w3 t3 _ _.
  eapply (safe_bind _ any_post); [apply Hb|]. intros. apply IH.
Qed.

#[export] Hint Resolve safe_sys_gets safe_sys_now safe_sys_metric safe_sys_sleep : go.

(** [select]: it is enough that each case follows the protocol. *)
Definition alt_safe {X} (w0 : World) (Q : World -> X -> Prop) (a : alt X) : Prop :=
  forall w x w', sys_le w0 w -> sys_inv w -> a w = Some (x, w') ->
    sys_inv w' /\ sys_le w w' /\ Q w' x.

Lemma flip_inv n w : sys_inv w -> sys_inv (flip n w).2 /\ sys_le w (flip n w).2.
Proof.
  unfold flip. intros Hw. case_match; [done|]. case_match; [done|].
  destruct Hw. split; [by constructor|by apply sys_le_same].
Qed.

Lemma select_action_safe {X} (Q : World -> X -> Prop) alts w0 w x w' :
  Forall (alt_safe w0 Q) alts -> sys_le w0 w -> sys_inv w ->
  select_action alts w = Some (x, w') -> sys_inv w' /\ sys_le w w' /\ Q w' x.
Proof.
  unfold select_action. intros Halts HR Hw. destruct (flip _ w) as [i w1] eqn:Hflip.
  destruct (flip_inv (length (omap (fun a => a w) alts)) w Hw) as [Hw1 Hle].
  rewrite Hflip in *. simpl in *.
  intros (a & Ha & Haw)%list_elem_of_lookup_2%list_elem_of_omap.
  destruct (proj1 (Forall_forall _ _) Halts a Ha w1 x w') as (? & ? & ?); [by etrans|done..|].
  split_and!; [done|by etrans|done].
Qed.

Lemma safe_select {X} (Q : World -> X -> Prop) alts timer w0 :
  Forall (alt_safe w0 Q) alts -> safe sys_protocol Q (select_ alts timer) w0.
Proof.
  intros Halts w x w' HR Hw. destruct (select_action alts w) as [[y w1]|] eqn:Hsel; [|done].
  intros [= <- <-]. destruct (select_action_safe Q alts w0 w y w1) as (? & ? & ?); done.
Qed.

Lemma safe_select_default {X} (Q : World -> X -> Prop) alts d w0 :
  Forall (alt_safe w0 Q) alts -> (forall w, Q w d) ->
  safe sys_protocol Q (select_default alts d) w0.
Proof.
  intros Halts Hd. apply safe_sys_act. intros w HR Hw.
  destruct (select_action alts w) as [[y w1]|] eqn:Hsel; [|done]. simpl.
  by apply (select_action_safe Q alts w0 w y w1).
Qed.

Lemma alt_safe_after {X} (Q : World -> X -> Prop) w0 t x :
  (forall w, Q w x) -> alt_safe w0 Q (after t x).
Proof.
  intros HQ w y w' _ Hw. unfold after. case_match; [|done]. by intros [= <- <-].
Qed.

(** What a dequeue returns was saved. *)
Definition dequeued_post (w : World) (r : option Job * option error) : Prop :=
  forall j, r.1 = Some j -> saved (ID j) w.

(** Replacing one queue. *)
Lemma held_saved_iff w : Forall (fun j => saved (ID j) w) (held w) <->
  Forall (fun j => saved (ID j) w) (ch_buf (mq_jobs (w_fifo w))) /\
  Forall (fun j => saved (ID j) w) (sq_jobs (w_prio w)) /\
  Forall (fun j => saved (ID j) w) (ch_buf (mq_jobs (rq_memory (w_rl w)))) /\
  Forall (fun j => saved (ID j) w) (slot_jobs (w_pool w)) /\
  Forall (fun j => saved (ID j) w) (running_jobs (w_pool w)).
Proof. unfold held. by rewrite !Forall_app. Qed.

Lemma mq_held q w : sys_inv w ->
  Forall (fun j => saved (ID j) w) (ch_buf (mq_jobs (get_mq q w))).
Proof. intros [? (?&?&?&?&?)%held_saved_iff]. by destruct q. Qed.

Lemma mq_chan_ok q w : sys_inv w -> chan_ok (mq_jobs (get_mq q w)).
Proof. intros []. by destruct q. Qed.

Lemma set_mq_inv q m w :
  sys_inv w -> Forall (fun j => saved (ID j) w) (ch_buf (mq_jobs m)) ->
  chan_ok (mq_jobs m) -> sys_inv (set_mq q m w) /\ sys_le w (set_mq q m w).
Proof.
  intros [? (?&?&?&?&?)%held_saved_iff] Hm Hc. split; [|by destruct q; apply sys_le_same].
  destruct q; constructor; simpl; try done; by apply held_saved_iff.
Qed.

(** Replacing the priority queue. *)
Lemma with_prio_inv q w :
  sys_inv w -> Forall (fun j => saved (ID j) w) (sq_jobs q) ->
  StronglySorted (fun x y => job_before x y = true) (sq_jobs q) ->
  chan_ok (sq_signal q) -> sys_inv (with_prio q w) /\ sys_le w (with_prio q w).
Proof.
  intros [? (?&?&?&?&?)%held_saved_iff] Hm Hs Hc. split; [|by apply sys_le_same].
  constructor; simpl; try done. by apply held_saved_iff.
Qed.

(** Goes through a program of the process. *)
Ltac sys_tac :=
  repeat first
    [ solve [eauto with go]
    | exact I
    | progress cbv beta zeta
    | match goal with
      | |- safe _ _ (_ ≫= _) _ =>
          eapply safe_bind; [solve [eauto with go]|intros ? ? ? ?]
      | |- safe _ _ (_ ≫= _) _ => eapply (safe_bind _ any_post); [|intros ? ? ? _]
      | |- safe _ _ (match ?x with _ => _ end) _ => destruct x eqn:?
      | |- safe _ any_post (Ret _) _ => exact I
      end ].

(** The first program of a sequence, its result being of no interest. *)
Ltac bind_any lem := eapply (safe_bind _ any_post); [apply lem|intros ? ? _ _].

(** A handler whose response goes to the client. *)
Lemma safe_then {A} (p : M A) w : safe sys_protocol any_post p w ->
  safe sys_protocol (fun _ _ => True) (p;; Ret tt) w.
Proof. intros Hp. by eapply (safe_bind _ any_post). Qed.
