(* ===== verification/Backend.v ===== *)
(** * Lemmas the two backends share

    How statements run and what they keep, and the view of a table as a map
    of jobs, for any decoding of the payload column. *)

From S2P Require Import Prelude Go Models World Metrics Sql Storage.

(** ** Running statements *)

Lemma run_db_exec env stmt w : w_faults w = [] ->
  run env (db_exec stmt) w =
    match stmt (w_db w) with
    | Some (t, n) => Done (inl n) (with_db t w)
    | None => Done (inr driver_error) w
    end.
Proof.
  intros Hf. unfold db_exec. rewrite run_act_. unfold next_fault. rewrite Hf.
  destruct (stmt (w_db w)) as [[t n]|]; done.
Qed.

Lemma run_db_query {X} env (q : table -> X) w : w_faults w = [] ->
  run env (db_query q) w = Done (inl (q (w_db w))) w.
Proof. intros Hf. unfold db_query. rewrite run_act_. unfold next_fault. by rewrite Hf. Qed.

Lemma fetch_all {X} (l : list X) w : w_faults w = [] -> fetch l w = (l, None, w).
Proof.
  intros Hf. assert (next_fault w = (false, w)) as Hn by (unfold next_fault; by rewrite Hf).
  induction l as [|x l IH]; simpl; rewrite Hn; [done|by rewrite IH].
Qed.

Lemma run_db_rows {X} env (q : table -> list X) w : w_faults w = [] ->
  run env (db_rows q) w = Done (inl (q (w_db w), None)) w.
Proof.
  intros Hf. unfold db_rows. rewrite run_act_. unfold next_fault. rewrite Hf.
  by rewrite fetch_all.
Qed.

(** What a statement can do when the driver may fail. *)
Lemma run_db_exec_cases env stmt w :
  (exists w1, run env (db_exec stmt) w = Done (inr driver_error) w1 /\ w_db w1 = w_db w) \/
  (exists t n w1, run env (db_exec stmt) w = Done (inl n) w1 /\ w_db w1 = t /\
     stmt (w_db w) = Some (t, n)).
Proof.
  assert (w_db (next_fault w).2 = w_db w) as Hdb
    by (unfold next_fault; by destruct (w_faults w)).
  unfold db_exec. rewrite run_act_. destruct (next_fault w) as [bad w1]. simpl in Hdb.
  destruct bad; [left; by exists w1|]. rewrite Hdb.
  destruct (stmt (w_db w)) as [[t n]|] eqn:Hs; [right|left; by exists w1].
  by exists t, n, (with_db t w1).
Qed.

Lemma run_db_query_cases {X} env (q : table -> X) w :
  exists w1 r, run env (db_query q) w = Done r w1 /\ w_db w1 = w_db w /\
    (r = inr driver_error \/ r = inl (q (w_db w))).
Proof.
  assert (w_db (next_fault w).2 = w_db w) as Hdb
    by (unfold next_fault; by destruct (w_faults w)).
  unfold db_query. rewrite run_act_. destruct (next_fault w) as [bad w1]. simpl in Hdb.
  rewrite Hdb. destruct bad; eexists _, _; eauto.
Qed.

(** A program that, when it returns an error, has left the table as it was. *)
Definition undone_on_error (p : M (option error)) : Prop :=
  forall env w e w', run env p w = Done (Some e) w' -> w_db w' = w_db w.

Lemma update_row_none int_ok i cond set t t' :
  update_row int_ok i cond set t = Some (t', 0) -> t' = t.
Proof. unfold update_row. intros Hu. by repeat case_match; simplify_eq. Qed.

(** Goes through the run of such a program. *)
Ltac undone_step :=
  match goal with
  | |- context [run _ (_ ≫= _) _] => rewrite run_bind
  | |- context [run _ now _] => rewrite run_now
  | |- context [run _ (Ret _) _] => progress cbn [run]
  | |- context [run ?env (db_exec ?s) ?w] =>
      destruct (run_db_exec_cases env s w) as [(?&->&?)|(?&?&?&->&?&?)]; cbv beta iota
  | |- context [run ?env (db_query ?q) ?w] =>
      destruct (run_db_query_cases env q w) as (?&?&->&?&[->| ->]); cbv beta iota
  | |- _ -> _ => intros ?; simplify_eq
  | |- _ = _ => congruence
  | _ => case_goal
  end.

Lemma with_db_id w : with_db (w_db w) w = w.
Proof. by destruct w. Qed.
Lemma with_met_id w : with_met (w_met w) w = w.
Proof. by destruct w. Qed.

(** ** What statements keep *)

Lemma row_ok_status int_ok r : row_ok int_ok r = true -> valid_status (status r) = true.
Proof. unfold row_ok. intros H. by des. Qed.

Lemma insert_row_keeps int_ok r t t' n :
  table_ok t -> insert_row int_ok r t = Some (t', n) -> table_le t t' /\ table_ok t'.
Proof.
  unfold insert_row. intros Hok. destruct (t !! id r) eqn:Ht; [done|].
  destruct (row_ok int_ok r) eqn:Hr; [|done]. intros [= <- <-]. split.
  - intros i r0 Hi. exists r0. split; [|done]. rewrite lookup_insert_ne; [done|congruence].
  - intros i r0 Hi. destruct (decide (i = id r)) as [->|Hne].
    + rewrite lookup_insert_eq in Hi. simplify_eq. eauto using row_ok_status.
    + rewrite lookup_insert_ne in Hi by done. eauto.
Qed.

Lemma update_row_keeps int_ok i cond set t t' n :
  (forall r, row_le r (set r)) ->
  table_ok t -> update_row int_ok i cond set t = Some (t', n) -> table_le t t' /\ table_ok t'.
Proof.
  unfold update_row. intros Hset Hok.
  destruct (t !! i) as [r|] eqn:Ht; [|by intros [= <- <-]; split; [intros ? r0 ?; exists r0|]].
  destruct (cond r); [|by intros [= <- <-]; split; [intros ? r0 ?; exists r0|]].
  destruct (row_ok int_ok (set r)) eqn:Hr; [|done]. intros [= <- <-]. split.
  - intros k r0 Hk. destruct (decide (k = i)) as [->|Hne].
    + rewrite lookup_insert_eq. simplify_eq. eauto.
    + rewrite lookup_insert_ne by done. by exists r0.
  - intros k r0 Hk. destruct (decide (k = i)) as [->|Hne].
    + rewrite lookup_insert_eq in Hk. simplify_eq. split; [|by eapply row_ok_status].
      destruct (Hset r) as [-> _]. destruct (Hok _ _ Ht) as [-> _]. done.
    + rewrite lookup_insert_ne in Hk by done. eauto.
Qed.

Lemma set_status_columns_le s err t r : row_le r (set_status_columns s err t r).
Proof. repeat split; [done|]. simpl. by destruct (terminal_status s). Qed.
Lemma set_retry_columns_le s n err t r : row_le r (set_retry_columns s n err t r).
Proof. repeat split; [done|]. simpl. by destruct (terminal_status s). Qed.
Lemma set_pending_columns_le t r : row_le r (set_pending_columns t r).
Proof. by repeat split. Qed.
Lemma set_reset_columns_le f extra t r : 0 <= extra -> row_le r (set_reset_columns f extra t r).
Proof. intros ?. repeat split; [|done]. simpl. lia. Qed.

#[export] Hint Resolve set_status_columns_le set_retry_columns_le set_pending_columns_le
  set_reset_columns_le : go.

Lemma next_fault_db w : w_db (next_fault w).2 = w_db w.
Proof. unfold next_fault. by destruct (w_faults w). Qed.

Lemma storage_step_refl w : storage_step w w.
Proof. split; [done|]. by destruct w. Qed.

Lemma storage_step_trans w1 w2 w3 : storage_step w1 w2 -> storage_step w2 w3 ->
  storage_step w1 w3.
Proof.
  intros [H1 E1] [H2 E2]. split; [by etrans|]. rewrite E2, E1 at 1. by destruct w1, w2, w3.
Qed.

Lemma next_fault_step w : storage_step w (next_fault w).2.
Proof.
  split; [intros i r ?; exists r; by rewrite next_fault_db|].
  unfold next_fault. by destruct w as [? [] ?].
Qed.

Lemma safe_db_query {X} (q : table -> X) w0 :
  safe db_protocol (fun w r => db_ok w /\ forall x, r = inl x -> x = q (w_db w)) (db_query q) w0.
Proof.
  apply safe_act_. intros w _ Hw.
  pose proof (next_fault_db w) as Hdb. pose proof (next_fault_step w) as Hstep.
  destruct (next_fault w) as [bad w1]; simpl in *.
  assert (db_ok w1) by (unfold db_ok; by rewrite Hdb).
  split_and!; [done..|]. destruct bad; [done|]. by intros x [= <-].
Qed.

Lemma fetch_step {X} (l : list X) w xs err w' :
  fetch l w = (xs, err, w') ->
  w_db w' = w_db w /\ storage_step w w' /\ (forall x, x ∈ xs -> x ∈ l).
Proof.
  revert w xs. induction l as [|y l IH]; intros w xs; simpl;
    pose proof (next_fault_db w) as Hdb; pose proof (next_fault_step w) as Hstep;
    destruct (next_fault w) as [bad w1]; simpl in *.
  - destruct bad; intros ?; simplify_eq; split_and!; done || set_solver.
  - destruct bad; [intros ?; simplify_eq; split_and!; done || set_solver|].
    destruct (fetch l w1) as [[ys err'] w2] eqn:Hl. intros ?; simplify_eq.
    destruct (IH _ _ Hl) as (Hdb2 & Hstep2 & Hsub). split_and!; [congruence| |set_solver].
    eapply storage_step_trans; [exact Hstep|exact Hstep2].
Qed.

Lemma safe_db_rows {X} (q : table -> list X) w0 :
  safe db_protocol (fun w r => db_ok w /\
      forall xs err, r = inl (xs, err) -> forall x, x ∈ xs -> x ∈ q (w_db w)) (db_rows q) w0.
Proof.
  apply safe_act_. intros w _ Hw.
  pose proof (next_fault_db w) as Hdb. pose proof (next_fault_step w) as Hstep.
  destruct (next_fault w) as [bad w1]; simpl in *.
  assert (db_ok w1) as Hw1 by (unfold db_ok; by rewrite Hdb).
  destruct bad; [done|].
  destruct (fetch (q (w_db w1)) w1) as [[xs err] w2] eqn:Hl.
  destruct (fetch_step _ _ _ _ _ Hl) as (Hdb2 & Hstep2 & Hsub). simpl.
  split_and!.
  - eapply storage_step_trans; [exact Hstep|exact Hstep2].
  - unfold db_ok. by rewrite Hdb2.
  - unfold db_ok. by rewrite Hdb2.
  - intros xs' err' [= <- <-] x Hx. rewrite Hdb2. by apply Hsub.
Qed.

Lemma safe_db_exec stmt w0 :
  (forall t t' n, table_ok t -> stmt t = Some (t', n) -> table_le t t' /\ table_ok t') ->
  safe db_protocol
    (fun w r => forall n, r = inl n -> exists t, stmt t = Some (w_db w, n))
    (db_exec stmt) w0.
Proof.
  intros Hs. apply safe_act_. intros w _ Hw.
  pose proof (next_fault_db w) as Hdb. pose proof (next_fault_step w) as Hstep.
  destruct (next_fault w) as [bad w1]; simpl in *.
  assert (db_ok w1) by (unfold db_ok; by rewrite Hdb).
  destruct bad; [done|].
  rewrite Hdb. destruct (stmt (w_db w)) as [[t n]|] eqn:Ht; [|done]. simpl.
  destruct (Hs _ _ _ Hw Ht) as [Hle Hok]. split_and!; [|done|by intros ? [= <-]; eauto].
  destruct Hstep as [_ Heq]. split; [done|]. by rewrite Heq.
Qed.

Lemma safe_metric f w0 : safe db_protocol any_post (metric f) w0.
Proof.
  apply safe_act_. intros w _ Hw. split_and!; [|done|done]. split; [|by destruct w].
  intros i r Hr. by exists r.
Qed.

Lemma safe_now w0 : safe db_protocol any_post now w0.
Proof. apply safe_act_. intros w _ Hw. split_and!; [apply storage_step_refl|done|done]. Qed.

#[export] Hint Resolve safe_db_query safe_metric safe_now : go.
#[export] Hint Extern 2 (safe _ _ (db_rows _) _) => apply safe_db_rows : go.

Lemma insert_row_saved int_ok r t w n :
  insert_row int_ok r t = Some (w_db w, n) -> saved (id r) w.
Proof.
  unfold insert_row, saved. repeat case_match; intros; simplify_eq. 
  match goal with H : _ = w_db w |- _ => rewrite <- H end. by rewrite lookup_insert_eq.
Qed.

Lemma rows_lookup t r : r ∈ rows t -> exists i, t !! i = Some r.
Proof.
  unfold rows. intros ([i r'] & -> & Hin%elem_of_map_to_list)%list_elem_of_fmap. by exists i.
Qed.

(** Goes through a program bind by bind and match by match. *)
Ltac safe_tac :=
  repeat first
    [ solve [eauto with go]
    | exact I
    | progress cbv beta zeta
    | match goal with
      | |- safe _ _ (_ ≫= _) _ =>
          eapply safe_bind; [solve [eauto with go]|intros ? ? ? ?]
      | |- safe _ _ (db_exec _ ≫= _) _ =>
          eapply safe_bind; [apply safe_db_exec|intros ? ? ? ?]
      | |- safe _ _ (_ ≫= _) _ => eapply (safe_bind _ any_post); [|intros ? ? ? _]
      | |- safe _ _ (match ?x with _ => _ end) _ => destruct x eqn:?
      | |- safe _ any_post (Ret _) _ => exact I
      end ].

(** ** The view of a table

    [pay] decodes the payload column and [int] says which integers the columns
    hold. *)

Section view.
Variable pay : string -> payload + error.
Variable int : Z -> bool.

Definition row_good (r : Row) : Prop :=
  (exists p, pay (payload_text r) = inl p) /\
  int (priority r) = true /\ int (retry_count r) = true /\ int (max_retries r) = true.

Definition view_ok (t : table) : Prop :=
  table_ok t /\ forall i r, t !! i = Some r -> row_good r.

Definition view_job (r : Row) : Job :=
  job_of_row (match pay (payload_text r) with inl p => p | inr _ => None end) r.

Definition view (t : table) : gmap string Job := view_job <$> t.

Lemma view_lookup t i : view t !! i = view_job <$> t !! i.
Proof. apply lookup_fmap. Qed.

Lemma view_lookup_Some t i j :
  view t !! i = Some j <-> exists r, t !! i = Some r /\ j = view_job r.
Proof.
  rewrite view_lookup. destruct (t !! i) as [r|]; simpl; [|naive_solver].
  split; [intros [= <-]; eauto | intros (? & [= ->] & ->); done].
Qed.

Lemma view_lookup_None t i : view t !! i = None <-> t !! i = None.
Proof. rewrite view_lookup. by destruct (t !! i). Qed.

Lemma view_id t i j : view_ok t -> view t !! i = Some j -> ID j = i.
Proof.
  intros [Hok _] (r & Hr & ->)%view_lookup_Some. simpl. by destruct (Hok _ _ Hr).
Qed.

Lemma view_ok_insert t r :
  view_ok t -> valid_status (status r) = true -> row_good r ->
  view_ok (<[id r := r]> t).
Proof.
  intros [Hok Hgood] Hs Hr. split; intros i r0 Hi;
    (destruct (decide (i = id r)) as [->|Hne];
      [rewrite lookup_insert_eq in Hi; simplify_eq; done
      |rewrite lookup_insert_ne in Hi by done; eauto]).
Qed.

Lemma view_insert t i r : view (<[i := r]> t) = <[i := view_job r]> (view t).
Proof. apply fmap_insert. Qed.

(** An update of one row that keeps the payload column and the integers
    good. *)
Lemma update_row_view int_ok t i r set :
  view_ok t -> t !! i = Some r ->
  id (set r) = id r -> payload_text (set r) = payload_text r ->
  valid_status (status (set r)) = true -> row_good (set r) ->
  (forall z, int z = true -> int_ok z = true) ->
  let t' := <[i := set r]> t in
  (forall cond, cond r = true -> update_row int_ok i cond set t = Some (t', 1)) /\
  view_ok t' /\ view t' = <[i := view_job (set r)]> (view t).
Proof.
  intros Hok Hr Hid Hp Hs Hg Hint t'. split_and!.
  - intros cond Hc. unfold update_row. rewrite Hr, Hc. unfold row_ok.
    destruct Hg as (_ & H1 & H2 & H3).
    by rewrite Hs, (Hint _ H1), (Hint _ H2), (Hint _ H3).
  - unfold t'. destruct Hok as [Hok Hgood]. destruct (Hok _ _ Hr) as [Hidi _].
    rewrite <- Hidi, <- Hid. by apply view_ok_insert.
  - apply view_insert.
Qed.

Lemma view_ints t i j : view_ok t -> view t !! i = Some j ->
  int (Priority j) = true /\ int (RetryCount j) = true /\ int (MaxRetries j) = true.
Proof.
  intros [_ Hg] (r & Hr & ->)%view_lookup_Some. by destruct (Hg _ _ Hr).
Qed.

Lemma view_status t i j : view_ok t -> view t !! i = Some j ->
  valid_status (Status j) = true.
Proof.
  intros [Hok _] (r & Hr & ->)%view_lookup_Some. by destruct (Hok _ _ Hr).
Qed.

(** The same in terms of jobs: [fj] is what [set] does to a job. *)
Lemma update_job int_ok t i j set fj :
  view_ok t -> view t !! i = Some j ->
  (forall r, id (set r) = id r /\ payload_text (set r) = payload_text r /\
             priority (set r) = priority r) ->
  (forall r, view_job (set r) = fj (view_job r)) ->
  valid_status (Status (fj j)) = true ->
  int (RetryCount (fj j)) = true -> int (MaxRetries (fj j)) = true ->
  (forall z, int z = true -> int_ok z = true) ->
  exists t', (forall cond, (forall r, view_job r = j -> cond r = true) ->
      update_row int_ok i cond set t = Some (t', 1)) /\
    view_ok t' /\ view t' = <[i := fj j]> (view t).
Proof.
  intros Hok (r & Hr & ->)%view_lookup_Some Hle Hj Hs H1 H2 Hint.
  destruct (Hle r) as (Hid & Hp & Hprio). rewrite <- Hj in *.
  pose proof (proj2 Hok _ _ Hr) as [Hpay [Hi1 _]].
  exists (<[i := set r]> t).
  destruct (update_row_view int_ok t i r set) as (Hu & ? & ?); [done..| |done|].
  - split; [by rewrite Hp|]. rewrite Hprio. done.
  - split_and!; [|done..]. intros cond Hc. by apply Hu, Hc.
Qed.

(** Inserting a row for a new job. *)
Lemma insert_job int_ok t r :
  view_ok t -> view t !! id r = None -> valid_status (status r) = true -> row_good r ->
  (forall z, int z = true -> int_ok z = true) ->
  exists t', insert_row int_ok r t = Some (t', 1) /\
    view_ok t' /\ view t' = <[id r := view_job r]> (view t).
Proof.
  intros Hok Hnone%view_lookup_None Hs Hg Hint. exists (<[id r := r]> t). split_and!.
  - unfold insert_row. rewrite Hnone. unfold row_ok. destruct Hg as (_ & H1 & H2 & H3).
    by rewrite Hs, (Hint _ H1), (Hint _ H2), (Hint _ H3).
  - by apply view_ok_insert.
  - apply view_insert.
Qed.

(** Reading rows of a good table. *)
Variable scan : Row -> Job + error.
Hypothesis scan_good : forall r, row_good r -> scan r = inl (view_job r).

Lemma view_ok_rows t : view_ok t -> Forall row_good (rows t).
Proof.
  intros [_ Hgood]. unfold rows. apply Forall_fmap, Forall_forall.
  intros [i r] Hin%elem_of_map_to_list. simpl. eauto.
Qed.

Lemma view_rows t : (map_to_list (view t)).*2 ≡ₚ view_job <$> rows t.
Proof.
  unfold view, rows. rewrite map_to_list_fmap, <- !list_fmap_compose.
  apply Permutation_refl'. by apply list_fmap_ext.
Qed.

Lemma filter_fmap_jobs (P : Job -> bool) (Q : Row -> bool) (l : list Row) :
  (forall r, P (view_job r) = Q r) ->
  filter (fun j => P j = true) (view_job <$> l) = view_job <$> filter (fun r => Q r = true) l.
Proof.
  intros HPQ. induction l as [|r l IH]; [done|]. rewrite fmap_cons, !filter_cons, HPQ.
  case_decide; simpl; by rewrite IH.
Qed.
End view.

Lemma by_priority_total : total_preorder by_priority.
Proof.
  unfold by_priority. split.
  - intros x y. rewrite !orb_true_iff, !andb_true_iff, !Z.ltb_lt, !Z.eqb_eq, !Z.leb_le. lia.
  - intros x y z. rewrite !orb_true_iff, !andb_true_iff, !Z.ltb_lt, !Z.eqb_eq, !Z.leb_le. lia.
Qed.

Section select.
Context `{PlatformLaws}.

Lemma select_rows_perm p le t :
  select_rows p le t ≡ₚ filter (fun r => p r = true) (rows t).
Proof. apply order_by_perm. Qed.

Lemma select_rows_sorted p le t : total_preorder le ->
  StronglySorted (fun x y => le x y = true) (select_rows p le t).
Proof. apply order_by_sorted. Qed.

Lemma select_rows_sub p le t r : r ∈ select_rows p le t -> r ∈ rows t.
Proof. rewrite select_rows_perm. by intros [_ ?]%list_elem_of_filter. Qed.

(** A query on a good table returns exactly the jobs that satisfy it, in the
    order it asks for. *)
Lemma select_view pay (P : Job -> bool) (p : Row -> bool) le leJ t :
  total_preorder le ->
  (forall r, P (view_job pay r) = p r) ->
  (forall r r', leJ (view_job pay r) (view_job pay r') = le r r') ->
  let l := view_job pay <$> select_rows p le t in
  l ≡ₚ filter (fun j => P j = true) (map_to_list (view pay t)).*2 /\
  StronglySorted (fun x y => leJ x y = true) l.
Proof.
  intros Hle HP HleJ l. subst l. split.
  - rewrite select_rows_perm, <- (filter_fmap_jobs pay P) by done.
    by rewrite view_rows.
  - eapply StronglySorted_fmap, select_rows_sorted, Hle.
    intros x y Hxy. simpl. by rewrite HleJ.
Qed.
End select.

(** ** Grouping *)

Section groups.
Context `{PlatformLaws} {K : Type} `{EqDecision K}.
Variable key : Row -> K.

Definition count_key (k : K) (l : list Row) : Z :=
Z.of_nat (length (filter (fun r => key r = k) l)).

Lemma group_count_perm l :
group_count key l ≡ₚ (fun x => (x, count_key x l)) <$> remove_dups (key <$> l).
Proof. apply order_by_perm. Qed.

Lemma group_count_keys l : NoDup (group_count key l).*1.
Proof.
rewrite group_count_perm, <- list_fmap_compose.
rewrite (list_fmap_ext _ (fun x => x)) by done. rewrite list_fmap_id. apply NoDup_remove_dups.
Qed.

Lemma count_key_pos k l : 0 < count_key k l <-> k ∈ key <$> l.
Proof.
unfold count_key. induction l as [|r l IH]; simpl; [set_solver by lia|].
rewrite filter_cons. case_decide as Hk; simpl; [|rewrite IH; set_solver].
split; [set_solver|lia].
Qed.

Lemma group_count_elem l k n : (k, n) ∈ group_count key l <-> n = count_key k l /\ 0 < n.
Proof.
rewrite group_count_perm, list_elem_of_fmap. split.
- intros (x & [= -> ->] & Hx). split; [done|].
  apply count_key_pos. by rewrite elem_of_remove_dups in Hx.
- intros [-> Hk]. exists k. split; [done|]. by apply elem_of_remove_dups, count_key_pos.
Qed.

End groups.
