(* ===== verification/Sqlite.v ===== *)
(** * The SQLite backend ([internal/storage/sqlite.go])

    The settings of the connection pool and [Close] are calls into the driver
    and are not modelled.  [CREATE TABLE] is the table of [Sql.v]; its
    columns that may be [NULL] are [processed_at] and [error_message], the only
    ones the program leaves out of an [INSERT].  SQLite integers are checked
    when a row is read: a value out of 64 bits has become a real, which
    [Scan] refuses. *)

From S2P Require Import Prelude Go Models World Metrics Sql Storage Backend.

Module SQLiteStorage.
Section with_platform.
Context `{Platform}.

(** [migrate] *)
Definition migrate : M (option error) :=
  r ← db_exec create_table;
  match r with
  | inr err => Ret (Some err)
  | inl _ => Ret None
  end.

(** [NewSQLiteStorage]: the error, the storage being [storage]. *)
Definition NewSQLiteStorage `{SqlDriver} (dsn : string) : M (option error) :=
  match sql_open "sqlite3" dsn with
  | Some err => Ret (Some (Wrap "failed to open database" err))
  | None =>
      err ← db_ping;
      match err with
      | Some err => Ret (Some (Wrap "failed to ping database" err))
      | None =>
          err ← migrate;
          match err with
          | Some err => Ret (Some (Wrap "failed to run migrations" err))
          | None => Ret None
          end
      end
  end.

(** [marshalPayload] *)
Definition marshalPayload (p : payload) : string + error :=
  match p with
  | None => inl "{}"
  | Some _ =>
      match json_marshal p with
      | Some b => inl b
      | None => inr (Wrap "failed to marshal payload" (External "json"))
      end
  end.

(** [unmarshalPayload] *)
Definition unmarshalPayload (data : string) : payload + error :=
  if (data =? "")%string then inl (Some ∅)
  else match json_unmarshal data with
       | Some m => inl m
       | None => inr (Wrap "failed to unmarshal payload" (External "json"))
       end.

(** [scanJob] on a row of a result. *)
Definition scanJob (r : Row) : Job + error :=
  if in_int64 (priority r) && in_int64 (retry_count r) && in_int64 (max_retries r) then
    match unmarshalPayload (payload_text r) with
    | inl p =>
        inl (job_of_row p r)
    | inr e => inr e
    end
  else inr (External "sql: Scan error").

Definition int_ok (n : Z) : bool := true.

Definition SaveJob (job : Job) : M (option error) :=
  match marshalPayload (Payload job) with
  | inr err => Ret (Some err)
  | inl payloadStr =>
      r ← db_exec (insert_row int_ok
            (mkRow (ID job) (JobType job) payloadStr (QueueType job) (Priority job)
               (Status job) (RetryCount job) (MaxRetries job) (CreatedAt job)
               (UpdatedAt job) None None));
      match r with
      | inr err => Ret (Some (Wrap "failed to save job" err))
      | inl _ => Ret None
      end
  end.

Definition GetJob (i : string) : M (option Job * option error) :=
  r ← db_query (fun t => t !! i);
  match r with
  | inl None => Ret (None, None)
  | inr err => Ret (None, Some (Wrap "failed to get job" err))
  | inl (Some row) =>
      match scanJob row with
      | inr err => Ret (None, Some (Wrap "failed to get job" err))
      | inl job => Ret (Some job, None)
      end
  end.

Definition UpdateJobStatus (i s errMsg : string) : M (option error) :=
  '(job, err) ← GetJob i;
  match err, job with
  | Some err, _ => Ret (Some (Wrap "failed to load job for status update" err))
  | None, None => Ret (Some (Errorf ("job " +:+ i +:+ " not found")))
  | None, Some job =>
      t ← now;
      r ← db_exec (update_row int_ok i (fun _ => true) (set_status_columns s errMsg t));
      match r with
      | inr err => Ret (Some (Wrap "failed to update job status" err))
      | inl _ =>
          (if (s =? StatusCompleted)%string then metric (completed_inc (QueueType job))
           else if (s =? StatusFailed)%string then metric (failed_add (QueueType job) 1)
           else Ret tt);;
          Ret None
      end
  end.

(** The loop of [queryJobs] over the rows. *)
Fixpoint scan_rows (rs : list Row) : list Job + error :=
  match rs with
  | [] => inl []
  | r :: rs =>
      match scanJob r with
      | inr err => inr (Wrap "failed to scan job row" err)
      | inl job =>
          match scan_rows rs with
          | inr err => inr err
          | inl jobs => inl (job :: jobs)
          end
      end
  end.

(** [queryJobs]; an empty list is the nil slice. *)
Definition queryJobs (query : table -> list Row) : M (list Job * option error) :=
  r ← db_rows query;
  match r with
  | inr err => Ret ([], Some (Wrap "failed to query jobs" err))
  | inl (rs, rowsErr) =>
      match scan_rows rs with
      | inr err => Ret ([], Some err)
      | inl jobs => Ret (jobs, rowsErr)
      end
  end.

Definition ListPendingJobs : M (list Job * option error) :=
  queryJobs (select_rows
    (fun r => status_is StatusPending r || status_is StatusProcessing r) by_priority).

(** A negative [LIMIT] is no limit in SQLite. *)
Definition ListRecentJobs (limit : Z) : M (list Job * option error) :=
  queryJobs (fun t =>
    let l := select_rows (fun _ => true) by_created_desc t in
    if limit <? 0 then l else take (Z.to_nat limit) l).

Definition GetProcessingJobs : M (list Job * option error) :=
  queryJobs (select_rows (status_is StatusProcessing) by_created).

Definition ListAllPendingJobs : M (list Job * option error) :=
  queryJobs (select_rows (status_is StatusPending) by_priority).

Definition ListPendingByQueue (q : string) : M (list Job * option error) :=
  queryJobs (select_rows (fun r => status_is StatusPending r && queue_is q r) by_priority).

Definition ListProcessingByQueue (q : string) : M (list Job * option error) :=
  queryJobs (select_rows (fun r => status_is StatusProcessing r && queue_is q r) by_created).

Definition UpdateJobRetry (i s : string) (n : Z) (errMsg : string) : M (option error) :=
  '(job, err) ← GetJob i;
  match err, job with
  | Some err, _ => Ret (Some (Wrap "failed to load job for retry update" err))
  | None, None => Ret (Some (Errorf ("job " +:+ i +:+ " not found")))
  | None, Some job =>
      t ← now;
      r ← db_exec (update_row int_ok i (fun _ => true) (set_retry_columns s n errMsg t));
      match r with
      | inr err => Ret (Some (Wrap "failed to update job retry" err))
      | inl _ =>
          (if (s =? StatusPending)%string then metric (retried_add (QueueType job) 1)
           else if (s =? StatusFailed)%string then metric (failed_add (QueueType job) 1)
           else Ret tt);;
          Ret None
      end
  end.

Definition Requeue (i : string) : M (option error) :=
  t ← now;
  r ← db_exec (update_row int_ok i (fun _ => true) (set_pending_columns t));
  match r with
  | inr err => Ret (Some (Wrap "failed to requeue job" err))
  | inl _ => Ret None
  end.

(** [retry_count = 0] is part of the update. *)
Definition ResetForRetry (i : string) (extraRetries : Z) : M (option error) :=
  t ← now;
  r ← db_exec (update_row int_ok i (status_is StatusFailed)
                 (set_reset_columns (fun _ => 0) extraRetries t));
  match r with
  | inr err => Ret (Some (Wrap "failed to reset job for retry" err))
  | inl rows =>
      if rows =? 0 then Ret (Some (Errorf "job not found or not in failed state"))
      else Ret None
  end.

(** The loop that builds the result of [CountByQueueAndStatus]. *)
Definition add_count (result : gmap string (gmap string Z)) (g : (string * string) * Z) :
    gmap string (gmap string Z) :=
  let '((q, s), count) := g in
  <[q := <[s := count]> (default ∅ (result !! q))]> result.

Definition CountByQueueAndStatus : M (gmap string (gmap string Z) * option error) :=
  r ← db_rows (fun t => group_count (fun r => (queue_type r, status r)) (rows t));
  match r with
  | inr err => Ret (∅, Some (Wrap "failed to count jobs" err))
  | inl (gs, rowsErr) => Ret (foldl add_count ∅ gs, rowsErr)
  end.

#[export] Instance storage : Storage := {|
  Storage.SaveJob := SaveJob;
  Storage.GetJob := GetJob;
  Storage.UpdateJobStatus := UpdateJobStatus;
  Storage.ListPendingJobs := ListPendingJobs;
  Storage.ListRecentJobs := ListRecentJobs;
  Storage.GetProcessingJobs := GetProcessingJobs;
  Storage.ListAllPendingJobs := ListAllPendingJobs;
  Storage.UpdateJobRetry := UpdateJobRetry;
  Storage.Requeue := Requeue;
  Storage.ListPendingByQueue := ListPendingByQueue;
  Storage.ListProcessingByQueue := ListProcessingByQueue;
  Storage.ResetForRetry := ResetForRetry;
  Storage.CountByQueueAndStatus := CountByQueueAndStatus;
|}.
End with_platform.

(** ** The backend meets the interface's contract *)

Section spec.
Context `{PlatformLaws}.

(** A table this backend wrote. *)
Notation ok := (view_ok unmarshalPayload in_int64).
Notation jobs := (view unmarshalPayload).
Notation as_job := (view_job unmarshalPayload).
Notation good := (row_good unmarshalPayload in_int64).

Lemma scanJob_good r : good r -> scanJob r = inl (as_job r).
Proof.
  intros ((p & Hp) & H1 & H2 & H3). unfold scanJob, view_job.
  by rewrite H1, H2, H3, Hp.
Qed.

Lemma scan_rows_good rs : Forall good rs -> scan_rows rs = inl (as_job <$> rs).
Proof.
  induction 1 as [|r rs Hr _ IH]; [done|]. simpl. by rewrite scanJob_good, IH.
Qed.

Lemma run_GetJob env w i : ok (w_db w) -> w_faults w = [] ->
  run env (GetJob i) w = Done (jobs (w_db w) !! i, None) w.
Proof.
  intros [_ Hg] Hf. unfold GetJob. rewrite run_bind, run_db_query by done.
  rewrite view_lookup. destruct (w_db w !! i) as [r|] eqn:Hr; [|done].
  by rewrite scanJob_good by eauto.
Qed.

Lemma run_queryJobs env w q : w_faults w = [] -> Forall good (q (w_db w)) ->
  run env (queryJobs q) w = Done (as_job <$> q (w_db w), None) w.
Proof.
  intros Hf Hg. unfold queryJobs. rewrite run_bind, run_db_rows by done.
  by rewrite scan_rows_good.
Qed.

Lemma select_good p le t : ok t -> Forall good (select_rows p le t).
Proof.
  intros Hok. rewrite select_rows_perm. by apply Forall_filter_keep, view_ok_rows.
Qed.

Lemma run_SaveJob env w j :
  ok (w_db w) -> w_faults w = [] -> jobs (w_db w) !! ID j = None ->
  valid_status (Status j) = true ->
  (exists s0, json_unmarshal s0 = Some (Payload j)) ->
  in_int64 (Priority j) = true -> in_int64 (RetryCount j) = true ->
  in_int64 (MaxRetries j) = true ->
  exists t', run env (SaveJob j) w = Done None (with_db t' w) /\ ok t' /\
    jobs t' = <[ID j := as_saved (fun t => t) (Some (default ∅ (Payload j))) j]> (jobs (w_db w)).
Proof.
  intros Hok Hf Hnone Hs (s0 & Hp) H1 H2 H3.
  assert (exists text, marshalPayload (Payload j) = inl text /\
    unmarshalPayload text = inl (Some (default ∅ (Payload j)))) as (text & Hm & Hu).
  { unfold marshalPayload, unmarshalPayload. destruct (Payload j) as [m|].
    - destruct (json_roundtrip _ _ Hp) as (text & Ht & Hu). rewrite Ht.
      exists text. split; [done|].
      destruct (String.eqb_spec text "") as [->|_]; [by apply json_marshal_nonempty in Ht|].
      by rewrite Hu.
    - exists "{}". split; [done|]. simpl. by rewrite json_unmarshal_empty_object. }
  unfold SaveJob. rewrite Hm. set (r := mkRow _ _ _ _ _ _ _ _ _ _ _ _).
  destruct (insert_job unmarshalPayload in_int64 int_ok (w_db w) r) as (t' & Hins & Hok' & Hv);
    [done..| |done|].
  { repeat split; [|done..]. by eexists. }
  exists t'. rewrite run_bind, run_db_exec, Hins by done. split_and!; [done..|].
  rewrite Hv. do 2 f_equal. unfold view_job. simpl. by rewrite Hu.
Qed.

Lemma run_SaveJob_duplicate env w j j0 :
  w_faults w = [] -> jobs (w_db w) !! ID j = Some j0 ->
  exists e, run env (SaveJob j) w = Done (Some e) w.
Proof.
  intros Hf (r & Hr & _)%view_lookup_Some. unfold SaveJob.
  destruct (marshalPayload (Payload j)) as [text|e]; [|by eexists].
  rewrite run_bind, run_db_exec by done. unfold insert_row. simpl. rewrite Hr. by eexists.
Qed.

Lemma run_UpdateJobStatus env w i s err j :
  ok (w_db w) -> w_faults w = [] -> valid_status s = true -> jobs (w_db w) !! i = Some j ->
  exists t', run env (UpdateJobStatus i s err) w =
      Done None (with_met (status_counter s (QueueType j) (w_met w)) (with_db t' w)) /\
    ok t' /\ jobs t' = <[i := with_status s err (w_clock w) j]> (jobs (w_db w)).
Proof.
  intros Hok Hf Hs Hj. destruct (view_ints _ _ _ _ _ Hok Hj) as (_ & H1 & H2).
  destruct (update_job unmarshalPayload in_int64 int_ok (w_db w) i j
    (set_status_columns s err (w_clock w)) (with_status s err (w_clock w)))
    as (t' & Hu & Hok' & Hv); [by eauto with go..|].
  exists t'. split; [|done].
  unfold UpdateJobStatus. rewrite run_bind, run_GetJob, Hj by done. cbv beta iota.
  rewrite run_bind, run_now. cbv beta iota.
  rewrite run_bind, run_db_exec, Hu by done. unfold status_counter.
  by repeat case_match.
Qed.

Lemma run_UpdateJobStatus_missing env w i s err :
  ok (w_db w) -> w_faults w = [] -> jobs (w_db w) !! i = None ->
  run env (UpdateJobStatus i s err) w =
    Done (Some (Errorf ("job " +:+ i +:+ " not found"))) w.
Proof.
  intros Hok Hf Hj. unfold UpdateJobStatus. by rewrite run_bind, run_GetJob, Hj.
Qed.

Lemma run_UpdateJobRetry env w i s n err j :
  ok (w_db w) -> w_faults w = [] -> valid_status s = true -> in_int64 n = true ->
  jobs (w_db w) !! i = Some j ->
  exists t', run env (UpdateJobRetry i s n err) w =
      Done None (with_met (retry_counter s (QueueType j) (w_met w)) (with_db t' w)) /\
    ok t' /\ jobs t' = <[i := with_retry s n err (w_clock w) j]> (jobs (w_db w)).
Proof.
  intros Hok Hf Hs Hn Hj. destruct (view_ints _ _ _ _ _ Hok Hj) as (_ & H1 & H2).
  destruct (update_job unmarshalPayload in_int64 int_ok (w_db w) i j
    (set_retry_columns s n err (w_clock w)) (with_retry s n err (w_clock w)))
    as (t' & Hu & Hok' & Hv); [by eauto with go..|].
  exists t'. split; [|done].
  unfold UpdateJobRetry. rewrite run_bind, run_GetJob, Hj by done. cbv beta iota.
  rewrite run_bind, run_now. cbv beta iota.
  rewrite run_bind, run_db_exec, Hu by done. unfold retry_counter.
  by repeat case_match.
Qed.

Lemma run_UpdateJobRetry_missing env w i s n err :
  ok (w_db w) -> w_faults w = [] -> jobs (w_db w) !! i = None ->
  run env (UpdateJobRetry i s n err) w =
    Done (Some (Errorf ("job " +:+ i +:+ " not found"))) w.
Proof.
  intros Hok Hf Hj. unfold UpdateJobRetry. by rewrite run_bind, run_GetJob, Hj.
Qed.

Lemma run_Requeue env w i :
  ok (w_db w) -> w_faults w = [] ->
  exists t', run env (Requeue i) w = Done None (with_db t' w) /\ ok t' /\
    jobs t' = alter (requeued (w_clock w)) i (jobs (w_db w)).
Proof.
  intros Hok Hf. unfold Requeue.
  destruct (jobs (w_db w) !! i) as [j|] eqn:Hj.
  - destruct (view_ints _ _ _ _ _ Hok Hj) as (_ & H1 & H2).
    destruct (update_job unmarshalPayload in_int64 int_ok (w_db w) i j
      (set_pending_columns (w_clock w)) (requeued (w_clock w)))
      as (t' & Hu & Hok' & Hv); [by eauto with go..|].
    exists t'. split_and!; [|done|].
    + rewrite run_bind, run_now. cbv beta iota.
      by rewrite run_bind, run_db_exec, Hu by done.
    + by rewrite Hv, alter_alt, Hj.
  - exists (w_db w). split_and!; [|done|].
    + rewrite run_bind, run_now. cbv beta iota. rewrite run_bind, run_db_exec by done.
      apply view_lookup_None in Hj. unfold update_row. by rewrite Hj, with_db_id.
    + by rewrite alter_alt, Hj.
Qed.

Lemma run_ResetForRetry env w i extra j :
  ok (w_db w) -> w_faults w = [] -> jobs (w_db w) !! i = Some j ->
  Status j = StatusFailed -> in_int64 extra = true -> in_int64 (MaxRetries j + extra) = true ->
  exists t', run env (ResetForRetry i extra) w = Done None (with_db t' w) /\ ok t' /\
    jobs t' = <[i := reset_for_retry 0 extra (w_clock w) j]> (jobs (w_db w)).
Proof.
  intros Hok Hf Hj Hs He Hm.
  destruct (update_job unmarshalPayload in_int64 int_ok (w_db w) i j
    (set_reset_columns (fun _ => 0) extra (w_clock w)) (reset_for_retry 0 extra (w_clock w)))
    as (t' & Hu & Hok' & Hv); [by eauto with go..|].
  exists t'. split; [|done]. unfold ResetForRetry.
  rewrite run_bind, run_now. cbv beta iota. rewrite run_bind, run_db_exec by done.
  rewrite Hu; [done|]. intros r <-. by apply bool_decide_eq_true.
Qed.

Lemma run_ResetForRetry_refused env w i extra :
  ok (w_db w) -> w_faults w = [] -> in_int64 extra = true ->
  (forall j, jobs (w_db w) !! i = Some j -> Status j <> StatusFailed) ->
  run env (ResetForRetry i extra) w =
    Done (Some (Errorf "job not found or not in failed state")) w.
Proof.
  intros Hok Hf He Hj. unfold ResetForRetry.
  rewrite run_bind, run_now. cbv beta iota. rewrite run_bind, run_db_exec by done.
  unfold update_row. rewrite view_lookup in Hj. destruct (w_db w !! i) as [r|] eqn:Hr.
  - unfold status_is. rewrite bool_decide_eq_false_2 by exact (Hj _ eq_refl).
    by rewrite with_db_id.
  - by rewrite with_db_id.
Qed.

Lemma run_ListPendingJobs env w :
  ok (w_db w) -> w_faults w = [] ->
  exists l, run env ListPendingJobs w = Done (l, None) w /\
    l ≡ₚ filter (fun j => unfinished j = true) (map_to_list (jobs (w_db w))).*2 /\
    StronglySorted (fun x y => job_before x y = true) l.
Proof.
  intros Hok Hf. eexists. split; [by apply run_queryJobs, select_good|].
  apply select_view; [apply by_priority_total| |done].
  intros r. unfold unfinished, status_is. by rewrite !bool_decide_eqb.
Qed.

Lemma run_CountByQueueAndStatus env w : w_faults w = [] ->
  run env CountByQueueAndStatus w =
    Done (foldl add_count ∅ (group_count (fun r => (queue_type r, status r)) (rows (w_db w))),
          None) w.
Proof. intros Hf. unfold CountByQueueAndStatus. by rewrite run_bind, run_db_rows. Qed.

(** No operation loses or rewrites a job, whatever fails and whatever else is
    running. *)

Lemma scanJob_id r j : scanJob r = inl j -> ID j = id r.
Proof. unfold scanJob. intros Hj. by repeat case_match; simplify_eq. Qed.

Lemma scan_rows_saved rs l w :
  (forall r, r ∈ rs -> saved (id r) w) -> scan_rows rs = inl l ->
  Forall (fun j => saved (ID j) w) l.
Proof.
  revert l. induction rs as [|r rs IH]; simpl; intros l Hrs Hl; [by simplify_eq|].
  destruct (scanJob r) as [j|] eqn:Hj; [|done].
  destruct (scan_rows rs) as [l'|]; simplify_eq. constructor; [|set_solver].
  rewrite (scanJob_id _ _ Hj). set_solver.
Qed.

Lemma safe_GetJob i w : safe db_protocol (got_post i) (GetJob i) w.
Proof.
  unfold GetJob. eapply safe_bind; [apply safe_db_query|].
  intros w1 [[r|]|err] _ [Hok Hr]; simpl; [|by intros ?..].
  destruct (scanJob r) as [j|] eqn:Hj; simpl; intros j0 [= <-].
  specialize (Hr _ eq_refl). destruct (Hok i r) as [Hid _]; [done|].
  rewrite (scanJob_id _ _ Hj). split; [done|]. by eexists.
Qed.

Lemma safe_queryJobs q w :
  (forall t r, r ∈ q t -> r ∈ rows t) ->
  safe db_protocol listed_post (queryJobs q) w.
Proof.
  intros Hq. unfold queryJobs. eapply safe_bind; [apply safe_db_rows|].
  intros w1 [[rs rowsErr]|err] _ [Hok Hr]; [|by constructor].
  destruct (scan_rows rs) as [l|] eqn:Hl; [|by constructor].
  eapply scan_rows_saved; [|exact Hl]. intros r Hin.
  apply (Hr _ _ eq_refl), Hq, rows_lookup in Hin as [i Hi].
  destruct (Hok i r Hi) as [-> _]. by eexists.
Qed.

Lemma safe_queryJobs_any q w : safe db_protocol any_post (queryJobs q) w.
Proof. unfold queryJobs. safe_tac. Qed.
#[local] Hint Resolve safe_GetJob safe_queryJobs_any : go.

Lemma safe_ListPendingJobs w : safe db_protocol listed_post ListPendingJobs w.
Proof. apply safe_queryJobs. intros t r. apply select_rows_sub. Qed.

Lemma safe_SaveJob j w : safe db_protocol (saved_post j) (SaveJob j) w.
Proof.
  unfold SaveJob. destruct (marshalPayload (Payload j)); [|done].
  eapply safe_bind; [apply safe_db_exec|].
  - eauto using insert_row_keeps.
  - intros w1 [n|e] _ Hr; [|done]. intros _. destruct (Hr _ eq_refl) as [t Ht].
    by apply insert_row_saved in Ht.
Qed.

Lemma safe_UpdateJobStatus i s err w :
  safe db_protocol any_post (UpdateJobStatus i s err) w.
Proof. unfold UpdateJobStatus. safe_tac. eauto using update_row_keeps with go. Qed.

Lemma safe_UpdateJobRetry i s n err w :
  safe db_protocol any_post (UpdateJobRetry i s n err) w.
Proof. unfold UpdateJobRetry. safe_tac. eauto using update_row_keeps with go. Qed.

Lemma lite_safe_Requeue i w : safe db_protocol any_post (Requeue i) w.
Proof. unfold Requeue. safe_tac. eauto using update_row_keeps with go. Qed.

Lemma safe_ResetForRetry i extra w : 0 <= extra ->
  safe db_protocol any_post (ResetForRetry i extra) w.
Proof.
  intros. unfold ResetForRetry. safe_tac. eauto using update_row_keeps with go.
Qed.

Lemma safe_CountByQueueAndStatus w : safe db_protocol any_post CountByQueueAndStatus w.
Proof. unfold CountByQueueAndStatus. safe_tac. Qed.

(** A failed operation has left the table as it was. *)

Lemma undone_SaveJob j : undone_on_error (SaveJob j).
Proof. intros env w e w'. unfold SaveJob. case_match; repeat undone_step. Qed.

Lemma run_GetJob_cases env w i : exists r w1,
  run env (GetJob i) w = Done r w1 /\ w_db w1 = w_db w.
Proof.
  unfold GetJob. rewrite run_bind.
  destruct (run_db_query_cases env (fun t => t !! i) w) as (w1 & r & -> & Hdb & [->| ->]).
  - by eexists _, w1.
  - destruct (w_db w !! i) as [row|]; [destruct (scanJob row)|]; by eexists _, w1.
Qed.

Lemma undone_UpdateJobStatus i s err : undone_on_error (UpdateJobStatus i s err).
Proof.
  intros env w e w'. unfold UpdateJobStatus. rewrite run_bind.
  destruct (run_GetJob_cases env w i) as ([[j|] [err0|]] & w1 & -> & Hdb);
    cbv beta iota; try (cbn [run]; congruence).
  rewrite run_bind, run_now. cbv beta iota. rewrite run_bind.
  match goal with |- context [run env (db_exec ?s) w1] =>
    destruct (run_db_exec_cases env s w1) as [(w2 & -> & Hdb2)|(t & n & w2 & -> & _)] end;
    cbv beta iota; [cbn [run]; congruence|].
  rewrite run_bind. by repeat case_match.
Qed.

Lemma undone_UpdateJobRetry i s n err : undone_on_error (UpdateJobRetry i s n err).
Proof.
  intros env w e w'. unfold UpdateJobRetry. rewrite run_bind.
  destruct (run_GetJob_cases env w i) as ([[j|] [err0|]] & w1 & -> & Hdb);
    cbv beta iota; try (cbn [run]; congruence).
  rewrite run_bind, run_now. cbv beta iota. rewrite run_bind.
  match goal with |- context [run env (db_exec ?s) w1] =>
    destruct (run_db_exec_cases env s w1) as [(w2 & -> & Hdb2)|(t & k & w2 & -> & _)] end;
    cbv beta iota; [cbn [run]; congruence|].
  rewrite run_bind. by repeat case_match.
Qed.

Lemma undone_Requeue i : undone_on_error (Requeue i).
Proof. intros env w e w'. unfold Requeue. repeat undone_step. Qed.

Lemma undone_ResetForRetry i extra : undone_on_error (ResetForRetry i extra).
Proof.
  intros env w e w'. unfold ResetForRetry. rewrite run_bind, run_now. cbv beta iota.
  rewrite run_bind.
  match goal with |- context [run env (db_exec ?s) w] =>
    destruct (run_db_exec_cases env s w) as [(w2 & -> & Hdb2)|(t & n & w2 & -> & <- & Hs)] end;
    cbv beta iota; [cbn [run]; congruence|].
  destruct (Z.eqb_spec n 0) as [->|]; cbn [run]; [|done]. intros [= _ <-].
  eapply update_row_none. exact Hs.
Qed.

#[export] Instance storage_spec : StorageSpec := {|
  st_ok := ok;
  st_view := jobs;
  st_time := fun t => t;
  st_int := in_int64;
  st_reset := fun _ => 0;
  st_payload_ok := fun p => exists s0, json_unmarshal s0 = Some p;
  st_payload := fun p => Some (default ∅ p);
  st_view_id := view_id _ _;
  SaveJob_spec := run_SaveJob;
  SaveJob_duplicate := fun env w j j0 _ => run_SaveJob_duplicate env w j j0;
  GetJob_spec := run_GetJob;
  UpdateJobStatus_spec := run_UpdateJobStatus;
  UpdateJobStatus_missing := run_UpdateJobStatus_missing;
  UpdateJobRetry_spec := run_UpdateJobRetry;
  UpdateJobRetry_missing := run_UpdateJobRetry_missing;
  Requeue_spec := run_Requeue;
  ResetForRetry_spec := run_ResetForRetry;
  ResetForRetry_refused := run_ResetForRetry_refused;
  ListPendingJobs_spec := run_ListPendingJobs;
  storage_safe_save := safe_SaveJob;
  storage_safe_get := safe_GetJob;
  storage_safe_status := safe_UpdateJobStatus;
  storage_safe_retry := safe_UpdateJobRetry;
  storage_safe_requeue := lite_safe_Requeue;
  storage_safe_reset := safe_ResetForRetry;
  storage_safe_pending := safe_ListPendingJobs;
  storage_safe_recent := fun n w => safe_queryJobs_any _ w;
  storage_safe_processing := fun w => safe_queryJobs_any _ w;
  storage_safe_all_pending := fun w => safe_queryJobs_any _ w;
  storage_safe_pending_by := fun n w => safe_queryJobs_any _ w;
  storage_safe_processing_by := fun n w => safe_queryJobs_any _ w;
  storage_safe_count := safe_CountByQueueAndStatus;
|}.

End spec.
End SQLiteStorage.
