(* ===== verification/Postgres.v ===== *)
(** * The Postgres backend ([internal/storage/postgres.go])

    The statements are those of the SQLite backend except for three things:
    the payload column is [JSONB], the instants are [TIMESTAMPTZ], and
    [ResetForRetry] leaves the retry count as it is.  The integer columns have
    32 bits: a statement that would store more is rejected by the server. *)

From S2P Require Import Prelude Go Models World Metrics Sql Storage Backend.

Module PostgresStorage.
Section with_platform.
Context `{Platform}.

(** [pgMigrate] *)
Definition pgMigrate : M (option error) :=
  r ← db_exec create_table;
  match r with
  | inr err => Ret (Some err)
  | inl _ => Ret None
  end.

(** [NewPostgresStorage]: the error, the storage being [storage]. *)
Definition NewPostgresStorage `{SqlDriver} (dsn : string) : M (option error) :=
  match sql_open "postgres" dsn with
  | Some err => Ret (Some (Wrap "failed to open database" err))
  | None =>
      err ← db_ping;
      match err with
      | Some err => Ret (Some (Wrap "failed to ping database" err))
      | None =>
          err ← pgMigrate;
          match err with
          | Some err => Ret (Some (Wrap "failed to run migrations" err))
          | None => Ret None
          end
      end
  end.

(** The payload column in [pgScanJob]: an empty column leaves the map nil. *)
Definition pgPayload (payloadBytes : string) : payload + error :=
  if (payloadBytes =? "")%string then inl None
  else match json_unmarshal payloadBytes with
       | Some m => inl m
       | None => inr (Wrap "failed to unmarshal payload" (External "json"))
       end.

(** [pgScanJob] on a row of a result. *)
Definition pgScanJob (r : Row) : Job + error :=
  match pgPayload (payload_text r) with
  | inl p => inl (job_of_row p r)
  | inr err => inr err
  end.

Definition int_ok (n : Z) : bool := in_int32 n.

Definition SaveJob (job : Job) : M (option error) :=
  match json_marshal (Payload job) with
  | None => Ret (Some (Wrap "failed to marshal payload" (External "json")))
  | Some payloadBytes =>
      r ← db_exec (fun t =>
            text ← jsonb_store payloadBytes;
            insert_row int_ok
              (mkRow (ID job) (JobType job) text (QueueType job) (Priority job)
                 (Status job) (RetryCount job) (MaxRetries job)
                 (timestamptz_store (CreatedAt job)) (timestamptz_store (UpdatedAt job))
                 None None) t);
      match r with
      | inr err => Ret (Some (Wrap "failed to save job" err))
      | inl _ => Ret None
      end
  end.

Definition GetJob (i : string) : M (option Job * option error) :=
  r ← db_query (fun t => t !! i);
  match r with
  | inl None => Ret (None, None)
  | inr err => Ret (None, Some (Wrap "failed to get job" err))
  | inl (Some row) =>
      match pgScanJob row with
      | inr err => Ret (None, Some (Wrap "failed to get job" err))
      | inl job => Ret (Some job, None)
      end
  end.

Definition UpdateJobStatus (i s errMsg : string) : M (option error) :=
  '(job, err) ← GetJob i;
  match err, job with
  | Some err, _ => Ret (Some (Wrap "failed to load job for status update" err))
  | None, None => Ret (Some (Errorf ("job " +:+ i +:+ " not found")))
  | None, Some job =>
      t ← now;
      r ← db_exec (update_row int_ok i (fun _ => true) (set_status_columns s errMsg (timestamptz_store t)));
      match r with
      | inr err => Ret (Some (Wrap "failed to update job status" err))
      | inl _ =>
          (if (s =? StatusCompleted)%string then metric (completed_inc (QueueType job))
           else if (s =? StatusFailed)%string then metric (failed_add (QueueType job) 1)
           else Ret tt);;
          Ret None
      end
  end.

(** The loop of [pgQueryJobs] over the rows. *)
Fixpoint scan_rows (rs : list Row) : list Job + error :=
  match rs with
  | [] => inl []
  | r :: rs =>
      match pgScanJob r with
      | inr err => inr (Wrap "failed to scan job row" err)
      | inl job =>
          match scan_rows rs with
          | inr err => inr err
          | inl jobs => inl (job :: jobs)
          end
      end
  end.

(** [pgQueryJobs]; an empty list is the nil slice. *)
Definition pgQueryJobs (query : table -> list Row) : M (list Job * option error) :=
  r ← db_rows query;
  match r with
  | inr err => Ret ([], Some (Wrap "failed to query jobs" err))
  | inl (rs, rowsErr) =>
      match scan_rows rs with
      | inr err => Ret ([], Some err)
      | inl jobs => Ret (jobs, rowsErr)
      end
  end.

Definition ListPendingJobs : M (list Job * option error) :=
  pgQueryJobs (select_rows
    (fun r => status_is StatusPending r || status_is StatusProcessing r) by_priority).

(** The server refuses a negative [LIMIT]. *)
Definition ListRecentJobs (limit : Z) : M (list Job * option error) :=
  if limit <? 0 then
    r ← db_query (fun _ => tt);
    Ret ([], Some (Wrap "failed to query jobs" driver_error))
  else
    pgQueryJobs (fun t =>
      take (Z.to_nat limit) (select_rows (fun _ => true) by_created_desc t)).

Definition GetProcessingJobs : M (list Job * option error) :=
  pgQueryJobs (select_rows (status_is StatusProcessing) by_created).

Definition ListAllPendingJobs : M (list Job * option error) :=
  pgQueryJobs (select_rows (status_is StatusPending) by_priority).

Definition ListPendingByQueue (q : string) : M (list Job * option error) :=
  pgQueryJobs (select_rows (fun r => status_is StatusPending r && queue_is q r) by_priority).

Definition ListProcessingByQueue (q : string) : M (list Job * option error) :=
  pgQueryJobs (select_rows (fun r => status_is StatusProcessing r && queue_is q r) by_created).

Definition UpdateJobRetry (i s : string) (n : Z) (errMsg : string) : M (option error) :=
  '(job, err) ← GetJob i;
  match err, job with
  | Some err, _ => Ret (Some (Wrap "failed to load job for retry update" err))
  | None, None => Ret (Some (Errorf ("job " +:+ i +:+ " not found")))
  | None, Some job =>
      t ← now;
      r ← db_exec (update_row int_ok i (fun _ => true) (set_retry_columns s n errMsg (timestamptz_store t)));
      match r with
      | inr err => Ret (Some (Wrap "failed to update job retry" err))
      | inl _ =>
          (if (s =? StatusPending)%string then metric (retried_add (QueueType job) 1)
           else if (s =? StatusFailed)%string then metric (failed_add (QueueType job) 1)
           else Ret tt);;
          Ret None
      end
  end.

Definition Requeue (i : string) : M (option error) :=
  t ← now;
  r ← db_exec (update_row int_ok i (fun _ => true) (set_pending_columns (timestamptz_store t)));
  match r with
  | inr err => Ret (Some (Wrap "failed to requeue job" err))
  | inl _ => Ret None
  end.

(** The retry count is not part of the update; the parameter of the addition is
    an [int4] as well. *)
Definition ResetForRetry (i : string) (extraRetries : Z) : M (option error) :=
  t ← now;
  r ← db_exec (fun t0 =>
        if int_ok extraRetries then
          update_row int_ok i (status_is StatusFailed)
            (set_reset_columns retry_count extraRetries (timestamptz_store t)) t0
        else None);
  match r with
  | inr err => Ret (Some (Wrap "failed to reset job for retry" err))
  | inl rows =>
      if rows =? 0 then Ret (Some (Errorf "job not found or not in failed state"))
      else Ret None
  end.

(** The loop that builds the result of [CountByQueueAndStatus]. *)
Definition add_count (result : gmap string (gmap string Z)) (g : (string * string) * Z) :
    gmap string (gmap string Z) :=
  let '((q, s), count) := g in
  <[q := <[s := count]> (default ∅ (result !! q))]> result.

Definition CountByQueueAndStatus : M (gmap string (gmap string Z) * option error) :=
  r ← db_rows (fun t => group_count (fun r => (queue_type r, status r)) (rows t));
  match r with
  | inr err => Ret (∅, Some (Wrap "failed to count jobs" err))
  | inl (gs, rowsErr) => Ret (foldl add_count ∅ gs, rowsErr)
  end.

#[export] Instance storage : Storage := {|
  Storage.SaveJob := SaveJob;
  Storage.GetJob := GetJob;
  Storage.UpdateJobStatus := UpdateJobStatus;
  Storage.ListPendingJobs := ListPendingJobs;
  Storage.ListRecentJobs := ListRecentJobs;
  Storage.GetProcessingJobs := GetProcessingJobs;
  Storage.ListAllPendingJobs := ListAllPendingJobs;
  Storage.UpdateJobRetry := UpdateJobRetry;
  Storage.Requeue := Requeue;
  Storage.ListPendingByQueue := ListPendingByQueue;
  Storage.ListProcessingByQueue := ListProcessingByQueue;
  Storage.ResetForRetry := ResetForRetry;
  Storage.CountByQueueAndStatus := CountByQueueAndStatus;
|}.
End with_platform.

(** ** The backend meets the interface's contract *)

Section spec.
Context `{PlatformLaws}.

(** A table this backend wrote. *)
Notation ok := (view_ok pgPayload in_int32).
Notation jobs := (view pgPayload).
Notation as_job := (view_job pgPayload).
Notation good := (row_good pgPayload in_int32).

Lemma pgScanJob_good r : good r -> pgScanJob r = inl (as_job r).
Proof.
  intros ((p & Hp) & _). unfold pgScanJob, view_job. by rewrite Hp.
Qed.

Lemma pg_scan_rows_good rs : Forall good rs -> scan_rows rs = inl (as_job <$> rs).
Proof.
  induction 1 as [|r rs Hr _ IH]; [done|]. simpl. by rewrite pgScanJob_good, IH.
Qed.

Lemma pg_run_GetJob env w i : ok (w_db w) -> w_faults w = [] ->
  run env (GetJob i) w = Done (jobs (w_db w) !! i, None) w.
Proof.
  intros [_ Hg] Hf. unfold GetJob. rewrite run_bind, run_db_query by done.
  rewrite view_lookup. destruct (w_db w !! i) as [r|] eqn:Hr; [|done].
  by rewrite pgScanJob_good by eauto.
Qed.

Lemma run_pgQueryJobs env w q : w_faults w = [] -> Forall good (q (w_db w)) ->
  run env (pgQueryJobs q) w = Done (as_job <$> q (w_db w), None) w.
Proof.
  intros Hf Hg. unfold pgQueryJobs. rewrite run_bind, run_db_rows by done.
  by rewrite pg_scan_rows_good.
Qed.

Lemma pg_select_good p le t : ok t -> Forall good (select_rows p le t).
Proof.
  intros Hok. rewrite select_rows_perm. by apply Forall_filter_keep, view_ok_rows.
Qed.

(** The payloads a [JSONB] column takes: decoded JSON, in a form the server
    accepts. *)
Definition payload_ok (p : payload) : Prop :=
  (exists s0, json_unmarshal s0 = Some p) /\
  exists s s', json_marshal p = Some s /\ jsonb_store s = Some s'.

Lemma pg_run_SaveJob env w j :
  ok (w_db w) -> w_faults w = [] -> jobs (w_db w) !! ID j = None ->
  valid_status (Status j) = true -> payload_ok (Payload j) ->
  in_int32 (Priority j) = true -> in_int32 (RetryCount j) = true ->
  in_int32 (MaxRetries j) = true ->
  exists t', run env (SaveJob j) w = Done None (with_db t' w) /\ ok t' /\
    jobs t' = <[ID j := as_saved timestamptz_store (Payload j) j]> (jobs (w_db w)).
Proof.
  intros Hok Hf Hnone Hs ((s0 & Hp) & s & s' & Hm & Hj) H1 H2 H3.
  assert (pgPayload s' = inl (Payload j)) as Hu.
  { destruct (json_roundtrip _ _ Hp) as (s1 & Hs1 & Hu). simplify_eq.
    destruct (jsonb_same_value _ _ _ Hu Hj) as [Hne Hu']. unfold pgPayload.
    rewrite Hu'. by destruct (String.eqb_spec s' ""). }
  unfold SaveJob. rewrite Hm, run_bind, run_db_exec, Hj by done. cbn [mbind option_bind].
  set (r := mkRow _ _ _ _ _ _ _ _ _ _ _ _).
  destruct (insert_job pgPayload in_int32 int_ok (w_db w) r) as (t' & Hins & Hok' & Hv);
    [done..| |done|].
  { repeat split; [|done..]. by eexists. }
  exists t'. rewrite Hins. split_and!; [done..|].
  rewrite Hv. do 2 f_equal. unfold view_job. simpl. by rewrite Hu.
Qed.

Lemma pg_run_SaveJob_duplicate env w j j0 :
  w_faults w = [] -> jobs (w_db w) !! ID j = Some j0 ->
  exists e, run env (SaveJob j) w = Done (Some e) w.
Proof.
  intros Hf (r & Hr & _)%view_lookup_Some. unfold SaveJob.
  destruct (json_marshal (Payload j)) as [text|]; [|by eexists].
  rewrite run_bind, run_db_exec by done. destruct (jsonb_store text); [|by eexists].
  cbn [mbind option_bind]. unfold insert_row. simpl. rewrite Hr. by eexists.
Qed.

Lemma pg_run_UpdateJobStatus env w i s err j :
  ok (w_db w) -> w_faults w = [] -> valid_status s = true -> jobs (w_db w) !! i = Some j ->
  exists t', run env (UpdateJobStatus i s err) w =
      Done None (with_met (status_counter s (QueueType j) (w_met w)) (with_db t' w)) /\
    ok t' /\ jobs t' = <[i := with_status s err (timestamptz_store (w_clock w)) j]> (jobs (w_db w)).
Proof.
  intros Hok Hf Hs Hj. destruct (view_ints _ _ _ _ _ Hok Hj) as (_ & H1 & H2).
  destruct (update_job pgPayload in_int32 int_ok (w_db w) i j
    (set_status_columns s err (timestamptz_store (w_clock w))) (with_status s err (timestamptz_store (w_clock w))))
    as (t' & Hu & Hok' & Hv); [by eauto with go..|].
  exists t'. split; [|done].
  unfold UpdateJobStatus. rewrite run_bind, pg_run_GetJob, Hj by done. cbv beta iota.
  rewrite run_bind, run_now. cbv beta iota.
  rewrite run_bind, run_db_exec, Hu by done. unfold status_counter.
  by repeat case_match.
Qed.

Lemma pg_run_UpdateJobStatus_missing env w i s err :
  ok (w_db w) -> w_faults w = [] -> jobs (w_db w) !! i = None ->
  run env (UpdateJobStatus i s err) w =
    Done (Some (Errorf ("job " +:+ i +:+ " not found"))) w.
Proof.
  intros Hok Hf Hj. unfold UpdateJobStatus. by rewrite run_bind, pg_run_GetJob, Hj.
Qed.

Lemma pg_run_UpdateJobRetry env w i s n err j :
  ok (w_db w) -> w_faults w = [] -> valid_status s = true -> in_int32 n = true ->
  jobs (w_db w) !! i = Some j ->
  exists t', run env (UpdateJobRetry i s n err) w =
      Done None (with_met (retry_counter s (QueueType j) (w_met w)) (with_db t' w)) /\
    ok t' /\ jobs t' = <[i := with_retry s n err (timestamptz_store (w_clock w)) j]> (jobs (w_db w)).
Proof.
  intros Hok Hf Hs Hn Hj. destruct (view_ints _ _ _ _ _ Hok Hj) as (_ & H1 & H2).
  destruct (update_job pgPayload in_int32 int_ok (w_db w) i j
    (set_retry_columns s n err (timestamptz_store (w_clock w))) (with_retry s n err (timestamptz_store (w_clock w))))
    as (t' & Hu & Hok' & Hv); [by eauto with go..|].
  exists t'. split; [|done].
  unfold UpdateJobRetry. rewrite run_bind, pg_run_GetJob, Hj by done. cbv beta iota.
  rewrite run_bind, run_now. cbv beta iota.
  rewrite run_bind, run_db_exec, Hu by done. unfold retry_counter.
  by repeat case_match.
Qed.

Lemma pg_run_UpdateJobRetry_missing env w i s n err :
  ok (w_db w) -> w_faults w = [] -> jobs (w_db w) !! i = None ->
  run env (UpdateJobRetry i s n err) w =
    Done (Some (Errorf ("job " +:+ i +:+ " not found"))) w.
Proof.
  intros Hok Hf Hj. unfold UpdateJobRetry. by rewrite run_bind, pg_run_GetJob, Hj.
Qed.

Lemma pg_run_Requeue env w i :
  ok (w_db w) -> w_faults w = [] ->
  exists t', run env (Requeue i) w = Done None (with_db t' w) /\ ok t' /\
    jobs t' = alter (requeued (timestamptz_store (w_clock w))) i (jobs (w_db w)).
Proof.
  intros Hok Hf. unfold Requeue.
  destruct (jobs (w_db w) !! i) as [j|] eqn:Hj.
  - destruct (view_ints _ _ _ _ _ Hok Hj) as (_ & H1 & H2).
    destruct (update_job pgPayload in_int32 int_ok (w_db w) i j
      (set_pending_columns (timestamptz_store (w_clock w))) (requeued (timestamptz_store (w_clock w))))
      as (t' & Hu & Hok' & Hv); [by eauto with go..|].
    exists t'. split_and!; [|done|].
    + rewrite run_bind, run_now. cbv beta iota.
      by rewrite run_bind, run_db_exec, Hu by done.
    + by rewrite Hv, alter_alt, Hj.
  - exists (w_db w). split_and!; [|done|].
    + rewrite run_bind, run_now. cbv beta iota. rewrite run_bind, run_db_exec by done.
      apply view_lookup_None in Hj. unfold update_row. by rewrite Hj, with_db_id.
    + by rewrite alter_alt, Hj.
Qed.

Lemma pg_run_ResetForRetry env w i extra j :
  ok (w_db w) -> w_faults w = [] -> jobs (w_db w) !! i = Some j ->
  Status j = StatusFailed -> in_int32 extra = true -> in_int32 (MaxRetries j + extra) = true ->
  exists t', run env (ResetForRetry i extra) w = Done None (with_db t' w) /\ ok t' /\
    jobs t' = <[i := reset_for_retry (RetryCount j) extra (timestamptz_store (w_clock w)) j]> (jobs (w_db w)).
Proof.
  intros Hok Hf Hj Hs He Hm. destruct (view_ints _ _ _ _ _ Hok Hj) as (_ & H1 & _).
  destruct (update_job pgPayload in_int32 int_ok (w_db w) i j
    (set_reset_columns retry_count extra (timestamptz_store (w_clock w)))
    (fun j => reset_for_retry (RetryCount j) extra (timestamptz_store (w_clock w)) j))
    as (t' & Hu & Hok' & Hv); [by eauto with go..|].
  exists t'. split; [|done]. unfold ResetForRetry.
  rewrite run_bind, run_now. cbv beta iota. rewrite run_bind, run_db_exec by done.
  unfold int_ok at 1. rewrite He, Hu; [done|]. intros r <-. by apply bool_decide_eq_true.
Qed.

Lemma pg_run_ResetForRetry_refused env w i extra :
  ok (w_db w) -> w_faults w = [] -> in_int32 extra = true ->
  (forall j, jobs (w_db w) !! i = Some j -> Status j <> StatusFailed) ->
  run env (ResetForRetry i extra) w =
    Done (Some (Errorf "job not found or not in failed state")) w.
Proof.
  intros Hok Hf He Hj. unfold ResetForRetry.
  rewrite run_bind, run_now. cbv beta iota. rewrite run_bind, run_db_exec by done.
  unfold int_ok at 1. rewrite He. unfold update_row. rewrite view_lookup in Hj. destruct (w_db w !! i) as [r|] eqn:Hr.
  - unfold status_is. rewrite bool_decide_eq_false_2 by exact (Hj _ eq_refl).
    by rewrite with_db_id.
  - by rewrite with_db_id.
Qed.

Lemma pg_run_CountByQueueAndStatus env w : w_faults w = [] ->
  run env CountByQueueAndStatus w =
    Done (foldl add_count ∅ (group_count (fun r => (queue_type r, status r)) (rows (w_db w))),
          None) w.
Proof. intros Hf. unfold CountByQueueAndStatus. by rewrite run_bind, run_db_rows. Qed.

Lemma pg_run_ListPendingJobs env w :
  ok (w_db w) -> w_faults w = [] ->
  exists l, run env ListPendingJobs w = Done (l, None) w /\
    l ≡ₚ filter (fun j => unfinished j = true) (map_to_list (jobs (w_db w))).*2 /\
    StronglySorted (fun x y => job_before x y = true) l.
Proof.
  intros Hok Hf. eexists. split; [by apply run_pgQueryJobs, pg_select_good|].
  apply select_view; [apply by_priority_total| |done].
  intros r. unfold unfinished, status_is. by rewrite !bool_decide_eqb.
Qed.

(** No operation loses or rewrites a job, whatever fails and whatever else is
    running. *)

Lemma pgScanJob_id r j : pgScanJob r = inl j -> ID j = id r.
Proof. unfold pgScanJob. intros Hj. by repeat case_match; simplify_eq. Qed.

Lemma pg_scan_rows_saved rs l w :
  (forall r, r ∈ rs -> saved (id r) w) -> scan_rows rs = inl l ->
  Forall (fun j => saved (ID j) w) l.
Proof.
  revert l. induction rs as [|r rs IH]; simpl; intros l Hrs Hl; [by simplify_eq|].
  destruct (pgScanJob r) as [j|] eqn:Hj; [|done].
  destruct (scan_rows rs) as [l'|]; simplify_eq. constructor; [|set_solver].
  rewrite (pgScanJob_id _ _ Hj). set_solver.
Qed.

Lemma pg_safe_GetJob i w : safe db_protocol (got_post i) (GetJob i) w.
Proof.
  unfold GetJob. eapply safe_bind; [apply safe_db_query|].
  intros w1 [[r|]|err] _ [Hok Hr]; simpl; [|by intros ?..].
  destruct (pgScanJob r) as [j|] eqn:Hj; simpl; intros j0 [= <-].
  specialize (Hr _ eq_refl). destruct (Hok i r) as [Hid _]; [done|].
  rewrite (pgScanJob_id _ _ Hj). split; [done|]. by eexists.
Qed.

Lemma pg_safe_pgQueryJobs q w :
  (forall t r, r ∈ q t -> r ∈ rows t) ->
  safe db_protocol listed_post (pgQueryJobs q) w.
Proof.
  intros Hq. unfold pgQueryJobs. eapply safe_bind; [apply safe_db_rows|].
  intros w1 [[rs rowsErr]|err] _ [Hok Hr]; [|by constructor].
  destruct (scan_rows rs) as [l|] eqn:Hl; [|by constructor].
  eapply pg_scan_rows_saved; [|exact Hl]. intros r Hin.
  apply (Hr _ _ eq_refl), Hq, rows_lookup in Hin as [i Hi].
  destruct (Hok i r Hi) as [-> _]. by eexists.
Qed.

Lemma pg_safe_pgQueryJobs_any q w : safe db_protocol any_post (pgQueryJobs q) w.
Proof. unfold pgQueryJobs. safe_tac. Qed.
#[local] Hint Resolve pg_safe_GetJob pg_safe_pgQueryJobs_any : go.

Lemma pg_safe_ListPendingJobs w : safe db_protocol listed_post ListPendingJobs w.
Proof. apply pg_safe_pgQueryJobs. intros t r. apply select_rows_sub. Qed.

Lemma pg_safe_ListRecentJobs n w : safe db_protocol any_post (ListRecentJobs n) w.
Proof. unfold ListRecentJobs. safe_tac. Qed.

Lemma pg_safe_SaveJob j w : safe db_protocol (saved_post j) (SaveJob j) w.
Proof.
  unfold SaveJob. destruct (json_marshal (Payload j)); [|done].
  eapply safe_bind; [apply safe_db_exec|].
  - intros t t' n Ht (text & _ & Hi)%bind_Some. eauto using insert_row_keeps.
  - intros w1 [n|e] _ Hr; [|done]. intros _. destruct (Hr _ eq_refl) as [t Ht].
    apply bind_Some in Ht as (text & _ & Ht). by apply insert_row_saved in Ht.
Qed.

Lemma pg_safe_UpdateJobStatus i s err w :
  safe db_protocol any_post (UpdateJobStatus i s err) w.
Proof. unfold UpdateJobStatus. safe_tac. eauto using update_row_keeps with go. Qed.

Lemma pg_safe_UpdateJobRetry i s n err w :
  safe db_protocol any_post (UpdateJobRetry i s n err) w.
Proof. unfold UpdateJobRetry. safe_tac. eauto using update_row_keeps with go. Qed.

Lemma pg_safe_Requeue i w : safe db_protocol any_post (Requeue i) w.
Proof. unfold Requeue. safe_tac. eauto using update_row_keeps with go. Qed.

Lemma pg_safe_ResetForRetry i extra w : 0 <= extra ->
  safe db_protocol any_post (ResetForRetry i extra) w.
Proof.
  intros. unfold ResetForRetry. safe_tac. intros t t' n Ht.
  destruct (int_ok extra); [|done]. eauto using update_row_keeps with go.
Qed.

Lemma pg_safe_CountByQueueAndStatus w : safe db_protocol any_post CountByQueueAndStatus w.
Proof. unfold CountByQueueAndStatus. safe_tac. Qed.

(** A failed operation has left the table as it was. *)

Lemma pg_undone_SaveJob j : undone_on_error (SaveJob j).
Proof. intros env w e w'. unfold SaveJob. case_match; repeat undone_step. Qed.

Lemma pg_run_GetJob_cases env w i : exists r w1,
  run env (GetJob i) w = Done r w1 /\ w_db w1 = w_db w.
Proof.
  unfold GetJob. rewrite run_bind.
  destruct (run_db_query_cases env (fun t => t !! i) w) as (w1 & r & -> & Hdb & [->| ->]).
  - by eexists _, w1.
  - destruct (w_db w !! i) as [row|]; [destruct (pgScanJob row)|]; by eexists _, w1.
Qed.

Lemma pg_undone_UpdateJobStatus i s err : undone_on_error (UpdateJobStatus i s err).
Proof.
  intros env w e w'. unfold UpdateJobStatus. rewrite run_bind.
  destruct (pg_run_GetJob_cases env w i) as ([[j|] [err0|]] & w1 & -> & Hdb);
    cbv beta iota; try (cbn [run]; congruence).
  rewrite run_bind, run_now. cbv beta iota. rewrite run_bind.
  match goal with |- context [run env (db_exec ?s) w1] =>
    destruct (run_db_exec_cases env s w1) as [(w2 & -> & Hdb2)|(t & n & w2 & -> & _)] end;
    cbv beta iota; [cbn [run]; congruence|].
  rewrite run_bind. by repeat case_match.
Qed.

Lemma pg_undone_UpdateJobRetry i s n err : undone_on_error (UpdateJobRetry i s n err).
Proof.
  intros env w e w'. unfold UpdateJobRetry. rewrite run_bind.
  destruct (pg_run_GetJob_cases env w i) as ([[j|] [err0|]] & w1 & -> & Hdb);
    cbv beta iota; try (cbn [run]; congruence).
  rewrite run_bind, run_now. cbv beta iota. rewrite run_bind.
  match goal with |- context [run env (db_exec ?s) w1] =>
    destruct (run_db_exec_cases env s w1) as [(w2 & -> & Hdb2)|(t & k & w2 & -> & _)] end;
    cbv beta iota; [cbn [run]; congruence|].
  rewrite run_bind. by repeat case_match.
Qed.

Lemma pg_undone_Requeue i : undone_on_error (Requeue i).
Proof. intros env w e w'. unfold Requeue. repeat undone_step. Qed.

Lemma pg_undone_ResetForRetry i extra : undone_on_error (ResetForRetry i extra).
Proof.
  intros env w e w'. unfold ResetForRetry. rewrite run_bind, run_now. cbv beta iota.
  rewrite run_bind.
  match goal with |- context [run env (db_exec ?s) w] =>
    destruct (run_db_exec_cases env s w) as [(w2 & -> & Hdb2)|(t & n & w2 & -> & <- & Hs)] end;
    cbv beta iota; [cbn [run]; congruence|].
  destruct (Z.eqb_spec n 0) as [->|]; cbn [run]; [|done]. intros [= _ <-].
  case_match; [|done]. eapply update_row_none. exact Hs.
Qed.

#[export] Instance storage_spec : StorageSpec := {|
  st_ok := ok;
  st_view := jobs;
  st_time := timestamptz_store;
  st_int := in_int32;
  st_reset := fun n => n;
  st_payload_ok := payload_ok;
  st_payload := fun p => p;
  st_view_id := view_id _ _;
  SaveJob_spec := pg_run_SaveJob;
  SaveJob_duplicate := fun env w j j0 _ => pg_run_SaveJob_duplicate env w j j0;
  GetJob_spec := pg_run_GetJob;
  UpdateJobStatus_spec := pg_run_UpdateJobStatus;
  UpdateJobStatus_missing := pg_run_UpdateJobStatus_missing;
  UpdateJobRetry_spec := pg_run_UpdateJobRetry;
  UpdateJobRetry_missing := pg_run_UpdateJobRetry_missing;
  Requeue_spec := pg_run_Requeue;
  ResetForRetry_spec := pg_run_ResetForRetry;
  ResetForRetry_refused := pg_run_ResetForRetry_refused;
  ListPendingJobs_spec := pg_run_ListPendingJobs;
  storage_safe_save := pg_safe_SaveJob;
  storage_safe_get := pg_safe_GetJob;
  storage_safe_status := pg_safe_UpdateJobStatus;
  storage_safe_retry := pg_safe_UpdateJobRetry;
  storage_safe_requeue := pg_safe_Requeue;
  storage_safe_reset := pg_safe_ResetForRetry;
  storage_safe_pending := pg_safe_ListPendingJobs;
  storage_safe_recent := pg_safe_ListRecentJobs;
  storage_safe_processing := fun w => pg_safe_pgQueryJobs_any _ w;
  storage_safe_all_pending := fun w => pg_safe_pgQueryJobs_any _ w;
  storage_safe_pending_by := fun n w => pg_safe_pgQueryJobs_any _ w;
  storage_safe_processing_by := fun n w => pg_safe_pgQueryJobs_any _ w;
  storage_safe_count := pg_safe_CountByQueueAndStatus;
|}.

End spec.
End PostgresStorage.
