(* ===== verification/MemoryQueue.v ===== *)
(** * The FIFO queue ([internal/queue/memory_queue.go])

    A buffered channel for delivery in front of the storage.  [q] is the
    pointer to the queue.  An unbuffered channel is not modelled: the program
    makes its channels with ten places per worker.

    [time.After] makes its timer when the [select] starts; the timer counts as
    one more case, ready from its deadline on. *)

From S2P Require Import Prelude Go Models World Metrics Sql Storage Invariant.

Module MemoryQueue.
Section with_storage.
Context `{Storage}.
Implicit Types (q : mqref) (job : Job).

(** [NewMemoryQueue]; [make] panics on a negative size. *)
Definition NewMemoryQueue q (bufferSize : Z) : M unit :=
  if bufferSize <? 0 then Throw "makechan: size out of range"
  else modify (set_mq q (mkMemoryQueue (make_chan (Z.to_nat bufferSize)) 0 false false)).

Definition set_jobs (c : chan Job) (m : MemoryQueue) : MemoryQueue :=
  mkMemoryQueue c (mq_wg m) (mq_closed m) (mq_done m).
Definition set_wg (n : Z) (m : MemoryQueue) : MemoryQueue :=
  mkMemoryQueue (mq_jobs m) n (mq_closed m) (mq_done m).

(** ** [Enqueue] *)

(** Under the mutex: [false] when the queue is closed, otherwise the call is
    registered in the wait group. *)
Definition Enqueue_lock q : M bool :=
  act_ (fun w =>
    let m := get_mq q w in
    if mq_closed m then (false, w)
    else (true, set_mq q (set_wg (mq_wg m + 1) m) w)).

(** [q.wg.Done()] *)
Definition wg_done q : M unit :=
  ok ← act_ (fun w =>
    let m := get_mq q w in
    if mq_wg m <=? 0 then (false, w) else (true, set_mq q (set_wg (mq_wg m - 1) m) w));
  if (ok : bool) then Ret tt else Throw "sync: negative WaitGroup counter".

Inductive enqueue_case := Sent | SendOnClosed | Closing | TimedOut.

Definition case_send q job : alt enqueue_case := fun w =>
  let m := get_mq q w in
  if ch_closed (mq_jobs m) then Some (SendOnClosed, w)
  else if chan_has_room (mq_jobs m) then
    Some (Sent, set_mq q (set_jobs (chan_push job (mq_jobs m)) m) w)
  else None.

Definition case_done q : alt enqueue_case := fun w =>
  if mq_done (get_mq q w) then Some (Closing, w) else None.

Definition Enqueue_select q job (deadline : Z) : M enqueue_case :=
  select_ [case_send q job; case_done q; after deadline TimedOut] (Some deadline).

Definition Enqueue_result (c : enqueue_case) : M (option error) :=
  match c with
  | Sent => Ret None
  | SendOnClosed => Throw "send on closed channel"
  | Closing => Ret (Some (Errorf "queue is closing"))
  | TimedOut => Ret (Some (Errorf "queue is full, timed out waiting for space"))
  end.

Definition Enqueue q job : M (option error) :=
  ok ← Enqueue_lock q;
  if (ok : bool) then
    defer_ (wg_done q)
      (t ← now; c ← Enqueue_select q job (t + 5 * Second); Enqueue_result c)
  else Ret (Some (Errorf "queue is closed")).

(** ** [Dequeue], [DequeueOrWait] *)

(** A receive from the channel: [None] once it is closed and drained. *)
Definition case_receive q : alt (option Job) := fun w =>
  let m := get_mq q w in
  match ch_buf (mq_jobs m) with
  | job :: _ => Some (Some job, set_mq q (set_jobs (chan_rest (mq_jobs m)) m) w)
  | [] => if ch_closed (mq_jobs m) then Some (None, w) else None
  end.

Definition Dequeue q : M (option Job * option error) :=
  job ← select_ [case_receive q] None;
  Ret (job, None).

Definition DequeueOrWait q (d : Z) : M (option Job * option error) :=
  t ← now;
  job ← select_ [case_receive q; after (t + d) None] (Some (t + d));
  Ret (job, None).

(** ** Outcomes *)

Definition Ack (jobID : string) : M (option error) :=
  UpdateJobStatus jobID StatusCompleted "".

Definition Nack q (jobID : string) : M (option error) :=
  '(job, err) ← GetJob jobID;
  match err, job with
  | Some err, _ => Ret (Some (Wrap "nack: failed to get job" err))
  | None, None => Ret (Some (Errorf ("nack: job " +:+ jobID +:+ " not found")))
  | None, Some job =>
      let job := set_RetryCount (wrap64 (RetryCount job + 1)) job in
      if MaxRetries job <=? RetryCount job then
        UpdateJobRetry jobID StatusFailed (RetryCount job)
          ("exhausted " +:+ pretty (RetryCount job) +:+ " retries")
      else
        err ← UpdateJobRetry jobID StatusPending (RetryCount job) "";
        match err with
        | Some err => Ret (Some err)
        | None => Enqueue q (set_Status StatusPending job)
        end
  end.

Definition PendingCount q : M Z :=
  gets (fun w => Z.of_nat (length (ch_buf (mq_jobs (get_mq q w))))).

Definition SetProcessing (jobID : string) : M (option error) :=
  UpdateJobStatus jobID StatusProcessing "".

Definition Requeue q (i : string) : M (option error) :=
  err ← Storage.Requeue i;
  match err with
  | Some err => Ret (Some err)
  | None =>
      '(job, err) ← GetJob i;
      match err, job with
      | None, Some job => Enqueue q (set_Status StatusPending job)
      | _, _ => Ret (Some (Errorf ("requeue: job " +:+ i +:+ " not found")))
      end
  end.

Definition Retry q (jobID : string) (extraRetries : Z) : M (option error) :=
  err ← ResetForRetry jobID extraRetries;
  match err with
  | Some err => Ret (Some err)
  | None =>
      '(job, err) ← GetJob jobID;
      match err, job with
      | None, Some job => Enqueue q (set_Status StatusPending job)
      | _, _ => Ret (Some (Errorf ("retry: job " +:+ jobID +:+ " not found")))
      end
  end.

(** ** [Close] *)

(** Under the mutex: [false] when the queue was closed already. *)
Definition Close_lock q : M bool :=
  act_ (fun w =>
    let m := get_mq q w in
    if mq_closed m then (false, w)
    else (true, set_mq q (mkMemoryQueue (mq_jobs m) (mq_wg m) true true) w)).

(** [q.wg.Wait()] *)
Definition wg_wait q : M unit :=
  Act (fun w => if mq_wg (get_mq q w) =? 0 then Go tt w else Park None) Ret.

(** [close(q.jobs)] *)
Definition close_jobs q : M unit :=
  ok ← act_ (fun w =>
    let m := get_mq q w in
    if ch_closed (mq_jobs m) then (false, w)
    else (true, set_mq q (set_jobs (chan_close (mq_jobs m)) m) w));
  if (ok : bool) then Ret tt else Throw "close of closed channel".

Definition Close q : M (option error) :=
  ok ← Close_lock q;
  if (ok : bool) then wg_wait q;; close_jobs q;; Ret None
  else Ret None.

(** ** [Recover] and the sweeper *)

Definition Recover_job q job : M (option error) :=
  err ← (if (Status job =? StatusProcessing)%string
         then UpdateJobStatus (ID job) StatusPending ""
         else Ret None);
  match err with
  | Some err =>
      Ret (Some (Wrap ("recover: failed to reset job " +:+ ID job) err))
  | None =>
      let job := if (Status job =? StatusProcessing)%string
                 then set_Status StatusPending job else job in
      err ← Enqueue q job;
      match err with
      | Some err => Ret (Some (Wrap ("recover: failed to enqueue job " +:+ ID job) err))
      | None => metric recovered_inc;; Ret None
      end
  end.

Fixpoint Recover_loop q (jobs : list Job) : M (option error) :=
  match jobs with
  | [] => Ret None
  | job :: jobs =>
      err ← Recover_job q job;
      match err with
      | Some err => Ret (Some err)
      | None => Recover_loop q jobs
      end
  end.

Definition Recover q : M (option error) :=
  '(jobs, err) ← ListPendingJobs;
  match err with
  | Some err => Ret (Some (Wrap "recover: failed to list pending jobs" err))
  | None => Recover_loop q jobs
  end.

(** One job of a pass; errors are logged and the pass goes on. *)
Definition sweep_job q job : M unit :=
  if (Status job =? StatusPending)%string then Enqueue q job;; Ret tt
  else if (Status job =? StatusProcessing)%string then
    t ← now;
    if 10 * Minute <? t - UpdatedAt job then
      err ← UpdateJobStatus (ID job) StatusPending "";
      match err with
      | Some _ => Ret tt
      | None => Enqueue q (set_Status StatusPending job);; Ret tt
      end
    else Ret tt
  else Ret tt.

Fixpoint sweep_loop q (jobs : list Job) : M unit :=
  match jobs with
  | [] => Ret tt
  | job :: jobs => sweep_job q job;; sweep_loop q jobs
  end.

Definition sweep q : M unit :=
  '(jobs, err) ← ListPendingJobs;
  match err with
  | Some _ => Ret tt
  | None => sweep_loop q jobs
  end.

(** [StartSweeper]; [n] bounds the passes. *)
Definition StartSweeper q (n : nat) (interval : Z) : M unit :=
  go (every n interval (sweep q)).

End with_storage.

(** ** The operations follow the protocol of the process *)

Section protocol.
Context `{StorageSpec}.
Implicit Types (q : mqref) (job : Job).

Lemma safe_mq_act {X} q (Q : World -> X -> Prop) (f : World -> X * World) w0 :
  (forall w, sys_le w0 w -> sys_inv w ->
     exists m, (f w).2 = set_mq q m w /\
       Forall (fun j => saved (ID j) w) (ch_buf (mq_jobs m)) /\ chan_ok (mq_jobs m) /\
       Q (set_mq q m w) (f w).1) ->
  safe sys_protocol Q (act_ f) w0.
Proof.
  intros Hf. apply safe_sys_act. intros w HR Hw.
  destruct (Hf w HR Hw) as (m & -> & Hm & Hc & HQ).
  destruct (set_mq_inv q m w Hw Hm Hc). done.
Qed.

Lemma set_mq_id q w : set_mq q (get_mq q w) w = w.
Proof. destruct w as [? ? ? ? ? ? ? ? ? [] ? [[]] ? ? ?], q; done. Qed.

Lemma safe_Enqueue_lock q w0 : safe sys_protocol any_post (Enqueue_lock q) w0.
Proof.
  apply (safe_mq_act q). intros w _ Hw.
  pose proof (mq_held q w Hw). pose proof (mq_chan_ok q w Hw). cbv zeta.
  destruct (mq_closed (get_mq q w)).
  - exists (get_mq q w). by rewrite set_mq_id.
  - eexists. by split_and!.
Qed.

Lemma safe_wg_done q w0 : safe sys_protocol any_post (wg_done q) w0.
Proof.
  eapply (safe_bind _ any_post).
  - apply (safe_mq_act q). intros w _ Hw.
    pose proof (mq_held q w Hw). pose proof (mq_chan_ok q w Hw). cbv zeta.
    destruct (mq_wg (get_mq q w) <=? 0).
    + exists (get_mq q w). by rewrite set_mq_id.
    + eexists. by split_and!.
  - by intros w [] _ _.
Qed.

Lemma safe_case_send q job w0 : saved (ID job) w0 ->
  alt_safe w0 any_post (case_send q job).
Proof.
  intros Hj w c w' HR Hw. unfold case_send. case_match; [by intros [= <- <-]|].
  destruct (chan_has_room (mq_jobs (get_mq q w))) eqn:Hroom; [|done]. intros [= <- <-].
  edestruct (set_mq_inv q) as [? ?]; [exact Hw|..]; [| |by split_and!].
  - simpl. apply Forall_app. split; [by apply mq_held|]. constructor; [|done].
    eauto with go.
  - unfold chan_has_room in Hroom. apply Nat.ltb_lt in Hroom.
    unfold chan_ok. simpl. rewrite length_app. simpl. lia.
Qed.

Lemma safe_case_receive q w0 :
  alt_safe w0 (fun w r => forall j, r = Some j -> saved (ID j) w) (case_receive q).
Proof.
  intros w r w' HR Hw. unfold case_receive.
  pose proof (mq_held q w Hw) as Hh. pose proof (mq_chan_ok q w Hw) as Hc.
  destruct (ch_buf (mq_jobs (get_mq q w))) as [|j l] eqn:Hbuf.
  - case_match; [|done]. by intros [= <- <-].
  - intros [= <- <-]. apply Forall_cons in Hh as [Hj Hl].
    edestruct (set_mq_inv q) as [? Hle]; [exact Hw|..]; [| |split_and!; [done..|]].
    + simpl. by rewrite Hbuf.
    + unfold chan_ok in *. simpl. rewrite Hbuf in *. simpl in *. lia.
    + intros j0 [= <-]. eauto with go.
Qed.

Lemma safe_Enqueue q job w0 : saved (ID job) w0 ->
  safe sys_protocol any_post (Enqueue q job) w0.
Proof.
  intros Hj. unfold Enqueue. eapply safe_bind; [apply safe_Enqueue_lock|].
  intros w [] HR _; [|done]. apply safe_defer; [done|intros; apply safe_wg_done|].
  eapply safe_bind; [apply safe_sys_now|]. intros w1 t HR1 _.
  eapply (safe_bind _ any_post); [apply safe_select|by intros ? []].
  apply Forall_cons; split; [|apply Forall_cons; split; [|apply Forall_singleton]].
  - apply safe_case_send. eauto with go.
  - intros w2 c w3 _ Hw2. unfold case_done. case_match; [|done]. by intros [= <- <-].
  - by apply alt_safe_after.
Qed.
#[local] Hint Resolve safe_Enqueue : go.

Lemma safe_Dequeue q w0 : safe sys_protocol dequeued_post (Dequeue q) w0.
Proof.
  eapply safe_bind; [apply safe_select|intros w r _ Hr; exact Hr].
  constructor; [apply safe_case_receive|done].
Qed.

Lemma safe_DequeueOrWait q d w0 : safe sys_protocol dequeued_post (DequeueOrWait q d) w0.
Proof.
  eapply safe_bind; [apply safe_sys_now|]. intros w1 t HR1 _.
  eapply safe_bind; [apply safe_select|intros w r _ Hr; exact Hr].
  constructor; [apply safe_case_receive|]. constructor; [by apply alt_safe_after|done].
Qed.

Lemma safe_Ack i w0 : safe sys_protocol any_post (Ack i) w0.
Proof. unfold Ack. sys_tac. Qed.

Lemma safe_SetProcessing i w0 : safe sys_protocol any_post (SetProcessing i) w0.
Proof. unfold SetProcessing. sys_tac. Qed.

(** A job that was loaded is saved, and so is a copy that is enqueued later. *)
Lemma got_saved i w w' j : got_post i w (Some j, None) -> Rely sys_protocol w w' ->
  saved (ID j) w'.
Proof. intros Hj HR. destruct (Hj j eq_refl) as [-> Hs]. eauto with go. Qed.

Lemma safe_Nack q i w0 : safe sys_protocol any_post (Nack q i) w0.
Proof.
  unfold Nack. eapply safe_bind; [eauto with go|]. intros w1 [[j|] [e|]] HR1 Hj; try done.
  case_match; [eauto with go|].
  eapply (safe_bind _ any_post); [eauto with go|]. intros w2 [e|] HR2 _; [done|].
  apply safe_Enqueue. simpl. by eapply got_saved.
Qed.

Lemma safe_Requeue q i w0 : safe sys_protocol any_post (Requeue q i) w0.
Proof.
  unfold Requeue. eapply (safe_bind _ any_post); [eauto with go|]. intros w1 [e|] HR1 _; [done|].
  eapply safe_bind; [eauto with go|]. intros w2 [[j|] [e|]] HR2 Hj; try done.
  apply safe_Enqueue. simpl. by eapply got_saved.
Qed.

Lemma safe_Retry q i n w0 : 0 <= n -> safe sys_protocol any_post (Retry q i n) w0.
Proof.
  intros Hn. unfold Retry. eapply (safe_bind _ any_post); [eauto with go|].
  intros w1 [e|] HR1 _; [done|].
  eapply safe_bind; [eauto with go|]. intros w2 [[j|] [e|]] HR2 Hj; try done.
  apply safe_Enqueue. simpl. by eapply got_saved.
Qed.

Lemma safe_PendingCount q w0 : safe sys_protocol any_post (PendingCount q) w0.
Proof. apply safe_sys_gets. Qed.

Lemma safe_Close q w0 : safe sys_protocol any_post (Close q) w0.
Proof.
  eapply (safe_bind _ any_post).
  { apply (safe_mq_act q). intros w _ Hw.
    pose proof (mq_held q w Hw). pose proof (mq_chan_ok q w Hw). cbv zeta.
    destruct (mq_closed (get_mq q w)).
    - exists (get_mq q w). by rewrite set_mq_id.
    - eexists. by split_and!. }
  intros w1 [] _ _; [|done].
  eapply (safe_bind _ any_post).
  { intros w [] w' _ Hw. case_match; [|done]. by intros [= <-]. }
  intros w2 _ _ _. eapply (safe_bind _ any_post); [|done].
  eapply (safe_bind _ any_post); [|by intros ? []].
  apply (safe_mq_act q). intros w _ Hw.
  pose proof (mq_held q w Hw). pose proof (mq_chan_ok q w Hw). cbv zeta.
  destruct (ch_closed (mq_jobs (get_mq q w))).
  - exists (get_mq q w). by rewrite set_mq_id.
  - eexists. by split_and!.
Qed.

Lemma safe_Recover_job q j w0 : saved (ID j) w0 ->
  safe sys_protocol any_post (Recover_job q j) w0.
Proof.
  intros Hj. unfold Recover_job. eapply (safe_bind _ any_post); [sys_tac|].
  intros w1 [e|] HR1 _; [done|].
  eapply (safe_bind _ any_post); [|intros w2 [e|] _ _; sys_tac].
  apply safe_Enqueue. case_match; simpl; eauto with go.
Qed.

Lemma safe_Recover_loop q js w0 : Forall (fun j => saved (ID j) w0) js ->
  safe sys_protocol any_post (Recover_loop q js) w0.
Proof.
  revert w0. induction js as [|j js IH]; intros w0 Hjs; [done|].
  apply Forall_cons in Hjs as [Hj Hjs]. simpl.
  eapply (safe_bind _ any_post); [by apply safe_Recover_job|].
  intros w1 [e|] [HR _] _; [done|]. eapply IH, held_mono; done.
Qed.

Lemma safe_Recover q w0 : safe sys_protocol any_post (Recover q) w0.
Proof.
  unfold Recover. eapply safe_bind; [eauto with go|].
  intros w1 [js [e|]] _ Hjs; [done|]. by apply safe_Recover_loop.
Qed.

Lemma safe_sweep_job q j w0 : saved (ID j) w0 ->
  safe sys_protocol any_post (sweep_job q j) w0.
Proof.
  intros Hj. unfold sweep_job. case_match; [sys_tac|]. case_match; [|done].
  eapply (safe_bind _ any_post); [sys_tac|]. intros w1 t HR1 _. case_match; [|done].
  eapply (safe_bind _ any_post); [sys_tac|]. intros w2 [e|] HR2 _; [done|].
  eapply (safe_bind _ any_post); [|done]. apply safe_Enqueue. simpl. eauto with go.
Qed.

Lemma safe_sweep_loop q js w0 : Forall (fun j => saved (ID j) w0) js ->
  safe sys_protocol any_post (sweep_loop q js) w0.
Proof.
  revert w0. induction js as [|j js IH]; intros w0 Hjs; [done|].
  apply Forall_cons in Hjs as [Hj Hjs]. simpl.
  eapply (safe_bind _ any_post); [by apply safe_sweep_job|].
  intros w1 _ [HR _] _. eapply IH, held_mono; done.
Qed.

Lemma safe_sweep q w0 : safe sys_protocol any_post (sweep q) w0.
Proof.
  unfold sweep. eapply safe_bind; [eauto with go|].
  intros w1 [js [e|]] _ Hjs; [done|]. by apply safe_sweep_loop.
Qed.

Lemma StartSweeper_safe q n d w0 : safe sys_protocol any_post (StartSweeper q n d) w0.
Proof. apply safe_go; [|done]. apply safe_sys_every. intros. apply safe_sweep. Qed.

End protocol.
End MemoryQueue.
