(* ===== verification/SortedQueue.v ===== *)
(** * The priority queue ([internal/queue/sorted_que.go])

    A slice kept ordered by priority and creation time, guarded by a mutex,
    with a one-place channel that wakes a waiting consumer.  A critical
    section of the mutex is one action. *)

From S2P Require Import Prelude Go Models World Metrics Sql Storage Invariant.

Module SortedQueue.

(** ** The slice *)

(** The loop of [insertLocked]: the index where the job goes. *)
Fixpoint insert_index (job : Job) (jobs : list Job) : nat :=
  match jobs with
  | [] => 0
  | cur :: rest =>
      if Priority cur <? Priority job then 0
      else if (Priority job =? Priority cur) && (CreatedAt job <? CreatedAt cur) then 0
      else S (insert_index job rest)
  end.

(** [copy(l[dst:], l[src:])] on one slice: reads before it writes. *)
Definition copy_within {A} (dst src : nat) (l : list A) : list A :=
  let n := Nat.min (length l - dst) (length l - src) in
  take dst l ++ take n (drop src l) ++ drop (dst + n) l.

(** [append(q.jobs, nil)], the shift and the store; the slots hold pointers. *)
Definition insertLocked (job : Job) (jobs : list Job) : list Job :=
  let i := insert_index job jobs in
  let slots := (Some <$> jobs) ++ [None] in
  let slots := copy_within (i + 1) i slots in
  let slots := <[i := Some job]> slots in
  omap (fun p => p) slots.

(** [popLocked] *)
Definition popLocked (jobs : list Job) : option Job * list Job :=
  match jobs with
  | [] => (None, [])
  | job :: rest => (Some job, rest)
  end.

Definition with_jobs (jobs : list Job) (q : SortedQueue) : SortedQueue :=
  mkSortedQueue jobs (sq_signal q) (sq_closed q) (sq_done q).
Definition with_signal (c : chan unit) (q : SortedQueue) : SortedQueue :=
  mkSortedQueue (sq_jobs q) c (sq_closed q) (sq_done q).

(** [NewSortedQueue]; the buffer size is not used. *)
Definition NewSortedQueue (bufferSize : Z) : M unit :=
  modify (with_prio (mkSortedQueue [] (make_chan 1) false false)).

Section with_storage.
Context `{Storage}.
Implicit Types (job : Job).

(** ** [Enqueue] *)

Definition Enqueue_lock job : M bool :=
  act_ (fun w =>
    let q := w_prio w in
    if sq_closed q then (false, w)
    else (true, with_prio (with_jobs (insertLocked job (sq_jobs q)) q) w)).

(** The case [q.signal <- struct{}{}]. *)
Definition case_signal : alt unit := fun w =>
  let q := w_prio w in
  if chan_has_room (sq_signal q) then
    Some (tt, with_prio (with_signal (chan_push tt (sq_signal q)) q) w)
  else None.

Definition Enqueue_wake : M unit := select_default [case_signal] tt.

Definition Enqueue job : M (option error) :=
  ok ← Enqueue_lock job;
  if (ok : bool) then Enqueue_wake;; Ret None
  else Ret (Some (Errorf "queue is closed")).

(** ** [Dequeue], [DequeueOrWait] *)

(** The critical section of both: the popped job and the closed flag. *)
Definition pop_lock : M (option Job * bool) :=
  act_ (fun w =>
    let q := w_prio w in
    let '(job, rest) := popLocked (sq_jobs q) in
    ((job, sq_closed q), with_prio (with_jobs rest q) w)).

Inductive wait_case := Signalled | DoneClosed | WaitTimedOut.

Definition case_wait : alt wait_case := fun w =>
  let q := w_prio w in
  match ch_buf (sq_signal q) with
  | _ :: _ => Some (Signalled, with_prio (with_signal (chan_rest (sq_signal q)) q) w)
  | [] => None
  end.

Definition case_done : alt wait_case := fun w =>
  if sq_done (w_prio w) then Some (DoneClosed, w) else None.

(** The loop runs once more after each signal; [fuel] bounds the rounds. *)
Fixpoint Dequeue (fuel : nat) : M (option Job * option error) :=
  match fuel with
  | O => OutOfFuel
  | S fuel =>
      '(job, closed) ← pop_lock;
      match job with
      | Some job => Ret (Some job, None)
      | None =>
          if (closed : bool) then Ret (None, None)
          else
            c ← select_ [case_wait; case_done] None;
            match c with
            | Signalled => Dequeue fuel
            | _ => Ret (None, None)
            end
      end
  end.

Definition DequeueOrWait (d : Z) : M (option Job * option error) :=
  '(job, closed) ← pop_lock;
  match job with
  | Some job => Ret (Some job, None)
  | None =>
      if (closed : bool) then Ret (None, None)
      else
        t ← now;
        c ← select_ [case_wait; case_done; after (t + d) WaitTimedOut] (Some (t + d));
        match c with
        | Signalled => '(job, _) ← pop_lock; Ret (job, None)
        | _ => Ret (None, None)
        end
  end.

(** ** Outcomes *)

Definition Ack (jobID : string) : M (option error) :=
  UpdateJobStatus jobID StatusCompleted "".

Definition Nack (jobID : string) : M (option error) :=
  '(job, err) ← GetJob jobID;
  match err, job with
  | Some err, _ => Ret (Some (Wrap "nack: failed to get job" err))
  | None, None => Ret (Some (Errorf ("nack: job " +:+ jobID +:+ " not found")))
  | None, Some job =>
      let job := set_RetryCount (wrap64 (RetryCount job + 1)) job in
      if MaxRetries job <=? RetryCount job then
        UpdateJobRetry jobID StatusFailed (RetryCount job)
          ("exhausted " +:+ pretty (RetryCount job) +:+ " retries")
      else
        err ← UpdateJobRetry jobID StatusPending (RetryCount job) "";
        match err with
        | Some err => Ret (Some err)
        | None => Enqueue (set_Status StatusPending job)
        end
  end.

Definition PendingCount : M Z := gets (fun w => Z.of_nat (length (sq_jobs (w_prio w)))).

(** [Close]: [close(q.done)] happens once, under the mutex. *)
Definition Close : M (option error) :=
  act_ (fun w =>
    let q := w_prio w in
    if sq_closed q then (None, w)
    else (None, with_prio (mkSortedQueue (sq_jobs q) (sq_signal q) true true) w)).

Definition SetProcessing (jobID : string) : M (option error) :=
  UpdateJobStatus jobID StatusProcessing "".

Definition Requeue (i : string) : M (option error) :=
  err ← Storage.Requeue i;
  match err with
  | Some err => Ret (Some err)
  | None =>
      '(job, err) ← GetJob i;
      match err, job with
      | None, Some job => Enqueue (set_Status StatusPending job)
      | _, _ => Ret (Some (Errorf ("requeue: job " +:+ i +:+ " not found")))
      end
  end.

Definition Retry (jobID : string) (extraRetries : Z) : M (option error) :=
  err ← ResetForRetry jobID extraRetries;
  match err with
  | Some err => Ret (Some err)
  | None =>
      '(job, err) ← GetJob jobID;
      match err, job with
      | None, Some job => Enqueue (set_Status StatusPending job)
      | _, _ => Ret (Some (Errorf ("retry: job " +:+ jobID +:+ " not found")))
      end
  end.

(** ** [Recover] and the sweeper: only the jobs of this queue's type *)

Definition Recover_job job : M (option error) :=
  err ← (if (Status job =? StatusProcessing)%string
         then UpdateJobStatus (ID job) StatusPending ""
         else Ret None);
  match err with
  | Some err =>
      Ret (Some (Wrap ("recover: failed to reset job " +:+ ID job) err))
  | None =>
      let job := if (Status job =? StatusProcessing)%string
                 then set_Status StatusPending job else job in
      err ← Enqueue job;
      match err with
      | Some err => Ret (Some (Wrap ("recover: failed to enqueue job " +:+ ID job) err))
      | None => Ret None
      end
  end.

Fixpoint Recover_loop (jobs : list Job) : M (option error) :=
  match jobs with
  | [] => Ret None
  | job :: jobs =>
      if negb (QueueType job =? QueueTypePriority)%string then Recover_loop jobs
      else
        err ← Recover_job job;
        match err with
        | Some err => Ret (Some err)
        | None => Recover_loop jobs
        end
  end.

Definition Recover : M (option error) :=
  '(jobs, err) ← ListPendingJobs;
  match err with
  | Some err => Ret (Some (Wrap "recover: failed to list pending jobs" err))
  | None => Recover_loop jobs
  end.

Definition sweep_job job : M unit :=
  if negb (QueueType job =? QueueTypePriority)%string then Ret tt
  else if (Status job =? StatusPending)%string then Enqueue job;; Ret tt
  else if (Status job =? StatusProcessing)%string then
    t ← now;
    if 10 * Minute <? t - UpdatedAt job then
      err ← UpdateJobStatus (ID job) StatusPending "";
      match err with
      | Some _ => Ret tt
      | None => Enqueue (set_Status StatusPending job);; Ret tt
      end
    else Ret tt
  else Ret tt.

Fixpoint sweep_loop (jobs : list Job) : M unit :=
  match jobs with
  | [] => Ret tt
  | job :: jobs => sweep_job job;; sweep_loop jobs
  end.

Definition sweep : M unit :=
  '(jobs, err) ← ListPendingJobs;
  match err with
  | Some _ => Ret tt
  | None => sweep_loop jobs
  end.

Definition StartSweeper (n : nat) (interval : Z) : M unit :=
  go (every n interval sweep).

End with_storage.

(** ** The slice is an ordered list *)

(** The insertion that the slice operations implement. *)
Fixpoint insert_ref (job : Job) (jobs : list Job) : list Job :=
  match jobs with
  | [] => [job]
  | cur :: rest =>
      if job_before cur job then cur :: insert_ref job rest else job :: cur :: rest
  end.

Notation ordered := (StronglySorted (fun x y => job_before x y = true)).

(** Two jobs between which the order does not decide. *)
Definition same_key (x y : Job) : bool :=
  (Priority x =? Priority y) && (CreatedAt x =? CreatedAt y).

Lemma insert_index_le job jobs : (insert_index job jobs <= length jobs)%nat.
Proof.
  induction jobs as [|cur rest IH]; simpl; [lia|].
  repeat case_match; simpl in *; lia.
Qed.

Lemma stops_before job cur :
  ((Priority cur <? Priority job) ||
   ((Priority job =? Priority cur) && (CreatedAt job <? CreatedAt cur)))
  = negb (job_before cur job).
Proof. unfold job_before. lia. Qed.

Lemma insert_ref_index job jobs :
  insert_ref job jobs =
    take (insert_index job jobs) jobs ++ job :: drop (insert_index job jobs) jobs.
Proof.
  induction jobs as [|cur rest IH]; simpl; [done|].
  pose proof (stops_before job cur) as Hs.
  destruct (job_before cur job); simpl in Hs.
  - apply orb_false_iff in Hs as [-> ->]. simpl. by rewrite IH.
  - destruct (Priority cur <? Priority job); [done|]. simpl in Hs. by rewrite Hs.
Qed.

Lemma copy_within_shift {A} (i : nat) (l : list A) (x : A) :
  (i <= length l)%nat ->
  copy_within (i + 1) i (l ++ [x]) = take (i + 1) (l ++ [x]) ++ drop i l.
Proof.
  intros Hi. unfold copy_within. rewrite length_app. simpl.
  replace ((length l + 1 - (i + 1)) `min` (length l + 1 - i))%nat with (length l - i)%nat
    by lia.
  rewrite (drop_ge (l ++ [x]) (i + 1 + (length l - i))) by (rewrite length_app; simpl; lia).
  rewrite app_nil_r. f_equal. rewrite drop_app_le by done.
  rewrite take_app_le by (rewrite length_drop; lia).
  apply take_ge. rewrite length_drop. lia.
Qed.

Lemma insertLocked_ref job jobs : insertLocked job jobs = insert_ref job jobs.
Proof.
  rewrite insert_ref_index. unfold insertLocked.
  set (i := insert_index job jobs).
  assert (i <= length jobs)%nat as Hi by apply insert_index_le. clearbody i.
  rewrite copy_within_shift by (by rewrite length_fmap).
  assert (exists y, take (i + 1) ((Some <$> jobs) ++ [None]) =
    take i (Some <$> jobs) ++ [y]) as [y ->].
  { destruct (lookup_lt_is_Some_2 ((Some <$> jobs) ++ [None]) i) as [y Hy].
    { rewrite length_app, length_fmap. simpl. lia. }
    exists y. rewrite Nat.add_1_r, (take_S_r _ _ _ Hy).
    by rewrite take_app_le by (by rewrite length_fmap). }
  rewrite <- app_assoc. simpl.
  rewrite insert_at_length by (rewrite length_take, length_fmap; lia).
  rewrite <- fmap_take, <- fmap_drop, omap_app. simpl. by rewrite !omap_Some.
Qed.

Lemma insert_ref_perm job jobs : insert_ref job jobs ≡ₚ job :: jobs.
Proof.
  induction jobs as [|cur rest IH]; simpl; [done|].
  case_match; [|done]. rewrite IH. apply Permutation_swap.
Qed.

Lemma job_before_trans x y z :
  job_before x y = true -> job_before y z = true -> job_before x z = true.
Proof. unfold job_before. lia. Qed.

Lemma job_before_total x y : job_before x y = false -> job_before y x = true.
Proof. unfold job_before. lia. Qed.

Lemma insert_ref_ordered job jobs : ordered jobs -> ordered (insert_ref job jobs).
Proof.
  induction 1 as [|cur rest Hrest IH Hcur]; simpl; [repeat constructor|].
  destruct (job_before cur job) eqn:Hb.
  - constructor; [done|]. rewrite insert_ref_perm. by constructor.
  - apply job_before_total in Hb. constructor; [by constructor|].
    constructor; [done|]. eapply Forall_impl; [exact Hcur|].
    intros z Hz. by eapply job_before_trans.
Qed.

Lemma same_key_before x y z : same_key x y = true -> job_before x z = job_before y z.
Proof. unfold same_key, job_before. intros. apply eq_true_iff_eq. lia. Qed.

(** Among jobs of the same key the new one is last; the others keep their
    places. *)
Lemma insert_ref_stable k job jobs : ordered jobs ->
  filter (fun j => same_key k j = true) (insert_ref job jobs) =
  filter (fun j => same_key k j = true) jobs ++
  filter (fun j => same_key k j = true) [job].
Proof.
  induction 1 as [|cur rest Hrest IH Hcur]; [done|]. cbn [insert_ref].
  destruct (job_before cur job) eqn:Hb.
  - rewrite !(filter_cons _ cur), IH. by case_decide.
  - rewrite (filter_cons _ job), (filter_cons _ job []).
    case_decide as Hk; [|by rewrite app_nil_r].
    rewrite (filter_none _ (cur :: rest)); [done|].
    assert (forall z, job_before cur z = true -> same_key k z <> true) as Hz.
    { intros z Hz Hkz. unfold job_before, same_key in *. lia. }
    constructor; [apply Hz; unfold job_before; lia|].
    eapply Forall_impl; [exact Hcur|]. exact Hz.
Qed.

(** ** The operations follow the protocol of the process *)

Section protocol.
Context `{StorageSpec}.
Implicit Types (job : Job).

Lemma prio_held w : sys_inv w -> Forall (fun j => saved (ID j) w) (sq_jobs (w_prio w)).
Proof. by intros [? (?&?&?&?&?)%held_saved_iff]. Qed.

Lemma with_prio_id w : with_prio (w_prio w) w = w.
Proof. by destruct w. Qed.

Lemma prio_Enqueue_lock_safe job w0 : saved (ID job) w0 ->
  safe sys_protocol any_post (Enqueue_lock job) w0.
Proof.
  intros Hj. apply safe_sys_act. intros w HR Hw. cbv zeta. case_match; [done|]. simpl.
  pose proof (prio_held w Hw). edestruct with_prio_inv; [exact Hw|..|by split_and!]; simpl.
  - rewrite insertLocked_ref, insert_ref_perm. constructor; [|done]. eauto with go.
  - rewrite insertLocked_ref. apply insert_ref_ordered, Hw.
  - apply Hw.
Qed.

Lemma prio_case_signal_safe w0 : alt_safe w0 any_post case_signal.
Proof.
  intros w x w' HR Hw. unfold case_signal.
  destruct (chan_has_room _) eqn:Hroom; [|done]. intros [= <- <-].
  edestruct with_prio_inv; [exact Hw|..|by split_and!]; simpl; [by apply prio_held|apply Hw|].
  unfold chan_has_room, chan_ok in *. simpl. rewrite length_app. simpl. lia.
Qed.

Lemma prio_Enqueue_safe job w0 : saved (ID job) w0 ->
  safe sys_protocol any_post (Enqueue job) w0.
Proof.
  intros Hj. eapply (safe_bind _ any_post); [by apply prio_Enqueue_lock_safe|].
  intros w1 [] _ _; [|done]. eapply (safe_bind _ any_post); [|done].
  apply safe_select_default; [|done]. constructor; [apply prio_case_signal_safe|done].
Qed.

Lemma prio_pop_lock_safe w0 :
  safe sys_protocol (fun w r => forall j, r.1 = Some j -> saved (ID j) w) pop_lock w0.
Proof.
  apply safe_sys_act. intros w HR Hw. pose proof (prio_held w Hw) as Hh.
  pose proof (inv_sorted w Hw) as Hs. cbv zeta.
  destruct (sq_jobs (w_prio w)) as [|j rest]; simpl.
  - edestruct with_prio_inv as [? ?]; [exact Hw|..|by split_and!]; [done|constructor|apply Hw].
  - apply Forall_cons in Hh as [Hj Hh]. apply StronglySorted_cons in Hs as [_ Hs].
    edestruct with_prio_inv as [? ?]; [exact Hw|..|split_and!; [done..|]];
      simpl; [done|done|apply Hw|]. intros j0 [= <-]. eauto with go.
Qed.

Lemma prio_case_wait_safe w0 : alt_safe w0 any_post case_wait.
Proof.
  intros w x w' HR Hw. unfold case_wait.
  pose proof (inv_signal w Hw) as Hc. unfold chan_ok in Hc.
  destruct (ch_buf _) as [|u l] eqn:Hbuf; [done|]. intros [= <- <-].
  edestruct with_prio_inv; [exact Hw|..|by split_and!]; simpl; [by apply prio_held|apply Hw|].
  unfold chan_ok in *. simpl in *. rewrite Hbuf in *. simpl in *. lia.
Qed.

Lemma prio_case_done_safe w0 : alt_safe w0 any_post case_done.
Proof. intros w x w' _ Hw. unfold case_done. case_match; [|done]. by intros [= <- <-]. Qed.

Lemma prio_DequeueOrWait_safe d w0 : safe sys_protocol dequeued_post (DequeueOrWait d) w0.
Proof.
  unfold DequeueOrWait. eapply safe_bind; [apply prio_pop_lock_safe|].
  intros w1 [[j|] closed] _ Hj; [by intros ? [= <-]; apply Hj|].
  destruct closed; [by intros ?|].
  eapply (safe_bind _ any_post); [apply safe_sys_now|]. intros w2 t _ _.
  eapply (safe_bind _ any_post).
  { apply safe_select. apply Forall_cons; split; [apply prio_case_wait_safe|].
    apply Forall_cons; split; [apply prio_case_done_safe|].
    apply Forall_singleton. by apply alt_safe_after. }
  intros w3 [] _ _; [|by intros ?|by intros ?].
  eapply safe_bind; [apply prio_pop_lock_safe|]. intros w4 [[j'|] c] _ Hj'; [|by intros ?].
  intros ? [= <-]. by apply Hj'.
Qed.

Lemma prio_Close_safe w0 : safe sys_protocol any_post Close w0.
Proof.
  apply safe_sys_act. intros w HR Hw. cbv zeta. case_match; [done|]. simpl.
  edestruct with_prio_inv; [exact Hw|..|by split_and!]; simpl; [by apply prio_held|apply Hw..].
Qed.

Lemma prio_PendingCount_safe w0 : safe sys_protocol any_post PendingCount w0.
Proof. apply safe_sys_gets. Qed.

Lemma prio_Recover_loop_safe js w0 : Forall (fun j => saved (ID j) w0) js ->
  safe sys_protocol any_post (Recover_loop js) w0.
Proof.
  revert w0. induction js as [|j js IH]; intros w0 Hjs; [done|].
  apply Forall_cons in Hjs as [Hj Hjs]. simpl. case_match; [by apply IH|].
  eapply (safe_bind _ any_post).
  { unfold Recover_job. eapply (safe_bind _ any_post); [sys_tac|].
    intros w1 [e|] HR1 _; [done|].
    eapply (safe_bind _ any_post); [|intros w2 [e|] _ _; done].
    apply prio_Enqueue_safe. case_match; simpl; eauto with go. }
  intros w1 [e|] [HR _] _; [done|]. eapply IH, held_mono; done.
Qed.

Lemma prio_Recover_safe w0 : safe sys_protocol any_post Recover w0.
Proof.
  unfold Recover. eapply safe_bind; [eauto with go|].
  intros w1 [js [e|]] _ Hjs; [done|]. by apply prio_Recover_loop_safe.
Qed.

Lemma prio_sweep_job_safe j w0 : saved (ID j) w0 ->
  safe sys_protocol any_post (sweep_job j) w0.
Proof.
  intros Hj. unfold sweep_job. case_match; [done|]. case_match.
  { eapply (safe_bind _ any_post); [by apply prio_Enqueue_safe|done]. }
  case_match; [|done].
  eapply (safe_bind _ any_post); [sys_tac|]. intros w1 t HR1 _. case_match; [|done].
  eapply (safe_bind _ any_post); [sys_tac|]. intros w2 [e|] HR2 _; [done|].
  eapply (safe_bind _ any_post); [|done]. apply prio_Enqueue_safe. simpl. eauto with go.
Qed.

Lemma prio_sweep_loop_safe js w0 : Forall (fun j => saved (ID j) w0) js ->
  safe sys_protocol any_post (sweep_loop js) w0.
Proof.
  revert w0. induction js as [|j js IH]; intros w0 Hjs; [done|].
  apply Forall_cons in Hjs as [Hj Hjs]. simpl.
  eapply (safe_bind _ any_post); [by apply prio_sweep_job_safe|].
  intros w1 _ [HR _] _. eapply IH, held_mono; done.
Qed.

Lemma prio_sweep_safe w0 : safe sys_protocol any_post sweep w0.
Proof.
  unfold sweep. eapply safe_bind; [eauto with go|].
  intros w1 [js [e|]] _ Hjs; [done|]. by apply prio_sweep_loop_safe.
Qed.

Lemma prio_StartSweeper_safe n d w0 : safe sys_protocol any_post (StartSweeper n d) w0.
Proof. apply safe_go; [|done]. apply safe_sys_every. intros. apply prio_sweep_safe. Qed.

End protocol.
End SortedQueue.
