(* ===== verification/RateLimitedQueue.v ===== *)
(** * The rate-limited queue ([internal/queue/rate_limited.go])

    A [MemoryQueue] with a token bucket.  The ticker of the refill goroutine is
    part of the queue's state: it fires every [interval] from the start of the
    goroutine on. *)

From S2P Require Import Prelude Go Models World Metrics Sql Storage Invariant.
From S2P Require Import MemoryQueue.

Module RateLimitedQueue.
Section with_storage.
Context `{Storage}.

Definition with_tokens (n : Z) (q : RateLimitedQueue) : RateLimitedQueue :=
  mkRateLimitedQueue (rq_memory q) (rq_rate q) (rq_burst q) n (rq_stopRefill q) (rq_ticker q).
Definition with_ticker (t : Z) (q : RateLimitedQueue) : RateLimitedQueue :=
  mkRateLimitedQueue (rq_memory q) (rq_rate q) (rq_burst q) (rq_tokens q) (rq_stopRefill q) t.

(** [time.Minute / time.Duration(q.rate)]: the division truncates. *)
Definition refill_interval (rate : Z) : Z := Z.quot Minute rate.

(** The tick: under the mutex, one token more up to the burst. *)
Definition add_token (q : RateLimitedQueue) : RateLimitedQueue :=
  if rq_tokens q <? rq_burst q then with_tokens (rq_tokens q + 1) q else q.

(** When the ticker fires next, a tick being received at [t]: its channel keeps
    one tick, the others that fell due meanwhile are dropped. *)
Definition next_tick (t : Z) (q : RateLimitedQueue) : Z :=
  rq_ticker q + refill_interval (rq_rate q) *
    ((t - rq_ticker q) / refill_interval (rq_rate q) + 1).

(** The cases of the refill loop: a tick, or the end. *)
Definition case_tick : alt bool := fun w =>
  let q := w_rl w in
  if rq_ticker q <=? w_clock w then
    Some (true, with_rl (with_ticker (next_tick (w_clock w) q) q) w)
  else None.
Definition case_stop : alt bool := fun w =>
  if rq_stopRefill (w_rl w) then Some (false, w) else None.

(** One turn of the refill goroutine; [false] when it returns. *)
Definition refill_turn : M bool :=
  t ← gets (fun w => rq_ticker (w_rl w));
  tick ← select_ [case_tick; case_stop] (Some t);
  if (tick : bool) then modify (fun w => with_rl (add_token (w_rl w)) w);; Ret true
  else Ret false.

Fixpoint refill_loop (n : nat) : M unit :=
  match n with
  | O => OutOfFuel
  | S n =>
      more ← refill_turn;
      if (more : bool) then refill_loop n else Ret tt
  end.

(** The refill goroutine: [time.NewTicker] panics on an interval that is not
    positive, and starts the ticker otherwise. *)
Definition refill (n : nat) (interval : Z) : M unit :=
  if interval <=? 0 then Throw "non-positive interval for NewTicker"
  else
    modify (fun w => with_rl (with_ticker (w_clock w + interval) (w_rl w)) w);;
    refill_loop n.

(** [startRefill]: a zero rate divides by zero. *)
Definition startRefill (n : nat) : M unit :=
  rate ← gets (fun w => rq_rate (w_rl w));
  if rate =? 0 then Throw "integer divide by zero"
  else go (refill n (refill_interval rate)).

(** [NewRateLimitedQueue] *)
Definition NewRateLimitedQueue (n : nat) (bufferSize ratePerMinute burst : Z) : M unit :=
  if bufferSize <? 0 then Throw "makechan: size out of range"
  else
    modify (with_rl (mkRateLimitedQueue
      (mkMemoryQueue (make_chan (Z.to_nat bufferSize)) 0 false false)
      ratePerMinute burst burst false 0));;
    startRefill n.

(** ** Taking a token *)

(** The critical section of the wait loop. *)
Definition take_token (q : RateLimitedQueue) : option RateLimitedQueue :=
  if 0 <? rq_tokens q then Some (with_tokens (rq_tokens q - 1) q) else None.

(** The loop polls every 100 ms; [fuel] bounds the polls. *)
Fixpoint wait_for_token (fuel : nat) : M unit :=
  match fuel with
  | O => OutOfFuel
  | S fuel =>
      ok ← act_ (fun w => match take_token (w_rl w) with
                          | Some q => (true, with_rl q w)
                          | None => (false, w)
                          end);
      if (ok : bool) then Ret tt
      else sleep (100 * Millisecond);; wait_for_token fuel
  end.

(** [Dequeue] *)
Definition Dequeue (fuel : nat) : M (option Job * option error) :=
  '(job, err) ← MemoryQueue.Dequeue RateLimitedRef;
  match job with
  | None => Ret (None, err)
  | Some job => wait_for_token fuel;; Ret (Some job, None)
  end.

(** [DequeueOrWait]: the receive and the timer, then the token. *)
Definition DequeueOrWait (fuel : nat) (d : Z) : M (option Job * option error) :=
  t ← now;
  job ← select_ [MemoryQueue.case_receive RateLimitedRef; after (t + d) None]
          (Some (t + d));
  match job with
  | None => Ret (None, None)
  | Some job => wait_for_token fuel;; Ret (Some job, None)
  end.

Definition AvailableTokens : M Z := gets (fun w => rq_tokens (w_rl w)).

(** [Close]: [close(q.stopRefill)] panics the second time. *)
Definition Close : M (option error) :=
  ok ← act_ (fun w =>
    let q := w_rl w in
    if rq_stopRefill q then (false, w)
    else (true, with_rl (mkRateLimitedQueue (rq_memory q) (rq_rate q) (rq_burst q)
                           (rq_tokens q) true (rq_ticker q)) w));
  if (ok : bool) then MemoryQueue.Close RateLimitedRef
  else Throw "close of closed channel".

(** The methods it takes from the embedded queue. *)
Definition Enqueue (job : Job) : M (option error) :=
  MemoryQueue.Enqueue RateLimitedRef job.
Definition PendingCount : M Z := MemoryQueue.PendingCount RateLimitedRef.
Definition Recover : M (option error) := MemoryQueue.Recover RateLimitedRef.
Definition sweep : M unit := MemoryQueue.sweep RateLimitedRef.
Definition StartSweeper (n : nat) (interval : Z) : M unit :=
  MemoryQueue.StartSweeper RateLimitedRef n interval.

End with_storage.

(** ** The operations follow the protocol of the process *)

Section protocol.
Context `{StorageSpec}.

(** Changing the bucket and the ticker, not the queue underneath. *)
Lemma with_rl_inv q w :
  sys_inv w -> rq_memory q = rq_memory (w_rl w) ->
  Z.min 0 (rq_burst q) <= rq_tokens q <= rq_burst q ->
  sys_inv (with_rl q w) /\ sys_le w (with_rl q w).
Proof.
  intros [] Hm Ht. split; [|by apply sys_le_same]. constructor; simpl; try done.
  - unfold held. simpl. by rewrite Hm.
  - by rewrite Hm.
Qed.

Lemma refill_turn_safe w0 : safe sys_protocol any_post refill_turn w0.
Proof.
  unfold refill_turn. eapply (safe_bind _ any_post); [apply safe_sys_gets|]. intros w1 t _ _.
  eapply (safe_bind _ any_post).
  { apply safe_select. apply Forall_cons; split; [|apply Forall_singleton].
    - intros w x w' _ Hw. unfold case_tick. case_match; [|done]. intros [= <- <-].
      destruct (with_rl_inv (with_ticker (next_tick (w_clock w) (w_rl w)) (w_rl w)) w);
        [done|done|apply Hw|done].
    - intros w x w' _ Hw. unfold case_stop. case_match; [|done]. by intros [= <- <-]. }
  intros w2 [] _ _; [|done]. eapply (safe_bind _ any_post); [|done].
  apply safe_sys_act. intros w _ Hw. simpl. pose proof (inv_tokens w Hw).
  destruct (with_rl_inv (add_token (w_rl w)) w); [done|..|done];
    unfold add_token; case_match; simpl; try done; lia.
Qed.

Lemma refill_safe n interval w0 : safe sys_protocol any_post (refill n interval) w0.
Proof.
  unfold refill. case_match; [done|]. eapply (safe_bind _ any_post).
  - apply safe_sys_act. intros w _ Hw. simpl.
    edestruct with_rl_inv; [exact Hw|..|by split_and!]; simpl; [done|apply Hw].
  - intros w1 _ _ _. clear. revert w1. induction n as [|n IH]; intros w1; [done|].
    cbn [refill_loop]. eapply (safe_bind _ any_post); [apply refill_turn_safe|].
    by intros w2 [] _ _.
Qed.

Lemma startRefill_safe n w0 : safe sys_protocol any_post (startRefill n) w0.
Proof.
  eapply (safe_bind _ any_post); [apply safe_sys_gets|]. intros w1 rate _ _.
  case_match; [done|]. apply safe_go; [apply refill_safe|done].
Qed.

Lemma wait_for_token_safe fuel w0 : safe sys_protocol any_post (wait_for_token fuel) w0.
Proof.
  revert w0. induction fuel as [|fuel IH]; intros w0; [done|]. cbn [wait_for_token].
  eapply (safe_bind _ any_post).
  - apply safe_sys_act. intros w _ Hw. pose proof (inv_tokens w Hw).
    unfold take_token. case_match; simplify_eq; [|done]. simpl.
    case_match; simplify_eq. edestruct with_rl_inv; [exact Hw|..|by split_and!]; simpl; [done|lia].
  - intros w1 [] _ _; [done|]. eapply (safe_bind _ any_post); [apply safe_sys_sleep|]. auto.
Qed.

Lemma rl_DequeueOrWait_safe fuel d w0 :
  safe sys_protocol dequeued_post (DequeueOrWait fuel d) w0.
Proof.
  eapply (safe_bind _ any_post); [apply safe_sys_now|]. intros w1 t _ _.
  eapply (safe_bind _ (fun w r => forall j, r = Some j -> saved (ID j) w)).
  { apply safe_select. apply Forall_cons; split; [apply MemoryQueue.safe_case_receive|].
    apply Forall_singleton. by apply alt_safe_after. }
  intros w2 [j|] _ Hj; [|by intros ?].
  eapply (safe_bind _ any_post); [apply wait_for_token_safe|].
  intros w3 _ HR _ j0 [= <-]. eauto with go.
Qed.

Lemma AvailableTokens_safe w0 : safe sys_protocol any_post AvailableTokens w0.
Proof. apply safe_sys_gets. Qed.

Lemma rl_Close_safe w0 : safe sys_protocol any_post Close w0.
Proof.
  eapply (safe_bind _ any_post).
  - apply safe_sys_act. intros w _ Hw. cbv zeta. case_match; [done|]. simpl.
    edestruct with_rl_inv; [exact Hw|..|by split_and!]; simpl; [done|apply Hw].
  - intros w1 [] _ _; [|done]. apply MemoryQueue.safe_Close.
Qed.

End protocol.
End RateLimitedQueue.
