(* ===== verification/Router.v ===== *)
(** * The router ([internal/queue/router.go])

    Holds the three queues: a job goes to the queue of its type, workers poll
    the queues in a fixed order, and everything done with a job afterwards
    goes through the FIFO queue. *)

From S2P Require Import Prelude Go Models World Metrics Sql Storage Invariant.
From S2P Require Import MemoryQueue SortedQueue RateLimitedQueue.

Module Router.
Section with_storage.
Context `{Storage}.

Definition Enqueue (job : Job) : M (option error) :=
  if (QueueType job =? QueueTypePriority)%string then SortedQueue.Enqueue job
  else if (QueueType job =? QueueTypeRateLimited)%string then RateLimitedQueue.Enqueue job
  else MemoryQueue.Enqueue FIFORef job.

(** What the loops keep of one attempt: [err == nil && job != nil]. *)
Definition attempt (r : option Job * option error) : option Job :=
  match r with
  | (job, None) => job
  | (_, Some _) => None
  end.

(** The body of the loops, up to the sleep: priority, then rate-limited when a
    token was there, then FIFO. *)
Definition poll (fuel : nat) : M (option Job) :=
  r ← SortedQueue.DequeueOrWait 0;
  match attempt r with
  | Some job => Ret (Some job)
  | None =>
      tokens ← RateLimitedQueue.AvailableTokens;
      r ← (if 0 <? tokens then RateLimitedQueue.DequeueOrWait fuel 0 else Ret (None, None));
      match attempt r with
      | Some job => Ret (Some job)
      | None =>
          r ← MemoryQueue.DequeueOrWait FIFORef 0;
          Ret (attempt r)
      end
  end.

(** [rounds] bounds the loop, [fuel] the wait for a token in one round. *)
Fixpoint Dequeue (fuel rounds : nat) : M (option Job * option error) :=
  match rounds with
  | O => OutOfFuel
  | S rounds =>
      r ← poll fuel;
      match r with
      | Some job => Ret (Some job, None)
      | None => sleep (20 * Millisecond);; Dequeue fuel rounds
      end
  end.

Fixpoint DequeueOrWait_loop (fuel rounds : nat) (deadline : Z) :
    M (option Job * option error) :=
  match rounds with
  | O => OutOfFuel
  | S rounds =>
      t ← now;
      if t <? deadline then
        r ← poll fuel;
        match r with
        | Some job => Ret (Some job, None)
        | None => sleep (10 * Millisecond);; DequeueOrWait_loop fuel rounds deadline
        end
      else Ret (None, None)
  end.

Definition DequeueOrWait (fuel rounds : nat) (d : Z) : M (option Job * option error) :=
  t ← now;
  DequeueOrWait_loop fuel rounds (t + d).

Definition Ack (jobID : string) : M (option error) := MemoryQueue.Ack jobID.
Definition Nack (jobID : string) : M (option error) := MemoryQueue.Nack FIFORef jobID.

Definition PendingCount : M Z :=
  a ← MemoryQueue.PendingCount FIFORef;
  b ← SortedQueue.PendingCount;
  c ← RateLimitedQueue.PendingCount;
  Ret (a + b + c).

Definition SetProcessing (jobID : string) : M (option error) :=
  MemoryQueue.SetProcessing jobID.
Definition Requeue (jobID : string) : M (option error) :=
  MemoryQueue.Requeue FIFORef jobID.
Definition Retry (jobID : string) (extraRetries : Z) : M (option error) :=
  MemoryQueue.Retry FIFORef jobID extraRetries.

(** Errors of the three are logged. *)
Definition Close : M (option error) :=
  MemoryQueue.Close FIFORef;;
  SortedQueue.Close;;
  RateLimitedQueue.Close;;
  Ret None.

Definition Recover : M (option error) :=
  err ← MemoryQueue.Recover FIFORef;
  match err with
  | Some err => Ret (Some (Wrap "fifo recover" err))
  | None =>
      err ← SortedQueue.Recover;
      match err with
      | Some err => Ret (Some (Wrap "priority recover" err))
      | None =>
          err ← RateLimitedQueue.Recover;
          match err with
          | Some err => Ret (Some (Wrap "rate-limited recover" err))
          | None => Ret None
          end
      end
  end.

End with_storage.

(** ** The operations follow the protocol of the process *)

Section protocol.
Context `{StorageSpec}.

Lemma router_Enqueue_safe job w0 : saved (ID job) w0 ->
  safe sys_protocol any_post (Enqueue job) w0.
Proof.
  intros Hj. unfold Enqueue. repeat case_match.
  - by apply SortedQueue.prio_Enqueue_safe.
  - by apply MemoryQueue.safe_Enqueue.
  - by apply MemoryQueue.safe_Enqueue.
Qed.

Definition polled_post (w : World) (r : option Job) : Prop :=
  forall j, r = Some j -> saved (ID j) w.

Lemma attempt_post w r : dequeued_post w r -> polled_post w (attempt r).
Proof. destruct r as [[j|] [e|]]; intros Hr j' Hj; try done. by apply Hr. Qed.

Lemma poll_safe fuel w0 : safe sys_protocol polled_post (poll fuel) w0.
Proof.
  unfold poll. eapply safe_bind; [apply SortedQueue.prio_DequeueOrWait_safe|].
  intros w1 r1 _ Hr1. pose proof (attempt_post _ _ Hr1) as Ha.
  destruct (attempt r1) as [j|]; [by intros ? [= <-]; apply Ha|].
  eapply (safe_bind _ any_post); [apply RateLimitedQueue.AvailableTokens_safe|].
  intros w2 n _ _. eapply (safe_bind _ dequeued_post).
  { case_match; [apply RateLimitedQueue.rl_DequeueOrWait_safe|]. by intros ?. }
  intros w3 r3 _ Hr3. pose proof (attempt_post _ _ Hr3) as Ha3.
  destruct (attempt r3) as [j|]; [by intros ? [= <-]; apply Ha3|].
  eapply safe_bind; [apply MemoryQueue.safe_DequeueOrWait|].
  intros w4 r4 _ Hr4. by apply attempt_post.
Qed.

Lemma router_DequeueOrWait_loop_safe fuel rounds t w0 :
  safe sys_protocol dequeued_post (DequeueOrWait_loop fuel rounds t) w0.
Proof.
  revert w0. induction rounds as [|rounds IH]; intros w0; [done|].
  cbn [DequeueOrWait_loop]. eapply (safe_bind _ any_post); [apply safe_sys_now|].
  intros w1 t1 _ _. case_match; [|by intros ?].
  eapply safe_bind; [apply poll_safe|]. intros w2 [j|] _ Hj.
  - intros ? [= <-]. by apply Hj.
  - eapply (safe_bind _ any_post); [apply safe_sys_sleep|]. auto.
Qed.

Lemma router_DequeueOrWait_safe fuel rounds d w0 :
  safe sys_protocol dequeued_post (DequeueOrWait fuel rounds d) w0.
Proof.
  eapply (safe_bind _ any_post); [apply safe_sys_now|].
  intros. apply router_DequeueOrWait_loop_safe.
Qed.

Lemma router_PendingCount_safe w0 : safe sys_protocol any_post PendingCount w0.
Proof.
  unfold PendingCount, RateLimitedQueue.PendingCount.
  repeat (eapply (safe_bind _ any_post); [apply safe_sys_gets|intros ? ? _ _]). done.
Qed.

Lemma router_Close_safe w0 : safe sys_protocol any_post Close w0.
Proof.
  unfold Close.
  eapply (safe_bind _ any_post); [apply MemoryQueue.safe_Close|intros ? ? _ _].
  eapply (safe_bind _ any_post); [apply SortedQueue.prio_Close_safe|intros ? ? _ _].
  eapply (safe_bind _ any_post); [apply RateLimitedQueue.rl_Close_safe|done].
Qed.

Lemma router_Recover_safe w0 : safe sys_protocol any_post Recover w0.
Proof.
  unfold Recover, RateLimitedQueue.Recover.
  eapply (safe_bind _ any_post); [apply MemoryQueue.safe_Recover|intros ? [e|] _ _; [done|]].
  eapply (safe_bind _ any_post); [apply SortedQueue.prio_Recover_safe|intros ? [e|] _ _; [done|]].
  eapply (safe_bind _ any_post); [apply MemoryQueue.safe_Recover|by intros ? [e|] _ _].
Qed.

End protocol.
End Router.
