(* ===== verification/Queue.v ===== *)
(** * The queue interface ([internal/queue/interface.go])

    What the worker pool and the API call.  The three queues and the router
    implement it; [main] gives the router to both. *)

From S2P Require Import Prelude Go Models World Metrics Sql Storage Invariant.
From S2P Require Import MemoryQueue SortedQueue RateLimitedQueue Router.

Class Queue := {
  q_Enqueue : Job -> M (option error);
  q_Dequeue : M (option Job * option error);
  q_Ack : string -> M (option error);
  q_Nack : string -> M (option error);
  q_PendingCount : M Z;
  q_Close : M (option error);
  q_SetProcessing : string -> M (option error);
  q_Requeue : string -> M (option error);
  q_Retry : string -> Z -> M (option error);
  q_DequeueOrWait : Z -> M (option Job * option error);
}.

(** The router as a [Queue]; the numbers bound its polling loops. *)
Definition router_queue `{Storage} (fuel rounds : nat) : Queue := {|
  q_Enqueue := Router.Enqueue;
  q_Dequeue := Router.Dequeue fuel rounds;
  q_Ack := Router.Ack;
  q_Nack := Router.Nack;
  q_PendingCount := Router.PendingCount;
  q_Close := Router.Close;
  q_SetProcessing := Router.SetProcessing;
  q_Requeue := Router.Requeue;
  q_Retry := Router.Retry;
  q_DequeueOrWait := Router.DequeueOrWait fuel rounds;
|}.

(** What a queue promises its clients of the protocol of the process. *)
Class QueueSafe `{Queue} : Prop := {
  queue_safe_enqueue j w : saved (ID j) w -> safe sys_protocol any_post (q_Enqueue j) w;
  queue_safe_ack i w : safe sys_protocol any_post (q_Ack i) w;
  queue_safe_nack i w : safe sys_protocol any_post (q_Nack i) w;
  queue_safe_count w : safe sys_protocol any_post q_PendingCount w;
  queue_safe_processing i w : safe sys_protocol any_post (q_SetProcessing i) w;
  queue_safe_requeue i w : safe sys_protocol any_post (q_Requeue i) w;
  queue_safe_retry i n w : 0 <= n -> safe sys_protocol any_post (q_Retry i n) w;
  queue_safe_wait d w : safe sys_protocol dequeued_post (q_DequeueOrWait d) w;
}.
#[export] Hint Resolve queue_safe_enqueue queue_safe_ack queue_safe_nack queue_safe_count
  queue_safe_processing queue_safe_requeue queue_safe_retry queue_safe_wait : go.

Lemma router_queue_safe `{StorageSpec} fuel rounds : @QueueSafe (router_queue fuel rounds).
Proof.
  split; simpl; intros.
  - by apply Router.router_Enqueue_safe.
  - apply MemoryQueue.safe_Ack.
  - apply MemoryQueue.safe_Nack.
  - apply Router.router_PendingCount_safe.
  - apply MemoryQueue.safe_SetProcessing.
  - apply MemoryQueue.safe_Requeue.
  - by apply MemoryQueue.safe_Retry.
  - apply Router.router_DequeueOrWait_safe.
Qed.
