(* ===== verification/Worker.v ===== *)
(** * The worker pool ([internal/worker/pool.go])

    The pool's slices are lists indexed by the worker's number.  A critical
    section of [p.mu] is one action.  The loops of the workers and of the
    supervisor take a bound on their rounds. *)

From S2P Require Import Prelude Go Models World Metrics Sql Storage Invariant Queue.

(** [worker.Processor] *)
Class Processor := {
  Process : nat -> Job -> M (option error);
}.

Module Context.

(** [context.WithTimeout(context.Background(), d)]: the number of the new
    context. *)
Definition WithTimeout (d : Z) : M nat :=
  act_ (fun w => (length (w_ctxs w),
                  with_ctxs (w_ctxs w ++ [mkContext (w_clock w + d) None]) w)).

(** [ctx.Err()] *)
Definition err_at (t : Z) (c : Context_) : option error :=
  match ctx_err c with
  | Some e => Some e
  | None => if ctx_deadline c <=? t then Some DeadlineExceeded else None
  end.
Definition Err (i : nat) : M (option error) :=
  gets (fun w => match w_ctxs w !! i with Some c => err_at (w_clock w) c | None => None end).

(** The cancel function: the first ending of a context stays. *)
Definition cancel_ctx (t : Z) (c : Context_) : Context_ :=
  match err_at t c with
  | Some e => mkContext (ctx_deadline c) (Some e)
  | None => mkContext (ctx_deadline c) (Some Canceled)
  end.
Definition cancel_in (i : nat) (w : World) : World :=
  with_ctxs (alter (cancel_ctx (w_clock w)) i (w_ctxs w)) w.

End Context.

Module Pool.

Definition with_workers (l : list (option workerState)) (p : Pool) : Pool :=
  mkPool (p_count p) (p_timeout p) (p_cooldown p) (p_wg p) (p_done p) l
    (p_preemptQueue p) (p_preemptSignal p) (p_workerDied p) (p_aliveWorkers p).
Definition with_preemptQueue (l : list (option Job)) (p : Pool) : Pool :=
  mkPool (p_count p) (p_timeout p) (p_cooldown p) (p_wg p) (p_done p) (p_workers p)
    l (p_preemptSignal p) (p_workerDied p) (p_aliveWorkers p).
Definition with_wg (n : Z) (p : Pool) : Pool :=
  mkPool (p_count p) (p_timeout p) (p_cooldown p) n (p_done p) (p_workers p)
    (p_preemptQueue p) (p_preemptSignal p) (p_workerDied p) (p_aliveWorkers p).
Definition with_alive (n : Z) (p : Pool) : Pool :=
  mkPool (p_count p) (p_timeout p) (p_cooldown p) (p_wg p) (p_done p) (p_workers p)
    (p_preemptQueue p) (p_preemptSignal p) (p_workerDied p) n.
Definition with_workerDied (c : chan Z) (p : Pool) : Pool :=
  mkPool (p_count p) (p_timeout p) (p_cooldown p) (p_wg p) (p_done p) (p_workers p)
    (p_preemptQueue p) (p_preemptSignal p) c (p_aliveWorkers p).
Definition pool_map (f : Pool -> Pool) (w : World) : World := with_pool (f (w_pool w)) w.

(** [NewPool]; [make] panics on a negative length. *)
Definition NewPool (workers timeout cooldown : Z) : M unit :=
  if workers <? 0 then Throw "makeslice: len out of range"
  else
    let n := Z.to_nat workers in
    modify (with_pool (mkPool workers timeout cooldown 0 false
      (replicate n None) (replicate n None) (replicate n None) (make_chan n) 0)).

(** [Stop] *)
Definition Stop : M unit :=
  ok ← act_ (fun w =>
    let p := w_pool w in
    if p_done p then (false, w)
    else (true, with_pool (mkPool (p_count p) (p_timeout p) (p_cooldown p) (p_wg p) true
           (p_workers p) (p_preemptQueue p) (p_preemptSignal p) (p_workerDied p)
           (p_aliveWorkers p)) w));
  if (ok : bool) then Ret tt else Throw "close of closed channel".

(** [Wait] *)
Definition Wait : M unit :=
  Act (fun w => if p_wg (w_pool w) =? 0 then Go tt w else Park None) Ret.

Definition ExpectedWorkers : M Z := gets (fun w => p_count (w_pool w)).
Definition AliveWorkers : M Z := gets (fun w => p_aliveWorkers (w_pool w)).

(** ** [Preempt] *)

Inductive preempt_case :=
| Preemptable (i : nat) (current : Job) (c : option nat)
| NothingPreemptable
| NilWorker
| SlotOutOfRange.

(** The loop over the workers, from worker [i] on. *)
Fixpoint find_preemptable (i : nat) (ws : list (option workerState))
    (slots : list (option Job)) : preempt_case :=
  match ws with
  | [] => NothingPreemptable
  | None :: _ => NilWorker
  | Some w :: ws =>
      match currentJob w with
      | Some job =>
          if Priority job =? PriorityNormal then
            match slots !! i with
            | Some None => Preemptable i job (cancel w)
            | Some (Some _) => find_preemptable (S i) ws slots
            | None => SlotOutOfRange
            end
          else find_preemptable (S i) ws slots
      | None => find_preemptable (S i) ws slots
      end
  end.

(** Everything but the panics happens under the mutex. *)
Definition Preempt (job : Job) : M (string * option error) :=
  r ← act_ (fun w =>
    let p := w_pool w in
    match find_preemptable 0 (p_workers p) (p_preemptQueue p) with
    | Preemptable i current (Some c) =>
        (inl (Some (ID current)),
         pool_map (with_preemptQueue (<[i := Some job]> (p_preemptQueue p)))
           (Context.cancel_in c
              (with_met (preempted_add (QueueType current) 1 (w_met w)) w)))
    | Preemptable _ current None =>
        (inr "nil pointer dereference",
         with_met (preempted_add (QueueType current) 1 (w_met w)) w)
    | NothingPreemptable => (inl None, w)
    | NilWorker => (inr "nil pointer dereference", w)
    | SlotOutOfRange => (inr "index out of range", w)
    end);
  match r with
  | inl (Some preemptedID) => Ret (preemptedID, None)
  | inl None => Ret ("", Some (Errorf "no preemptable job found"))
  | inr msg => Throw msg
  end.

(** ** [processJob] *)

Section with_queue.
Context `{Queue} `{Processor}.

(** [p.workers[id].currentJob = job; p.workers[id].cancel = c] under the
    mutex; a missing worker panics. *)
Definition set_worker (id : nat) (job : option Job) (c : option nat) : M unit :=
  r ← act_ (fun w =>
    let p := w_pool w in
    match p_workers p !! id with
    | Some (Some _) =>
        (None, pool_map (with_workers
                 (<[id := Some (mkWorkerState job c)]> (p_workers p))) w)
    | Some None => (Some "nil pointer dereference", w)
    | None => (Some "index out of range", w)
    end);
  match r with None => Ret tt | Some msg => Throw msg end.

(** What follows [Process]; errors of the queue are logged. *)
Definition finish_job (ctx : nat) (job : Job) (err : option error) : M unit :=
  match err with
  | Some _ =>
      cerr ← Context.Err ctx;
      match cerr with
      | Some Canceled => q_Requeue (ID job);; Ret tt
      | _ => q_Nack (ID job);; Ret tt
      end
  | None => q_Ack (ID job);; Ret tt
  end.

Definition processJob (workerID : nat) (job : Job) : M unit :=
  t ← now;
  metric (wait_observe (QueueType job) (t - CreatedAt job));;
  q_SetProcessing (ID job);;
  timeout ← gets (fun w => p_timeout (w_pool w));
  ctx ← Context.WithTimeout timeout;
  set_worker workerID (Some job) (Some ctx);;
  defer_ (modify (Context.cancel_in ctx);; set_worker workerID None None)
    (metric (busy_add 1);;
     defer_ (metric (busy_add (-1)))
       (start ← now;
        err ← Process ctx job;
        t ← now;
        metric (processing_observe (QueueType job) (t - start));;
        finish_job ctx job err)).

(** ** [worker] *)

(** Under the mutex: the preempting job is taken out of the slot. *)
Definition take_slot (id : nat) : M (option Job) :=
  r ← act_ (fun w =>
    let p := w_pool w in
    match p_preemptQueue p !! id with
    | Some slot => (inl slot, pool_map (with_preemptQueue (<[id := None]> (p_preemptQueue p))) w)
    | None => (inr "index out of range", w)
    end);
  match r with inl slot => Ret slot | inr msg => Throw msg end.

(** One turn of the loop; [false] when the worker returns. *)
Definition worker_turn (id : nat) : M bool :=
  stopped ← gets (fun w => p_done (w_pool w));
  if (stopped : bool) then Ret false
  else
    preemptJob ← take_slot id;
    cooldown ← gets (fun w => p_cooldown (w_pool w));
    match preemptJob with
    | Some job => processJob id job;; sleep cooldown;; Ret true
    | None =>
        '(job, err) ← q_DequeueOrWait (100 * Millisecond);
        match err, job with
        | Some _, _ => sleep (50 * Millisecond);; Ret true
        | None, None => Ret true
        | None, Some job => processJob id job;; sleep cooldown;; Ret true
        end
    end.

Fixpoint worker_loop (rounds id : nat) : M unit :=
  match rounds with
  | O => OutOfFuel
  | S rounds =>
      more ← worker_turn id;
      if (more : bool) then worker_loop rounds id else Ret tt
  end.

(** The deferred send of the worker's number; a full channel drops it. *)
Definition death_signal (id : nat) : M unit :=
  select_default
    [fun w =>
       let p := w_pool w in
       if chan_has_room (p_workerDied p) then
         Some (tt, pool_map (with_workerDied (chan_push (Z.of_nat id) (p_workerDied p))) w)
       else None] tt.

(** [p.wg.Done()] *)
Definition wg_done : M unit :=
  ok ← act_ (fun w =>
    if p_wg (w_pool w) <=? 0 then (false, w)
    else (true, pool_map (with_wg (p_wg (w_pool w) - 1)) w));
  if (ok : bool) then Ret tt else Throw "sync: negative WaitGroup counter".

(** [p.aliveWorkers.Add(n)] *)
Definition alive_add (n : Z) : M unit :=
  modify (fun w => pool_map (with_alive (p_aliveWorkers (w_pool w) + n)) w).

(** [defer p.recoverWorker(id)]: a panic of the body stops here. *)
Definition recoverWorker (body : M unit) : M unit := catch body (fun _ => Ret tt).

Definition worker (rounds id : nat) : M unit :=
  alive_add 1;;
  defer_ (alive_add (-1))
    (defer_ wg_done
       (recoverWorker (defer_ (death_signal id) (worker_loop rounds id)))).

(** ** [supervise] *)

Inductive supervise_case := PoolDone | Died (id : Z).

Definition case_pool_done : alt supervise_case := fun w =>
  if p_done (w_pool w) then Some (PoolDone, w) else None.
Definition case_died : alt supervise_case := fun w =>
  let p := w_pool w in
  match ch_buf (p_workerDied p) with
  | id :: _ => Some (Died id, pool_map (with_workerDied (chan_rest (p_workerDied p))) w)
  | [] => None
  end.

(** One turn of the supervisor: [false] when it returns. *)
Definition supervise_turn (rounds : nat) : M bool :=
  c ← select_ [case_pool_done; case_died] None;
  match c with
  | PoolDone => Ret false
  | Died id =>
      t ← now;
      restart ← select_ [after (t + 1 * Second) true;
                         fun w => if p_done (w_pool w) then Some (false, w) else None]
                  (Some (t + 1 * Second));
      if (restart : bool) then
        modify (fun w => pool_map (with_wg (p_wg (w_pool w) + 1)) w);;
        go (worker rounds (Z.to_nat id));;
        Ret true
      else Ret false
  end.

(** [n] bounds the turns, [rounds] those of the workers it starts. *)
Fixpoint supervise (rounds n : nat) : M unit :=
  match n with
  | O => OutOfFuel
  | S n =>
      more ← supervise_turn rounds;
      if (more : bool) then supervise rounds n else Ret tt
  end.

(** ** [Start] *)

(** The body of its loop up to [go]. *)
Definition start_slot (i : nat) : M unit :=
  ok ← act_ (fun w =>
    let p := w_pool w in
    if (i <? length (p_workers p))%nat && (i <? length (p_preemptSignal p))%nat then
      (true,
       with_pool (mkPool (p_count p) (p_timeout p) (p_cooldown p) (p_wg p + 1) (p_done p)
         (<[i := Some (mkWorkerState None None)]> (p_workers p)) (p_preemptQueue p)
         (<[i := Some (make_chan 1)]> (p_preemptSignal p))
         (p_workerDied p) (p_aliveWorkers p)) w)
    else (false, w));
  if (ok : bool) then Ret tt else Throw "index out of range".

(** The loop from worker [i] on, [n] workers being left. *)
Fixpoint start_workers (rounds i n : nat) : M unit :=
  match n with
  | O => Ret tt
  | S n => start_slot i;; go (worker rounds i);; start_workers rounds (S i) n
  end.

Definition Start (rounds : nat) : M unit :=
  count ← gets (fun w => p_count (w_pool w));
  start_workers rounds 0 (Z.to_nat count);;
  go (supervise rounds rounds).

End with_queue.

(** ** The operations follow the protocol of the process *)

(** What the pool expects of a processor. *)
Class ProcessorSafe `{Processor} : Prop := {
  process_safe ctx j w : safe sys_protocol any_post (Process ctx j) w;
}.

Section protocol.
Context `{QueueSafe} `{ProcessorSafe}.

Lemma WithTimeout_safe d w0 :
  safe sys_protocol (fun w c => (c < length (w_ctxs w))%nat) (Context.WithTimeout d) w0.
Proof.
  apply safe_sys_act. intros w _ []. simpl. split_and!.
  - constructor; try done. simpl. eapply Forall_impl; [done|]. intros ws Hws s Hs Hj.
    destruct (Hws s Hs Hj) as (c & ? & ?). exists c. split; [done|]. rewrite length_app. lia.
  - split; [intros i r Hr; by exists r|]. simpl. rewrite length_app. lia.
  - rewrite length_app. simpl. lia.
Qed.

Lemma length_cancel_in c w : length (w_ctxs (Context.cancel_in c w)) = length (w_ctxs w).
Proof. apply length_alter. Qed.

Lemma cancel_in_inv c w : sys_inv w ->
  sys_inv (Context.cancel_in c w) /\ sys_le w (Context.cancel_in c w).
Proof.
  intros []. split.
  - constructor; try done. by rewrite length_cancel_in.
  - split; [intros i r Hr; by exists r|]. by rewrite length_cancel_in.
Qed.

(** Replacing the pool's fields that hold jobs. *)
Lemma with_pool_inv p w :
  sys_inv w ->
  Forall (fun j => saved (ID j) w) (slot_jobs p) ->
  Forall (fun j => saved (ID j) w) (running_jobs p) ->
  chan_ok (p_workerDied p) -> Forall (worker_ok (length (w_ctxs w))) (p_workers p) ->
  length (p_preemptQueue p) = length (p_workers p) ->
  p_count p = Z.of_nat (length (p_workers p)) ->
  sys_inv (with_pool p w) /\ sys_le w (with_pool p w).
Proof.
  intros [? (?&?&?&?&?)%held_saved_iff] Hs Hr Hd Hw Hl Hc. split; [|by apply sys_le_same].
  constructor; simpl; try done. by apply held_saved_iff.
Qed.

Lemma pool_held w : sys_inv w ->
  Forall (fun j => saved (ID j) w) (slot_jobs (w_pool w)) /\
  Forall (fun j => saved (ID j) w) (running_jobs (w_pool w)).
Proof. by intros [? (?&?&?&?&?)%held_saved_iff]. Qed.

Lemma Forall_omap_insert {A} (P : Job -> Prop) (f : A -> option Job) l i x :
  Forall P (omap f l) -> (forall j, f x = Some j -> P j) -> Forall P (omap f (<[i := x]> l)).
Proof.
  rewrite !Forall_forall. intros Hl Hx j (y & Hy & Hj)%list_elem_of_omap.
  apply list_elem_of_lookup in Hy as [k Hk]. apply list_lookup_insert_Some in Hk.
  destruct Hk as [(_ & <- & _)|[_ Hk]]; [auto|]. apply Hl, list_elem_of_omap.
  exists y. split; [by eapply list_elem_of_lookup_2|done].
Qed.

Lemma set_worker_safe id job c w0 :
  (forall j, job = Some j -> saved (ID j) w0 /\ exists n, c = Some n /\ (n < length (w_ctxs w0))%nat) ->
  safe sys_protocol any_post (set_worker id job c) w0.
Proof.
  intros Hj. unfold set_worker. eapply (safe_bind _ any_post); [|by intros ? [] ? ?].
  apply safe_sys_act. intros w HR Hw. destruct (pool_held w Hw) as [Hslots Hrun]. cbv zeta.
  destruct (p_workers (w_pool w) !! id) as [[ws|]|]; [|done..]. unfold pool_map. simpl.
  edestruct (with_pool_inv (with_workers (<[id:=Some (mkWorkerState job c)]>
    (p_workers (w_pool w))) (w_pool w))) as [? ?]; [exact Hw|done|..|by split_and!]; simpl.
  - apply Forall_omap_insert; [done|]. intros j Hjj. simpl in Hjj. subst job.
    destruct (Hj j eq_refl) as [? _]. eauto with go.
  - apply Hw.
  - apply Forall_insert; [apply Hw|]. intros s [= <-] [j Hjj]. simpl in *. subst job.
    destruct (Hj j eq_refl) as (_ & n & -> & Hn). exists n. split; [done|].
    destruct HR as [_ HR]. lia.
  - rewrite length_insert. apply Hw.
  - rewrite length_insert. apply Hw.
Qed.

Lemma finish_job_safe ctx j err w0 : safe sys_protocol any_post (finish_job ctx j err) w0.
Proof.
  unfold finish_job. case_match; [|sys_tac].
  eapply (safe_bind _ any_post); [apply safe_sys_gets|]. intros w1 [[]|] _ _; sys_tac.
Qed.

Lemma processJob_safe id j w0 : saved (ID j) w0 ->
  safe sys_protocol any_post (processJob id j) w0.
Proof.
  intros Hj. unfold processJob.
  eapply (safe_bind _ any_post); [sys_tac|]. intros w1 t HR1 _.
  eapply (safe_bind _ any_post); [sys_tac|]. intros w2 _ HR2 _.
  eapply (safe_bind _ any_post); [sys_tac|]. intros w3 _ HR3 _.
  eapply (safe_bind _ any_post); [sys_tac|]. intros w4 tm HR4 _.
  eapply safe_bind; [apply WithTimeout_safe|]. intros w5 ctx HR5 Hctx.
  eapply (safe_bind _ any_post).
  { apply set_worker_safe. intros j0 [= <-]. split; [eauto 10 with go|eauto]. }
  intros w6 _ HR6 _. apply safe_defer; [done|..].
  - intros w _. eapply (safe_bind _ any_post); [|intros; by apply set_worker_safe].
    apply safe_sys_act. intros w' _ Hw'. by destruct (cancel_in_inv ctx w' Hw').
  - eapply (safe_bind _ any_post); [sys_tac|]. intros w7 _ HR7 _.
    apply safe_defer; [done|intros; sys_tac|].
    eapply (safe_bind _ any_post); [sys_tac|]. intros w8 t8 _ _.
    eapply (safe_bind _ any_post); [apply process_safe|]. intros w9 err _ _.
    eapply (safe_bind _ any_post); [sys_tac|]. intros w10 t10 _ _.
    eapply (safe_bind _ any_post); [sys_tac|]. intros. apply finish_job_safe.
Qed.

Lemma take_slot_safe id w0 :
  safe sys_protocol (fun w r => forall j, r = Some j -> saved (ID j) w) (take_slot id) w0.
Proof.
  unfold take_slot.
  eapply (safe_bind _ (fun w r => forall j, r = inl (Some j) -> saved (ID j) w)).
  - apply safe_sys_act. intros w HR Hw. destruct (pool_held w Hw) as [Hslots Hrun]. cbv zeta.
    destruct (p_preemptQueue (w_pool w) !! id) as [slot|] eqn:Hslot; [|done].
    unfold pool_map. simpl. edestruct (with_pool_inv (with_preemptQueue (<[id:=None]>
      (p_preemptQueue (w_pool w))) (w_pool w))) as [? ?];
      [exact Hw|..|split_and!; [done..|]]; simpl; [|done|apply Hw|apply Hw| |apply Hw|].
    + by apply Forall_omap_insert.
    + rewrite length_insert. apply Hw.
    + intros j [= ->]. assert (saved (ID j) w); [|eauto with go].
      rewrite Forall_forall in Hslots. apply Hslots, list_elem_of_omap.
      exists (Some j). split; [by eapply list_elem_of_lookup_2|done].
  - intros w [[j|]|] _ Hj; [|done..]. intros ? [= <-]. by apply Hj.
Qed.

Lemma worker_turn_safe id w0 : safe sys_protocol any_post (worker_turn id) w0.
Proof.
  unfold worker_turn. eapply (safe_bind _ any_post); [apply safe_sys_gets|].
  intros w1 [] _ _; [done|]. eapply safe_bind; [apply take_slot_safe|]. intros w2 slot _ Hslot.
  eapply (safe_bind _ any_post); [apply safe_sys_gets|]. intros w3 cd HR3 _.
  assert (forall j w, saved (ID j) w ->
    safe sys_protocol any_post (processJob id j;; sleep cd;; Ret true) w) as Hproc.
  { intros j w Hj. eapply (safe_bind _ any_post); [by apply processJob_safe|].
    intros w' _ _ _. eapply (safe_bind _ any_post); [apply safe_sys_sleep|done]. }
  destruct slot as [j|]; [apply Hproc; eauto with go|].
  eapply safe_bind; [apply queue_safe_wait|]. intros w4 [job [e|]] _ Hj.
  - eapply (safe_bind _ any_post); [apply safe_sys_sleep|done].
  - destruct job as [j|]; [|done]. by apply Hproc, Hj.
Qed.

(** ** [Preempt] *)

Lemma Preempt_safe j w0 : saved (ID j) w0 -> safe sys_protocol any_post (Preempt j) w0.
Proof.
  intros Hj. unfold Preempt. eapply (safe_bind _ any_post); [|by intros ? [[]|] ? ?].
  apply safe_sys_act. intros w HR Hw. cbv zeta.
  assert (forall f, sys_inv (with_met f w) /\ sys_le w (with_met f w)) as Hmet.
  { intros f. destruct Hw. split; [by constructor|by apply sys_le_same]. }
  case_match; simpl; [|done..]. destruct c as [c|]; simpl; [|by destruct (Hmet
    (preempted_add (QueueType current) 1 (w_met w)))].
  destruct (Hmet (preempted_add (QueueType current) 1 (w_met w))) as [Hw1 Hle1].
  destruct (cancel_in_inv c _ Hw1) as [Hw2 Hle2].
  set (w2 := Context.cancel_in c _) in *. destruct (pool_held w2 Hw2) as [Hslots Hrun].
  unfold pool_map. edestruct (with_pool_inv (with_preemptQueue (<[i := Some j]>
    (p_preemptQueue (w_pool w))) (w_pool w2))) as [? ?]; [exact Hw2|..|split_and!; [done| |done]];
    simpl; [|done|apply Hw2|apply Hw2| |apply Hw2|].
  - apply Forall_omap_insert; [done|]. intros j0 [= <-]. eauto with go.
  - rewrite length_insert. apply Hw2.
  - by etrans; [|etrans].
Qed.

(** ** The worker's goroutine and the supervisor *)

(** Changing the pool's counters or the channel of the dead. *)
Lemma pool_keep_inv p w : sys_inv w ->
  p_workers p = p_workers (w_pool w) -> p_preemptQueue p = p_preemptQueue (w_pool w) ->
  chan_ok (p_workerDied p) -> p_count p = p_count (w_pool w) ->
  sys_inv (with_pool p w) /\ sys_le w (with_pool p w).
Proof.
  intros Hw Hws Hps Hd Hc. destruct (pool_held w Hw) as [Hs Hr].
  apply with_pool_inv; [done| | |done| | |].
  - unfold slot_jobs. by rewrite Hps.
  - unfold running_jobs. by rewrite Hws.
  - rewrite Hws. apply Hw.
  - rewrite Hws, Hps. apply Hw.
  - rewrite Hc, Hws. apply Hw.
Qed.

Lemma alive_add_safe n w0 : safe sys_protocol any_post (alive_add n) w0.
Proof.
  apply safe_sys_act. intros w _ Hw.
  edestruct pool_keep_inv; [exact Hw|..|by split_and!]; try done. apply Hw.
Qed.

Lemma wg_done_safe w0 : safe sys_protocol any_post wg_done w0.
Proof.
  eapply (safe_bind _ any_post); [|by intros ? []].
  apply safe_sys_act. intros w _ Hw. case_match; [done|].
  edestruct pool_keep_inv; [exact Hw|..|by split_and!]; try done. apply Hw.
Qed.

Lemma death_signal_safe id w0 : safe sys_protocol any_post (death_signal id) w0.
Proof.
  apply safe_select_default; [|done]. apply Forall_singleton. intros w x w' _ Hw. cbv zeta.
  destruct (chan_has_room _) eqn:Hroom; [|done]. intros [= <- <-].
  edestruct pool_keep_inv; [exact Hw|..|by split_and!]; try done.
  unfold chan_has_room, chan_ok in *. simpl. rewrite length_app. simpl. lia.
Qed.

Lemma worker_loop_safe rounds id w0 : safe sys_protocol any_post (worker_loop rounds id) w0.
Proof.
  revert w0. induction rounds as [|rounds IH]; intros w0; [done|]. cbn [worker_loop].
  eapply (safe_bind _ any_post); [apply worker_turn_safe|]. by intros w1 [] _ _.
Qed.

Lemma worker_safe rounds id w0 : safe sys_protocol any_post (worker rounds id) w0.
Proof.
  eapply (safe_bind _ any_post); [apply alive_add_safe|]. intros w1 _ _ _.
  apply safe_defer; [done|intros; apply alive_add_safe|].
  apply safe_defer; [done|intros; apply wg_done_safe|].
  eapply (safe_catch _ any_post); [|done..].
  apply safe_defer; [done|intros; apply death_signal_safe|apply worker_loop_safe].
Qed.

Lemma case_died_safe w0 : alt_safe w0 any_post case_died.
Proof.
  intros w x w' _ Hw. unfold case_died. pose proof (inv_died w Hw) as Hc. unfold chan_ok in Hc.
  destruct (ch_buf _) as [|u l] eqn:Hbuf; [done|]. intros [= <- <-].
  edestruct pool_keep_inv; [exact Hw|..|by split_and!]; try done.
  unfold chan_ok in *. simpl in *. rewrite Hbuf in *. simpl in *. lia.
Qed.

Lemma supervise_turn_safe rounds w0 :
  safe sys_protocol any_post (supervise_turn rounds) w0.
Proof.
  eapply (safe_bind _ any_post).
  { apply safe_select. apply Forall_cons; split; [|apply Forall_singleton, case_died_safe].
    intros w x w' _ Hw. unfold case_pool_done. case_match; [|done]. by intros [= <- <-]. }
  intros w1 [|id] _ _; [done|].
  eapply (safe_bind _ any_post); [apply safe_sys_now|]. intros w2 t _ _.
  eapply (safe_bind _ any_post).
  { apply safe_select. apply Forall_cons; split; [by apply alt_safe_after|].
    apply Forall_singleton. intros w x w' _ Hw. case_match; [|done]. by intros [= <- <-]. }
  intros w3 [] _ _; [|done]. eapply (safe_bind _ any_post).
  - apply safe_sys_act. intros w _ Hw.
    edestruct pool_keep_inv; [exact Hw|..|by split_and!]; try done. apply Hw.
  - intros w4 _ _ _. eapply (safe_bind _ any_post); [|done].
    apply safe_go; [apply worker_safe|done].
Qed.

Lemma supervise_safe rounds n w0 : safe sys_protocol any_post (supervise rounds n) w0.
Proof.
  revert w0. induction n as [|n IH]; intros w0; [done|]. cbn [supervise].
  eapply (safe_bind _ any_post); [apply supervise_turn_safe|]. by intros w1 [] _ _.
Qed.

Lemma start_slot_safe i w0 : safe sys_protocol any_post (start_slot i) w0.
Proof.
  eapply (safe_bind _ any_post); [|by intros ? []].
  apply safe_sys_act. intros w _ Hw. cbv zeta. case_match; [|done].
  destruct (pool_held w Hw) as [Hs Hr].
  edestruct with_pool_inv; [exact Hw|..|by split_and!]; simpl; try apply Hw.
  - done.
  - by apply Forall_omap_insert.
  - apply Forall_insert; [apply Hw|]. intros ? [= <-] [? [=]].
  - rewrite length_insert. apply Hw.
  - rewrite length_insert. apply Hw.
Qed.

Lemma start_workers_safe rounds i n w0 :
  safe sys_protocol any_post (start_workers rounds i n) w0.
Proof.
  revert i w0. induction n as [|n IH]; intros i w0; [done|]. cbn [start_workers].
  eapply (safe_bind _ any_post); [apply start_slot_safe|]. intros w1 _ _ _.
  eapply (safe_bind _ any_post); [|intros; apply IH].
  apply safe_go; [apply worker_safe|done].
Qed.

Lemma Start_safe rounds w0 : safe sys_protocol any_post (Start rounds) w0.
Proof.
  eapply (safe_bind _ any_post); [apply safe_sys_gets|]. intros w1 count _ _.
  eapply (safe_bind _ any_post); [apply start_workers_safe|]. intros w2 _ _ _.
  apply safe_go; [apply supervise_safe|done].
Qed.

Lemma Stop_safe w0 : safe sys_protocol any_post Stop w0.
Proof.
  eapply (safe_bind _ any_post); [|by intros ? []].
  apply safe_sys_act. intros w _ Hw. cbv zeta. case_match; [done|].
  edestruct pool_keep_inv; [exact Hw|..|by split_and!]; try done. apply Hw.
Qed.

Lemma Wait_safe w0 : safe sys_protocol any_post Wait w0.
Proof. intros w x w' _ Hw. case_match; [|done]. by intros [= <- <-]. Qed.

End protocol.
End Pool.
