(* ===== verification/Email.v ===== *)
(** * The email processor ([internal/jobs/email/email_worker.go])

    [EmailProcessor] is the [Processor] of the program.  The conversation with
    the mail server is that of [net/smtp]: a command is sent and the answer is
    waited for until the deadline of the connection.  The answers are those of
    [net_answers]; what has been sent is in [net_wire], under the number of the
    conversation, which is also that of the channel its result goes to. *)

From Stdlib Require Import Ascii.
From S2P Require Import Prelude Go Models World Metrics Sql Storage Invariant Queue Worker.

Record EmailProcessor : Type := mkEmailProcessor {
  smtpHost : string;
  smtpPort : Z;
  smtpUser : string;
  smtpPass : string;
  ep_timeout : Z;
  demoDelay : Z;
  useAuth : bool;
}.

Module Email.

Definition NewEmailProcessor (host : string) (port : Z) (user pass : string)
    (timeout demoDelay : Z) (useAuth : bool) : EmailProcessor :=
  mkEmailProcessor host port user pass timeout demoDelay useAuth.

Definition CRLF : string := String "013" (String "010" "").

(** [buildMessage] *)
Definition buildMessage (from to subject body : string) : string :=
  "From: " +:+ from +:+ CRLF +:+ "To: " +:+ to +:+ CRLF +:+
  "Subject: " +:+ subject +:+ CRLF +:+ CRLF +:+ body.

(** [v, _ := job.Payload[key].(string)]: the empty string when the field is
    missing or not a string. *)
Definition payload_string (p : payload) (key : string) : string :=
  match p ≫= lookup key with
  | Some (JStr s) => s
  | _ => ""
  end.

(** ** [net/smtp] *)

Definition net_map (f : Net -> Net) (w : World) : World := with_net (f (w_net w)) w.

Definition sent (n : nat) (c : smtp_command) (a : answer) (t : Net) : Net :=
  mkNet (net_answers t) (net_wire t ++ [(n, (c, a))]) (net_results t).

(** Sends a command; the answer to come is drawn at once, and is silence when
    the server has no more. *)
Definition send_command (n : nat) (c : smtp_command) : M answer :=
  act_ (fun w =>
    let a := hd Silence (net_answers (w_net w)) in
    (a,
     net_map (fun t => sent n c a (mkNet (tail (net_answers t)) (net_wire t) (net_results t))) w)).

(** The failure of the connection; a refusal of the server is [External]. *)
Definition io_timeout : error := Errorf "i/o timeout".

(** Waits for an answer that comes [delay] from now, and gives up at the
    deadline of the connection. *)
Definition await (deadline delay : Z) (r : option error * list string) :
    M (option error * list string) :=
  t ← now;
  if t + delay <=? deadline then wait_until (t + delay);; Ret r
  else wait_until deadline;; Ret (Some io_timeout, []).

(** A command and its answer: the error, and the extensions it lists.  Past the
    deadline nothing is sent. *)
Definition exchange (n : nat) (deadline : Z) (c : smtp_command) :
    M (option error * list string) :=
  t ← now;
  if deadline <=? t then Ret (Some io_timeout, [])
  else
    a ← send_command n c;
    match a with
    | Accepts delay exts => await deadline delay (None, exts)
    | Refuses delay msg => await deadline delay (Some (External msg), [])
    | Silence => wait_until deadline;; Ret (Some io_timeout, [])
    end.

(** A command of which only the error matters. *)
Definition command (n : nat) (deadline : Z) (c : smtp_command) : M (option error) :=
  '(err, _) ← exchange n deadline c; Ret err.

(** [c.Close()] *)
Definition hang_up (n : nat) : M unit := modify (net_map (sent n Hangup Silence)).

(** [c.hello()]: [EHLO], and [HELO] when that is refused. *)
Definition hello (n : nat) (deadline : Z) : M (option error * list string) :=
  '(err, exts) ← exchange n deadline Ehlo;
  match err with
  | None => Ret (None, exts)
  | Some _ => err ← command n deadline Helo; Ret (err, [])
  end.

(** [c.StartTLS(config)]: the command, then [EHLO] over TLS. *)
Definition start_tls (n : nat) (deadline : Z) (host : string) : M (option error) :=
  err ← command n deadline (StartTLS host);
  match err with
  | Some err => Ret (Some err)
  | None => command n deadline Ehlo
  end.

Definition isLocalhost (name : string) : bool :=
  ((name =? "localhost") || (name =? "127.0.0.1") || (name =? "::1"))%string.

(** [c.Auth(smtp.PlainAuth("", user, pass, host))], [hello_err] being how the
    greeting went: the credentials are not sent in clear to another machine,
    and an authentication that is refused ends the conversation. *)
Definition plain_auth (n : nat) (deadline : Z) (hello_err : option error) (tls : bool)
    (host user pass : string) : M (option error) :=
  match hello_err with
  | Some err => Ret (Some err)
  | None =>
      if tls || isLocalhost host then
        err ← command n deadline (Auth user pass);
        match err with
        | Some (External msg) =>
            command n deadline AbortAuth;; command n deadline Quit;; Ret (Some (External msg))
        | err => Ret err
        end
      else command n deadline Quit;; Ret (Some (Errorf "unencrypted connection"))
  end.

(** [validateLine] *)
Fixpoint has_line_break (s : string) : bool :=
  match s with
  | "" => false
  | String c s => Ascii.eqb c "010" || Ascii.eqb c "013" || has_line_break s
  end.

Definition line_error : error := Errorf "smtp: A line must not contain CR or LF".

(** [c.Mail(from)], [c.Rcpt(to)] *)
Definition mail (n : nat) (deadline : Z) (hello_err : option error) (from : string) :
    M (option error) :=
  if has_line_break from then Ret (Some line_error)
  else match hello_err with
       | Some err => Ret (Some err)
       | None => command n deadline (Mail from)
       end.
Definition rcpt (n : nat) (deadline : Z) (to : string) : M (option error) :=
  if has_line_break to then Ret (Some line_error) else command n deadline (Rcpt to).

(** ** [sendWithTimeout] *)

(** [ctx.Done()] *)
Definition case_ctx_done {X} (ctx : nat) (x : X) : alt X := fun w =>
  match w_ctxs w !! ctx with
  | Some c => match Context.err_at (w_clock w) c with Some _ => Some (x, w) | None => None end
  | None => None
  end.

(** When [ctx] ends at the latest. *)
Definition ctx_timer (ctx : nat) (w : World) : option Z :=
  ctx_deadline <$> w_ctxs w !! ctx.

(** [dialer.DialContext(ctx, "tcp", addr)] with a timeout of five seconds. *)
Definition dial (n ctx : nat) (addr : string) : M (option error) :=
  ended ← Context.Err ctx;
  match ended with
  | Some err => Ret (Some err)
  | None =>
      t ← now;
      timer ← gets (ctx_timer ctx);
      let limit := Z.min (t + 5 * Second) (default (t + 5 * Second) timer) in
      a ← send_command n (Dial addr);
      let answered :=
        match a with
        | Accepts delay _ => [after (t + delay) None]
        | Refuses delay msg => [after (t + delay) (Some (External msg))]
        | Silence => []
        end in
      let wake :=
        match a with
        | Accepts delay _ | Refuses delay _ => Z.min limit (t + delay)
        | Silence => limit
        end in
      select_ (answered ++ [after limit (Some io_timeout); case_ctx_done ctx (Some Canceled)])
        (Some wake)
  end.

(** [if err := step; err != nil { return fmt.Errorf("...: %w", err) }] *)
Definition or_fail (step : M (option error)) (msg : string) (rest : M (option error)) :
    M (option error) :=
  err ← step;
  match err with
  | Some err => Ret (Some (Wrap msg err))
  | None => rest
  end.

(** The conversation from [EHLO] on. *)
Definition converse (p : EmailProcessor) (n : nat) (deadline : Z) (auth : bool)
    (to msg : string) : M (option error) :=
  '(hello_err, exts) ← hello n deadline;
  let tls := bool_decide ("STARTTLS" ∈ exts) in
  or_fail (if tls then start_tls n deadline (smtpHost p) else Ret None) "starttls failed"
  (or_fail (if auth then plain_auth n deadline hello_err tls (smtpHost p) (smtpUser p) (smtpPass p)
            else Ret None) "auth failed"
  (let from := if (smtpUser p =? "")%string then "rjq@localhost" else smtpUser p in
   or_fail (mail n deadline hello_err from) "mail from failed"
  (or_fail (rcpt n deadline to) "rcpt to failed"
  (or_fail (command n deadline Data) "data failed"
  (or_fail (command n deadline (Message msg)) "close failed"
  (or_fail (command n deadline Quit) "quit failed"
  (Ret None))))))).

Definition sendWithTimeout (p : EmailProcessor) (n ctx : nat) (addr : string) (auth : bool)
    (to msg : string) : M (option error) :=
  or_fail (dial n ctx addr) "dial failed"
  (t ← now;
   timer ← gets (ctx_timer ctx);
   let deadline := default (t + 30 * Second) timer in
   err ← command n deadline Greeting;
   match err with
   | Some err => hang_up n;; Ret (Some (Wrap "smtp client failed" err))
   | None => defer_ (hang_up n) (converse p n deadline auth to msg)
   end).

(** ** [Process] *)

(** [done := make(chan error, 1)]: the number of the new channel. *)
Definition make_result : M nat :=
  act_ (fun w =>
    (length (net_results (w_net w)),
     net_map (fun t => mkNet (net_answers t) (net_wire t) (net_results t ++ [make_chan 1])) w)).

Definition with_result (n : nat) (c : chan (option error)) (t : Net) : Net :=
  mkNet (net_answers t) (net_wire t) (<[n := c]> (net_results t)).

(** [done <- err] *)
Definition report (n : nat) (err : option error) : M unit :=
  Act (fun w =>
    match net_results (w_net w) !! n with
    | Some c => if chan_has_room c then Go tt (net_map (with_result n (chan_push err c)) w)
                else Park None
    | None => Park None
    end) Ret.

(** [<-done] *)
Definition case_result (n : nat) : alt (option (option error)) := fun w =>
  match net_results (w_net w) !! n with
  | Some c =>
      match ch_buf c with
      | err :: _ => Some (Some err, net_map (with_result n (chan_rest c)) w)
      | [] => None
      end
  | None => None
  end.

(** Waiting for the sender; [None] when the context ended first. *)
Definition await_result (n ctx : nat) : M (option (option error)) :=
  timer ← gets (ctx_timer ctx);
  select_ [case_result n; case_ctx_done ctx None] timer.

(** The demo delay; [false] when the context ended first. *)
Definition demo_delay (d : Z) (ctx : nat) : M bool :=
  t ← now;
  timer ← gets (ctx_timer ctx);
  select_ [after (t + d) true; case_ctx_done ctx false] (Some (Z.min (t + d) (default (t + d) timer))).

Definition Process (p : EmailProcessor) (ctx : nat) (job : Job) : M (option error) :=
  let to := payload_string (Payload job) "to" in
  let subject := payload_string (Payload job) "subject" in
  let body := payload_string (Payload job) "body" in
  if ((to =? "") || (subject =? "") || (body =? ""))%string then
    Ret (Some (Errorf "email payload missing required fields: to, subject, body"))
  else
    let addr := smtpHost p +:+ ":" +:+ pretty (smtpPort p) in
    let msg := buildMessage (smtpUser p) to subject body in
    let auth := useAuth p && negb (smtpUser p =? "")%string && negb (smtpPass p =? "")%string in
    n ← make_result;
    go (err ← sendWithTimeout p n ctx addr auth to msg; report n err);;
    r ← await_result n ctx;
    match r with
    | Some (Some err) => Ret (Some err)
    | None => Context.Err ctx
    | Some None =>
        waited ← demo_delay (demoDelay p) ctx;
        if (waited : bool) then Ret None else Context.Err ctx
    end.

#[export] Instance processor (p : EmailProcessor) : Processor := {| Worker.Process := Process p |}.

(** ** It follows the protocol of the process *)

Lemma with_net_inv f w : sys_inv w -> sys_inv (net_map f w) /\ sys_le w (net_map f w).
Proof. intros []. split; [by constructor|by apply sys_le_same]. Qed.

Lemma send_command_safe n c w0 : safe sys_protocol any_post (send_command n c) w0.
Proof.
  apply safe_sys_act. intros w _ Hw. simpl.
  by edestruct (with_net_inv (fun t => sent n c (hd Silence (net_answers (w_net w)))
    (mkNet (tail (net_answers t)) (net_wire t) (net_results t))) w Hw).
Qed.

Lemma await_safe d delay r w0 : safe sys_protocol any_post (await d delay r) w0.
Proof.
  unfold await. bind_any safe_sys_now. case_match; by bind_any safe_sys_wait_until.
Qed.

Lemma exchange_safe n d c w0 : safe sys_protocol any_post (exchange n d c) w0.
Proof.
  unfold exchange. bind_any safe_sys_now. case_match; [done|]. bind_any send_command_safe.
  case_match; [apply await_safe..|]. by bind_any safe_sys_wait_until.
Qed.

Lemma command_safe n d c w0 : safe sys_protocol any_post (command n d c) w0.
Proof. unfold command. bind_any exchange_safe. by case_match. Qed.
#[local] Hint Resolve command_safe exchange_safe send_command_safe : go.

Lemma hello_safe n d w0 : safe sys_protocol any_post (hello n d) w0.
Proof. unfold hello. bind_any exchange_safe. repeat case_match; [|done]. by bind_any command_safe. Qed.

Lemma start_tls_safe n d h w0 : safe sys_protocol any_post (start_tls n d h) w0.
Proof. unfold start_tls. bind_any command_safe. case_match; [done|apply command_safe]. Qed.

Lemma plain_auth_safe n d e tls h u s w0 :
  safe sys_protocol any_post (plain_auth n d e tls h u s) w0.
Proof.
  unfold plain_auth. repeat case_match; try done; bind_any command_safe.
  - repeat case_match; try done. bind_any command_safe. by bind_any command_safe.
  - done.
Qed.

Lemma mail_safe n d e from w0 : safe sys_protocol any_post (mail n d e from) w0.
Proof. unfold mail. repeat case_match; try done. apply command_safe. Qed.

Lemma rcpt_safe n d to w0 : safe sys_protocol any_post (rcpt n d to) w0.
Proof. unfold rcpt. case_match; [done|apply command_safe]. Qed.

Lemma hang_up_safe n w0 : safe sys_protocol any_post (hang_up n) w0.
Proof.
  apply safe_sys_act. intros w _ Hw. by edestruct (with_net_inv (sent n Hangup Silence) w Hw).
Qed.

Lemma case_ctx_done_safe {X} w0 ctx (x : X) : alt_safe w0 any_post (case_ctx_done ctx x).
Proof.
  intros w y w' _ Hw. unfold case_ctx_done. repeat case_match; try done. by intros [= <- <-].
Qed.

Lemma dial_safe n ctx addr w0 : safe sys_protocol any_post (dial n ctx addr) w0.
Proof.
  unfold dial. bind_any (safe_sys_gets (X := option error)). case_match; [done|].
  bind_any safe_sys_now. bind_any (safe_sys_gets (X := option Z)).
  bind_any send_command_safe. cbv zeta. apply safe_select.
  apply Forall_app. split.
  - case_match; constructor; try done; by apply alt_safe_after.
  - apply Forall_cons; split; [by apply alt_safe_after|].
    apply Forall_singleton, case_ctx_done_safe.
Qed.

Lemma or_fail_safe step msg rest w0 :
  (forall w, safe sys_protocol any_post step w) ->
  (forall w, safe sys_protocol any_post rest w) ->
  safe sys_protocol any_post (or_fail step msg rest) w0.
Proof. intros Hs Hr. unfold or_fail. bind_any Hs. case_match; [done|apply Hr]. Qed.

Lemma converse_safe p n d auth to msg w0 :
  safe sys_protocol any_post (converse p n d auth to msg) w0.
Proof.
  unfold converse. bind_any hello_safe. case_match. cbv zeta.
  apply or_fail_safe; intros; [case_match; [apply start_tls_safe|done]|].
  apply or_fail_safe; intros; [case_match; [apply plain_auth_safe|done]|].
  apply or_fail_safe; intros; [apply mail_safe|].
  apply or_fail_safe; intros; [apply rcpt_safe|].
  repeat (apply or_fail_safe; intros; [apply command_safe|]). done.
Qed.

Lemma sendWithTimeout_safe p n ctx addr auth to msg w0 :
  safe sys_protocol any_post (sendWithTimeout p n ctx addr auth to msg) w0.
Proof.
  unfold sendWithTimeout. apply or_fail_safe; intros; [apply dial_safe|].
  bind_any safe_sys_now. bind_any (safe_sys_gets (X := option Z)). cbv zeta.
  bind_any command_safe. case_match.
  - by bind_any hang_up_safe.
  - apply safe_defer; [done|intros; apply hang_up_safe|apply converse_safe].
Qed.

Lemma report_safe n err w0 : safe sys_protocol any_post (report n err) w0.
Proof.
  intros w1 x w' _ Hw. repeat case_match; try done. intros [= <- <-].
  by edestruct (with_net_inv (with_result n (chan_push err c)) w1 Hw).
Qed.

Lemma await_result_safe n ctx w0 : safe sys_protocol any_post (await_result n ctx) w0.
Proof.
  unfold await_result. bind_any (safe_sys_gets (X := option Z)). apply safe_select.
  apply Forall_cons; split; [|apply Forall_singleton, case_ctx_done_safe].
  intros w1 x w' _ Hw. unfold case_result. repeat case_match; try done. intros [= <- <-].
  by edestruct (with_net_inv (with_result n (chan_rest c)) w1 Hw).
Qed.

Lemma demo_delay_safe d ctx w0 : safe sys_protocol any_post (demo_delay d ctx) w0.
Proof.
  unfold demo_delay. bind_any safe_sys_now. bind_any (safe_sys_gets (X := option Z)).
  apply safe_select. apply Forall_cons; split; [by apply alt_safe_after|].
  apply Forall_singleton, case_ctx_done_safe.
Qed.

#[export] Instance processor_safe p : @Pool.ProcessorSafe (processor p).
Proof.
  split. intros ctx j w. simpl. unfold Process. cbv zeta. case_match; [done|].
  eapply (safe_bind _ any_post).
  { apply safe_sys_act. intros w1 _ Hw. simpl.
    by edestruct (with_net_inv (fun t => mkNet (net_answers t) (net_wire t)
      (net_results t ++ [make_chan 1])) w1 Hw). }
  intros w1 n _ _. eapply (safe_bind _ any_post).
  { apply safe_go; [|done]. eapply (safe_bind _ any_post); [apply sendWithTimeout_safe|].
    intros w2 err _ _. eapply safe_weaken; [|apply report_safe]. done. }
  intros w2 [] _ _. bind_any await_result_safe. repeat case_match; try done.
  - bind_any demo_delay_safe. case_match; [done|]. apply safe_sys_gets.
  - apply safe_sys_gets.
Qed.

End Email.
