(* ===== verification/QueueDepth.v ===== *)
(** * The queue depth collector ([internal/metrics/queue_depth.go])

    [Collector] is the interface of Prometheus collectors, of which the program
    registers one: it counts the pending rows of each queue type at every
    scrape.  [Describe] sends the constant descriptor and is not modelled. *)

From S2P Require Import Prelude Go Models World Metrics Sql Storage Invariant Backend.

(** [prometheus.Collector]: the gauges of a scrape by label. *)
Class Collector := { collect : M (list (string * Z)) }.

Class CollectorSafe `{Collector} : Prop := {
  collect_safe w : safe sys_protocol any_post collect w;
}.

Module QueueDepthCollector.
Section with_platform.
Context `{Platform}.

(** The gauge values [Collect] emits: none when the query fails, and those of
    the rows before an error of the iteration, which it does not look at. *)
Definition Collect : M (list (string * Z)) :=
  r ← db_rows (fun t =>
        group_count queue_type (filter (fun r => status_is StatusPending r = true) (rows t)));
  match r with
  | inr _ => Ret []
  | inl (groups, _) => Ret groups
  end.

(** [NewQueueDepthCollector] *)
Definition NewQueueDepthCollector : Collector := {| collect := Collect |}.

Lemma collector_safe : @CollectorSafe NewQueueDepthCollector.
Proof.
  split. intros w. simpl. unfold Collect.
  eapply safe_bind; [apply safe_lift, safe_db_rows|]. by intros w1 [[l e]|e] _ _.
Qed.

End with_platform.
End QueueDepthCollector.
