(* ===== verification/Api.v ===== *)
(** * The HTTP handlers ([internal/api/handlers.go])

    A handler is a program that returns the response it writes.  Decoding the
    request, the text of the dashboard page and the log lines are not modelled.
    The libraries [chi] and [promhttp] are the class [HttpLibs].  [server] is
    the loop of [net/http]: one goroutine for each request, whose panics are
    recovered. *)

From S2P Require Import Prelude Go Models World Metrics Sql Storage Invariant Queue Worker QueueDepth.

(** ** Responses *)

Inductive body : Type :=
| ErrorBody (msg : string)
| CreatedBody (job_id status : string)
| JobBody (job : Job)
| JobsBody (jobs : list Job)
| StatsBody (pending processing queued : Z)
| HealthBody (status : string) (workers_alive workers_expected : Z)
| CountsBody (counts : gmap string (gmap string Z))
| RetriedBody (status job_id : string)
| DashboardBody
| OtherBody (text : string).

Record Response : Type := mkResponse {
  r_code : Z;
  r_body : body;
}.

Definition StatusOK : Z := 200.
Definition StatusCreated : Z := 201.
Definition StatusBadRequest : Z := 400.
Definition StatusNotFound : Z := 404.
Definition StatusInternalServerError : Z := 500.
Definition StatusServiceUnavailable : Z := 503.

(** What the handlers take from [chi] and [promhttp]: matching a pattern
    against a path, with the values of its parameters, the answer when no
    route fits, and the page made of the metrics and of what the collector
    gave. *)
Class HttpLibs := {
  chi_match : string -> string -> option (gmap string string);
  chi_unmatched : Request -> Response;
  promhttp_page : Metrics -> list (string * Z) -> Response;
}.

Module Handler.

(** [writeError] *)
Definition writeError (code : Z) (msg : string) : M Response :=
  Ret (mkResponse code (ErrorBody msg)).

(** [uuid.New().String()]: the next of the UUIDs the process draws. *)
Definition new_uuid : M string :=
  Act (fun w => match w_uuids w with
                | u :: us => Go u (with_uuids us w)
                | [] => Park None
                end) Ret.

(** The fields [CreateJob] fills in, and the job it makes. *)
Definition normalize (req : CreateRequest) : CreateRequest :=
  mkCreateRequest (req_JobType req)
    (match req_Payload req with None => Some ∅ | p => p end)
    (if (req_Queue req =? "")%string then QueueTypeFIFO else req_Queue req)
    (if (req_Priority req <? 1) || (3 <? req_Priority req) then PriorityNormal
     else req_Priority req).

Definition new_job (req : CreateRequest) (uuid : string) (t : Z) : Job :=
  mkJob uuid (req_JobType req) (req_Payload req) (req_Queue req) (req_Priority req)
    StatusPending 0 3 t t None "".

Section with_storage.
Context `{Storage} `{Queue}.

(** Handing over a job that is saved: a super-urgent one first tries to take
    the place of a running normal job. *)
Definition dispatch (job : Job) : M (option error) :=
  if Priority job =? PrioritySuperUrgent then
    '(preemptedID, err) ← Pool.Preempt job;
    match err with
    | Some _ => q_Enqueue job
    | None => Ret None
    end
  else q_Enqueue job.

(** [GET /dashboard] *)
Definition Dashboard : M Response := Ret (mkResponse StatusOK DashboardBody).

(** [POST /jobs]; [None] is a body that is not JSON of the expected shape. *)
Definition CreateJob (req : option CreateRequest) : M Response :=
  match req with
  | None => writeError StatusBadRequest "invalid JSON body"
  | Some req =>
      if (req_JobType req =? "")%string then
        writeError StatusBadRequest "job_type is required"
      else
        let req := normalize req in
        t ← now;
        uuid ← new_uuid;
        let job := new_job req uuid t in
        err ← SaveJob job;
        match err with
        | Some _ => writeError StatusInternalServerError "failed to create job"
        | None =>
            metric (submitted_inc (QueueType job));;
            err ← dispatch job;
            match err with
            | Some _ => writeError StatusInternalServerError "failed to enqueue job"
            | None => Ret (mkResponse StatusCreated (CreatedBody (ID job) (Status job)))
            end
        end
  end.

(** [GET /jobs/{id}] *)
Definition GetJob (i : string) : M Response :=
  '(job, err) ← Storage.GetJob i;
  match err, job with
  | Some _, _ => writeError StatusInternalServerError "failed to retrieve job"
  | None, None => writeError StatusNotFound "job not found"
  | None, Some job => Ret (mkResponse StatusOK (JobBody job))
  end.

(** The loop of [GetStats]. *)
Fixpoint count_pending (jobs : list Job) : Z :=
  match jobs with
  | [] => 0
  | j :: jobs =>
      (if (Status j =? StatusPending)%string then 1 else 0) + count_pending jobs
  end.

(** [GET /stats] *)
Definition GetStats : M Response :=
  '(pending, err) ← ListPendingJobs;
  match err with
  | Some _ => writeError StatusInternalServerError "failed to get stats"
  | None =>
      '(processing, err) ← GetProcessingJobs;
      match err with
      | Some _ => writeError StatusInternalServerError "failed to get stats"
      | None =>
          queued ← q_PendingCount;
          Ret (mkResponse StatusOK
                 (StatsBody (count_pending pending) (Z.of_nat (length processing)) queued))
      end
  end.

(** [GET /health] *)
Definition Health : M Response :=
  workersAlive ← Pool.AliveWorkers;
  expected ← Pool.ExpectedWorkers;
  let '(status, code) :=
    if workersAlive <? expected then ("degraded", StatusServiceUnavailable)
    else ("ok", StatusOK) in
  workers_expected ← Pool.ExpectedWorkers;
  Ret (mkResponse code (HealthBody status workersAlive workers_expected)).

(** The listings: a failing query is an error response. *)
Definition list_handler (query : M (list Job * option error)) (msg : string) : M Response :=
  '(jobs, err) ← query;
  match err with
  | Some _ => writeError StatusInternalServerError msg
  | None => Ret (mkResponse StatusOK (JobsBody jobs))
  end.

(** [GET /jobs], [/processing], [/pending] *)
Definition ListJobs : M Response := list_handler (ListRecentJobs 20) "failed to list jobs".
Definition GetProcessing : M Response :=
  list_handler GetProcessingJobs "failed to get processing jobs".
Definition GetPending : M Response :=
  list_handler ListAllPendingJobs "failed to get pending jobs".

(** [GET /pending/...]: the error of the query is dropped. *)
Definition pending_by (queueType : string) : M Response :=
  '(jobs, _) ← ListPendingByQueue queueType;
  Ret (mkResponse StatusOK (JobsBody jobs)).
Definition GetPendingFIFO : M Response := pending_by QueueTypeFIFO.
Definition GetPendingPriority : M Response := pending_by QueueTypePriority.
Definition GetPendingRateLimited : M Response := pending_by QueueTypeRateLimited.

(** [POST /jobs/{id}/retry] *)
Definition RetryJob (i : string) : M Response :=
  '(job, err) ← Storage.GetJob i;
  match err, job with
  | Some _, _ => writeError StatusInternalServerError "failed to get job"
  | None, None => writeError StatusNotFound "job not found"
  | None, Some job =>
      if negb (Status job =? StatusFailed)%string then
        writeError StatusBadRequest "only failed jobs can be retried"
      else
        err ← q_Retry i 3;
        match err with
        | Some _ => writeError StatusInternalServerError "failed to retry job"
        | None => Ret (mkResponse StatusOK (RetriedBody "pending" i))
        end
  end.

(** [GET /counts] *)
Definition GetCounts : M Response :=
  '(rows, err) ← CountByQueueAndStatus;
  match err with
  | Some _ => writeError StatusInternalServerError "failed to count jobs"
  | None => Ret (mkResponse StatusOK (CountsBody rows))
  end.

(** ** Routes and the server *)

Context `{HttpLibs} `{Collector}.

(** [promhttp.Handler()] *)
Definition scrape : M Response :=
  groups ← collect;
  m ← gets w_met;
  Ret (promhttp_page m groups).

Definition URLParam (params : gmap string string) (key : string) : string :=
  default "" (params !! key).

(** [RegisterRoutes]: method, pattern, handler; a handler is given the URL
    parameters and the decoded body. *)
Definition RegisterRoutes :
    list (string * string * (gmap string string -> option CreateRequest -> M Response)) :=
  [ ("POST", "/jobs", fun _ req => CreateJob req);
    ("GET", "/jobs/{id}", fun params _ => GetJob (URLParam params "id"));
    ("GET", "/stats", fun _ _ => GetStats);
    ("GET", "/health", fun _ _ => Health);
    ("GET", "/jobs", fun _ _ => ListJobs);
    ("GET", "/dashboard", fun _ _ => Dashboard);
    ("GET", "/processing", fun _ _ => GetProcessing);
    ("GET", "/pending", fun _ _ => GetPending);
    ("GET", "/pending/fifo", fun _ _ => GetPendingFIFO);
    ("GET", "/pending/priority", fun _ _ => GetPendingPriority);
    ("GET", "/pending/rate-limited", fun _ _ => GetPendingRateLimited);
    ("POST", "/jobs/{id}/retry", fun params _ => RetryJob (URLParam params "id"));
    ("*", "/metrics", fun _ _ => scrape);
    ("GET", "/counts", fun _ _ => GetCounts) ].

(** The first route that fits; [r.Handle] takes every method. *)
Fixpoint route {X} (method path : string) (routes : list (string * string * X)) :
    option (X * gmap string string) :=
  match routes with
  | [] => None
  | (m, pattern, h) :: routes =>
      match chi_match pattern path with
      | Some params =>
          if ((m =? "*") || (m =? method))%string then Some (h, params)
          else route method path routes
      | None => route method path routes
      end
  end.

(** A request from arrival to response; [middleware.Recoverer] answers for a
    handler that panics. *)
Definition ServeHTTP (r : Request) : M Response :=
  match route (rq_method r) (rq_path r) RegisterRoutes with
  | Some (h, params) =>
      catch (h params (rq_body r)) (fun e =>
        match e with
        | Returned resp => Ret resp
        | Panicked _ => Ret (mkResponse StatusInternalServerError (OtherBody ""))
        end)
  | None => Ret (chi_unmatched r)
  end.

(** The next connection; [None] once the server has been shut down. *)
Definition accept : M (option Request) :=
  Act (fun w =>
    if w_srvclosed w then Go None w
    else match w_requests w with
         | r :: rs => Go (Some r) (with_requests rs w)
         | [] => Park None
         end) Ret.

(** [srv.ListenAndServe()]; [n] bounds the requests. *)
Fixpoint server (n : nat) : M unit :=
  match n with
  | O => OutOfFuel
  | S n =>
      r ← accept;
      match r with
      | Some r => go (ServeHTTP r;; Ret tt);; server n
      | None => Ret tt
      end
  end.

End with_storage.

(** ** The handlers follow the protocol of the process *)

Section protocol.
Context `{StorageSpec} `{QueueSafe}.

Lemma new_uuid_safe w0 : safe sys_protocol any_post new_uuid w0.
Proof.
  intros w u w' _ Hw. destruct (w_uuids w); [done|]. intros [= <- <-].
  split_and!; [by apply sys_le_same| |done]. destruct Hw. by constructor.
Qed.

Lemma dispatch_safe job w0 : saved (ID job) w0 ->
  safe sys_protocol any_post (dispatch job) w0.
Proof.
  intros Hj. unfold dispatch. case_match; [|by apply queue_safe_enqueue].
  eapply (safe_bind _ any_post); [by apply Pool.Preempt_safe|].
  intros w1 [i [e|]] HR _; [|done]. apply queue_safe_enqueue. eauto with go.
Qed.

(** What is handed over has been saved: the error of [SaveJob] returns first. *)
Lemma CreateJob_safe req w0 : safe sys_protocol any_post (CreateJob req) w0.
Proof.
  destruct req as [req|]; [|done]. unfold CreateJob. case_match; [done|].
  eapply (safe_bind _ any_post); [apply safe_sys_now|]. intros w1 t _ _.
  eapply (safe_bind _ any_post); [apply new_uuid_safe|]. intros w2 u _ _. cbv zeta.
  eapply safe_bind; [eauto with go|]. intros w3 [e|] _ Hs; [done|].
  specialize (Hs eq_refl).
  eapply (safe_bind _ any_post); [apply safe_sys_metric|]. intros w4 _ HR4 _.
  eapply (safe_bind _ any_post); [apply dispatch_safe; eauto with go|].
  by intros w5 [e|] _ _.
Qed.

Lemma handler_GetJob_safe i w0 : safe sys_protocol any_post (GetJob i) w0.
Proof.
  eapply safe_bind; [eauto with go|]. by intros w1 [[j|] [e|]] _ _.
Qed.

Lemma GetStats_safe w0 : safe sys_protocol any_post GetStats w0.
Proof.
  eapply safe_bind; [eauto with go|]. intros w1 [l1 [e|]] _ _; [done|].
  eapply safe_bind; [eauto with go|]. intros w2 [l2 [e|]] _ _; [done|].
  by eapply safe_bind; [eauto with go|].
Qed.

Lemma Health_safe w0 : safe sys_protocol any_post Health w0.
Proof.
  unfold Health. repeat (eapply (safe_bind _ any_post); [apply safe_sys_gets|intros ? ? _ _]).
  case_match. by eapply (safe_bind _ any_post); [apply safe_sys_gets|].
Qed.

Lemma list_handler_safe Q query msg w0 : safe sys_protocol Q query w0 ->
  safe sys_protocol any_post (list_handler query msg) w0.
Proof. intros Hq. eapply safe_bind; [exact Hq|]. by intros w1 [l [e|]] _ _. Qed.

Lemma pending_by_safe q w0 : safe sys_protocol any_post (pending_by q) w0.
Proof. eapply safe_bind; [eauto with go|]. by intros w1 [l e] _ _. Qed.

Lemma RetryJob_safe i w0 : safe sys_protocol any_post (RetryJob i) w0.
Proof.
  eapply safe_bind; [eauto with go|]. intros w1 [[j|] [e|]] _ _; try done.
  case_match; [done|]. eapply (safe_bind _ any_post); [by apply queue_safe_retry|].
  by intros w2 [e|] _ _.
Qed.

Lemma GetCounts_safe w0 : safe sys_protocol any_post GetCounts w0.
Proof. eapply safe_bind; [eauto with go|]. by intros w1 [m [e|]] _ _. Qed.

Context `{HttpLibs} `{CollectorSafe}.

Lemma scrape_safe w0 : safe sys_protocol any_post scrape w0.
Proof. unfold scrape. bind_any collect_safe. by bind_any (safe_sys_gets (X := Metrics)). Qed.

Lemma route_safe method path
    (routes : list (string * string *
      (gmap string string -> option CreateRequest -> M Response))) h params req w0 :
  route method path routes = Some (h, params) ->
  Forall (fun r => forall params req w, safe sys_protocol any_post (r.2 params req) w) routes ->
  safe sys_protocol any_post (h params req) w0.
Proof.
  intros Hr Hall. induction Hall as [|[[m pat] h'] routes Hh _ IH]; simpl in Hr; [done|].
  repeat case_match; simplify_eq; [apply Hh|by apply IH..].
Qed.

Lemma ServeHTTP_safe r w0 : safe sys_protocol any_post (ServeHTTP r) w0.
Proof.
  unfold ServeHTTP. destruct (route _ _ _) as [[h params]|] eqn:Hr; [|done].
  eapply (safe_catch _ any_post); [|done..]. eapply route_safe; [exact Hr|].
  unfold RegisterRoutes. repeat (apply Forall_cons; split; simpl; [intros ps req w|]); [..|done].
  - apply CreateJob_safe.
  - apply handler_GetJob_safe.
  - apply GetStats_safe.
  - apply Health_safe.
  - eapply list_handler_safe. eauto with go.
  - done.
  - eapply list_handler_safe. eauto with go.
  - eapply list_handler_safe. eauto with go.
  - apply pending_by_safe.
  - apply pending_by_safe.
  - apply pending_by_safe.
  - apply RetryJob_safe.
  - apply scrape_safe.
  - apply GetCounts_safe.
Qed.

Lemma server_safe n w0 : safe sys_protocol any_post (server n) w0.
Proof.
  revert w0. induction n as [|n IH]; intros w0; [done|]. cbn [server].
  eapply (safe_bind _ any_post).
  - intros w r w' _ Hw. destruct (w_srvclosed w); [by intros [= <- <-]|].
    destruct (w_requests w); [done|]. intros [= <- <-].
    split_and!; [by apply sys_le_same| |done]. destruct Hw. by constructor.
  - intros w1 [r|] _ _; [|done]. eapply (safe_bind _ any_post); [|intros; apply IH].
    apply safe_go; [|done]. by apply safe_then, ServeHTTP_safe.
Qed.

End protocol.
End Handler.
