(* ===== verification/Config.v ===== *)
(** * The configuration ([internal/config/config.go])

    [LoadConfig] reads the file and the environment through viper, which is a
    parameter, and checks two of the fields. *)

From S2P Require Import Prelude Go Models.

Record ServerConfig : Type := mkServerConfig { Port : Z }.
Record QueueConfig : Type := mkQueueConfig {
  Workers : Z;
  DemoDelaySec : Z;
  CooldownSec : Z;
}.
Record EmailConfig : Type := mkEmailConfig {
  Mode : string;
  SMTPHost : string; SMTPPort : Z; SMTPUser : string; SMTPPass : string;
  TestHost : string; TestPort : Z; TestUser : string; TestPass : string;
}.
Record RetryConfig : Type := mkRetryConfig { MaxAttempts : Z; BackoffSeconds : Z }.
Record TimeoutConfig : Type := mkTimeoutConfig { JobSeconds : Z }.
Record RateLimitConfig : Type := mkRateLimitConfig { EmailsPerMinute : Z; Burst : Z }.
Record DatabaseConfig : Type := mkDatabaseConfig {
  BackendName : string; SQLitePath : string; PostgresDSN : string;
}.

Record Config : Type := mkConfig {
  cfg_Server : ServerConfig;
  cfg_Queue : QueueConfig;
  cfg_Email : EmailConfig;
  cfg_Retry : RetryConfig;
  cfg_Timeout : TimeoutConfig;
  cfg_RateLimit : RateLimitConfig;
  cfg_Database : DatabaseConfig;
}.

(** [ReadInConfig] and [Unmarshal] of viper. *)
Class Viper := {
  read_in_config : string -> option error;
  viper_unmarshal : string -> Config + error;
}.

Definition LoadConfig `{Viper} (configPath : string) : Config + error :=
  match read_in_config configPath with
  | Some err => inr (Wrap "failed to read config file" err)
  | None =>
      match viper_unmarshal configPath with
      | inr err => inr (Wrap "failed to unmarshal config" err)
      | inl cfg =>
          if Port (cfg_Server cfg) =? 0 then inr (Errorf "server.port must be set")
          else if Workers (cfg_Queue cfg) <=? 0 then
            inr (Errorf "queue.workers must be positive")
          else inl cfg
      end
  end.
