(* ===== verification/Database.v ===== *)
(** * The choice of the backend ([cmd/server/main.go])

    [open_storage] is the [switch] of [main] on the configured backend, and
    [storage_of] the [Storage] it leaves in the variable. *)

From S2P Require Import Prelude Go Models World Metrics Sql Storage Invariant Backend.
From S2P Require Import Sqlite Postgres Config.

Definition storage_of `{Platform} (backend : string) : Storage :=
  if (backend =? "postgres")%string then PostgresStorage.storage else SQLiteStorage.storage.

Definition open_storage `{Platform} `{SqlDriver} (cfg : DatabaseConfig) : M (option error) :=
  if (BackendName cfg =? "postgres")%string
  then PostgresStorage.NewPostgresStorage (PostgresDSN cfg)
  else SQLiteStorage.NewSQLiteStorage (SQLitePath cfg).

Definition storage_of_spec `{PlatformLaws} (backend : string) :
    @StorageSpec (storage_of backend).
Proof.
  unfold storage_of. destruct (backend =? "postgres")%string.
  - exact PostgresStorage.storage_spec.
  - exact SQLiteStorage.storage_spec.
Defined.

(** ** Opening keeps the table *)

Lemma db_ping_safe w0 : safe db_protocol any_post db_ping w0.
Proof.
  apply safe_act_. intros w _ Hw. pose proof (next_fault_db w) as Hdb.
  pose proof (next_fault_step w) as Hstep. destruct (next_fault w) as [bad w1]; simpl in *.
  split_and!; [done| |done]. unfold db_ok. by rewrite Hdb.
Qed.

Lemma create_table_safe w0 : safe db_protocol any_post (db_exec create_table) w0.
Proof.
  eapply safe_weaken; [|apply safe_db_exec]; [done|].
  intros t t' n Ht [= <- <-]. split; [|done]. intros i r Hr. by exists r.
Qed.

Lemma open_storage_safe `{Platform} `{SqlDriver} cfg w0 :
  safe sys_protocol any_post (open_storage cfg) w0.
Proof.
  unfold open_storage, SQLiteStorage.NewSQLiteStorage, PostgresStorage.NewPostgresStorage.
  apply safe_lift. case_match; (case_match; [done|]);
    (eapply (safe_bind _ any_post); [apply db_ping_safe|]; intros w1 [e|] _ _; [done|]);
    (eapply (safe_bind _ any_post); [|by intros w2 [e|] _ _]);
    (eapply (safe_bind _ any_post); [apply create_table_safe|]; by intros w2 [e|] _ _).
Qed.
