(* ===== verification/Main.v ===== *)
(** * The program ([cmd/server/main.go])

    [boot] is [main] from the counters to the HTTP server, [shutdown] what
    follows the signal, [serve] both, and [main] the whole, with the
    configuration and the database.  The log lines are not modelled; [srv.Shutdown] is the refusal
    of new requests, its wait for the handlers being bounded by thirty
    seconds.  [turns] bounds the loops of the goroutines, [fuel]
    and [rounds] the polling of the router. *)

From S2P Require Import Prelude Go Models World Metrics Sql Storage Invariant Config.
From S2P Require Import MemoryQueue SortedQueue RateLimitedQueue Router Queue Worker QueueDepth Api.
From S2P Require Import Email Database.

(** The SMTP settings of the two modes: host, port, user, password, and
    whether to authenticate. *)
Definition smtp_settings (e : EmailConfig) : string * Z * string * string * bool :=
  if (Mode e =? "production")%string
  then (SMTPHost e, SMTPPort e, SMTPUser e, SMTPPass e, true)
  else (TestHost e, TestPort e, TestUser e, TestPass e, false).

(** [time.Duration(n) * time.Second] *)
Definition seconds (n : Z) : Z := wrap64 (n * Second).

(** The counters that exist from the start. *)
Definition register_counters : M unit :=
  metric (fun m => foldl (fun m q => preempted_add q 0 (retried_add q 0 (failed_add q 0 m))) m
                     [QueueTypeFIFO; QueueTypePriority; QueueTypeRateLimited]).

Section with_storage.
Context `{Storage} `{Processor} `{HttpLibs} `{Collector}.
Variables fuel rounds turns : nat.
#[local] Instance main_queue : Queue := router_queue fuel rounds.

(** From the counters to the workers. *)
Definition launch (cfg : Config) : M unit :=
  register_counters;;
  MemoryQueue.NewMemoryQueue FIFORef (wrap64 (Workers (cfg_Queue cfg) * 10));;
  SortedQueue.NewSortedQueue (wrap64 (Workers (cfg_Queue cfg) * 10));;
  RateLimitedQueue.NewRateLimitedQueue turns (wrap64 (Workers (cfg_Queue cfg) * 10))
    (EmailsPerMinute (cfg_RateLimit cfg)) (Burst (cfg_RateLimit cfg));;
  MemoryQueue.StartSweeper FIFORef turns (5 * Minute);;
  SortedQueue.StartSweeper turns (5 * Minute);;
  RateLimitedQueue.StartSweeper turns (5 * Minute);;
  Pool.NewPool (Workers (cfg_Queue cfg)) (seconds (JobSeconds (cfg_Timeout cfg)))
    (seconds (CooldownSec (cfg_Queue cfg)));;
  Pool.Start turns.

(** The recovery and the HTTP server; a failure of the recovery ends the
    program: [log.Fatal]. *)
Definition recover_and_serve : M unit :=
  recoveryStart ← now;
  err ← Router.Recover;
  match err with
  | Some _ => Throw "Failed to recover queues"
  | None =>
      t ← now;
      metric (recovery_set (t - recoveryStart));;
      go (Handler.server turns)
  end.

Definition boot (cfg : Config) : M unit :=
  launch cfg;;
  recover_and_serve.

(** [<-quit] *)
Definition wait_for_signal : M unit :=
  Act (fun w => match w_signal w with
                | Some t => if t <=? w_clock w then Go tt w else Park (Some t)
                | None => Park None
                end) Ret.

(** [srv.Shutdown(ctx)] *)
Definition server_shutdown : M unit := modify (with_srvclosed true).

Definition shutdown : M unit :=
  server_shutdown;;
  Router.Close;;
  Pool.Stop;;
  Pool.Wait.

Definition serve (cfg : Config) : M unit :=
  boot cfg;;
  wait_for_signal;;
  shutdown.

End with_storage.

(** The processor [main] makes. *)
Definition main_processor (cfg : Config) : EmailProcessor :=
  let '(host, port, user, pass, auth) := smtp_settings (cfg_Email cfg) in
  Email.NewEmailProcessor host port user pass (seconds (JobSeconds (cfg_Timeout cfg)))
    (seconds (DemoDelaySec (cfg_Queue cfg))) auth.

Section program.
Context `{Viper} `{Platform} `{SqlDriver} `{HttpLibs}.
Variables fuel rounds turns : nat.

(** Both backends have a [DB()], so the collector is always registered. *)
Definition main : M unit :=
  match LoadConfig "config.yaml" with
  | inr _ => Throw "Failed to load config"
  | inl cfg =>
      err ← open_storage (cfg_Database cfg);
      match err with
      | Some _ => Throw "Failed to initialize storage"
      | None =>
          @serve (storage_of (BackendName (cfg_Database cfg)))
            (Email.processor (main_processor cfg)) _
            QueueDepthCollector.NewQueueDepthCollector fuel rounds turns cfg
      end
  end.

End program.

(** A process that has just started, over the table of an earlier one. *)
Definition fresh (t : Z) (db : table) (uuids : list string) : World :=
  mkWorld t [] [] uuids [] None false db empty_metrics
    (mkMemoryQueue (make_chan 0) 0 false false)
    (mkSortedQueue [] (make_chan 0) false false)
    (mkRateLimitedQueue (mkMemoryQueue (make_chan 0) 0 false false) 0 0 0 false 0)
    (mkPool 0 0 0 0 false [] [] [] (make_chan 0) 0) [] (mkNet [] [] []).

(** ** They follow the protocol of the process *)

Lemma fresh_inv t db uuids : table_ok db -> sys_inv (fresh t db uuids).
Proof.
  intros Hdb. constructor; simpl; try done; try constructor; unfold chan_ok; simpl; lia.
Qed.

Section protocol.
Context `{StorageSpec} `{!Processor, !Pool.ProcessorSafe} `{!HttpLibs} `{!Collector, !CollectorSafe}.
Variables fuel rounds turns : nat.
#[local] Instance the_main_queue : Queue := main_queue fuel rounds.

Lemma NewMemoryQueue_safe q k w0 :
  safe sys_protocol any_post (MemoryQueue.NewMemoryQueue q k) w0.
Proof.
  unfold MemoryQueue.NewMemoryQueue. case_match; [done|]. apply safe_sys_act.
  intros w _ Hw. edestruct (set_mq_inv q); [exact Hw|..|by split_and!]; [constructor|].
  unfold chan_ok. simpl. lia.
Qed.

Lemma NewSortedQueue_safe k w0 :
  safe sys_protocol any_post (SortedQueue.NewSortedQueue k) w0.
Proof.
  apply safe_sys_act. intros w _ Hw.
  edestruct with_prio_inv; [exact Hw|..|by split_and!]; [constructor..|].
  unfold chan_ok. simpl. lia.
Qed.

Lemma NewRateLimitedQueue_safe k m r b w0 :
  safe sys_protocol any_post (RateLimitedQueue.NewRateLimitedQueue k m r b) w0.
Proof.
  unfold RateLimitedQueue.NewRateLimitedQueue. case_match; [done|].
  eapply (safe_bind _ any_post); [|intros; apply RateLimitedQueue.startRefill_safe].
  apply safe_sys_act. intros w _ Hw. simpl.
  destruct (set_mq_inv RateLimitedRef (mkMemoryQueue (make_chan (Z.to_nat m)) 0 false false) w)
    as [Hw1 Hle]; [done|constructor|unfold chan_ok; simpl; lia|].
  edestruct (RateLimitedQueue.with_rl_inv (mkRateLimitedQueue
    (mkMemoryQueue (make_chan (Z.to_nat m)) 0 false false)
    r b b false 0)) as [? ?];
    [exact Hw1|done|simpl; lia|]. done.
Qed.

Lemma omap_replicate_None {A B} (f : A -> option B) x n :
  f x = None -> omap f (replicate n x) = [].
Proof. intros Hx. induction n as [|n IH]; simpl; [done|]. by rewrite Hx. Qed.

Lemma NewPool_safe k t c w0 : safe sys_protocol any_post (Pool.NewPool k t c) w0.
Proof.
  unfold Pool.NewPool. case_match; [done|]. apply safe_sys_act. intros w _ Hw.
  edestruct Pool.with_pool_inv; [exact Hw|..|by split_and!]; simpl.
  - unfold slot_jobs. simpl. by rewrite omap_replicate_None.
  - unfold running_jobs. simpl. by rewrite omap_replicate_None.
  - unfold chan_ok. simpl. lia.
  - apply Forall_replicate. by intros ? [=].
  - by rewrite !length_replicate.
  - rewrite length_replicate. lia.
Qed.

Lemma launch_safe cfg w0 : safe sys_protocol any_post (launch fuel rounds turns cfg) w0.
Proof.
  pose proof (router_queue_safe fuel rounds : @QueueSafe the_main_queue) as Hq.
  unfold launch, register_counters.
  bind_any safe_sys_metric. bind_any NewMemoryQueue_safe. bind_any NewSortedQueue_safe.
  bind_any NewRateLimitedQueue_safe. bind_any MemoryQueue.StartSweeper_safe.
  bind_any SortedQueue.prio_StartSweeper_safe. bind_any MemoryQueue.StartSweeper_safe.
  bind_any NewPool_safe. apply Pool.Start_safe.
Qed.

Lemma boot_safe cfg w0 : safe sys_protocol any_post (boot fuel rounds turns cfg) w0.
Proof.
  pose proof (router_queue_safe fuel rounds : @QueueSafe the_main_queue) as Hq.
  unfold boot, recover_and_serve. bind_any launch_safe.
  bind_any safe_sys_now. bind_any Router.router_Recover_safe. case_match; [done|].
  bind_any safe_sys_now. bind_any safe_sys_metric.
  apply safe_go; [apply Handler.server_safe|done].
Qed.

Lemma shutdown_safe w0 : safe sys_protocol any_post shutdown w0.
Proof.
  unfold shutdown. eapply (safe_bind _ any_post).
  { apply safe_sys_act. intros w _ Hw. split_and!; [|by apply sys_le_same|done].
    destruct Hw. by constructor. }
  intros w1 _ _ _. bind_any Router.router_Close_safe. bind_any Pool.Stop_safe.
  apply Pool.Wait_safe.
Qed.

Lemma serve_safe cfg w0 : safe sys_protocol any_post (serve fuel rounds turns cfg) w0.
Proof.
  unfold serve. bind_any boot_safe. eapply (safe_bind _ any_post).
  { intros w2 x w3 _ Hw. destruct (w_signal w2); [|done]. case_match; [|done].
    by intros [= <- <-]. }
  intros. apply shutdown_safe.
Qed.

End protocol.

Lemma main_safe `{Viper} `{PlatformLaws} `{SqlDriver} `{HttpLibs} fuel rounds turns w0 :
  safe sys_protocol any_post (main fuel rounds turns) w0.
Proof.
  unfold main. case_match; [|done]. bind_any open_storage_safe. case_match; [done|].
  exact (@serve_safe _ (storage_of_spec (BackendName (cfg_Database c))) _
    (Email.processor_safe _) _ _ QueueDepthCollector.collector_safe fuel rounds turns c _).
Qed.
