(* ===== verification/Examples.v ===== *)
(** * Concrete executions

    A small process over the SQLite backend and the platform of
    [ReferencePlatform.v], on which the theorems are applied: two workers, a
    bucket of two tokens, sixty emails a minute. *)

From Stdlib Require Import Ascii.
From S2P Require Import Prelude Go Models ReferencePlatform World Metrics Sql Storage Invariant.
From S2P Require Import Backend Sqlite Config MemoryQueue SortedQueue RateLimitedQueue Router.
From S2P Require Import Queue Worker QueueDepth Api Email Main.

Module Examples.

#[export] Instance lite : Storage := @SQLiteStorage.storage ref_platform.
#[export] Instance lite_spec : @StorageSpec lite := @SQLiteStorage.storage_spec ref_platform _.

(** A processor that succeeds at once. *)
Definition quick_processor : Processor := {| Process _ _ := Ret None |}.

Lemma quick_processor_safe : @Pool.ProcessorSafe quick_processor.
Proof. by split. Qed.

#[export] Existing Instances quick_processor quick_processor_safe.

(** One that never returns. *)
Definition stuck_processor : Processor :=
  {| Process _ _ := Act (fun _ => Park None) Ret |}.

Lemma stuck_processor_safe : @Pool.ProcessorSafe stuck_processor.
Proof. split. intros ctx j w w1 x w2 _ _ [=]. Qed.

(** One that panics. *)
Definition panicking_processor : Processor :=
  {| Process _ _ := Throw "boom" |}.

(** A reference for [chi]: the segments of the path against those of the
    pattern, where [{name}] takes any segment. *)
Definition slash : Ascii.ascii := "/"%char.
Definition brace : Ascii.ascii := "{"%char.

Fixpoint segments (s : string) : list string :=
  match s with
  | "" => [""]
  | String c s =>
      if Ascii.eqb c slash then "" :: segments s
      else match segments s with
           | x :: l => String c x :: l
           | [] => [String c ""]
           end
  end.

Definition parameter (segment : string) : option string :=
  match segment with
  | String c s =>
      if Ascii.eqb c brace then Some (String.substring 0 (String.length s - 1) s) else None
  | _ => None
  end.

Fixpoint match_segments (ps xs : list string) : option (gmap string string) :=
  match ps, xs with
  | [], [] => Some ∅
  | p :: ps, x :: xs =>
      match parameter p with
      | Some name => <[name := x]> <$> match_segments ps xs
      | None => if (p =? x)%string then match_segments ps xs else None
      end
  | _, _ => None
  end.

#[export] Instance ref_http : HttpLibs := {|
  chi_match pattern path := match_segments (segments pattern) (segments path);
  chi_unmatched _ := mkResponse StatusNotFound (OtherBody "404 page not found");
  promhttp_page m groups := mkResponse StatusOK (OtherBody "metrics");
|}.

#[export] Instance depth_collector : Collector := QueueDepthCollector.NewQueueDepthCollector.
#[export] Instance depth_collector_safe : CollectorSafe := QueueDepthCollector.collector_safe.

Definition email_config : EmailConfig :=
  mkEmailConfig "test" "smtp.example.com" 587 "user" "secret" "localhost" 1025 "" "".

Definition config : Config :=
  mkConfig (mkServerConfig 8080) (mkQueueConfig 2 0 0) email_config
    (mkRetryConfig 3 5) (mkTimeoutConfig 30) (mkRateLimitConfig 60 2)
    (mkDatabaseConfig "sqlite" "rjq.db" "").

(** The file of that configuration, and a driver that opens everything. *)
#[export] Instance ref_viper : Viper :=
  {| read_in_config _ := None; viper_unmarshal _ := inl config |}.
#[export] Instance ref_driver : SqlDriver := {| sql_open _ _ := None |}.

Definition fuel : nat := 5.
Definition rounds : nat := 20.
Definition turns : nat := 10.
#[export] Instance queue : Queue := router_queue fuel rounds.

Definition uuids : list string := ["a"; "b"; "c"; "d"; "e"; "f"].
Definition request (q : string) (p : Z) : CreateRequest := mkCreateRequest "email" None q p.
Definition post (q : string) (p : Z) : Request := mkRequest "POST" "/jobs" (Some (request q p)).
Definition posts : list Request := [post "fifo" 1; post "priority" 2; post "rate-limited" 1].

(** The signal comes after five seconds. *)
Definition signal_at : Z := 1000000 + 5 * Second.
Definition launched : World :=
  with_signal (Some signal_at) (with_requests posts (fresh 1000000 ∅ uuids)).

(** After [main] has booted, and after the server has taken the requests. *)
Definition booted : World := final_state (run alone (boot fuel rounds turns config) launched).
Definition accepted : World := final_state (run alone (Handler.server turns) booted).

Definition create (q : string) (p : Z) : M unit := Handler.ServeHTTP (post q p);; Ret tt.

(** One job of each queue has been submitted. *)
Definition with_fifo_job : World := final_state (run alone (create "fifo" 1) accepted).
Definition with_two_jobs : World := final_state (run alone (create "priority" 2) with_fifo_job).
Definition with_three_jobs : World :=
  final_state (run alone (create "rate-limited" 1) with_two_jobs).

(** These states are for [vm_compute] only: unification is not to unfold them. *)
#[global] Opaque launched booted accepted with_fifo_job with_two_jobs with_three_jobs.

(** A job as the storage keeps it. *)
Definition job (i q : string) (p t : Z) : Job :=
  mkJob i "email" (Some ∅) q p StatusPending 0 3 t t None "".

(** A table an earlier process left: a pending job and one that was being
    processed. *)
Definition row (i q : string) (p : Z) (s : string) (n : Z) : Row :=
  mkRow i "email" "{}" q p s n 3 1000 2000 None None.
Definition left_over : table :=
  {["a" := row "a" "fifo" 1 StatusPending 1; "b" := row "b" "priority" 2 StatusProcessing 0]}.

Definition stored_job (i q : string) (p : Z) (s : string) (n : Z) : Job :=
  job_of_row (Some ∅) (row i q p s n).

(** The queues as [main] makes them, over that table. *)
Definition restarted : World := with_db left_over booted.

Lemma left_over_ok : st_ok left_over.
Proof.
  split; intros i r Hr; unfold left_over in Hr;
    (apply lookup_insert_Some in Hr as [[<- <-]|[_ Hr]];
     [|apply lookup_singleton_Some in Hr as [<- <-]]); repeat split; by eexists.
Qed.

(** An email to send, with half a minute to do it and a mail server that says
    nothing once the connection is made. *)
Definition mailer : EmailProcessor :=
  Email.NewEmailProcessor "smtp.example.com" 587 "user" "secret" 30 0 true.
Definition email_job : Job :=
  mkJob "a" "email" (Some (<["to" := JStr "ann@example.com"]> (<["subject" := JStr "hello"]>
    (<["body" := JStr "text"]> ∅)))) "fifo" 1 StatusProcessing 0 3 0 0 None "".
Definition mail_deadline : Z := 1000000 + 30 * Second.
Definition mail_context : Context_ := mkContext mail_deadline None.
Definition mailing : World :=
  with_net (mkNet [Accepts 0 []] [] []) (with_ctxs [mail_context] (fresh 1000000 ∅ uuids)).

End Examples.
