(* ===== verification/Delivery.v ===== *)
(** * How the queues deliver

    What each queue does when it is used by one goroutine at a time: which
    result [Enqueue] has, in which order jobs come out, that every bounded wait
    ends, and how many tokens the bucket grants. *)

From S2P Require Import Prelude Go Models World Metrics Sql Storage Invariant.
From S2P Require Import MemoryQueue SortedQueue RateLimitedQueue Router.
From S2P Require Import Examples.

Module Delivery.
Implicit Types (q : mqref) (w : World) (j : Job).

(** ** Reading and writing a [MemoryQueue] through its pointer *)

Lemma get_set_mq q m w : get_mq q (set_mq q m w) = m.
Proof. by destruct q. Qed.

Lemma set_set_mq q m m' w : set_mq q m' (set_mq q m w) = set_mq q m' w.
Proof. by destruct q. Qed.

Lemma clock_set_mq q m w : w_clock (set_mq q m w) = w_clock w.
Proof. by destruct q. Qed.

Lemma get_mq_clock q t w : get_mq q (with_clock t w) = get_mq q w.
Proof. by destruct q. Qed.

Lemma set_mq_clock q m t w : set_mq q m (with_clock t w) = with_clock t (set_mq q m w).
Proof. by destruct q. Qed.

Lemma with_clock_id w : with_clock (w_clock w) w = w.
Proof. by destruct w. Qed.

#[local] Hint Rewrite get_set_mq set_set_mq clock_set_mq get_mq_clock set_mq_clock : mq.

(** A queue as it is between [NewMemoryQueue] and the end of [Close]. *)
Definition mq_ok (m : MemoryQueue) : Prop :=
  0 <= mq_wg m /\
  (mq_closed m = false -> mq_done m = false /\ ch_closed (mq_jobs m) = false).

(** ** [select] with one ready case *)

Lemma select_one {X} (alts : list (alt X)) w r : omap (fun a => a w) alts = [r] ->
  select_action alts w = Some r.
Proof. intros Ha. unfold select_action, flip. rewrite Ha. simpl. by rewrite Ha. Qed.

Lemma select_none {X} (alts : list (alt X)) w : omap (fun a => a w) alts = [] ->
  select_action alts w = None.
Proof. intros Ha. unfold select_action, flip. rewrite Ha. simpl. by rewrite Ha. Qed.

(** ** [MemoryQueue.Enqueue] *)

Definition full_error : error := Errorf "queue is full, timed out waiting for space".

Lemma run_wg_done env q m w : 0 <= mq_wg m -> get_mq q w = MemoryQueue.set_wg (mq_wg m + 1) m ->
  run env (MemoryQueue.wg_done q) w = Done tt (set_mq q m w).
Proof.
  intros Hwg Hm. unfold MemoryQueue.wg_done. rewrite run_bind, run_act_, Hm. simpl.
  rewrite (proj2 (Z.leb_gt _ _)) by lia. simpl.
  replace (mq_wg m + 1 - 1) with (mq_wg m) by lia. by destruct m.
Qed.

Lemma run_Enqueue q j w :
  let m := get_mq q w in
  mq_ok m ->
  run alone (MemoryQueue.Enqueue q j) w =
    if mq_closed m then Done (Some (Errorf "queue is closed")) w
    else if chan_has_room (mq_jobs m) then
      Done None (set_mq q (MemoryQueue.set_jobs (chan_push j (mq_jobs m)) m) w)
    else Done (Some full_error) (with_clock (w_clock w + 5 * Second) w).
Proof.
  intros m [Hwg Hopen]. unfold MemoryQueue.Enqueue, MemoryQueue.Enqueue_lock.
  rewrite run_bind, run_act_. fold m. destruct (mq_closed m) eqn:Hc; [done|].
  destruct (Hopen eq_refl) as [Hdone Hch]. cbn [fst snd].
  unfold defer_. rewrite run_catch, run_bind, run_now. cbv beta iota. simpl clock.
  rewrite clock_set_mq.
  set (w1 := set_mq q (MemoryQueue.set_wg (mq_wg m + 1) m) w).
  assert (get_mq q w1 = MemoryQueue.set_wg (mq_wg m + 1) m) as Hm1 by apply get_set_mq.
  assert (set_mq q m w1 = w) as Hback.
  { unfold w1, m. rewrite set_set_mq. apply MemoryQueue.set_mq_id. }
  rewrite run_bind. unfold MemoryQueue.Enqueue_select. cbn [select_ run].
  destruct (chan_has_room (mq_jobs m)) eqn:Hroom.
  - rewrite (select_one _ _ (MemoryQueue.Sent,
      set_mq q (MemoryQueue.set_jobs (chan_push j (mq_jobs m))
        (MemoryQueue.set_wg (mq_wg m + 1) m)) w1)).
    + cbn [run MemoryQueue.Enqueue_result]. rewrite run_bind.
      rewrite (run_wg_done _ _ (MemoryQueue.set_jobs (chan_push j (mq_jobs m)) m));
        [|done|by rewrite get_set_mq].
      cbn [run]. unfold w1. by rewrite !set_set_mq.
    + simpl. unfold MemoryQueue.case_send, MemoryQueue.case_done, after. rewrite Hm1. simpl.
      rewrite Hch, Hroom, Hdone. unfold w1. rewrite clock_set_mq.
      by rewrite (proj2 (Z.leb_gt _ _)) by (unfold Second; lia).
  - assert (omap (fun a => a w1) [MemoryQueue.case_send q j; MemoryQueue.case_done q;
      after (w_clock w + 5 * Second) MemoryQueue.TimedOut] = []) as Hnone.
    { simpl. unfold MemoryQueue.case_send, MemoryQueue.case_done, after. rewrite Hm1. simpl.
      rewrite Hch, Hroom, Hdone. unfold w1. rewrite clock_set_mq.
      by rewrite (proj2 (Z.leb_gt _ _)) by (unfold Second; lia). }
    rewrite (select_none _ _ Hnone). unfold alone. simpl wake.
    unfold w1 at 1 3. rewrite !clock_set_mq.
    rewrite Z.max_r by (unfold Second; lia).
    set (w2 := with_clock (w_clock w + 5 * Second) w1).
    rewrite (select_one _ _ (MemoryQueue.TimedOut, w2)).
    + cbn [run MemoryQueue.Enqueue_result]. rewrite run_bind, (run_wg_done _ _ m); [|done|].
      * cbn [run]. unfold w2. by rewrite set_mq_clock, Hback.
      * unfold w2. by rewrite get_mq_clock.
    + unfold w2. simpl. unfold MemoryQueue.case_send, MemoryQueue.case_done, after.
      rewrite get_mq_clock, Hm1. simpl. rewrite Hch, Hroom, Hdone. by rewrite Z.leb_refl.
Qed.

(** ** Putting in and taking out *)

Fixpoint enqueue_all (enqueue : Job -> M (option error)) (js : list Job) : M unit :=
  match js with
  | [] => Ret tt
  | j :: js => enqueue j;; enqueue_all enqueue js
  end.

Fixpoint dequeue_n (dequeue : M (option Job * option error)) (n : nat) : M (list Job) :=
  match n with
  | O => Ret []
  | S n =>
      '(j, _) ← dequeue;
      js ← dequeue_n dequeue n;
      Ret (match j with Some j => j :: js | None => js end)
  end.

Definition with_buffer (l : list Job) (m : MemoryQueue) : MemoryQueue :=
  MemoryQueue.set_jobs (mkChan l (ch_cap (mq_jobs m)) (ch_closed (mq_jobs m))) m.

Lemma with_buffer_id m : with_buffer (ch_buf (mq_jobs m)) m = m.
Proof. by destruct m as [[]]. Qed.

Lemma run_enqueue_all q js : forall w,
  let m := get_mq q w in
  mq_ok m -> mq_closed m = false ->
  (length (ch_buf (mq_jobs m)) + length js <= ch_cap (mq_jobs m))%nat ->
  run alone (enqueue_all (MemoryQueue.Enqueue q) js) w =
    Done tt (set_mq q (with_buffer (ch_buf (mq_jobs m) ++ js) m) w).
Proof.
  induction js as [|j js IH]; intros w m Hm Hc Hroom.
  - cbn [enqueue_all run]. rewrite app_nil_r, with_buffer_id. unfold m.
    by rewrite MemoryQueue.set_mq_id.
  - cbn [enqueue_all]. simpl in Hroom. rewrite run_bind, run_Enqueue by done. fold m. rewrite Hc.
    unfold chan_has_room. rewrite (proj2 (Nat.ltb_lt _ _)) by lia. cbv beta iota.
    rewrite IH; rewrite get_set_mq.
    + rewrite set_set_mq. simpl. by rewrite <- app_assoc.
    + done.
    + done.
    + simpl. rewrite length_app. simpl. lia.
Qed.

Lemma run_MemoryQueue_Dequeue env q w j l : ch_buf (mq_jobs (get_mq q w)) = j :: l ->
  run env (MemoryQueue.Dequeue q) w =
    Done (Some j, None) (set_mq q (with_buffer l (get_mq q w)) w).
Proof.
  intros Hb. unfold MemoryQueue.Dequeue. rewrite run_bind. cbn [select_ run].
  rewrite (select_one _ _ (Some j, set_mq q (with_buffer l (get_mq q w)) w)); [done|].
  simpl. unfold MemoryQueue.case_receive, with_buffer, chan_rest. by rewrite Hb.
Qed.

Lemma run_dequeue_n env q l : forall w,
  ch_buf (mq_jobs (get_mq q w)) = l ->
  run env (dequeue_n (MemoryQueue.Dequeue q) (length l)) w =
    Done l (set_mq q (with_buffer [] (get_mq q w)) w).
Proof.
  induction l as [|j l IH]; intros w Hb.
  - cbn [length dequeue_n run]. rewrite <- Hb at 3.
    by rewrite with_buffer_id, MemoryQueue.set_mq_id.
  - cbn [length dequeue_n]. rewrite run_bind, (run_MemoryQueue_Dequeue _ _ _ j l Hb).
    cbv beta iota. rewrite run_bind, IH by (by rewrite get_set_mq).
    cbn [run]. by rewrite get_set_mq, set_set_mq.
Qed.

(** C28: [MemoryQueue.Enqueue] run by itself has one of three results: a closed
    queue refuses the job, a queue with room takes it at the end of the buffer,
    and a full one gives up after exactly five seconds; the wait group is
    balanced each time. *)
Theorem Enqueue_result_by_state q j w :
  let m := get_mq q w in
  mq_ok m ->
  run alone (MemoryQueue.Enqueue q j) w =
    if mq_closed m then Done (Some (Errorf "queue is closed")) w
    else if chan_has_room (mq_jobs m) then
      Done None (set_mq q (MemoryQueue.set_jobs (chan_push j (mq_jobs m)) m) w)
    else Done (Some full_error) (with_clock (w_clock w + 5 * Second) w).
Proof. apply run_Enqueue. Qed.

(** C27: the FIFO queue delivers in the order of arrival: what is enqueued while
    there is room comes out after what was there, in the same order, each job
    once. *)
Theorem fifo_order q js w :
  let m := get_mq q w in
  mq_ok m -> mq_closed m = false ->
  (length (ch_buf (mq_jobs m)) + length js <= ch_cap (mq_jobs m))%nat ->
  run alone (enqueue_all (MemoryQueue.Enqueue q) js;;
             dequeue_n (MemoryQueue.Dequeue q) (length (ch_buf (mq_jobs m) ++ js))) w =
    Done (ch_buf (mq_jobs m) ++ js) (set_mq q (with_buffer [] m) w).
Proof.
  intros m Hm Hc Hroom. rewrite run_bind, run_enqueue_all by done. cbv beta iota. fold m.
  rewrite run_dequeue_n by (by rewrite get_set_mq).
  by rewrite get_set_mq, set_set_mq.
Qed.

(** ** The priority queue *)

(** C8: the slice operations of [insertLocked] — append a slot, shift the tail
    with an overlapping [copy], store — are an ordered insertion: the job is
    added once, the order is kept, and among jobs of the same priority and
    creation time it goes last. *)
Theorem insertLocked_correct k j js :
  StronglySorted (fun x y => job_before x y = true) js ->
  SortedQueue.insertLocked j js ≡ₚ j :: js /\
  StronglySorted (fun x y => job_before x y = true) (SortedQueue.insertLocked j js) /\
  filter (fun x => SortedQueue.same_key k x = true) (SortedQueue.insertLocked j js) =
    filter (fun x => SortedQueue.same_key k x = true) (js ++ [j]).
Proof.
  intros Hs. rewrite SortedQueue.insertLocked_ref. split; [|split].
  - apply SortedQueue.insert_ref_perm.
  - by apply SortedQueue.insert_ref_ordered.
  - rewrite filter_app. by apply SortedQueue.insert_ref_stable.
Qed.

Definition with_slice (l : list Job) (q : SortedQueue) : SortedQueue :=
  SortedQueue.with_jobs l q.

(** What an insertion leaves of the signal channel. *)
Definition signal_on (c : chan unit) : chan unit := if chan_has_room c then chan_push tt c else c.

Lemma run_Sorted_Enqueue env j w : sq_closed (w_prio w) = false ->
  run env (SortedQueue.Enqueue j) w =
    Done None (with_prio (mkSortedQueue (SortedQueue.insertLocked j (sq_jobs (w_prio w)))
                 (signal_on (sq_signal (w_prio w))) false (sq_done (w_prio w))) w).
Proof.
  intros Hc. unfold SortedQueue.Enqueue, SortedQueue.Enqueue_lock.
  rewrite run_bind, run_act_, Hc. cbn [fst snd]. rewrite run_bind.
  unfold SortedQueue.Enqueue_wake, select_default. rewrite run_act_.
  unfold signal_on. destruct (chan_has_room (sq_signal (w_prio w))) eqn:Hr.
  - erewrite select_one; cycle 1.
    { simpl. unfold SortedQueue.case_signal. simpl. by rewrite Hr. }
    simpl. unfold SortedQueue.with_signal. simpl. by rewrite Hc.
  - rewrite select_none; [simpl; unfold SortedQueue.with_jobs; by rewrite Hc|].
    simpl. unfold SortedQueue.case_signal. simpl. by rewrite Hr.
Qed.

Lemma run_Sorted_pop env d j l w : sq_jobs (w_prio w) = j :: l ->
  run env (SortedQueue.DequeueOrWait d) w =
    Done (Some j, None) (with_prio (with_slice l (w_prio w)) w).
Proof.
  intros Hj. unfold SortedQueue.DequeueOrWait, SortedQueue.pop_lock.
  rewrite run_bind, run_act_, Hj. done.
Qed.

Definition insert_all (js l : list Job) : list Job :=
  foldl (fun l j => SortedQueue.insertLocked j l) l js.

Lemma run_sorted_enqueue_all env js : forall w, sq_closed (w_prio w) = false ->
  exists w', run env (enqueue_all SortedQueue.Enqueue js) w = Done tt w' /\
    sq_jobs (w_prio w') = insert_all js (sq_jobs (w_prio w)).
Proof.
  induction js as [|j js IH]; intros w Hc; [by exists w|]. cbn [enqueue_all].
  rewrite run_bind, run_Sorted_Enqueue by done. cbv beta iota.
  edestruct IH as (w' & Hr & Hj); [|exists w'; split; [exact Hr|]]; [done|]. by rewrite Hj.
Qed.

Lemma run_sorted_dequeue_n env d l : forall w, sq_jobs (w_prio w) = l ->
  exists w', run env (dequeue_n (SortedQueue.DequeueOrWait d) (length l)) w = Done l w' /\
    sq_jobs (w_prio w') = [].
Proof.
  induction l as [|j l IH]; intros w Hl; [by exists w|]. cbn [length dequeue_n].
  rewrite run_bind, (run_Sorted_pop _ _ j l) by done. cbv beta iota. rewrite run_bind.
  destruct (IH (with_prio (with_slice l (w_prio w)) w) eq_refl) as (w' & -> & Hw').
  by exists w'.
Qed.

Lemma insert_all_sorts k js l : StronglySorted (fun x y => job_before x y = true) l ->
  insert_all js l ≡ₚ l ++ js /\
  StronglySorted (fun x y => job_before x y = true) (insert_all js l) /\
  filter (fun x => SortedQueue.same_key k x = true) (insert_all js l) =
    filter (fun x => SortedQueue.same_key k x = true) (l ++ js).
Proof.
  revert l. induction js as [|j js IH]; intros l Hl; [by rewrite app_nil_r|].
  cbn [insert_all foldl]. rewrite SortedQueue.insertLocked_ref.
  destruct (IH (SortedQueue.insert_ref j l)) as (Hp & Hs & Hf);
    [by apply SortedQueue.insert_ref_ordered|]. split; [|split; [done|]].
  - etrans; [exact Hp|]. rewrite SortedQueue.insert_ref_perm.
    apply (Permutation_middle l js j).
  - etrans; [exact Hf|].
    rewrite filter_app, SortedQueue.insert_ref_stable by done.
    rewrite <- filter_app, <- filter_app. by rewrite <- app_assoc.
Qed.

(** C7: the priority queue is a stable sort: jobs put in one after the other come
    out by decreasing priority, then by creation time, and in the order of
    arrival where these are equal; none is lost and none is delivered twice. *)
Theorem sorted_delivery env k d js w :
  sq_jobs (w_prio w) = [] -> sq_closed (w_prio w) = false ->
  exists out w', run env (enqueue_all SortedQueue.Enqueue js;;
                          dequeue_n (SortedQueue.DequeueOrWait d) (length js)) w = Done out w' /\
    out ≡ₚ js /\
    StronglySorted (fun x y => job_before x y = true) out /\
    filter (fun x => SortedQueue.same_key k x = true) out =
      filter (fun x => SortedQueue.same_key k x = true) js.
Proof.
  intros He Hc. rewrite run_bind.
  destruct (run_sorted_enqueue_all env js w Hc) as (w1 & -> & Hj). rewrite He in Hj.
  destruct (insert_all_sorts k js [] ltac:(constructor)) as (Hp & Hs & Hf).
  replace (length js) with (length (insert_all js [])) by (by rewrite Hp).
  destruct (run_sorted_dequeue_n env d _ w1 Hj) as (w2 & Hr & _).
  exists (insert_all js []), w2. done.
Qed.

(** ** Every bounded wait ends *)

(** A case that looks at the shared state and not at the coins, and does not
    move the clock. *)
Definition plain {X} (a : alt X) : Prop :=
  (forall w cs, is_Some (a (with_coins cs w)) <-> is_Some (a w)) /\
  (forall w x w', a w = Some (x, w') -> w_clock w' = w_clock w).

Lemma omap_length_iff {X} (alts : list (alt X)) w w' :
  Forall (fun a : alt X => is_Some (a w') <-> is_Some (a w)) alts ->
  length (omap (fun a => a w') alts) = length (omap (fun a => a w) alts).
Proof.
  induction 1 as [|a alts [H1 H2] _ IH]; [done|]. simpl.
  destruct (a w'), (a w); simpl; [by f_equal| | |done].
  - by destruct H1 as [? [=]].
  - by destruct H2 as [? [=]].
Qed.

Lemma flip_lt n w : (0 < n)%nat -> ((flip n w).1 < n)%nat.
Proof.
  intros Hn. unfold flip. destruct (n <=? 1)%nat; [done|].
  destruct (w_coins w) as [|c cs]; [done|]. simpl. apply Nat.mod_upper_bound. lia.
Qed.

Lemma flip_coins n w : (flip n w).2 = w \/ exists cs, (flip n w).2 = with_coins cs w.
Proof.
  unfold flip. destruct (n <=? 1)%nat; [by left|].
  destruct (w_coins w) as [|c cs]; [by left|]. right. by exists cs.
Qed.

(** A [select] with a ready case takes one of the cases that are ready. *)
Lemma select_ready {X} (alts : list (alt X)) w :
  Forall plain alts -> Exists (fun a : alt X => is_Some (a w)) alts ->
  exists a x w1 w', select_action alts w = Some (x, w') /\ a ∈ alts /\
    (w1 = w \/ exists cs, w1 = with_coins cs w) /\ a w1 = Some (x, w').
Proof.
  intros Hp Hex. unfold select_action.
  destruct (flip (length (omap (fun a => a w) alts)) w) as [k w1] eqn:Hflip.
  assert (w1 = w \/ exists cs, w1 = with_coins cs w) as Hw1.
  { destruct (flip_coins (length (omap (fun a => a w) alts)) w) as [H1|[cs H1]];
      rewrite Hflip in H1; simpl in H1; [by left|right; by exists cs]. }
  assert (length (omap (fun a => a w1) alts) = length (omap (fun a => a w) alts)) as Hlen.
  { apply omap_length_iff. eapply Forall_impl; [exact Hp|]. intros a [Ha _].
    destruct Hw1 as [->|[cs ->]]; [done|apply Ha]. }
  assert (0 < length (omap (fun a => a w) alts))%nat as Hpos.
  { apply Exists_exists in Hex as (a & Ha & [r Hr]).
    assert (r ∈ omap (fun a => a w) alts) as Hin by (apply list_elem_of_omap; by exists a).
    destruct (omap (fun a => a w) alts); [by apply not_elem_of_nil in Hin|simpl; lia]. }
  pose proof (flip_lt _ w Hpos) as Hk. rewrite Hflip in Hk. simpl in Hk.
  destruct (lookup_lt_is_Some_2 (omap (fun a => a w1) alts) k) as [[x w'] Hx]; [lia|].
  rewrite Hx. pose proof Hx as (a & Ha & Haw)%list_elem_of_lookup_2%list_elem_of_omap.
  by exists a, x, w1, w'.
Qed.

Lemma run_select_ready {X} env (alts : list (alt X)) tm w :
  Forall plain alts -> Exists (fun a : alt X => is_Some (a w)) alts ->
  exists a x w1 w', run env (select_ alts tm) w = Done x w' /\ a ∈ alts /\
    (w1 = w \/ exists cs, w1 = with_coins cs w) /\ a w1 = Some (x, w') /\
    w_clock w' = w_clock w.
Proof.
  intros Hp Hex. destruct (select_ready alts w Hp Hex) as (a & x & w1 & w' & Hs & Ha & Hw1 & Haw).
  exists a, x, w1, w'. cbn [select_ run]. rewrite Hs. split_and!; [done..|].
  rewrite Forall_forall in Hp. destruct (Hp a Ha) as [_ Hclock]. rewrite (Hclock _ _ _ Haw).
  by destruct Hw1 as [->|[cs ->]].
Qed.

Section forward.
(** What the others do does not turn the clock back. *)
Variable env : World -> World.
Hypothesis env_forward : forall w, w_clock w <= w_clock (env w).

(** A [select] with a timer ends. *)
Lemma run_select_timed {X} (alts : list (alt X)) t x0 w :
  Forall plain alts -> after t x0 ∈ alts ->
  exists x w', run env (select_ alts (Some t)) w = Done x w' /\ w_clock w <= w_clock w'.
Proof.
  intros Hp Hin.
  destruct (omap (fun a => a w) alts) as [|r rs] eqn:Hready.
  - cbn [select_ run]. rewrite (select_none _ _ Hready).
    set (w2 := env (wake (Some t) w)).
    assert (w_clock w <= w_clock w2 /\ t <= w_clock w2) as [Hle Ht].
    { pose proof (env_forward (wake (Some t) w)). unfold w2. simpl in *. lia. }
    destruct (select_ready alts w2 Hp) as (a & x & w1 & w' & Hs & Ha & Hw1 & Haw).
    { apply Exists_exists. exists (after t x0). split; [done|]. unfold after.
      rewrite (proj2 (Z.leb_le _ _)) by done. by eexists. }
    fold w2. rewrite Hs. exists x, w'. split; [done|].
    rewrite Forall_forall in Hp. destruct (Hp a Ha) as [_ Hclock].
    rewrite (Hclock _ _ _ Haw). by destruct Hw1 as [->|[cs ->]].
  - destruct (run_select_ready env alts (Some t) w Hp) as (a & x & w1 & w' & Hr & _ & _ & _ & Hc).
    { apply Exists_exists. assert (r ∈ omap (fun a => a w) alts) as Hin'
        by (rewrite Hready; by left).
      apply list_elem_of_omap in Hin' as (a & Ha & Har). exists a. split; [done|by exists r]. }
    exists x, w'. split; [done|lia].
Qed.

Lemma run_sleep d w : exists w', run env (sleep d) w = Done tt w' /\
  w_clock w + d <= w_clock w' /\ w_clock w <= w_clock w'.
Proof.
  unfold sleep, wait_until. rewrite run_bind, run_now. cbn [run].
  destruct (clock w <? clock w + d) eqn:Hlt.
  - set (w2 := env (wake (Some (clock w + d)) w)).
    assert (clock w + d <= w_clock w2) as Hc.
    { pose proof (env_forward (wake (Some (clock w + d)) w)). unfold w2. simpl in *. lia. }
    fold w2. simpl in Hc, Hlt. simpl clock. rewrite (proj2 (Z.ltb_ge _ _)) by done.
    exists w2. split; [done|]. lia.
  - exists w. simpl in Hlt. split; [done|]. lia.
Qed.

End forward.

Lemma run_sleep_alone d w : 0 <= d ->
  run alone (sleep d) w = Done tt (with_clock (w_clock w + d) w).
Proof.
  intros Hd. unfold sleep, wait_until. rewrite run_bind, run_now. cbn [run]. simpl clock.
  destruct (w_clock w <? w_clock w + d) eqn:Hlt.
  - unfold alone. simpl. rewrite Z.max_r by lia. by rewrite Z.ltb_irrefl.
  - replace (w_clock w + d) with (w_clock w) by lia. by rewrite with_clock_id.
Qed.

(** Goes through the cases of an alternative. *)
Ltac plain_tac :=
  split;
  [ intros w cs; simpl; repeat case_match; split; intros [? [=]]; by eexists
  | intros w y w'; simpl; repeat case_match; intros [=]; subst; by rewrite ?clock_set_mq ].

Lemma plain_after {X} t (x : X) : plain (after t x).
Proof. unfold after. plain_tac. Qed.

Lemma plain_receive q : plain (MemoryQueue.case_receive q).
Proof. unfold MemoryQueue.case_receive. destruct q; plain_tac. Qed.

Lemma plain_send q j : plain (MemoryQueue.case_send q j).
Proof. unfold MemoryQueue.case_send. destruct q; plain_tac. Qed.

Lemma plain_mq_done q : plain (MemoryQueue.case_done q).
Proof. unfold MemoryQueue.case_done. destruct q; plain_tac. Qed.

Lemma plain_wait : plain SortedQueue.case_wait.
Proof. unfold SortedQueue.case_wait. plain_tac. Qed.

Lemma plain_sorted_done : plain SortedQueue.case_done.
Proof. unfold SortedQueue.case_done. plain_tac. Qed.

#[local] Hint Resolve @plain_after plain_receive plain_send plain_mq_done plain_wait
  plain_sorted_done : core.

(** ** One round of the router's polling *)

(** A program that ends at once, whatever the others do, and leaves the clock. *)
Definition at_once {A} (p : M A) (w : World) (Q : A -> World -> Prop) : Prop :=
  forall env, exists a w', run env p w = Done a w' /\ w_clock w' = w_clock w /\ Q a w'.

Definition same_bucket {A} (w : World) : A -> World -> Prop :=
  fun _ w' => w_rl w' = w_rl w.

Lemma at_once_bind {A B} (p : M A) (f : A -> M B) w (Q : A -> World -> Prop) R :
  at_once p w Q ->
  (forall a w', w_clock w' = w_clock w -> Q a w' -> at_once (f a) w' R) ->
  at_once (p ≫= f) w R.
Proof.
  intros Hp Hf env. destruct (Hp env) as (a & w1 & Hr & Hc & HQ).
  destruct (Hf a w1 Hc HQ env) as (b & w2 & Hr2 & Hc2 & HR).
  exists b, w2. rewrite run_bind, Hr, Hr2. split_and!; [done|congruence|done].
Qed.

Lemma at_once_ret {A} (a : A) w (Q : A -> World -> Prop) : Q a w -> at_once (Ret a) w Q.
Proof. intros HQ env. by exists a, w. Qed.

Lemma at_once_select {X} (alts : list (alt X)) tm w (Q : X -> World -> Prop) :
  Forall plain alts -> Exists (fun a : alt X => is_Some (a w)) alts ->
  Forall (fun a : alt X => forall w1 x w', w1 = w \/ (exists cs, w1 = with_coins cs w) ->
    a w1 = Some (x, w') -> Q x w') alts ->
  at_once (select_ alts tm) w Q.
Proof.
  intros Hp Hex HQ env.
  destruct (run_select_ready env alts tm w Hp Hex) as (a & x & w1 & w' & Hr & Ha & Hw1 & Haw & Hc).
  exists x, w'. split_and!; [done..|]. rewrite Forall_forall in HQ. by eapply HQ.
Qed.

Lemma at_once_now w : at_once now w (fun t w' => t = w_clock w /\ w' = w).
Proof. intros env. by exists (w_clock w), w. Qed.

(** A case whose effect spares the bucket, whatever coins were tossed. *)
Ltac spares_bucket :=
  intros ? ? ? [->|[? ->]]; simpl; repeat case_match; intros [=]; by subst.

Ltac all_cases := repeat (apply Forall_cons_2; [by auto|]); by apply Forall_nil_2.

Lemma after_now {X} w (x : X) (alts : list (alt X)) :
  after (w_clock w + 0) x ∈ alts -> Exists (fun a : alt X => is_Some (a w)) alts.
Proof.
  intros Hin. apply Exists_exists. exists (after (w_clock w + 0) x). split; [done|].
  unfold after. rewrite Z.add_0_r, Z.leb_refl. by eexists.
Qed.

Lemma at_once_pop w : at_once SortedQueue.pop_lock w (same_bucket w).
Proof.
  intros env. unfold SortedQueue.pop_lock. rewrite run_act_.
  destruct (SortedQueue.popLocked (sq_jobs (w_prio w))). by eexists _, _.
Qed.

Lemma at_once_prio w : at_once (SortedQueue.DequeueOrWait 0) w (same_bucket w).
Proof.
  unfold SortedQueue.DequeueOrWait, same_bucket. eapply at_once_bind; [apply at_once_pop|].
  intros [[j|] closed] w1 Hc1 Ht1; [by apply at_once_ret|].
  destruct closed; [by apply at_once_ret|].
  eapply at_once_bind; [apply at_once_now|]. intros t ? _ [-> ->].
  eapply (at_once_bind _ _ _ (same_bucket w)).
  - apply at_once_select; [all_cases|apply (after_now w1 SortedQueue.WaitTimedOut); set_solver|].
    unfold same_bucket. rewrite <- Ht1.
    repeat (apply Forall_cons_2; [|]); [| | |by apply Forall_nil_2].
    + unfold SortedQueue.case_wait. spares_bucket.
    + unfold SortedQueue.case_done. spares_bucket.
    + unfold after. spares_bucket.
  - intros [] w2 Hc2 Ht2; try by apply at_once_ret.
    eapply at_once_bind; [apply at_once_pop|]. intros [j c] w3 _ Ht3.
    apply at_once_ret. unfold same_bucket in *. congruence.
Qed.

Lemma at_once_receive q w (Q : option Job -> World -> Prop) :
  (forall w1 x w', w1 = w \/ (exists cs, w1 = with_coins cs w) ->
     MemoryQueue.case_receive q w1 = Some (x, w') -> Q x w') ->
  (forall w1, w1 = w \/ (exists cs, w1 = with_coins cs w) -> Q None w1) ->
  at_once (select_ [MemoryQueue.case_receive q; after (w_clock w + 0) None]
    (Some (w_clock w + 0))) w Q.
Proof.
  intros HQ HN. apply at_once_select; [all_cases|apply (after_now w None); set_solver|].
  repeat (apply Forall_cons_2; [|]); [exact HQ| |by apply Forall_nil_2].
  intros w1 x w' Hw1. unfold after. case_match; intros [=]; subst. by apply HN.
Qed.

Lemma at_once_token fuel w : 0 < rq_tokens (w_rl w) ->
  at_once (RateLimitedQueue.wait_for_token (S fuel)) w (fun _ w' =>
    w_rl w' = RateLimitedQueue.with_tokens (rq_tokens (w_rl w) - 1) (w_rl w)).
Proof.
  intros Ht env. cbn [RateLimitedQueue.wait_for_token]. unfold RateLimitedQueue.take_token.
  rewrite run_bind, run_act_, (proj2 (Z.ltb_lt _ _)) by done. by eexists _, _.
Qed.

(** What a poll has done to the rate-limited queue, and what it returned. *)
Definition paid_for (w : World) (r : option Job) (w' : World) : Prop :=
  w_rl w' = w_rl w \/
  exists j l, r = Some j /\ ch_buf (mq_jobs (rq_memory (w_rl w))) = j :: l /\
    ch_buf (mq_jobs (rq_memory (w_rl w'))) = l /\
    0 < rq_tokens (w_rl w) /\ rq_tokens (w_rl w') = rq_tokens (w_rl w) - 1.

Lemma at_once_rl fuel w : 0 < rq_tokens (w_rl w) ->
  at_once (RateLimitedQueue.DequeueOrWait (S fuel) 0) w (fun r w' =>
    r.2 = None /\ paid_for w r.1 w').
Proof.
  intros Ht. unfold RateLimitedQueue.DequeueOrWait.
  eapply at_once_bind; [apply at_once_now|]. intros t ? _ [-> ->].
  eapply (at_once_bind _ _ _ (fun r w' => match r with
    | None => w_rl w' = w_rl w
    | Some j => exists l, ch_buf (mq_jobs (rq_memory (w_rl w))) = j :: l /\
        ch_buf (mq_jobs (rq_memory (w_rl w'))) = l /\
        rq_tokens (w_rl w') = rq_tokens (w_rl w) end)).
  - apply at_once_receive.
    + intros w1 x w' Hw1. unfold MemoryQueue.case_receive. simpl.
      assert (w_rl w1 = w_rl w) as -> by (by destruct Hw1 as [->|[cs ->]]).
      destruct (ch_buf (mq_jobs (rq_memory (w_rl w)))) as [|j l] eqn:Hb.
      * case_match; [|done]. intros [=]; subst. by destruct Hw1 as [->|[cs ->]].
      * intros [=]; subst. exists l. simpl. by rewrite Hb.
    + by intros w1 [->|[cs ->]].
  - intros [j|] w2 _ Hw2; [|by apply at_once_ret; split; [|left]].
    destruct Hw2 as (l & Hb & Hb' & Htok).
    eapply at_once_bind; [apply at_once_token; lia|]. intros [] w3 _ Hw3.
    apply at_once_ret. split; [done|]. right. exists j, l. rewrite Hw3. simpl.
    split_and!; [done|done|done|lia|lia].
Qed.

Lemma at_once_mq w : at_once (MemoryQueue.DequeueOrWait FIFORef 0) w (same_bucket w).
Proof.
  unfold MemoryQueue.DequeueOrWait.
  eapply at_once_bind; [apply at_once_now|]. intros t ? _ [-> ->].
  eapply (at_once_bind _ _ _ (same_bucket w)).
  - apply at_once_receive; [|by intros w1 [->|[cs ->]]].
    unfold MemoryQueue.case_receive. spares_bucket.
  - intros. by apply at_once_ret.
Qed.

Lemma at_once_poll fuel w : at_once (Router.poll (S fuel)) w (paid_for w).
Proof.
  unfold Router.poll. eapply at_once_bind; [apply at_once_prio|]. intros r1 w1 _ Hb1.
  unfold same_bucket in Hb1.
  destruct (Router.attempt r1) as [j|]; [by apply at_once_ret; left|].
  eapply (at_once_bind _ _ _ (fun n w' => n = rq_tokens (w_rl w') /\ w_rl w' = w_rl w)).
  { intros env. by eexists _, _. }
  intros n w2 _ [-> Hb2]. eapply (at_once_bind _ _ _ (fun r w' => r.2 = None /\ paid_for w r.1 w')).
  { destruct (0 <? rq_tokens (w_rl w2)) eqn:Ht.
    - apply Z.ltb_lt in Ht. pose proof (at_once_rl fuel w2 Ht) as Hrl.
      unfold paid_for in *. by rewrite Hb2 in Hrl.
    - apply at_once_ret. split; [done|by left]. }
  intros [j3 e3] w3 _ [He Hpaid]. simpl in He, Hpaid. subst e3.
  cbn [Router.attempt].
  destruct j3 as [j|]; [by apply at_once_ret|].
  destruct Hpaid as [Hb3|Hpaid]; [|by destruct Hpaid as (? & ? & ? & _)].
  eapply at_once_bind; [apply at_once_mq|]. intros r w4 _ Hb4. apply at_once_ret. left.
  unfold same_bucket in Hb4. congruence.
Qed.


(** C30: priority jobs come first.  While the priority queue holds a job, a wait
    on the router returns the one at its head and touches nothing else. *)
Theorem router_prefers_priority env fuel rounds d j l w :
  sq_jobs (w_prio w) = j :: l -> 0 < d ->
  run env (Router.DequeueOrWait fuel (S rounds) d) w =
    Done (Some j, None) (with_prio (with_slice l (w_prio w)) w).
Proof.
  intros Hj Hd. unfold Router.DequeueOrWait. rewrite run_bind, run_now. cbv beta iota.
  cbn [Router.DequeueOrWait_loop]. rewrite run_bind, run_now. cbv beta iota. simpl clock.
  rewrite (proj2 (Z.ltb_lt _ _)) by lia. unfold Router.poll.
  rewrite run_bind, run_bind, (run_Sorted_pop _ _ j l) by done. done.
Qed.

Section returns.
Variable env : World -> World.
Hypothesis env_forward : forall w, w_clock w <= w_clock (env w).

Lemma run_router_loop fuel rounds : forall deadline w,
  (0 < rounds)%nat -> deadline - w_clock w <= (Z.of_nat rounds - 1) * (10 * Millisecond) ->
  exists job w', run env (Router.DequeueOrWait_loop (S fuel) rounds deadline) w =
    Done (job, None) w'.
Proof.
  induction rounds as [|rounds IH]; intros deadline w Hpos Hd; [lia|].
  cbn [Router.DequeueOrWait_loop]. rewrite run_bind, run_now. cbv beta iota. simpl clock.
  destruct (w_clock w <? deadline) eqn:Hlt; [|by eexists _, _].
  rewrite run_bind. destruct (at_once_poll fuel w env) as (r & w1 & -> & Hc & _).
  cbv beta iota. destruct r as [j|]; [by eexists _, _|].
  rewrite run_bind. destruct (run_sleep env env_forward (10 * Millisecond) w1)
    as (w2 & -> & Hs & _). cbv beta iota.
  apply IH; unfold Millisecond in *; nia.
Qed.


End returns.
(** ** On a concrete process *)

Section concrete.
Import Examples.

Lemma booted_fifo_ok : mq_ok (get_mq FIFORef booted).
Proof. split; vm_compute; [discriminate|done]. Qed.

Lemma with_fifo_job_ok : mq_ok (get_mq FIFORef with_fifo_job).
Proof. split; vm_compute; [discriminate|done]. Qed.

Lemma Enqueue_result_by_state_witness :
  run alone (MemoryQueue.Enqueue FIFORef (job "x" "fifo" 1 7)) booted =
    Done None (set_mq FIFORef
      (MemoryQueue.set_jobs (chan_push (job "x" "fifo" 1 7) (mq_jobs (w_fifo booted)))
         (w_fifo booted)) booted).
Proof.
  etrans; [apply (Enqueue_result_by_state FIFORef _ booted), booted_fifo_ok|].
  assert (mq_closed (get_mq FIFORef booted) = false) as -> by (by vm_compute).
  assert (chan_has_room (mq_jobs (get_mq FIFORef booted)) = true) as -> by (by vm_compute).
  reflexivity.
Defined.

Lemma fifo_order_witness :
  run alone (enqueue_all (MemoryQueue.Enqueue FIFORef) [job "x" "fifo" 1 7; job "y" "fifo" 3 5];;
             dequeue_n (MemoryQueue.Dequeue FIFORef) 3) with_fifo_job =
    Done [job "a" "fifo" 1 1000000; job "x" "fifo" 1 7; job "y" "fifo" 3 5]
      (set_mq FIFORef (with_buffer [] (w_fifo with_fifo_job)) with_fifo_job).
Proof.
  assert (ch_buf (mq_jobs (get_mq FIFORef with_fifo_job)) = [job "a" "fifo" 1 1000000]) as Hb
    by (by vm_compute).
  pose proof (fifo_order FIFORef [job "x" "fifo" 1 7; job "y" "fifo" 3 5] with_fifo_job) as Hf.
  cbv zeta in Hf. rewrite Hb in Hf. apply Hf.
  - exact with_fifo_job_ok.
  - vm_compute. reflexivity.
  - vm_compute. lia.
Defined.

Lemma insertLocked_correct_witness :
  SortedQueue.insertLocked (job "x" "priority" 2 5)
    [job "y" "priority" 3 9; job "z" "priority" 2 5; job "u" "priority" 1 1] ≡ₚ
  [job "x" "priority" 2 5; job "y" "priority" 3 9; job "z" "priority" 2 5;
   job "u" "priority" 1 1].
Proof.
  apply (insertLocked_correct (job "x" "priority" 2 5)). repeat constructor.
Defined.

Lemma sorted_delivery_witness : exists out w',
  run alone (enqueue_all SortedQueue.Enqueue [job "x" "priority" 1 5; job "y" "priority" 3 9];;
             dequeue_n (SortedQueue.DequeueOrWait 0) 2) booted = Done out w' /\
  StronglySorted (fun x y => job_before x y = true) out.
Proof.
  destruct (sorted_delivery alone (job "x" "priority" 1 5) 0
    [job "x" "priority" 1 5; job "y" "priority" 3 9] booted) as (out & w' & Hr & _ & Hs & _);
    [by vm_compute|by vm_compute|].
  exists out, w'. exact (conj Hr Hs).
Defined.


Lemma router_prefers_priority_witness :
  run alone (Router.DequeueOrWait 5 11 (100 * Millisecond)) with_three_jobs =
    Done (Some (job "b" "priority" 2 1000000), None)
      (with_prio (with_slice [] (w_prio with_three_jobs)) with_three_jobs).
Proof.
  apply (router_prefers_priority alone 5 10 (100 * Millisecond)); [vm_compute; reflexivity|].
  unfold Millisecond. lia.
Defined.

End concrete.

End Delivery.
