(* ===== verification/Bucket.v ===== *)
(** * The token bucket over time

    How many tokens the rate-limited queue grants in a stretch of time, and
    whether a consumer that waits for one gets it. *)

From S2P Require Import Prelude Go Models World Metrics Sql Storage Invariant.
From S2P Require Import MemoryQueue RateLimitedQueue Delivery.
From S2P Require Import Examples.

Module Bucket.
Import RateLimitedQueue.

Notation interval w := (refill_interval (rq_rate (w_rl w))).

(** What happens to the bucket: time passes, the refill goroutine handles a
    tick if one is due, a consumer tries to take a token. *)
Inductive event : Type :=
| Pass (d : Z)
| Tick
| Take.

Definition refill_due (w : World) : World :=
  match case_tick w with
  | Some (_, w') => with_rl (add_token (w_rl w')) w'
  | None => w
  end.

(** The number of tokens granted, and the state. *)
Definition step (e : event) (w : World) : Z * World :=
  match e with
  | Pass d => (0, with_clock (w_clock w + Z.max 0 d) w)
  | Tick => (0, refill_due w)
  | Take =>
      match take_token (w_rl w) with
      | Some q => (1, with_rl q w)
      | None => (0, w)
      end
  end.

Fixpoint run_events (es : list event) (w : World) : Z * World :=
  match es with
  | [] => (0, w)
  | e :: es =>
      let '(n, w) := step e w in
      let '(n', w) := run_events es w in (n + n', w)
  end.

(** The ticks that can still be handled until [t]. *)
Definition ticks_until (t : Z) (w : World) : Z :=
  Z.max 0 ((t - rq_ticker (w_rl w)) / interval w + 1).

Lemma refill_due_rate w : rq_rate (w_rl (refill_due w)) = rq_rate (w_rl w).
Proof. unfold refill_due, case_tick, add_token. by repeat case_match; simplify_eq/=. Qed.

Lemma refill_due_clock w : w_clock (refill_due w) = w_clock w.
Proof. unfold refill_due, case_tick. by repeat case_match; simplify_eq/=. Qed.

Lemma refill_due_tokens w :
  rq_tokens (w_rl w) <= rq_tokens (w_rl (refill_due w)) <= rq_tokens (w_rl w) + 1.
Proof.
  unfold refill_due, case_tick, add_token. repeat case_match; simplify_eq/=; lia.
Qed.

(** A tick uses up at least one of those that can be handled. *)
Lemma refill_due_ticks t w : 0 < interval w -> w_clock w <= t ->
  rq_tokens (w_rl (refill_due w)) + ticks_until t (refill_due w) <=
  rq_tokens (w_rl w) + ticks_until t w.
Proof.
  intros Hi Ht. unfold refill_due, case_tick.
  destruct (rq_ticker (w_rl w) <=? w_clock w) eqn:Hdue; [|lia]. apply Z.leb_le in Hdue.
  set (w1 := with_rl _ w). assert (ticks_until t (with_rl (add_token (w_rl w1)) w1) + 1 <=
    ticks_until t w) as Hticks.
  { unfold ticks_until, w1, next_tick, add_token. simpl.
    set (I := interval w) in *. set (k := (w_clock w - rq_ticker (w_rl w)) / I).
    assert (0 <= k) by (apply Z.div_pos; lia).
    assert (k <= (t - rq_ticker (w_rl w)) / I) by (apply Z.div_le_mono; lia).
    assert ((t - (rq_ticker (w_rl w) + I * (k + 1))) / I =
      (t - rq_ticker (w_rl w)) / I - (k + 1)) as Hdiv.
    { replace (t - (rq_ticker (w_rl w) + I * (k + 1)))
        with (t - rq_ticker (w_rl w) + (- (k + 1)) * I) by lia.
      rewrite Z.div_add by lia. lia. }
    case_match; simpl; fold I k; rewrite Hdiv; lia. }
  assert (rq_tokens (w_rl (with_rl (add_token (w_rl w1)) w1)) <= rq_tokens (w_rl w) + 1).
  { unfold add_token, w1. simpl. case_match; simpl; lia. }
  lia.
Qed.

Lemma step_potential e w t : 0 < interval w -> 0 <= rq_tokens (w_rl w) ->
  w_clock (step e w).2 <= t ->
  interval (step e w).2 = interval w /\ 0 <= rq_tokens (w_rl (step e w).2) /\
  (step e w).1 + rq_tokens (w_rl (step e w).2) + ticks_until t (step e w).2 <=
    rq_tokens (w_rl w) + ticks_until t w.
Proof.
  intros Hi Hn. destruct e as [d| |]; simpl.
  - intros _. unfold ticks_until. simpl. lia.
  - rewrite refill_due_clock. intros Ht. rewrite refill_due_rate.
    pose proof (refill_due_tokens w). pose proof (refill_due_ticks t w Hi Ht). lia.
  - unfold take_token. destruct (0 <? rq_tokens (w_rl w)) eqn:Hpos; simpl; intros _;
      unfold ticks_until; simpl; lia.
Qed.

Lemma run_events_clock es : forall w, w_clock w <= w_clock (run_events es w).2.
Proof.
  induction es as [|e es IH]; intros w; [done|]. cbn [run_events].
  destruct (step e w) as [n w1] eqn:Hs. specialize (IH w1).
  destruct (run_events es w1) as [n' w2]. simpl in *.
  assert (w_clock w <= w_clock w1); [|lia].
  destruct e; simpl in Hs; [simplify_eq/=; lia| |].
  - simplify_eq. by rewrite refill_due_clock.
  - case_match; simplify_eq/=; lia.
Qed.

Lemma run_events_potential es t : forall w, 0 < interval w -> 0 <= rq_tokens (w_rl w) ->
  w_clock (run_events es w).2 <= t ->
  (run_events es w).1 + rq_tokens (w_rl (run_events es w).2) <=
    rq_tokens (w_rl w) + ticks_until t w /\
  0 <= rq_tokens (w_rl (run_events es w).2).
Proof.
  induction es as [|e es IH]; intros w Hi Hn Ht; simpl in *.
  - split; [|done]. unfold ticks_until. lia.
  - pose proof (step_potential e w t Hi Hn) as Hstep.
    destruct (step e w) as [n w1]. simpl in *.
    pose proof (run_events_clock es w1) as Hc.
    destruct (run_events es w1) as [n' w2] eqn:Hr. simpl in *.
    destruct Hstep as (Hi1 & Hn1 & Hp); [lia|].
    specialize (IH w1). rewrite Hi1, Hr in IH. simpl in IH.
    destruct IH as [IH1 IH2]; [done..|]. split; [|done]. simpl. lia.
Qed.



(** without the refill goroutine the wait never ends: a consumer that holds
    a job and finds the bucket empty after [Close] polls for ever. *)
Theorem wait_without_refill fuel w :
  rq_tokens (w_rl w) <= 0 -> exists w', run alone (wait_for_token fuel) w = Spinning w'.
Proof.
  revert w. induction fuel as [|fuel IH]; intros w Hn; [by exists w|].
  cbn [wait_for_token]. rewrite run_bind, run_act_. unfold take_token.
  rewrite (proj2 (Z.ltb_ge _ _)) by done. cbn [fst snd]. rewrite run_bind.
  rewrite Delivery.run_sleep_alone by done. by apply IH.
Qed.

(** ** On a concrete process *)

Section concrete.
Import Examples.

(** The refill goroutine has started its ticker. *)
Definition ticking : World :=
  final_state (run alone (refill 0 (refill_interval (rq_rate (w_rl booted)))) booted).

(** Four requests at once, and one more after a second. *)
Definition demand : list event := [Take; Take; Take; Take; Pass Second; Tick; Take].


Definition drained : World := (run_events [Take; Take] ticking).2.


Lemma wait_without_refill_witness : exists w',
  run alone (wait_for_token 1000) drained = Spinning w'.
Proof. apply (wait_without_refill 1000 drained). by vm_compute. Defined.

End concrete.
End Bucket.
