(* ===== verification/Outcomes.v ===== *)
(** * What becomes of a job

    The outcomes a worker reports ([Nack], [Requeue]), the retry of a failed
    job, and the recovery at startup: what they leave in the table and in the
    queues, over any backend that meets [StorageSpec]. *)

From S2P Require Import Prelude Go Models World Metrics Sql Storage Invariant.
From S2P Require Import MemoryQueue SortedQueue RateLimitedQueue Router Delivery.
From S2P Require Import Examples.

Module Outcomes.
Section outcomes.
Context `{StorageSpec}.
Implicit Types (q : mqref) (w : World) (j : Job) (i : string).

(** A moment at which the storage answers and the queue takes a job. *)
Definition storage_ready w : Prop := st_ok (w_db w) /\ w_faults w = [].
Definition room_for (n : nat) q w : Prop :=
  Delivery.mq_ok (get_mq q w) /\ mq_closed (get_mq q w) = false /\
  (length (ch_buf (mq_jobs (get_mq q w))) + n <= ch_cap (mq_jobs (get_mq q w)))%nat.

Definition jobs_of w : gmap string Job := st_view (w_db w).

(** The queue after a job has been put in. *)
Definition pushed q j w : World :=
  set_mq q (MemoryQueue.set_jobs (chan_push j (mq_jobs (get_mq q w))) (get_mq q w)) w.

Lemma get_mq_db_met q f t w : get_mq q (with_met f (with_db t w)) = get_mq q w.
Proof. by destruct q. Qed.
Lemma get_mq_db q t w : get_mq q (with_db t w) = get_mq q w.
Proof. by destruct q. Qed.

Lemma run_Enqueue_room q j w n : room_for (S n) q w ->
  run alone (MemoryQueue.Enqueue q j) w = Done None (pushed q j w).
Proof.
  intros (Hok & Hc & Hroom). rewrite Delivery.run_Enqueue, Hc by done.
  unfold chan_has_room. by rewrite (proj2 (Nat.ltb_lt _ _)) by lia.
Qed.

Lemma room_weaken n m q w : (n <= m)%nat -> room_for m q w -> room_for n q w.
Proof. intros Hle (? & ? & ?). split_and!; [done..|lia]. Qed.

Lemma room_pushed n q j w : room_for (S n) q w -> room_for n q (pushed q j w).
Proof.
  intros (Hok & Hc & Hroom). unfold room_for, pushed. rewrite Delivery.get_set_mq.
  split_and!; [done..|]. simpl. rewrite length_app. simpl. lia.
Qed.

Lemma db_pushed q j w : w_db (pushed q j w) = w_db w.
Proof. by destruct q. Qed.
Lemma faults_pushed q j w : w_faults (pushed q j w) = w_faults w.
Proof. by destruct q. Qed.

(** ** [Nack] *)

Definition nack_result (n : Z) j : string * string :=
  if MaxRetries j <=? n then (StatusFailed, "exhausted " +:+ pretty n +:+ " retries")
  else (StatusPending, "").

Lemma run_Nack q i j w :
  storage_ready w -> jobs_of w !! i = Some j -> room_for 1 q w ->
  in_int64 (RetryCount j + 1) = true -> st_int (RetryCount j + 1) = true ->
  let n := RetryCount j + 1 in
  exists t', st_ok t' /\
    st_view t' = <[i := with_retry (nack_result n j).1 n (nack_result n j).2
                          (st_time (w_clock w)) j]> (jobs_of w) /\
    run alone (MemoryQueue.Nack q i) w =
      Done None
        (if MaxRetries j <=? n
         then with_met (failed_add (QueueType j) 1 (w_met w)) (with_db t' w)
         else pushed q (set_Status StatusPending (set_RetryCount n j))
                (with_met (retried_add (QueueType j) 1 (w_met w)) (with_db t' w))).
Proof.
  intros [Hok Hf] Hj Hroom Hn Hint. cbv zeta. unfold MemoryQueue.Nack.
  rewrite run_bind, GetJob_spec by done. unfold jobs_of in Hj. rewrite Hj. cbv beta iota zeta.
  apply in_int64_spec in Hn. cbn [RetryCount set_RetryCount MaxRetries].
  rewrite wrap64_id by done. unfold nack_result.
  destruct (MaxRetries j <=? RetryCount j + 1); cbn [fst snd].
  - destruct (UpdateJobRetry_spec alone w i StatusFailed (RetryCount j + 1)
      ("exhausted " +:+ pretty (RetryCount j + 1) +:+ " retries") j) as (t' & Hr & Hok' & Hv);
      [done..|]. exists t'. split_and!; [done..|]. by rewrite Hr.
  - destruct (UpdateJobRetry_spec alone w i StatusPending (RetryCount j + 1) "" j)
      as (t' & Hr & Hok' & Hv); [done..|]. exists t'. split_and!; [done..|].
    rewrite run_bind, Hr. cbv beta iota. rewrite (run_Enqueue_room _ _ _ 0); [done|].
    unfold room_for. rewrite get_mq_db_met. apply Hroom.
Qed.

(** C12: [Nack] counts the attempt and decides: a job whose attempts reach its
    budget is marked failed and stays out of the queues, any other is pending
    again, with the new count, and goes to the end of the queue; nothing else in
    the table changes. *)
Theorem nack_decides q i j w :
  storage_ready w -> jobs_of w !! i = Some j -> room_for 1 q w ->
  in_int64 (RetryCount j + 1) = true -> st_int (RetryCount j + 1) = true ->
  let n := RetryCount j + 1 in
  exists t', st_ok t' /\
    st_view t' = <[i := with_retry (nack_result n j).1 n (nack_result n j).2
                          (st_time (w_clock w)) j]> (jobs_of w) /\
    run alone (MemoryQueue.Nack q i) w =
      Done None
        (if MaxRetries j <=? n
         then with_met (failed_add (QueueType j) 1 (w_met w)) (with_db t' w)
         else pushed q (set_Status StatusPending (set_RetryCount n j))
                (with_met (retried_add (QueueType j) 1 (w_met w)) (with_db t' w))).
Proof. apply run_Nack. Qed.

(** The job fails again and again. *)
Fixpoint nack_times q i (k : nat) : M unit :=
  match k with
  | O => Ret tt
  | S k => MemoryQueue.Nack q i;; nack_times q i k
  end.

Lemma run_nack_times q i k : forall j w,
  storage_ready w -> jobs_of w !! i = Some j -> room_for k q w ->
  (forall n, RetryCount j < n <= RetryCount j + Z.of_nat k ->
     in_int64 n = true /\ st_int n = true) ->
  (0 < k)%nat ->
  exists w' j', run alone (nack_times q i k) w = Done tt w' /\ jobs_of w' !! i = Some j' /\
    RetryCount j' = RetryCount j + Z.of_nat k /\ MaxRetries j' = MaxRetries j /\
    Status j' = if MaxRetries j <=? RetryCount j + Z.of_nat k then StatusFailed else StatusPending.
Proof.
  induction k as [|k IH]; intros j w Hw Hj Hroom Hn Hk; [lia|]. cbn [nack_times].
  destruct (Hn (RetryCount j + 1)) as [Hn1 Hn2]; [lia|].
  assert (room_for 1 q w) as Hroom1 by (eapply room_weaken; [|exact Hroom]; lia).
  destruct (run_Nack q i j w Hw Hj Hroom1 Hn1 Hn2)
    as (t' & Hok' & Hv & Hr).
  rewrite run_bind, Hr. cbv beta iota. clear Hr.
  set (n := RetryCount j + 1) in *.
  set (j1 := with_retry (nack_result n j).1 n (nack_result n j).2 (st_time (w_clock w)) j) in *.
  match goal with |- context [run alone (nack_times q i k) ?w0] => set (w1 := w0) end.
  assert (storage_ready w1 /\ jobs_of w1 !! i = Some j1 /\ room_for k q w1) as (Hw1 & Hj1 & Hroomk).
  { unfold jobs_of, storage_ready, w1. destruct (MaxRetries j <=? n).
    - simpl. rewrite Hv, lookup_insert_eq. split_and!; [done|apply Hw|done|].
      unfold room_for. rewrite get_mq_db_met. by eapply room_weaken; [|exact Hroom]; lia.
    - rewrite db_pushed, faults_pushed. simpl. rewrite Hv, lookup_insert_eq.
      split_and!; [done|apply Hw|done|]. apply room_pushed. unfold room_for.
      rewrite get_mq_db_met. exact Hroom. }
  destruct (decide (k = 0)%nat) as [->|Hk0].
  - exists w1, j1. split_and!; [done|done|simpl; unfold n; lia|done|].
    change (Z.of_nat 1) with 1. unfold j1, nack_result, n. by destruct (MaxRetries j <=? RetryCount j + 1).
  - destruct (IH j1 w1 Hw1 Hj1 Hroomk) as (w2 & j2 & Hr & Hj2 & Hc & Hm & Hs);
      [|lia|].
    { intros x. simpl. unfold n. intros Hx. apply Hn. lia. }
    exists w2, j2. simpl in Hc, Hm, Hs. unfold n in *.
    split_and!; [done|done|lia|done|]. rewrite Hs.
    by replace (RetryCount j + 1 + Z.of_nat k) with (RetryCount j + Z.of_nat (S k)) by lia.
Qed.

(** C11: retries are bounded.  A job with attempts left is still pending after
    each failure until the failures use the budget up: it is marked failed by
    the failure number [MaxRetries - RetryCount] and by none before. *)
Theorem retries_are_bounded q i j w k :
  storage_ready w -> jobs_of w !! i = Some j -> room_for k q w ->
  (forall n, RetryCount j < n <= RetryCount j + Z.of_nat k ->
     in_int64 n = true /\ st_int n = true) ->
  (0 < k)%nat ->
  exists w' j', run alone (nack_times q i k) w = Done tt w' /\ jobs_of w' !! i = Some j' /\
    RetryCount j' = RetryCount j + Z.of_nat k /\
    (Status j' = StatusFailed <-> MaxRetries j - RetryCount j <= Z.of_nat k) /\
    (Status j' = StatusPending <-> Z.of_nat k < MaxRetries j - RetryCount j).
Proof.
  intros Hw Hj Hroom Hn Hk.
  destruct (run_nack_times q i k j w Hw Hj Hroom Hn Hk) as (w' & j' & Hr & Hj' & Hc & _ & Hs).
  exists w', j'. split_and!; [done..| |]; rewrite Hs;
    destruct (MaxRetries j <=? RetryCount j + Z.of_nat k) eqn:Hle; split; try done; lia.
Qed.

Lemma run_Requeue_room q i j w :
  storage_ready w -> jobs_of w !! i = Some j -> room_for 1 q w ->
  exists t', st_ok t' /\
    st_view t' = <[i := requeued (st_time (w_clock w)) j]> (jobs_of w) /\
    run alone (MemoryQueue.Requeue q i) w =
      Done None (pushed q (requeued (st_time (w_clock w)) j) (with_db t' w)).
Proof.
  intros [Hok Hf] Hj Hroom. unfold MemoryQueue.Requeue.
  destruct (Requeue_spec alone w i) as (t' & Hr & Hok' & Hv); [done..|].
  unfold jobs_of in *. rewrite alter_alt, Hj in Hv. exists t'. split_and!; [done..|].
  rewrite run_bind, Hr. cbv beta iota. rewrite run_bind, GetJob_spec by done. simpl.
  rewrite Hv, lookup_insert_eq. cbv beta iota.
  rewrite (run_Enqueue_room _ _ _ 0); [done|]. unfold room_for. by rewrite get_mq_db.
Qed.

Lemma run_Retry_room q i j extra w :
  storage_ready w -> jobs_of w !! i = Some j -> room_for 1 q w ->
  Status j = StatusFailed -> st_int extra = true -> st_int (MaxRetries j + extra) = true ->
  let j' := reset_for_retry (st_reset (RetryCount j)) extra (st_time (w_clock w)) j in
  exists t', (st_ok t' /\ st_view t' = <[i := j']> (jobs_of w)) /\
    run alone (MemoryQueue.Retry q i extra) w = Done None (pushed q j' (with_db t' w)).
Proof.
  intros [Hok Hf] Hj Hroom Hs He Hm j'. unfold MemoryQueue.Retry, jobs_of in *.
  destruct (ResetForRetry_spec alone w i extra j) as (t' & Hr & Hok' & Hv); [done..|].
  exists t'. split; [done|].
  rewrite run_bind, Hr. cbv beta iota. rewrite run_bind, GetJob_spec by done. simpl.
  rewrite Hv, lookup_insert_eq. cbv beta iota.
  rewrite (run_Enqueue_room _ _ _ 0); [done|]. unfold room_for. by rewrite get_mq_db.
Qed.

(** a preempted job loses no attempt, but it loses its queue.  Whatever its
    type, [Router.Requeue] makes it pending again with the attempts it had, puts
    it at the end of the FIFO queue, and leaves the priority and the rate-limited
    queue as they are. *)
Theorem router_requeues_into_fifo i j w :
  storage_ready w -> jobs_of w !! i = Some j -> room_for 1 FIFORef w ->
  exists w' j', run alone (Router.Requeue i) w = Done None w' /\
    jobs_of w' = <[i := j']> (jobs_of w) /\
    Status j' = StatusPending /\ RetryCount j' = RetryCount j /\
    MaxRetries j' = MaxRetries j /\ QueueType j' = QueueType j /\
    ch_buf (mq_jobs (w_fifo w')) = ch_buf (mq_jobs (w_fifo w)) ++ [j'] /\
    w_prio w' = w_prio w /\ w_rl w' = w_rl w.
Proof.
  intros Hw Hj Hroom.
  destruct (run_Requeue_room FIFORef i j w Hw Hj Hroom) as (t' & _ & Hv & Hr).
  eexists _, (requeued (st_time (w_clock w)) j). split; [exact Hr|]. by split; [exact Hv|].
Qed.

End outcomes.

(** ** On a concrete process *)

Section concrete.
Import Examples.

Lemma restarted_ready : storage_ready restarted.
Proof. split; [exact left_over_ok|vm_compute; reflexivity]. Qed.

Lemma restarted_room n q : (n <= 20)%nat -> room_for n q restarted.
Proof.
  intros Hn. split; [|split].
  - split; destruct q; vm_compute; try discriminate; done.
  - destruct q; vm_compute; reflexivity.
  - assert (length (ch_buf (mq_jobs (get_mq q restarted))) = 0)%nat as ->
      by (destruct q; vm_compute; reflexivity).
    assert (ch_cap (mq_jobs (get_mq q restarted)) = 20)%nat as ->
      by (destruct q; vm_compute; reflexivity).
    lia.
Qed.

Lemma restarted_a : jobs_of restarted !! "a" = Some (stored_job "a" "fifo" 1 StatusPending 1).
Proof. vm_compute. reflexivity. Qed.
Lemma restarted_b : jobs_of restarted !! "b" = Some (stored_job "b" "priority" 2 StatusProcessing 0).
Proof. vm_compute. reflexivity. Qed.

Lemma nack_decides_witness : exists t',
  run alone (MemoryQueue.Nack FIFORef "a") restarted =
    Done None (pushed FIFORef (stored_job "a" "fifo" 1 StatusPending 2)
      (with_met (retried_add "fifo" 1 (w_met restarted)) (with_db t' restarted))).
Proof.
  destruct (nack_decides FIFORef "a" _ restarted restarted_ready restarted_a)
    as (t' & _ & _ & Hr); [by apply restarted_room; lia|done|done|].
  exists t'. exact Hr.
Defined.

Lemma retries_are_bounded_witness : exists w' j',
  run alone (nack_times FIFORef "a" 2) restarted = Done tt w' /\
  jobs_of w' !! "a" = Some j' /\ Status j' = StatusFailed.
Proof.
  destruct (retries_are_bounded FIFORef "a" _ restarted 2 restarted_ready restarted_a)
    as (w' & j' & Hr & Hj & _ & [_ Hs] & _).
  - by apply restarted_room; lia.
  - intros n Hn. cbn in Hn.
    assert (n = 2 \/ n = 3) as [->| ->] by lia; split; vm_compute; reflexivity.
  - lia.
  - exists w', j'. split; [exact Hr|]. split; [exact Hj|]. apply Hs. cbn. lia.
Defined.

Lemma router_requeues_into_fifo_witness : exists w' j',
  run alone (Router.Requeue "b") restarted = Done None w' /\ QueueType j' = "priority" /\
  ch_buf (mq_jobs (w_fifo w')) = ch_buf (mq_jobs (w_fifo restarted)) ++ [j'] /\
  w_prio w' = w_prio restarted.
Proof.
  destruct (router_requeues_into_fifo "b" _ restarted restarted_ready restarted_b)
    as (w' & j' & Hr & _ & _ & _ & _ & Hq & Hf & Hp & _); [by apply restarted_room; lia|].
  exists w', j'. exact (conj Hr (conj Hq (conj Hf Hp))).
Defined.

End concrete.
End Outcomes.
