(* ===== verification/Recovery.v ===== *)
(** * Recovery at startup, and the sweepers

    What [Recover] of each queue and of the router leaves in the queues and in
    the table, over any backend that meets [StorageSpec]. *)

From S2P Require Import Prelude Go Models World Metrics Sql Storage Invariant.
From S2P Require Import MemoryQueue SortedQueue RateLimitedQueue Router Delivery Outcomes.
From S2P Require Import Examples.

Module Recovery.
Import Outcomes.
Section recovery.
Context `{StorageSpec}.
Implicit Types (q : mqref) (w : World) (j : Job) (i : string).

(** A job after its recovery. *)
Definition recovered j : Job := set_Status StatusPending j.

(** The table after some unfinished jobs have been recovered: these are
    pending, with their attempts, and the others as before. *)
Definition table_recovered (js : list Job) (m m' : gmap string Job) : Prop :=
  (forall i, i ∉ (ID <$> js) -> m' !! i = m !! i) /\
  (forall j, j ∈ js -> exists j', m' !! ID j = Some j' /\ Status j' = StatusPending /\
     RetryCount j' = RetryCount j /\ MaxRetries j' = MaxRetries j /\
     QueueType j' = QueueType j /\ ID j' = ID j).

(** The part of the state that the recovery of one queue does not touch. *)
Definition beside q w w' : Prop :=
  w_prio w' = w_prio w /\ (forall q', q' <> q -> get_mq q' w' = get_mq q' w).

Lemma beside_trans q w1 w2 w3 : beside q w1 w2 -> beside q w2 w3 -> beside q w1 w3.
Proof.
  intros [Hp1 Hq1] [Hp2 Hq2]. split; [congruence|]. intros q' Hne. by rewrite Hq2, Hq1.
Qed.

Lemma unfinished_cases j : unfinished j = true ->
  Status j = StatusPending \/ Status j = StatusProcessing.
Proof.
  unfold unfinished. rewrite orb_true_iff, !String.eqb_eq. done.
Qed.

(** The update that precedes the delivery: a processing job is reset. *)
Lemma run_reset env w j : storage_ready w -> jobs_of w !! ID j = Some j -> unfinished j = true ->
  exists w', run env (if (Status j =? StatusProcessing)%string
                      then UpdateJobStatus (ID j) StatusPending "" else Ret None) w =
      Done None w' /\
    storage_ready w' /\ w_prio w' = w_prio w /\ (forall q, get_mq q w' = get_mq q w) /\
    exists j', jobs_of w' = <[ID j := j']> (jobs_of w) /\
      Status j' = StatusPending /\ RetryCount j' = RetryCount j /\
      MaxRetries j' = MaxRetries j /\ QueueType j' = QueueType j /\ ID j' = ID j.
Proof.
  intros [Hok Hf] Hj Hu. destruct (String.eqb_spec (Status j) StatusProcessing) as [Hs|Hs].
  - destruct (UpdateJobStatus_spec env w (ID j) StatusPending "" j) as (t' & Hr & Hok' & Hv);
      [done..|]. eexists. split; [exact Hr|]. split; [by split|]. split; [done|].
    split; [by intros []|]. eexists. split; [exact Hv|]. done.
  - exists w. split; [done|]. split; [by split|]. split; [done|]. split; [done|]. exists j.
    rewrite insert_id by done. split; [done|]. split; [|done].
    by destruct (unfinished_cases j Hu).
Qed.

Lemma recovered_pending j : unfinished j = true ->
  (if (Status j =? StatusProcessing)%string then set_Status StatusPending j else j) =
  recovered j.
Proof.
  intros Hu. destruct (String.eqb_spec (Status j) StatusProcessing) as [Hs|Hs]; [done|].
  destruct (unfinished_cases j Hu) as [Hp|]; [|done]. unfold recovered, set_Status.
  rewrite <- Hp. by destruct j.
Qed.

Lemma run_MQ_Recover_job q j w n :
  storage_ready w -> jobs_of w !! ID j = Some j -> unfinished j = true -> room_for (S n) q w ->
  exists w', run alone (MemoryQueue.Recover_job q j) w = Done None w' /\
    storage_ready w' /\ beside q w w' /\ room_for n q w' /\
    ch_buf (mq_jobs (get_mq q w')) = ch_buf (mq_jobs (get_mq q w)) ++ [recovered j] /\
    ch_cap (mq_jobs (get_mq q w')) = ch_cap (mq_jobs (get_mq q w)) /\
    exists j', jobs_of w' = <[ID j := j']> (jobs_of w) /\
      Status j' = StatusPending /\ RetryCount j' = RetryCount j /\
      MaxRetries j' = MaxRetries j /\ QueueType j' = QueueType j /\ ID j' = ID j.
Proof.
  intros Hw Hj Hu Hroom. destruct (run_reset alone w j Hw Hj Hu)
    as (w1 & Hr & Hw1 & Hp & Hq & j' & Hv & Hj').
  assert (room_for (S n) q w1) as Hroom1 by (unfold room_for; by rewrite Hq).
  unfold MemoryQueue.Recover_job. rewrite run_bind, Hr. cbv beta iota zeta.
  rewrite run_bind, recovered_pending, (run_Enqueue_room _ _ _ n) by done. cbv beta iota.
  eexists. split; [by rewrite run_bind|].
  destruct (room_pushed n q (recovered j) w1 Hroom1) as (Hm1 & Hm2 & Hm3).
  set (w2 := pushed q (recovered j) w1) in *.
  assert (forall q, get_mq q (with_met (recovered_inc (w_met w2)) w2) = get_mq q w2) as Hmet
    by (by intros []).
  split; [|split; [|split; [|split; [|split]]]].
  - unfold storage_ready. simpl. unfold w2. by rewrite db_pushed, faults_pushed.
  - split; [simpl; unfold w2, pushed; by destruct q|].
    intros q' Hne. rewrite Hmet. unfold w2, pushed. rewrite <- Hq. by destruct q, q'.
  - unfold room_for. rewrite Hmet. done.
  - rewrite Hmet. unfold w2, pushed. rewrite Delivery.get_set_mq. simpl. by rewrite Hq.
  - rewrite Hmet. unfold w2, pushed. rewrite Delivery.get_set_mq. simpl. by rewrite Hq.
  - exists j'. split; [|done]. unfold jobs_of. simpl. unfold w2. by rewrite db_pushed.
Qed.

Lemma run_MQ_Recover_loop q js : forall w,
  storage_ready w -> (forall j, j ∈ js -> jobs_of w !! ID j = Some j /\ unfinished j = true) ->
  NoDup (ID <$> js) -> room_for (length js) q w ->
  exists w', run alone (MemoryQueue.Recover_loop q js) w = Done None w' /\
    storage_ready w' /\ beside q w w' /\
    ch_buf (mq_jobs (get_mq q w')) = ch_buf (mq_jobs (get_mq q w)) ++ (recovered <$> js) /\
    table_recovered js (jobs_of w) (jobs_of w').
Proof.
  induction js as [|j js IH]; intros w Hw Hjs Hnd Hroom.
  { exists w. split; [done|]. split; [done|]. split; [done|]. split; [by rewrite app_nil_r|].
    split; [done|]. intros j Hj. by apply not_elem_of_nil in Hj. }
  cbn [MemoryQueue.Recover_loop]. simpl in Hnd. apply NoDup_cons in Hnd as [Hnot Hnd].
  destruct (Hjs j) as [Hj Hu]; [by left|].
  destruct (run_MQ_Recover_job q j w (length js) Hw Hj Hu Hroom)
    as (w1 & Hr & Hw1 & Hb1 & Hroom1 & Hbuf1 & _ & j' & Hv1 & Hj').
  rewrite run_bind, Hr. cbv beta iota.
  destruct (IH w1 Hw1) as (w2 & Hr2 & Hw2 & Hb2 & Hbuf2 & Hfix & Hrec); [|done..|].
  { intros x Hx. rewrite Hv1, lookup_insert_ne; [apply Hjs; by right|].
    intros Heq. apply Hnot. rewrite Heq. apply list_elem_of_fmap. by exists x. }
  exists w2. split; [done|]. split; [done|]. split; [by eapply beside_trans|].
  split; [|split].
  - rewrite Hbuf2, Hbuf1, <- app_assoc. done.
  - intros i. simpl. intros Hi. apply not_elem_of_cons in Hi as [Hne Hi].
    rewrite Hfix by done. rewrite Hv1. by rewrite lookup_insert_ne.
  - intros x Hx. apply elem_of_cons in Hx as [->|Hx]; [|by apply Hrec].
    exists j'. rewrite Hfix by done. rewrite Hv1, lookup_insert_eq. by split.
Qed.

(** The unfinished jobs, as [ListPendingJobs] gives them. *)
Definition backlog w (l : list Job) : Prop :=
  NoDup (ID <$> l) /\
  (forall j, j ∈ l <-> jobs_of w !! ID j = Some j /\ unfinished j = true) /\
  StronglySorted (fun x y => job_before x y = true) l.

Lemma run_backlog w : storage_ready w ->
  exists l, backlog w l /\
    l ≡ₚ filter (fun j => unfinished j = true) (map_to_list (jobs_of w)).*2 /\
    run alone ListPendingJobs w = Done (l, None) w.
Proof.
  intros [Hok Hf]. destruct (ListPendingJobs_spec alone w) as (l & Hr & Hp & Hs); [done..|].
  exists l. split; [|done]. split; [|split; [|done]].
  - rewrite Hp. apply NoDup_view_filter. intros i j. by apply st_view_id.
  - intros j. rewrite Hp, list_elem_of_filter, list_elem_of_fmap. split.
    + intros (Hu & [i j'] & -> & Hj%elem_of_map_to_list). split; [|done].
      simpl. by rewrite (st_view_id _ _ _ Hok Hj).
    + intros [Hj Hu]. split; [done|]. exists (ID j, j).
      split; [done|]. by apply elem_of_map_to_list.
Qed.

(** The unfinished jobs of some queue types, by their ids. *)
Definition waiting (f : string -> bool) w i : Prop :=
  exists j, jobs_of w !! i = Some j /\ unfinished j = true /\ f (QueueType j) = true.

Lemma backlog_waiting f w l i : st_ok (w_db w) -> backlog w l ->
  i ∈ ID <$> filter (fun j => f (QueueType j) = true) l <-> waiting f w i.
Proof.
  intros Hok (_ & Hl & _). rewrite list_elem_of_fmap. split.
  - intros (j & -> & [Hf [Hj Hu]%Hl]%list_elem_of_filter). by exists j.
  - intros (j & Hj & Hu & Hf). exists j. rewrite list_elem_of_filter, Hl.
    rewrite (st_view_id _ _ _ Hok Hj). done.
Qed.

Lemma backlog_filter_NoDup (f : string -> bool) w l : backlog w l ->
  NoDup (ID <$> filter (fun j => f (QueueType j) = true) l).
Proof.
  intros (Hnd & _). induction l as [|j l IH]; [constructor|].
  simpl in Hnd. apply NoDup_cons in Hnd as [Hnot Hnd]. rewrite filter_cons.
  case_decide; [|by apply IH]. simpl. constructor; [|by apply IH].
  intros (x & Hx & Hin)%list_elem_of_fmap. apply Hnot. rewrite Hx.
  apply list_elem_of_fmap. exists x. split; [done|].
  by apply list_elem_of_filter in Hin as [_ ?].
Qed.

(** The jobs that wait before a recovery wait after it. *)
Lemma waiting_recovered f w w' l l' i : st_ok (w_db w) -> backlog w l ->
  (forall j, j ∈ l' -> j ∈ l) -> table_recovered l' (jobs_of w) (jobs_of w') ->
  waiting f w' i <-> waiting f w i.
Proof.
  intros Hok (_ & Hl & _) Hsub [Hfix Hrec]. unfold waiting.
  destruct (decide (i ∈ ID <$> l')) as [Hin|Hnot]; [|by rewrite Hfix].
  apply list_elem_of_fmap in Hin as (j & -> & Hj).
  destruct (Hrec j Hj) as (j' & Hj' & Hs & _ & _ & Hq & _).
  destruct (proj1 (Hl j) (Hsub j Hj)) as [Hjw Hu]. rewrite Hj', Hjw. split.
  - intros (x & [= <-] & _ & Hf). exists j. rewrite <- Hq. done.
  - intros (x & [= <-] & _ & Hf). exists j'. rewrite Hq. split_and!; [done| |done].
    unfold unfinished. by rewrite Hs.
Qed.

Lemma same_ids f w w' l l' : st_ok (w_db w) -> st_ok (w_db w') -> backlog w l -> backlog w' l' ->
  (forall i, waiting f w' i <-> waiting f w i) ->
  ID <$> filter (fun j => f (QueueType j) = true) l' ≡ₚ
  ID <$> filter (fun j => f (QueueType j) = true) l.
Proof.
  intros Hok Hok' Hl Hl' Hw. apply NoDup_Permutation; [by eapply backlog_filter_NoDup..|].
  intros i. rewrite (backlog_waiting f w' l'), (backlog_waiting f w l) by done. apply Hw.
Qed.

Lemma run_MQ_Recover q w l : storage_ready w -> backlog w l ->
  run alone ListPendingJobs w = Done (l, None) w -> room_for (length l) q w ->
  exists w', run alone (MemoryQueue.Recover q) w = Done None w' /\
    storage_ready w' /\ beside q w w' /\
    ch_buf (mq_jobs (get_mq q w')) = ch_buf (mq_jobs (get_mq q w)) ++ (recovered <$> l) /\
    table_recovered l (jobs_of w) (jobs_of w').
Proof.
  intros Hw Hl Hr Hroom. unfold MemoryQueue.Recover. rewrite run_bind, Hr. cbv beta iota.
  apply run_MQ_Recover_loop; [done| |apply Hl|done]. intros j Hj. by apply Hl.
Qed.

(** C13: recovery restores the backlog.  With room for it, [MemoryQueue.Recover]
    puts every unfinished job into the queue once, in the order of the listing,
    and leaves each of them pending with the attempts it had; the finished jobs
    are untouched. *)
Theorem recover_restores_backlog q w :
  storage_ready w ->
  room_for (length (filter (fun j => unfinished j = true) (map_to_list (jobs_of w)).*2)) q w ->
  exists l w', backlog w l /\ run alone (MemoryQueue.Recover q) w = Done None w' /\
    ch_buf (mq_jobs (get_mq q w')) = ch_buf (mq_jobs (get_mq q w)) ++ (recovered <$> l) /\
    table_recovered l (jobs_of w) (jobs_of w').
Proof.
  intros Hw Hroom. destruct (run_backlog w Hw) as (l & Hl & Hp & Hr).
  rewrite <- Hp in Hroom.
  destruct (run_MQ_Recover q w l Hw Hl Hr Hroom) as (w' & Hr' & _ & _ & Hb & Ht).
  by exists l, w'.
Qed.

(** ** The priority queue and the router *)

Definition is_priority (t : string) : bool := (t =? QueueTypePriority)%string.

Lemma run_Sorted_Recover_job j w :
  storage_ready w -> jobs_of w !! ID j = Some j -> unfinished j = true ->
  sq_closed (w_prio w) = false ->
  exists w', run alone (SortedQueue.Recover_job j) w = Done None w' /\
    storage_ready w' /\ sq_closed (w_prio w') = false /\
    (forall q, get_mq q w' = get_mq q w) /\
    sq_jobs (w_prio w') = SortedQueue.insertLocked (recovered j) (sq_jobs (w_prio w)) /\
    exists j', jobs_of w' = <[ID j := j']> (jobs_of w) /\
      Status j' = StatusPending /\ RetryCount j' = RetryCount j /\
      MaxRetries j' = MaxRetries j /\ QueueType j' = QueueType j /\ ID j' = ID j.
Proof.
  intros Hw Hj Hu Hc. destruct (run_reset alone w j Hw Hj Hu)
    as (w1 & Hr & Hw1 & Hp & Hq & j' & Hv & Hj').
  unfold SortedQueue.Recover_job. rewrite run_bind, Hr. cbv beta iota zeta.
  rewrite run_bind, recovered_pending, Delivery.run_Sorted_Enqueue by (done || by rewrite Hp).
  cbv beta iota. eexists. split; [done|]. split; [done|]. split; [done|].
  split; [intros q; rewrite <- Hq; by destruct q|]. split; [by rewrite Hp|].
  exists j'. by split.
Qed.

Lemma run_Sorted_Recover_loop js : forall w,
  storage_ready w -> (forall j, j ∈ js -> jobs_of w !! ID j = Some j /\ unfinished j = true) ->
  NoDup (ID <$> js) -> sq_closed (w_prio w) = false ->
  let mine := filter (fun j => is_priority (QueueType j) = true) js in
  exists w', run alone (SortedQueue.Recover_loop js) w = Done None w' /\
    storage_ready w' /\ (forall q, get_mq q w' = get_mq q w) /\
    sq_jobs (w_prio w') = Delivery.insert_all (recovered <$> mine) (sq_jobs (w_prio w)) /\
    table_recovered mine (jobs_of w) (jobs_of w').
Proof.
  induction js as [|j js IH]; intros w Hw Hjs Hnd Hc mine.
  { exists w. do 4 (split; [done|]). split; [done|]. intros j Hj. by apply not_elem_of_nil in Hj. }
  simpl in Hnd. apply NoDup_cons in Hnd as [Hnot Hnd].
  destruct (Hjs j) as [Hj Hu]; [by left|]. cbn [SortedQueue.Recover_loop].
  unfold mine. rewrite filter_cons. fold (is_priority (QueueType j)).
  destruct (is_priority (QueueType j)) eqn:Hprio; simpl.
  2: { apply IH; [done| |done..]. intros x Hx. apply Hjs. by right. }
  destruct (run_Sorted_Recover_job j w Hw Hj Hu Hc)
    as (w1 & Hr & Hw1 & Hc1 & Hq1 & Hs1 & j' & Hv1 & Hj').
  rewrite run_bind, Hr. cbv beta iota.
  destruct (IH w1 Hw1) as (w2 & Hr2 & Hw2 & Hq2 & Hs2 & Hfix & Hrec); [|done..|].
  { intros x Hx. rewrite Hv1, lookup_insert_ne; [apply Hjs; by right|].
    intros Heq. apply Hnot. rewrite Heq. apply list_elem_of_fmap. by exists x. }
  exists w2. split; [done|]. split; [done|].
  split; [intros q; by rewrite Hq2, Hq1|]. split; [by rewrite Hs2, Hs1|]. split.
  - intros i. simpl. intros Hi. apply not_elem_of_cons in Hi as [Hne Hi].
    rewrite Hfix by done. rewrite Hv1. by rewrite lookup_insert_ne.
  - intros x Hx. apply elem_of_cons in Hx as [->|Hx]; [|by apply Hrec].
    exists j'. rewrite Hfix; [rewrite Hv1, lookup_insert_eq; by split|].
    intros (y & Hy & [_ Hin]%list_elem_of_filter)%list_elem_of_fmap.
    apply Hnot. rewrite Hy. apply list_elem_of_fmap. by exists y.
Qed.

Lemma run_Sorted_Recover w l : storage_ready w -> backlog w l ->
  run alone ListPendingJobs w = Done (l, None) w -> sq_closed (w_prio w) = false ->
  let mine := filter (fun j => is_priority (QueueType j) = true) l in
  exists w', run alone SortedQueue.Recover w = Done None w' /\
    storage_ready w' /\ (forall q, get_mq q w' = get_mq q w) /\
    sq_jobs (w_prio w') = Delivery.insert_all (recovered <$> mine) (sq_jobs (w_prio w)) /\
    table_recovered mine (jobs_of w) (jobs_of w').
Proof.
  intros Hw Hl Hr Hc. unfold SortedQueue.Recover. rewrite run_bind, Hr. cbv beta iota.
  apply run_Sorted_Recover_loop; [done| |apply Hl|done]. intros j Hj. by apply Hl.
Qed.

Lemma ids_recovered (l : list Job) : ID <$> (recovered <$> l) = ID <$> l.
Proof. rewrite <- list_fmap_compose. by apply list_fmap_ext. Qed.

Lemma filter_everything (l : list Job) : filter (fun j => true = true) l = l.
Proof. induction l as [|j l IH]; [done|]. rewrite filter_cons_True by done. by f_equal. Qed.

(** The ids of a whole backlog. *)
Lemma same_backlog_ids w w' l l' : st_ok (w_db w) -> st_ok (w_db w') ->
  backlog w l -> backlog w' l' ->
  (forall i, waiting (fun _ => true) w' i <-> waiting (fun _ => true) w i) ->
  ID <$> l' ≡ₚ ID <$> l.
Proof.
  intros Hok Hok' Hl Hl' Hw.
  pose proof (same_ids (fun _ => true) w w' l l' Hok Hok' Hl Hl' Hw) as Hs.
  by rewrite !filter_everything in Hs.
Qed.

(** [Router.Recover] runs the three recoveries one after the other. *)
Lemma run_router_Recover w :
  storage_ready w -> sq_closed (w_prio w) = false ->
  let n := length (filter (fun j => unfinished j = true) (map_to_list (jobs_of w)).*2) in
  room_for n FIFORef w -> room_for n RateLimitedRef w ->
  ch_buf (mq_jobs (w_fifo w)) = [] -> sq_jobs (w_prio w) = [] ->
  ch_buf (mq_jobs (rq_memory (w_rl w))) = [] ->
  exists l w', backlog w l /\ run alone Router.Recover w = Done None w' /\
    (ID <$> ch_buf (mq_jobs (w_fifo w'))) ≡ₚ (ID <$> l) /\
    (ID <$> ch_buf (mq_jobs (rq_memory (w_rl w')))) ≡ₚ (ID <$> l) /\
    (ID <$> sq_jobs (w_prio w')) ≡ₚ
      (ID <$> filter (fun j => is_priority (QueueType j) = true) l).
Proof.
  intros Hw Hc n Hroom1 Hroom3 Hf Hp Hrl.
  destruct (run_backlog w Hw) as (l & Hl & Hperm & Hr).
  assert (n = length l) as Hn by (by rewrite Hperm). rewrite Hn in *.
  destruct (run_MQ_Recover FIFORef w l Hw Hl Hr Hroom1) as (w1 & Hr1 & Hw1 & [Hp1 Hq1] & Hb1 & Ht1).
  destruct (run_backlog w1 Hw1) as (l1 & Hl1 & _ & Hlist1).
  assert (forall f i, waiting f w1 i <-> waiting f w i) as Hwait1.
  { intros f i. eapply waiting_recovered; [apply Hw|exact Hl| |exact Ht1]. done. }
  destruct (run_Sorted_Recover w1 l1 Hw1 Hl1 Hlist1) as (w2 & Hr2 & Hw2 & Hq2 & Hs2 & Ht2);
    [by rewrite Hp1|].
  destruct (run_backlog w2 Hw2) as (l2 & Hl2 & _ & Hlist2).
  assert (forall f i, waiting f w2 i <-> waiting f w i) as Hwait2.
  { intros f i. rewrite <- Hwait1. eapply waiting_recovered; [apply Hw1|exact Hl1| |exact Ht2].
    intros j Hj. by apply list_elem_of_filter in Hj as [_ ?]. }
  assert (ID <$> l2 ≡ₚ ID <$> l) as Hids2.
  { apply (same_backlog_ids w w2); [apply Hw|apply Hw2|done|done|apply Hwait2]. }
  assert (length l2 = length l) as Hlen.
  { apply Permutation_length in Hids2. by rewrite !length_fmap in Hids2. }
  destruct (run_MQ_Recover RateLimitedRef w2 l2 Hw2 Hl2 Hlist2) as (w3 & Hr3 & _ & [Hp3 Hq3] & Hb3 & _).
  { unfold room_for. rewrite Hlen, Hq2, Hq1 by done. exact Hroom3. }
  exists l, w3. split; [done|]. split; [|split; [|split]].
  - unfold Router.Recover. rewrite run_bind, Hr1. cbv beta iota.
    rewrite run_bind, Hr2. cbv beta iota.
    rewrite run_bind. unfold RateLimitedQueue.Recover. by rewrite Hr3.
  - change (w_fifo w3) with (get_mq FIFORef w3). rewrite Hq3, Hq2, Hb1 by done.
    change (get_mq FIFORef w) with (w_fifo w). by rewrite Hf, app_nil_l, ids_recovered.
  - change (rq_memory (w_rl w3)) with (get_mq RateLimitedRef w3). rewrite Hb3, Hq2, Hq1 by done.
    change (get_mq RateLimitedRef w) with (rq_memory (w_rl w)).
    by rewrite Hrl, app_nil_l, ids_recovered.
  - rewrite Hp3, Hs2, Hp1, Hp.
    destruct (Delivery.insert_all_sorts (mkJob "" "" None "" 0 "" 0 0 0 0 None "")
      (recovered <$> filter (fun j => is_priority (QueueType j) = true) l1) []
      ltac:(constructor)) as (Hins & _). rewrite Hins, app_nil_l, ids_recovered.
    apply (same_ids is_priority w w1); [apply Hw|apply Hw1|done|done|apply Hwait1].
Qed.

(** C37: what [Router.Recover] delivers.  Each unfinished job goes into the FIFO
    queue and into the rate-limited queue, whatever its type, and the jobs of
    type "priority" into the priority queue as well: a priority job is queued
    three times, every other job twice. *)
Theorem router_recover_copies w :
  storage_ready w -> sq_closed (w_prio w) = false ->
  let n := length (filter (fun j => unfinished j = true) (map_to_list (jobs_of w)).*2) in
  room_for n FIFORef w -> room_for n RateLimitedRef w ->
  ch_buf (mq_jobs (w_fifo w)) = [] -> sq_jobs (w_prio w) = [] ->
  ch_buf (mq_jobs (rq_memory (w_rl w))) = [] ->
  exists l w', backlog w l /\ run alone Router.Recover w = Done None w' /\
    (ID <$> ch_buf (mq_jobs (w_fifo w'))) ≡ₚ (ID <$> l) /\
    (ID <$> ch_buf (mq_jobs (rq_memory (w_rl w')))) ≡ₚ (ID <$> l) /\
    (ID <$> sq_jobs (w_prio w')) ≡ₚ
      (ID <$> filter (fun j => is_priority (QueueType j) = true) l).
Proof. apply run_router_Recover. Qed.

(** ** Recovery without room *)

Lemma run_MQ_Recover_loop_full q js : forall w,
  storage_ready w -> (forall j, j ∈ js -> jobs_of w !! ID j = Some j /\ unfinished j = true) ->
  NoDup (ID <$> js) -> room_for 0 q w ->
  (ch_cap (mq_jobs (get_mq q w)) < length (ch_buf (mq_jobs (get_mq q w))) + length js)%nat ->
  exists j w', j ∈ js /\ run alone (MemoryQueue.Recover_loop q js) w =
    Done (Some (Wrap ("recover: failed to enqueue job " +:+ ID j) Delivery.full_error)) w'.
Proof.
  induction js as [|j js IH]; intros w Hw Hjs Hnd Hroom Hfull.
  { destruct Hroom as (_ & _ & Hroom). simpl in Hfull. lia. }
  cbn [MemoryQueue.Recover_loop]. simpl in Hnd. apply NoDup_cons in Hnd as [Hnot Hnd].
  destruct (Hjs j) as [Hj Hu]; [by left|].
  destruct (decide (length (ch_buf (mq_jobs (get_mq q w))) < ch_cap (mq_jobs (get_mq q w)))%nat)
    as [Hlt|Hge].
  - assert (room_for 1 q w) as Hroom1.
    { destruct Hroom as (? & ? & ?). split; [done|]. split; [done|lia]. }
    destruct (run_MQ_Recover_job q j w 0 Hw Hj Hu Hroom1)
      as (w1 & Hr & Hw1 & Hb1 & Hroom0 & Hbuf1 & Hcap & j' & Hv1 & Hj').
    rewrite run_bind, Hr. cbv beta iota.
    destruct (IH w1 Hw1) as (x & w2 & Hx & Hr2); [|done|done| |].
    + intros x Hx. rewrite Hv1, lookup_insert_ne; [apply Hjs; by right|].
      intros Heq. apply Hnot. rewrite Heq. apply list_elem_of_fmap. by exists x.
    + rewrite Hcap, Hbuf1, length_app. simpl in *. lia.
    + exists x, w2. split; [by right|done].
  - exists j. destruct (run_reset alone w j Hw Hj Hu) as (w1 & Hr & Hw1 & Hp & Hq & _).
    unfold MemoryQueue.Recover_job. rewrite run_bind, run_bind, Hr. cbv beta iota zeta.
    rewrite recovered_pending by done.
    rewrite run_bind, Delivery.run_Enqueue by (rewrite Hq; apply Hroom). rewrite Hq.
    destruct Hroom as (_ & -> & _). unfold chan_has_room. rewrite (proj2 (Nat.ltb_ge _ _)) by lia.
    eexists. split; [by left|done].
Qed.

(** recovery needs room.  With more unfinished jobs than the queue has free
    places, and nobody taking any out, [Recover] gives up on a job it could not
    deliver, and [main] ends the program. *)
Theorem recover_fails_without_room q w :
  storage_ready w -> room_for 0 q w ->
  (ch_cap (mq_jobs (get_mq q w)) < length (ch_buf (mq_jobs (get_mq q w))) +
     length (filter (fun j => unfinished j = true) (map_to_list (jobs_of w)).*2))%nat ->
  exists j w', jobs_of w !! ID j = Some j /\ unfinished j = true /\
    run alone (MemoryQueue.Recover q) w =
      Done (Some (Wrap ("recover: failed to enqueue job " +:+ ID j) Delivery.full_error)) w'.
Proof.
  intros Hw Hroom Hfull. destruct (run_backlog w Hw) as (l & (Hnd & Hl & Hs) & Hp & Hr).
  rewrite <- Hp in Hfull. unfold MemoryQueue.Recover. rewrite run_bind, Hr. cbv beta iota.
  destruct (run_MQ_Recover_loop_full q l w Hw) as (j & w' & Hj & Hr'); [|done..|].
  { intros j Hj. by apply Hl. }
  exists j, w'. apply Hl in Hj as [Hj Hu]. by split_and!.
Qed.

(** ** The sweeper *)

(** What a pass delivers of a job it finds at the instant [t]. *)
Definition swept (t : Z) j : option Job :=
  if (Status j =? StatusPending)%string then Some j
  else if (Status j =? StatusProcessing)%string then
    if 10 * Minute <? t - UpdatedAt j then Some (recovered j) else None
  else None.

Lemma run_sweep_job q j w n :
  storage_ready w -> jobs_of w !! ID j = Some j -> room_for (S n) q w ->
  exists w', run alone (MemoryQueue.sweep_job q j) w = Done tt w' /\
    storage_ready w' /\ room_for n q w' /\ w_clock w' = w_clock w /\
    ch_buf (mq_jobs (get_mq q w')) =
      ch_buf (mq_jobs (get_mq q w)) ++ option_list (swept (w_clock w) j) /\
    (forall i, i <> ID j -> jobs_of w' !! i = jobs_of w !! i).
Proof.
  intros Hw Hj Hroom. unfold MemoryQueue.sweep_job, swept.
  assert (forall x, storage_ready (pushed q x w) /\ room_for n q (pushed q x w) /\
    w_clock (pushed q x w) = w_clock w /\
    ch_buf (mq_jobs (get_mq q (pushed q x w))) = ch_buf (mq_jobs (get_mq q w)) ++ [x] /\
    jobs_of (pushed q x w) = jobs_of w) as Hpush.
  { intros x. unfold storage_ready, jobs_of. rewrite db_pushed, faults_pushed.
    split; [done|]. split; [by apply room_pushed|]. split; [by destruct q|].
    split; [|done]. unfold pushed. by rewrite Delivery.get_set_mq. }
  assert (exists w', Done tt w = Done tt w' /\ storage_ready w' /\ room_for n q w' /\
    w_clock w' = w_clock w /\
    ch_buf (mq_jobs (get_mq q w')) = ch_buf (mq_jobs (get_mq q w)) ++ [] /\
    (forall i, i <> ID j -> jobs_of w' !! i = jobs_of w !! i)) as Hsame.
  { exists w. split; [done|]. split; [done|]. split; [eapply room_weaken; [|exact Hroom]; lia|].
    split; [done|]. split; [by rewrite app_nil_r|done]. }
  destruct (String.eqb_spec (Status j) StatusPending) as [Hs|Hs].
  - rewrite run_bind, (run_Enqueue_room _ _ _ n) by done. cbv beta iota.
    destruct (Hpush j) as (H1 & H2 & H3 & H4 & H5). exists (pushed q j w).
    split; [done|]. do 4 (split; [done|]). by intros i _; rewrite H5.
  - destruct (String.eqb_spec (Status j) StatusProcessing) as [Hp|Hp]; [|exact Hsame].
    rewrite run_bind, run_now. cbv beta iota. simpl clock.
    destruct (10 * Minute <? w_clock w - UpdatedAt j); [|exact Hsame].
    clear Hsame Hpush. destruct Hw as [Hok Hf].
    destruct (UpdateJobStatus_spec alone w (ID j) StatusPending "" j) as (t' & Hr & Hok' & Hv);
      [done..|]. rewrite run_bind, Hr. cbv beta iota.
    set (w1 := with_met (status_counter StatusPending (QueueType j) (w_met w)) (with_db t' w)).
    assert (room_for (S n) q w1) as Hroom1 by (unfold room_for, w1; by rewrite get_mq_db_met).
    rewrite run_bind, (run_Enqueue_room _ _ _ n) by done. cbv beta iota.
    exists (pushed q (recovered j) w1). split; [done|]. unfold storage_ready, jobs_of.
    rewrite db_pushed, faults_pushed. split; [done|]. split; [by apply room_pushed|].
    split; [by destruct q|]. split.
    + unfold pushed. rewrite Delivery.get_set_mq. unfold w1. by rewrite get_mq_db_met.
    + intros i Hne. simpl. rewrite Hv. by rewrite lookup_insert_ne.
Qed.

Lemma run_sweep_loop q js : forall w,
  storage_ready w -> (forall j, j ∈ js -> jobs_of w !! ID j = Some j) ->
  NoDup (ID <$> js) -> room_for (length js) q w ->
  exists w', run alone (MemoryQueue.sweep_loop q js) w = Done tt w' /\
    ch_buf (mq_jobs (get_mq q w')) =
      ch_buf (mq_jobs (get_mq q w)) ++ omap (swept (w_clock w)) js.
Proof.
  induction js as [|j js IH]; intros w Hw Hjs Hnd Hroom.
  { exists w. split; [done|]. by rewrite app_nil_r. }
  cbn [MemoryQueue.sweep_loop]. simpl in Hnd. apply NoDup_cons in Hnd as [Hnot Hnd].
  destruct (run_sweep_job q j w (length js) Hw) as (w1 & Hr & Hw1 & Hroom1 & Hc1 & Hb1 & Hv1);
    [apply Hjs; by left|done|]. rewrite run_bind, Hr. cbv beta iota.
  destruct (IH w1 Hw1) as (w2 & Hr2 & Hb2); [|done..|].
  { intros x Hx. rewrite Hv1; [apply Hjs; by right|].
    intros Heq. apply Hnot. rewrite <- Heq. apply list_elem_of_fmap. by exists x. }
  exists w2. split; [done|]. rewrite Hb2, Hb1, Hc1, <- app_assoc. simpl.
  by destruct (swept (w_clock w) j).
Qed.

(** C38: what a pass of the sweeper puts into the queue: every pending job, queued
    already or not and whatever its type, and every processing job not touched
    for more than ten minutes; nothing else. *)
Theorem sweep_delivers q w :
  storage_ready w ->
  room_for (length (filter (fun j => unfinished j = true) (map_to_list (jobs_of w)).*2)) q w ->
  exists l w', backlog w l /\ run alone (MemoryQueue.sweep q) w = Done tt w' /\
    ch_buf (mq_jobs (get_mq q w')) =
      ch_buf (mq_jobs (get_mq q w)) ++ omap (swept (w_clock w)) l.
Proof.
  intros Hw Hroom. destruct (run_backlog w Hw) as (l & Hl & Hp & Hr). rewrite <- Hp in Hroom.
  destruct (run_sweep_loop q l w Hw) as (w' & Hr' & Hb); [|apply Hl|done|].
  { intros j Hj. by apply Hl. }
  exists l, w'. split; [done|]. split; [|done].
  unfold MemoryQueue.sweep. by rewrite run_bind, Hr.
Qed.

End recovery.

(** ** On a concrete process *)

Section concrete.
Import Examples.

Lemma restarted_backlog :
  length (filter (fun j => unfinished j = true) (map_to_list (jobs_of restarted)).*2) = 2%nat.
Proof. vm_compute. reflexivity. Qed.

Lemma recover_restores_backlog_witness : exists l w', backlog restarted l /\
  run alone (MemoryQueue.Recover FIFORef) restarted = Done None w' /\
  ch_buf (mq_jobs (get_mq FIFORef w')) = recovered <$> l.
Proof.
  destruct (recover_restores_backlog FIFORef restarted restarted_ready) as (l & w' & Hl & Hr & Hb & _).
  - rewrite restarted_backlog. apply restarted_room. lia.
  - exists l, w'. exact (conj Hl (conj Hr Hb)).
Defined.

Lemma router_recover_copies_witness : exists l w', backlog restarted l /\
  run alone Router.Recover restarted = Done None w' /\
  (ID <$> sq_jobs (w_prio w')) ≡ₚ
    (ID <$> filter (fun j => is_priority (QueueType j) = true) l).
Proof.
  destruct (router_recover_copies restarted restarted_ready) as (l & w' & Hl & Hr & _ & _ & Hp);
    [vm_compute; reflexivity| | |vm_compute; reflexivity..|].
  - rewrite restarted_backlog. apply restarted_room. lia.
  - rewrite restarted_backlog. apply restarted_room. lia.
  - exists l, w'. exact (conj Hl (conj Hr Hp)).
Defined.

(** The same table, and queues with one place. *)
Definition cramped : World :=
  set_mq FIFORef (mkMemoryQueue (make_chan 1) 0 false false) restarted.

Lemma recover_fails_without_room_witness : exists j w',
  run alone (MemoryQueue.Recover FIFORef) cramped =
    Done (Some (Wrap ("recover: failed to enqueue job " +:+ ID j) Delivery.full_error)) w'.
Proof.
  destruct (recover_fails_without_room FIFORef cramped) as (j & w' & _ & _ & Hr).
  - split; [exact left_over_ok|vm_compute; reflexivity].
  - split; [by split|]. split; [done|]. simpl. lia.
  - vm_compute. lia.
  - exists j, w'. exact Hr.
Defined.

Lemma sweep_delivers_witness : exists l w', backlog restarted l /\
  run alone (MemoryQueue.sweep FIFORef) restarted = Done tt w' /\
  ch_buf (mq_jobs (get_mq FIFORef w')) = omap (swept 1000000) l.
Proof.
  destruct (sweep_delivers FIFORef restarted restarted_ready) as (l & w' & Hl & Hr & Hb).
  - rewrite restarted_backlog. apply restarted_room. lia.
  - exists l, w'. exact (conj Hl (conj Hr Hb)).
Defined.

End concrete.
End Recovery.
