(* ===== verification/PoolBehaviour.v ===== *)
(** * What the worker pool does with a job

    The choice [Preempt] makes, what a worker leaves behind after a job that
    succeeds, fails, is preempted or panics, and how a dead worker is
    replaced. *)

From S2P Require Import Prelude Go Models World Metrics Sql Storage Invariant.
From S2P Require Import MemoryQueue SortedQueue RateLimitedQueue Router Queue Worker.
From S2P Require Import Api Main Delivery Outcomes Sqlite Examples.

Module PoolBehaviour.
Import Outcomes.

(** ** [Preempt] *)

(** Worker [m], in lists that start with worker [k], may give way: it runs a
    normal job, and no other urgent job has been promised its place. *)
Definition may_give_way (ws : list (option workerState)) (slots : list (option Job))
    (k m : nat) (cur : Job) (c : nat) : Prop :=
  (k <= m)%nat /\ ws !! (m - k)%nat = Some (Some (mkWorkerState (Some cur) (Some c))) /\
  Priority cur = PriorityNormal /\ slots !! m = Some None.

Lemma may_give_way_cons s ws slots k m cur c :
  may_give_way (Some s :: ws) slots k m cur c <->
  (m = k /\ s = mkWorkerState (Some cur) (Some c) /\ Priority cur = PriorityNormal /\
     slots !! k = Some None) \/
  may_give_way ws slots (S k) m cur c.
Proof.
  unfold may_give_way. destruct (decide (m = k)) as [->|Hne].
  - rewrite Nat.sub_diag. simpl. split.
    + intros (_ & [= ->] & ? & ?). by left.
    + intros [(_ & -> & ? & ?)|(? & _)]; [done|lia].
  - split.
    + intros (? & Hl & ? & ?). right. split; [lia|].
      by replace (m - k)%nat with (S (m - S k)) in Hl by lia.
    + intros [(? & _)|(? & Hl & ? & ?)]; [done|]. split; [lia|].
      by replace (m - k)%nat with (S (m - S k)) by lia.
Qed.

Definition choice_spec ws slots k (r : Pool.preempt_case) : Prop :=
  match r with
  | Pool.Preemptable m cur co =>
      exists c, co = Some c /\ may_give_way ws slots k m cur c /\
        forall m' cur' c', (m' < m)%nat -> ~ may_give_way ws slots k m' cur' c'
  | Pool.NothingPreemptable => forall m' cur' c', ~ may_give_way ws slots k m' cur' c'
  | Pool.NilWorker | Pool.SlotOutOfRange => False
  end.

(** A worker that does not qualify is passed over. *)
Lemma choice_spec_skip s ws slots k r :
  (forall cur c, s = mkWorkerState (Some cur) (Some c) -> Priority cur = PriorityNormal ->
     slots !! k <> Some None) ->
  choice_spec ws slots (S k) r -> choice_spec (Some s :: ws) slots k r.
Proof.
  intros Hs. assert (forall m cur c, may_give_way (Some s :: ws) slots k m cur c <->
    may_give_way ws slots (S k) m cur c) as Hiff.
  { intros m cur c. rewrite may_give_way_cons. split; [|by right].
    intros [(_ & Heq & Hp & Hslot)|?]; [|done]. by destruct (Hs cur c Heq Hp). }
  destruct r as [m cur co| | |]; simpl; try done.
  - intros (c & -> & Hm & Hfirst). exists c. split; [done|]. split; [by apply Hiff|].
    intros m' cur' c' Hlt Hm'. by eapply Hfirst, Hiff.
  - intros Hno m' cur' c' Hm'. by eapply Hno, Hiff.
Qed.

Lemma find_preemptable_spec k ws slots n : Forall (worker_ok n) ws -> Forall is_Some ws ->
  (k + length ws <= length slots)%nat ->
  choice_spec ws slots k (Pool.find_preemptable k ws slots).
Proof.
  intros Hok Hsome. revert k. induction ws as [|[s|] ws IH]; intros k Hlen.
  - simpl. intros m cur c (_ & Hl & _). by rewrite lookup_nil in Hl.
  - apply Forall_cons in Hok as [Hw Hok]. apply Forall_cons in Hsome as [_ Hsome].
    simpl in Hlen. specialize (IH Hok Hsome (S k) ltac:(lia)). cbn [Pool.find_preemptable].
    destruct (currentJob s) as [job|] eqn:Hcur.
    2: { apply choice_spec_skip; [|done]. by intros cur c ->. }
    destruct (Z.eqb_spec (Priority job) PriorityNormal) as [Hp|Hp].
    2: { apply choice_spec_skip; [|done]. intros cur c ->. simpl in Hcur. by injection Hcur as ->. }
    destruct (lookup_lt_is_Some_2 slots k) as [[x|] Hx]; [lia| |]; rewrite Hx.
    + apply choice_spec_skip; [|done]. intros cur c _ _. by rewrite Hx.
    + destruct (Hw s eq_refl) as (c & Hc & _); [by rewrite Hcur|].
      exists c. split; [done|]. split; [|intros m' cur' c' Hlt (? & _); lia].
      apply may_give_way_cons. left. destruct s; simpl in *; by subst.
  - by apply Forall_cons in Hsome as [[? [=]] _].
Qed.

(** In the state of the pool. *)
Definition candidate (w : World) : nat -> Job -> nat -> Prop :=
  may_give_way (p_workers (w_pool w)) (p_preemptQueue (w_pool w)) 0.

Lemma run_Preempt env w job :
  sys_inv w -> Forall is_Some (p_workers (w_pool w)) ->
  (exists k cur c, candidate w k cur c /\
     (forall k' cur' c', (k' < k)%nat -> ~ candidate w k' cur' c') /\
     run env (Pool.Preempt job) w =
       Done (ID cur, None)
         (with_pool (Pool.with_preemptQueue
            (<[k := Some job]> (p_preemptQueue (w_pool w))) (w_pool w))
            (Context.cancel_in c
               (with_met (preempted_add (QueueType cur) 1 (w_met w)) w)))) \/
  ((forall k cur c, ~ candidate w k cur c) /\
   run env (Pool.Preempt job) w = Done ("", Some (Errorf "no preemptable job found")) w).
Proof.
  intros Hw Hstarted. unfold Pool.Preempt. rewrite run_bind, run_act_. cbv zeta.
  pose proof (find_preemptable_spec 0 (p_workers (w_pool w)) (p_preemptQueue (w_pool w)) _
    (inv_workers w Hw) Hstarted) as Hf.
  rewrite (inv_slots w Hw) in Hf. specialize (Hf (Nat.le_refl _)).
  destruct (Pool.find_preemptable 0 _ _) as [k cur co| | |]; simpl in Hf; [|right|done..].
  - left. destruct Hf as (c & -> & Hk & Hfirst). by exists k, cur, c.
  - done.
Qed.

(** C16: [Preempt] never panics once the pool has started, and its choice is the
    one intended: the first worker that runs a normal job and has a free slot is
    cancelled and given the urgent job; without such a worker the call reports
    it and changes nothing. *)
Theorem preempt_choice env w job :
  sys_inv w -> Forall is_Some (p_workers (w_pool w)) ->
  (exists k cur c, candidate w k cur c /\
     (forall k' cur' c', (k' < k)%nat -> ~ candidate w k' cur' c') /\
     run env (Pool.Preempt job) w =
       Done (ID cur, None)
         (with_pool (Pool.with_preemptQueue
            (<[k := Some job]> (p_preemptQueue (w_pool w))) (w_pool w))
            (Context.cancel_in c
               (with_met (preempted_add (QueueType cur) 1 (w_met w)) w)))) \/
  ((forall k cur c, ~ candidate w k cur c) /\
   run env (Pool.Preempt job) w = Done ("", Some (Errorf "no preemptable job found")) w).
Proof. apply run_Preempt. Qed.

(** ** [processJob] *)

Section process.
Context `{StorageSpec} `{Processor}.
Variables fuel rounds : nat.
#[local] Instance the_queue : Queue := router_queue fuel rounds.
Implicit Types (w : World) (j : Job).

(** What finishing a job may change: the table, the FIFO queue and the
    counters. *)
Definition aside w w' : Prop :=
  w_pool w' = w_pool w /\ w_ctxs w' = w_ctxs w /\
  WorkersBusy (w_met w') = WorkersBusy (w_met w) /\ w_faults w' = w_faults w /\
  st_ok (w_db w').

(** The job a worker leaves in the table: [j] is the job while it is processed,
    [r] what [Process] returned, [preempted] whether its context was
    cancelled. *)
Definition outcome_of (r : option error) (preempted : bool) (t : Z) j : Job :=
  match r with
  | None => with_status StatusCompleted "" t j
  | Some _ =>
      if preempted then requeued t j
      else with_retry (nack_result (RetryCount j + 1) j).1 (RetryCount j + 1)
             (nack_result (RetryCount j + 1) j).2 t j
  end.

Lemma busy_status s q m : WorkersBusy (status_counter s q m) = WorkersBusy m.
Proof. unfold status_counter. by repeat case_match. Qed.

Lemma run_finish_job ctx c i j0 (job : Job) (r : option error) w :
  ID job = i -> storage_ready w -> jobs_of w !! i = Some j0 -> room_for 1 FIFORef w ->
  in_int64 (RetryCount j0 + 1) = true -> st_int (RetryCount j0 + 1) = true ->
  w_ctxs w !! ctx = Some c -> Context.err_at (w_clock w) c <> Some DeadlineExceeded ->
  (forall e, ctx_err c = Some e -> e = Canceled) ->
  exists w', run alone (Pool.finish_job ctx job r) w = Done tt w' /\ aside w w' /\
    w_clock w' = w_clock w /\
    jobs_of w' = <[i := outcome_of r (bool_decide (is_Some (ctx_err c))) (st_time (w_clock w)) j0]>
                   (jobs_of w).
Proof.
  intros <- [Hok Hf] Hj Hroom Hn Hint Hc Hdead Hcancel. destruct r as [e|]; cbn [Pool.finish_job].
  - rewrite run_bind. unfold Context.Err. rewrite run_gets, Hc. cbv beta iota.
    unfold Context.err_at in *. destruct (ctx_err c) as [ce|] eqn:Hce.
    + rewrite (Hcancel ce eq_refl). cbn [outcome_of].
      destruct (run_Requeue_room FIFORef (ID job) j0 w) as (t' & Hok' & Hv & Hr); [done..|].
      rewrite run_bind. simpl q_Requeue. unfold Router.Requeue. rewrite Hr. cbv beta iota.
      eexists. split; [done|]. split; [done|]. split; [done|]. exact Hv.
    + destruct (ctx_deadline c <=? w_clock w) eqn:Hd; [done|]. cbn [outcome_of].
      rewrite bool_decide_eq_false_2 by (by intros [? [=]]).
      destruct (run_Nack FIFORef (ID job) j0 w) as (t' & Hok' & Hv & Hr); [done..|].
      rewrite run_bind. simpl q_Nack. unfold Router.Nack. rewrite Hr. cbv beta iota.
      eexists. split; [done|]. unfold aside.
      destruct (MaxRetries j0 <=? RetryCount j0 + 1); (split; [done|split; [done|exact Hv]]).
  - cbn [outcome_of]. destruct (UpdateJobStatus_spec alone w (ID job) StatusCompleted "" j0)
      as (t' & Hr & Hok' & Hv); [done..|].
    rewrite run_bind. simpl q_Ack. unfold Router.Ack, MemoryQueue.Ack. rewrite Hr. cbv beta iota.
    eexists. split; [done|]. split; [|split; [done|exact Hv]].
    split; [done|]. split; [done|]. split; [apply busy_status|done].
Qed.

Lemma run_set_worker env id job c s w : p_workers (w_pool w) !! id = Some (Some s) ->
  run env (Pool.set_worker id job c) w =
    Done tt (with_pool (Pool.with_workers
      (<[id := Some (mkWorkerState job c)]> (p_workers (w_pool w))) (w_pool w)) w).
Proof.
  intros Hs. unfold Pool.set_worker. rewrite run_bind, run_act_. cbv zeta. by rewrite Hs.
Qed.

(** The state in which [Process] is called: the job is marked as being
    processed, its context is made, the worker shows it. *)
Definition started (id : nat) (job : Job) (t' : table) w : World :=
  let ws := <[id := Some (mkWorkerState (Some job) (Some (length (w_ctxs w))))]>
              (p_workers (w_pool w)) in
  with_met (busy_add 1 (wait_observe (QueueType job) (w_clock w - CreatedAt job) (w_met w)))
    (with_pool (Pool.with_workers ws (w_pool w))
       (with_ctxs (w_ctxs w ++ [mkContext (w_clock w + p_timeout (w_pool w)) None])
          (with_db t' w))).

(** The body the deferred functions surround. *)
Definition body (ctx : nat) (job : Job) : M unit :=
  start ← now;
  err ← Process ctx job;
  t ← now;
  metric (processing_observe (QueueType job) (t - start));;
  Pool.finish_job ctx job err.

(** What the deferred functions do. *)
Definition cleanup (id ctx : nat) w : World :=
  with_pool (Pool.with_workers (<[id := Some (mkWorkerState None None)]>
    (p_workers (w_pool w))) (w_pool w))
    (Context.cancel_in ctx (with_met (busy_add (-1) (w_met w)) w)).

Lemma busy_processing m q : status_counter StatusProcessing q m = m.
Proof. done. Qed.

Lemma run_processJob id job j0 s w :
  storage_ready w -> jobs_of w !! ID job = Some j0 ->
  p_workers (w_pool w) !! id = Some (Some s) ->
  exists t', st_ok t' /\
    st_view t' = <[ID job := with_status StatusProcessing "" (st_time (w_clock w)) j0]>
                   (jobs_of w) /\
    forall w1 s1, p_workers (w_pool w1) !! id = Some (Some s1) ->
      (run alone (body (length (w_ctxs w)) job) (started id job t' w) = Done tt w1 ->
       run alone (Pool.processJob id job) w = Done tt (cleanup id (length (w_ctxs w)) w1)) /\
      (forall m, run alone (body (length (w_ctxs w)) job) (started id job t' w) = Crash m w1 ->
       run alone (Pool.processJob id job) w = Crash m (cleanup id (length (w_ctxs w)) w1)).
Proof.
  intros [Hok Hf] Hj Hs.
  set (w0 := with_met (wait_observe (QueueType job) (w_clock w - CreatedAt job) (w_met w)) w).
  destruct (UpdateJobStatus_spec alone w0 (ID job) StatusProcessing "" j0)
    as (t' & Hr & Hok' & Hv); [done..|].
  exists t'. split; [done|]. split; [exact Hv|]. intros w1 s1 Hs1.
  assert (run alone (Pool.processJob id job) w =
    run alone (defer_ (modify (Context.cancel_in (length (w_ctxs w)));;
                       Pool.set_worker id None None)
      (metric (busy_add 1);; defer_ (metric (busy_add (-1))) (body (length (w_ctxs w)) job)))
      (with_pool (Pool.with_workers (<[id := Some (mkWorkerState (Some job)
         (Some (length (w_ctxs w))))]> (p_workers (w_pool w))) (w_pool w))
         (with_ctxs (w_ctxs w ++ [mkContext (w_clock w + p_timeout (w_pool w)) None])
            (with_met (w_met w0) (with_db t' w0))))) as ->.
  { unfold Pool.processJob. rewrite run_bind, run_now. cbv beta iota.
    rewrite run_bind, run_metric. cbv beta iota. simpl clock. fold w0.
    rewrite run_bind. simpl q_SetProcessing.
    unfold Router.SetProcessing, MemoryQueue.SetProcessing. rewrite Hr. cbv beta iota.
    rewrite run_bind, run_gets. cbv beta iota.
    rewrite run_bind. unfold Context.WithTimeout. rewrite run_act_. cbn [fst snd].
    rewrite run_bind, (run_set_worker _ _ _ _ s) by done. done. }
  rewrite run_defer, run_bind, run_metric. cbv beta iota. rewrite run_defer.
  change (with_met (busy_add 1 _) _) with (started id job t' w).
  assert (forall m, run alone (modify (Context.cancel_in (length (w_ctxs w)));;
    Pool.set_worker id None None) (with_met (busy_add (-1) m) w1) =
    Done tt (with_pool (Pool.with_workers (<[id := Some (mkWorkerState None None)]>
      (p_workers (w_pool w1))) (w_pool w1))
      (Context.cancel_in (length (w_ctxs w)) (with_met (busy_add (-1) m) w1)))) as Hclean.
  { intros m. rewrite run_bind, run_modify. cbv beta iota. by rewrite (run_set_worker _ _ _ _ s1). }
  split; [intros ->|intros m ->]; cbv beta iota; rewrite run_metric; cbv beta iota;
    by rewrite Hclean.
Qed.

(** The context of the running job, cancelled or not. *)
Definition run_context (w : World) (preempted : bool) : Context_ :=
  let c := mkContext (w_clock w + p_timeout (w_pool w)) None in
  if preempted then Context.cancel_ctx (w_clock w) c else c.

Definition after_process (w : World) (preempted : bool) (w1 : World) : World :=
  if preempted then Context.cancel_in (length (w_ctxs w)) w1 else w1.

Lemma run_body id job j0 s r preempted t' w :
  st_ok t' -> st_view t' !! ID job = Some j0 -> w_faults w = [] ->
  p_workers (w_pool w) !! id = Some (Some s) -> room_for 1 FIFORef w ->
  0 < p_timeout (w_pool w) ->
  in_int64 (RetryCount j0 + 1) = true -> st_int (RetryCount j0 + 1) = true ->
  (forall w', run alone (Process (length (w_ctxs w)) job) w' =
     Done r (after_process w preempted w')) ->
  exists w1, run alone (body (length (w_ctxs w)) job) (started id job t' w) = Done tt w1 /\
    jobs_of w1 = <[ID job := outcome_of r preempted (st_time (w_clock w)) j0]> (st_view t') /\
    p_workers (w_pool w1) !! id =
      Some (Some (mkWorkerState (Some job) (Some (length (w_ctxs w))))) /\
    w_ctxs w1 !! length (w_ctxs w) = Some (run_context w preempted) /\
    WorkersBusy (w_met w1) = WorkersBusy (w_met w) + 1 /\ w_clock w1 = w_clock w.
Proof.
  intros Hok Hj Hf Hs Hroom Htime Hn Hint Hproc. unfold body.
  rewrite run_bind, run_now. cbv beta iota. rewrite run_bind, Hproc. cbv beta iota.
  rewrite run_bind, run_now. cbv beta iota. rewrite run_bind, run_metric. cbv beta iota.
  set (w2 := with_met _ _).
  assert (w_clock w2 = w_clock w /\ w_db w2 = t' /\ w_faults w2 = [] /\
    get_mq FIFORef w2 = get_mq FIFORef w /\ w_pool w2 = w_pool (started id job t' w) /\
    WorkersBusy (w_met w2) = WorkersBusy (w_met w) + 1 /\
    w_ctxs w2 !! length (w_ctxs w) = Some (run_context w preempted))
    as (Hc & Hdb & Hf2 & Hq & Hp & Hb & Hctx).
  { unfold w2, after_process. destruct preempted; simpl; split_and!; try done.
    - by rewrite list_lookup_alter_eq, lookup_app_r, Nat.sub_diag.
    - by rewrite lookup_app_r, Nat.sub_diag. }
  destruct (run_finish_job (length (w_ctxs w)) (run_context w preempted) (ID job) j0 job r w2)
    as (w3 & Hr & (Hp3 & Hctx3 & Hb3 & _ & _) & Hc3 & Hv); try done.
  - by split; rewrite ?Hdb.
  - unfold jobs_of. by rewrite Hdb.
  - unfold room_for. by rewrite Hq.
  - unfold run_context, Context.cancel_ctx, Context.err_at. rewrite Hc.
    destruct preempted; simpl; rewrite (proj2 (Z.leb_gt _ _)) by lia; done.
  - intros e. unfold run_context, Context.cancel_ctx, Context.err_at.
    destruct preempted; simpl; [rewrite (proj2 (Z.leb_gt _ _)) by lia|done].
    by intros [= <-].
  - exists w3. split; [done|]. split_and!.
    + rewrite Hv, Hc. unfold jobs_of. rewrite Hdb. do 2 f_equal.
      unfold run_context, Context.cancel_ctx, Context.err_at. destruct preempted; simpl.
      * by rewrite (proj2 (Z.leb_gt _ _)) by lia.
      * done.
    + rewrite Hp3, Hp. simpl. apply list_lookup_insert_eq. by eapply lookup_lt_Some.
    + by rewrite Hctx3.
    + by rewrite Hb3.
    + by rewrite Hc3.
Qed.

Lemma ended_context w c : ctx_err c = None \/ ctx_err c = Some Canceled ->
  w_clock w < ctx_deadline c -> ctx_err (Context.cancel_ctx (w_clock w) c) = Some Canceled.
Proof.
  intros Hc Hd. unfold Context.cancel_ctx, Context.err_at.
  destruct Hc as [->| ->]; [|done]. by rewrite (proj2 (Z.leb_gt _ _)) by lia.
Qed.


(** C34: a processor that panics.  The panic goes on to the worker, but the
    deferred functions have run: the worker shows no job, the gauge is balanced
    and the context released.  The job stays in the table as being processed. *)
Theorem process_job_panics id job j0 s m w :
  storage_ready w -> jobs_of w !! ID job = Some j0 ->
  p_workers (w_pool w) !! id = Some (Some s) ->
  (forall w', run alone (Process (length (w_ctxs w)) job) w' = Crash m w') ->
  exists w', run alone (Pool.processJob id job) w = Crash m w' /\
    jobs_of w' = <[ID job := with_status StatusProcessing "" (st_time (w_clock w)) j0]>
                   (jobs_of w) /\
    p_workers (w_pool w') !! id = Some (Some (mkWorkerState None None)) /\
    WorkersBusy (w_met w') = WorkersBusy (w_met w).
Proof.
  intros Hw Hj Hs Hproc.
  destruct (run_processJob id job j0 s w Hw Hj Hs) as (t' & Hok' & Hv & Hall).
  destruct (Hall (started id job t' w) (mkWorkerState (Some job) (Some (length (w_ctxs w)))))
    as [_ Hcrash].
  { simpl. apply list_lookup_insert_eq. by eapply lookup_lt_Some. }
  eexists. split; [apply Hcrash|split; [exact Hv|split]].
  - unfold body. rewrite run_bind, run_now. cbv beta iota. by rewrite run_bind, Hproc.
  - simpl. apply list_lookup_insert_eq. rewrite length_insert. by eapply lookup_lt_Some.
  - simpl. lia.
Qed.

End process.

(** ** Workers that die *)

Section workers.
Context `{Queue} `{Processor}.
Implicit Types (w : World).

(** The pool after a worker has ended: its number is in the channel of the dead
    when there is room, the wait group is one less. *)
Definition worker_gone (id : nat) w : World :=
  let p := w_pool w in
  let died := if chan_has_room (p_workerDied p) then chan_push (Z.of_nat id) (p_workerDied p)
              else p_workerDied p in
  with_pool (mkPool (p_count p) (p_timeout p) (p_cooldown p) (p_wg p - 1) (p_done p) (p_workers p)
    (p_preemptQueue p) (p_preemptSignal p) died (p_aliveWorkers p - 1)) w.

Definition worker_up w : World :=
  with_pool (Pool.with_alive (p_aliveWorkers (w_pool w) + 1) (w_pool w)) w.

Lemma run_death_signal env id w :
  run env (Pool.death_signal id) w =
    Done tt (with_pool (Pool.with_workerDied
      (if chan_has_room (p_workerDied (w_pool w))
       then chan_push (Z.of_nat id) (p_workerDied (w_pool w)) else p_workerDied (w_pool w))
      (w_pool w)) w).
Proof.
  unfold Pool.death_signal, select_default. rewrite run_act_.
  destruct (chan_has_room (p_workerDied (w_pool w))) eqn:Hr.
  - erewrite Delivery.select_one; cycle 1; [simpl; by rewrite Hr|done].
  - rewrite Delivery.select_none; [|simpl; by rewrite Hr].
    by destruct w as [? ? ? ? ? ? ? ? ? ? ? ? [] ? ?].
Qed.

Lemma run_pool_wg_done env w : 0 < p_wg (w_pool w) ->
  run env Pool.wg_done w =
    Done tt (with_pool (Pool.with_wg (p_wg (w_pool w) - 1) (w_pool w)) w).
Proof.
  intros Hwg. unfold Pool.wg_done. rewrite run_bind, run_act_.
  by rewrite (proj2 (Z.leb_gt _ _)) by done.
Qed.

Lemma run_alive_add env n w : run env (Pool.alive_add n) w =
  Done tt (with_pool (Pool.with_alive (p_aliveWorkers (w_pool w) + n) (w_pool w)) w).
Proof. done. Qed.

(** C14: one job cannot take the pool down.  A worker whose loop panics ends like
    one that was stopped: the panic is recovered, its number goes to the
    supervisor unless the channel is full, and the wait group and the count of
    the living are balanced. *)
Theorem worker_survives_panic env rounds id m w w1 :
  run env (Pool.worker_loop rounds id) (worker_up w) = Crash m w1 ->
  0 < p_wg (w_pool w1) ->
  run env (Pool.worker rounds id) w = Done tt (worker_gone id w1).
Proof.
  intros Hloop Hwg. unfold Pool.worker. rewrite run_bind, run_alive_add.
  cbv beta iota. fold (worker_up w).
  rewrite run_defer, run_defer. unfold Pool.recoverWorker. rewrite run_catch, run_defer, Hloop.
  rewrite run_death_signal. cbn [run]. rewrite run_pool_wg_done by done.
  by rewrite run_alive_add.
Qed.

Lemma plain_pool_done : Delivery.plain Pool.case_pool_done.
Proof. unfold Pool.case_pool_done. Delivery.plain_tac. Qed.

Lemma plain_died : Delivery.plain Pool.case_died.
Proof. unfold Pool.case_died. Delivery.plain_tac. Qed.

(** The two [select]s of the supervisor. *)
Notation turn_select := (select_ [Pool.case_pool_done; Pool.case_died] None).
Notation restart_select t :=
  (select_ [after (t + 1 * Second) true;
            fun w => if p_done (w_pool w) then Some (false, w) else None]
     (Some (t + 1 * Second))).

Lemma turn_when_done id l w :
  ch_buf (p_workerDied (w_pool w)) = id :: l -> p_done (w_pool w) = true ->
  exists w1, p_wg (w_pool w1) = p_wg (w_pool w) /\
    (executes alone turn_select w (Done Pool.PoolDone w1) [] \/
     executes alone turn_select w (Done (Pool.Died id) w1) [] /\
     executes alone (restart_select (w_clock w1)) w1 (Done false w1) []).
Proof.
  intros Hd Hdone.
  destruct (Delivery.run_select_ready alone [Pool.case_pool_done; Pool.case_died] None w)
    as (a & x & w1 & w' & Hr & Ha & Hw1 & Haw & Hc).
  { apply Forall_cons; split; [apply plain_pool_done|].
    apply Forall_cons; split; [apply plain_died|done]. }
  { apply Exists_cons_hd. unfold Pool.case_pool_done. rewrite Hdone. by eexists. }
  assert (w_pool w1 = w_pool w) as Hp1 by (by destruct Hw1 as [->|[cs ->]]).
  apply executes_act in Hr. exists w'.
  apply list_elem_of_In in Ha as [<-|[<-|[]]];
    [unfold Pool.case_pool_done in Haw|unfold Pool.case_died in Haw].
  - rewrite Hp1, Hdone in Haw. simplify_eq. by split; [rewrite Hp1|left].
  - rewrite Hp1, Hd in Haw. simplify_eq. split; [simpl; by rewrite Hp1|].
    right. split; [done|]. apply executes_act. cbn [run].
    rewrite (Delivery.select_one _ _ (false, Pool.pool_map
      (Pool.with_workerDied (chan_rest (p_workerDied (w_pool w)))) w1)); [done|].
    simpl. unfold after. simpl. rewrite (proj2 (Z.leb_gt _ _)) by (unfold Second; lia).
    by rewrite Hp1, Hdone.
Qed.

Lemma turn_died id l w :
  ch_buf (p_workerDied (w_pool w)) = id :: l -> p_done (w_pool w) = false ->
  executes alone turn_select w
    (Done (Pool.Died id)
       (with_pool (Pool.with_workerDied (chan_rest (p_workerDied (w_pool w))) (w_pool w)) w)) [].
Proof.
  intros Hd Hdone. apply executes_act. cbn [run].
  rewrite (Delivery.select_one _ _ (Pool.Died id,
    with_pool (Pool.with_workerDied (chan_rest (p_workerDied (w_pool w))) (w_pool w)) w)); [done|].
  simpl. unfold Pool.case_pool_done, Pool.case_died. by rewrite Hdone, Hd.
Qed.

Lemma turn_restart w : p_done (w_pool w) = false ->
  executes alone (restart_select (w_clock w)) w
    (Done true (with_clock (w_clock w + 1 * Second) w)) [].
Proof.
  intros Hdone. apply executes_act. cbn [run].
  assert (w_clock w + 1 * Second <=? w_clock w = false) as Hlt
    by (apply Z.leb_gt; unfold Second; lia).
  rewrite Delivery.select_none by (simpl; unfold after; by rewrite Hlt, Hdone).
  unfold alone. simpl wake. rewrite Z.max_r by (unfold Second; lia).
  rewrite (Delivery.select_one _ _ (true, with_clock (w_clock w + 1 * Second) w)); [done|].
  simpl. unfold after. simpl. by rewrite Z.leb_refl, Hdone.
Qed.

(** C15: the supervisor replaces a dead worker one second later, and only while
    the pool is not stopped: the worker that is started again is the one that
    died first, and it is counted in the wait group; once the pool is stopped
    the supervisor returns, even with dead workers left, and starts none. *)
Theorem supervisor_restarts rounds id l w :
  ch_buf (p_workerDied (w_pool w)) = id :: l ->
  if p_done (w_pool w) then
    exists w', executes alone (Pool.supervise_turn rounds) w (Done false w') [] /\
      p_wg (w_pool w') = p_wg (w_pool w)
  else
    executes alone (Pool.supervise_turn rounds) w
      (Done true
        (with_clock (w_clock w + 1 * Second)
           (with_pool (Pool.with_wg (p_wg (w_pool w) + 1)
              (Pool.with_workerDied (chan_rest (p_workerDied (w_pool w))) (w_pool w))) w)))
      [Pool.worker rounds (Z.to_nat id)].
Proof.
  intros Hd. unfold Pool.supervise_turn. destruct (p_done (w_pool w)) eqn:Hdone.
  - destruct (turn_when_done id l w Hd Hdone) as (w1 & Hp & [Ht|[Ht Hr]]); exists w1.
    + split; [|done]. by eapply (executes_bind _ _ _ _ _ _ _ [] []).
    + split; [|done].
      eapply (executes_bind _ _ _ _ _ _ _ [] []); [exact Ht|].
      eapply (executes_bind _ _ _ _ _ _ _ [] []); [apply executes_act_|].
      eapply (executes_bind _ _ _ _ _ _ _ [] []); [exact Hr|done].
  - eapply (executes_bind _ _ _ _ _ _ _ [] [_]); [by eapply turn_died|].
    eapply (executes_bind _ _ _ _ _ _ _ [] [_]); [apply executes_act_|].
    eapply (executes_bind _ _ _ _ _ _ _ [] [_]); [by apply turn_restart|].
    eapply (executes_bind _ _ _ _ _ _ _ [] [_]); [apply executes_act_|].
    eapply (executes_bind _ _ _ _ _ _ _ [_] []); [apply executes_go|done].
Qed.

End workers.


(** ** On a concrete process *)

Section concrete.
Import Examples.

Lemma run_keeps_inv {A} (Q : World -> A -> Prop) (p : M A) w :
  safe sys_protocol Q p w -> sys_inv w -> sys_inv (final_state (run alone p w)).
Proof. intros Hp Hw. by apply (safe_run sys_protocol alone Q p w w). Qed.

(** A worker in the middle of a normal job. *)
Definition busy : World :=
  final_state (run alone (@Pool.worker queue stuck_processor 1 0) with_fifo_job).

Lemma busy_inv : sys_inv busy.
Proof.
  pose proof (router_queue_safe fuel rounds) as Hq. pose proof stuck_processor_safe as Hp.
  eapply run_keeps_inv; [apply Pool.worker_safe|].
  Transparent with_fifo_job accepted booted launched.
  eapply run_keeps_inv; [apply safe_then, Handler.ServeHTTP_safe|].
  eapply run_keeps_inv; [apply Handler.server_safe|].
  eapply run_keeps_inv; [apply boot_safe|].
  pose proof (fresh_inv 1000000 ∅ uuids) as Hi. destruct Hi; [done|by constructor].
Qed.

Lemma all_started (l : list (option workerState)) :
  forallb (fun o : option workerState => match o with Some _ => true | None => false end) l = true -> Forall is_Some l.
Proof.
  induction l as [|[s|] l IH]; simpl; [constructor| |done]. intros Hl.
  constructor; [by eexists|by apply IH].
Qed.

Definition urgent : Job := job "u" "fifo" 3 2000000.

Lemma preempt_choice_witness : exists k cur c,
  candidate busy k cur c /\
  run alone (Pool.Preempt urgent) busy =
    Done (ID cur, None)
      (with_pool (Pool.with_preemptQueue
         (<[k := Some urgent]> (p_preemptQueue (w_pool busy))) (w_pool busy))
         (Context.cancel_in c (with_met (preempted_add (QueueType cur) 1 (w_met busy)) busy))).
Proof.
  assert (Forall is_Some (p_workers (w_pool busy))) as Hstarted.
  { apply all_started. vm_compute. reflexivity. }
  destruct (preempt_choice alone busy urgent busy_inv Hstarted) as [(k & cur & c & Hc & _ & Hr)|[Hno _]].
  - exists k, cur, c. exact (conj Hc Hr).
  - exfalso. apply (Hno 0%nat (job "a" "fifo" 1 1000000) 0%nat).
    split; [lia|]. split; [vm_compute; reflexivity|]. split; vm_compute; reflexivity.
Defined.

Lemma restarted_worker :
  p_workers (w_pool restarted) !! 0%nat = Some (Some (mkWorkerState None None)).
Proof. vm_compute. reflexivity. Qed.


Lemma process_job_panics_witness : exists w',
  run alone (@Pool.processJob queue panicking_processor 0 (stored_job "a" "fifo" 1 StatusPending 1))
    restarted = Crash "boom" w' /\
  p_workers (w_pool w') !! 0%nat = Some (Some (mkWorkerState None None)).
Proof.
  destruct (@process_job_panics lite lite_spec panicking_processor fuel rounds 0
    (stored_job "a" "fifo" 1 StatusPending 1) _ _ "boom"
    restarted restarted_ready restarted_a restarted_worker) as (w' & Hr & _ & Hp & _); [done|].
  exists w'. exact (conj Hr Hp).
Defined.

(** The state in which the loop of a worker panics. *)
Definition at_panic : World :=
  final_state (run alone (@Pool.worker_loop queue panicking_processor 1 0)
    (worker_up with_fifo_job)).

Lemma worker_survives_panic_witness :
  run alone (@Pool.worker queue panicking_processor 1 0) with_fifo_job =
    Done tt (worker_gone 0 at_panic).
Proof.
  apply (@worker_survives_panic queue panicking_processor alone 1 0 "boom").
  - vm_compute. reflexivity.
  - vm_compute. reflexivity.
Defined.

Lemma supervisor_restarts_witness :
  p_done (w_pool (worker_gone 0 at_panic)) = false /\
  spawned alone (Pool.supervise_turn turns) (worker_gone 0 at_panic) = [Pool.worker turns 0].
Proof.
  assert (p_done (w_pool (worker_gone 0 at_panic)) = false) as Hd by (vm_compute; reflexivity).
  assert (ch_buf (p_workerDied (w_pool (worker_gone 0 at_panic))) = [0]) as Hb
    by (vm_compute; reflexivity).
  split; [exact Hd|]. generalize dependent (worker_gone 0 at_panic). intros w Hd Hb.
  pose proof (supervisor_restarts turns 0 [] w Hb) as Hs. rewrite Hd in Hs. apply Hs.
Defined.

End concrete.
End PoolBehaviour.
