(* ===== verification/EmailBehaviour.v ===== *)
(** * What the email processor does

    The message it builds, and that neither the processor nor its sender waits
    past a deadline. *)

From Stdlib Require Import Ascii.
From S2P Require Import Prelude Go Models World Metrics Sql Storage Invariant Queue Worker Email.
From S2P Require Import Delivery Examples.

Module EmailBehaviour.
Import Email Examples.

(** ** The message *)

(** A reference reader of messages: the headers up to the empty line, and the
    body.  A line ends with CR LF. *)
Fixpoint read_line (s : string) : option (string * string) :=
  match s with
  | "" => None
  | String c s' =>
      if Ascii.eqb c "013" then
        match s' with
        | String c' rest =>
            if Ascii.eqb c' "010" then Some ("", rest)
            else '(l, rest) ← read_line s'; Some (String c l, rest)
        | "" => None
        end
      else '(l, rest) ← read_line s'; Some (String c l, rest)
  end.

Fixpoint read_message (fuel : nat) (s : string) : option (list string * string) :=
  match fuel with
  | O => None
  | S fuel =>
      '(l, rest) ← read_line s;
      if (l =? "")%string then Some ([], rest)
      else '(headers, body) ← read_message fuel rest; Some (l :: headers, body)
  end.

Lemma read_line_app l rest : has_line_break l = false ->
  read_line (l +:+ CRLF +:+ rest) = Some (l, rest).
Proof.
  induction l as [|c l IH]; [done|]. cbn [has_line_break]. rewrite !orb_false_iff.
  intros [[_ Hc] Hl]. change (String c l +:+ CRLF +:+ rest) with (String c (l +:+ CRLF +:+ rest)).
  cbn [read_line]. rewrite Hc, IH by done. done.
Qed.

Lemma has_line_break_app s s' : has_line_break (s +:+ s') = has_line_break s || has_line_break s'.
Proof.
  induction s as [|c s IH]; [done|].
  change (has_line_break (String c s +:+ s')) with
    (Ascii.eqb c "010" || Ascii.eqb c "013" || has_line_break (s +:+ s')).
  rewrite IH. cbn [has_line_break]. by rewrite !orb_assoc.
Qed.

Lemma append_assoc (s1 s2 s3 : string) : (s1 +:+ s2) +:+ s3 = s1 +:+ s2 +:+ s3.
Proof.
  induction s1 as [|c s1 IH]; [done|].
  change ((String c s1 +:+ s2) +:+ s3) with (String c ((s1 +:+ s2) +:+ s3)). by rewrite IH.
Qed.

Lemma read_header fuel l rest : has_line_break l = false -> l <> "" ->
  read_message (S fuel) (l +:+ CRLF +:+ rest) =
    ('(headers, body) ← read_message fuel rest; Some (l :: headers, body)).
Proof.
  intros Hl Hne. cbn [read_message]. rewrite read_line_app by done. cbn.
  by rewrite (proj2 (String.eqb_neq _ _)).
Qed.

(** C21: a message is read as it was written: when no field of the header has a
    line break, the reader finds the three headers and the body. *)
Theorem message_round_trip fuel from to subject body :
  has_line_break from = false -> has_line_break to = false -> has_line_break subject = false ->
  read_message (4 + fuel) (buildMessage from to subject body) =
    Some (["From: " +:+ from; "To: " +:+ to; "Subject: " +:+ subject], body).
Proof.
  intros Hf Ht Hs. unfold buildMessage.
  rewrite <- (append_assoc "From: "), <- (append_assoc "To: "), <- (append_assoc "Subject: ").
  cbn [plus].
  rewrite read_header; [|by rewrite has_line_break_app|done].
  rewrite read_header; [|by rewrite has_line_break_app|done].
  rewrite read_header; [|by rewrite has_line_break_app|done].
  done.
Qed.

(** A subject with a line break adds a header of the submitter's choice. *)
Theorem header_injection fuel from to subject extra body :
  has_line_break from = false -> has_line_break to = false -> has_line_break subject = false ->
  has_line_break extra = false -> extra <> "" ->
  read_message (5 + fuel) (buildMessage from to (subject +:+ CRLF +:+ extra) body) =
    Some (["From: " +:+ from; "To: " +:+ to; "Subject: " +:+ subject; extra], body).
Proof.
  intros Hf Ht Hs He Hne. unfold buildMessage.
  rewrite <- (append_assoc "From: "), <- (append_assoc "To: ").
  rewrite (append_assoc subject), (append_assoc CRLF), <- (append_assoc "Subject: ").
  cbn [plus].
  rewrite read_header; [|by rewrite has_line_break_app|done].
  rewrite read_header; [|by rewrite has_line_break_app|done].
  rewrite read_header; [|by rewrite has_line_break_app|done].
  rewrite read_header by done. done.
Qed.

(** ** Nothing waits past its deadline *)

Section returns.
(** The context of the job and its deadline; what the others do does not turn
    the clock back and leaves the context its deadline. *)
Variable ctx : nat.
Variable d : Z.
Definition ctx_at (w : World) : Prop := ctx_timer ctx w = Some d.

Variable env : World -> World.
Hypothesis env_forward : forall w, w_clock w <= w_clock (env w).
Hypothesis env_context : forall w, ctx_at w -> ctx_at (env w).

(** [p] ends, whatever the state it starts in, with a result that satisfies
    [Q]. *)
Definition returns {A} (Q : A -> Prop) (p : M A) : Prop :=
  forall w, ctx_at w -> exists a w', run env p w = Done a w' /\ ctx_at w' /\ Q a.
Notation returns_any := (returns (fun _ => True)).

Lemma returns_ret {A} (Q : A -> Prop) a : Q a -> returns Q (Ret a).
Proof. intros HQ w Hw. by exists a, w. Qed.

Lemma returns_bind {A B} (Q : A -> Prop) (Q' : B -> Prop) (p : M A) f :
  returns Q p -> (forall a, Q a -> returns Q' (f a)) -> returns Q' (p ≫= f).
Proof.
  intros Hp Hf w Hw. destruct (Hp w Hw) as (a & w1 & Hr & Hw1 & Ha).
  rewrite run_bind, Hr. by apply (Hf a Ha).
Qed.

Lemma returns_act_ {X} (g : World -> X * World) :
  (forall w, w_ctxs (g w).2 = w_ctxs w) -> returns_any (act_ g).
Proof.
  intros Hg w Hw. exists (g w).1, (g w).2. rewrite run_act_. split_and!; [done| |done].
  unfold ctx_at, ctx_timer in *. by rewrite Hg.
Qed.

Lemma returns_now : returns_any now.
Proof. by apply returns_act_. Qed.

Lemma returns_timer : returns (eq (Some d)) (gets (ctx_timer ctx)).
Proof. intros w Hw. exists (ctx_timer ctx w), w. by split_and!. Qed.

Lemma returns_wait_until t : returns_any (wait_until t).
Proof.
  intros w Hw. unfold wait_until. cbn [run]. destruct (clock w <? t) eqn:Hlt.
  - set (w1 := env (wake (Some t) w)).
    assert (clock w1 <? t = false) as ->.
    { apply Z.ltb_ge. pose proof (env_forward (wake (Some t) w)). unfold w1. simpl in *. lia. }
    exists tt, w1. split_and!; [done| |done]. by apply env_context.
  - by exists tt, w.
Qed.

(** A [select] one of whose cases is ready when its timer has fired. *)
Definition keeps_contexts {X} (a : alt X) : Prop :=
  forall w x w', a w = Some (x, w') -> w_ctxs w' = w_ctxs w.

Lemma returns_select {X} (alts : list (alt X)) t :
  Forall Delivery.plain alts -> Forall keeps_contexts alts ->
  (forall w, ctx_at w -> t <= w_clock w -> Exists (fun a : alt X => is_Some (a w)) alts) ->
  returns_any (select_ alts (Some t)).
Proof.
  intros Hp Hk Hready w Hw.
  assert (forall w, ctx_at w -> Exists (fun a : alt X => is_Some (a w)) alts ->
    exists x w', select_action alts w = Some (x, w') /\ ctx_at w') as Hgo.
  { intros w1 Hw1 Hex. destruct (Delivery.select_ready alts w1 Hp Hex)
      as (a & x & w2 & w3 & Hs & Ha & Hw2 & Haw).
    exists x, w3. split; [done|]. rewrite Forall_forall in Hk.
    unfold ctx_at, ctx_timer in *. rewrite (Hk a Ha _ _ _ Haw).
    by destruct Hw2 as [->|[cs ->]]. }
  cbn [select_ run]. destruct (select_action alts w) as [[x w']|] eqn:Hs.
  - exists x, w'. split_and!; [done| |done].
    destruct (omap (fun a : alt X => a w) alts) as [|r l] eqn:Ho.
    { by rewrite Delivery.select_none in Hs. }
    destruct (Hgo w Hw) as (x1 & w1 & Hs1 & Hw1); [|by simplify_eq].
    apply Exists_exists. assert (r ∈ omap (fun a : alt X => a w) alts) as Hin by (rewrite Ho; by left).
    apply list_elem_of_omap in Hin as (a & Ha & Har). exists a. split; [done|by exists r].
  - set (w1 := env (wake (Some t) w)).
    assert (ctx_at w1 /\ t <= w_clock w1) as [Hw1 Ht].
    { split; [by apply env_context|]. pose proof (env_forward (wake (Some t) w)).
      unfold w1. simpl in *. lia. }
    destruct (Hgo w1 Hw1) as (x & w2 & -> & Hw2); [by apply Hready|]. by exists x, w2.
Qed.

Lemma plain_ctx_done {X} (x : X) : Delivery.plain (case_ctx_done ctx x).
Proof. unfold case_ctx_done. Delivery.plain_tac. Qed.
Lemma plain_result n : Delivery.plain (case_result n).
Proof. unfold case_result. Delivery.plain_tac. Qed.
Lemma keeps_ctx_done {X} (x : X) : keeps_contexts (case_ctx_done ctx x).
Proof. intros w y w'. unfold case_ctx_done. repeat case_match; try done. by intros [= <- <-]. Qed.
Lemma keeps_result n : keeps_contexts (case_result n).
Proof. intros w y w'. unfold case_result. repeat case_match; try done. by intros [= <- <-]. Qed.
Lemma keeps_after {X} t (x : X) : keeps_contexts (after t x).
Proof. intros w y w'. unfold after. case_match; [|done]. by intros [= <- <-]. Qed.

(** Past its deadline a context is done. *)
Lemma ctx_done_ready {X} (x : X) w : ctx_at w -> d <= w_clock w -> is_Some (case_ctx_done ctx x w).
Proof.
  unfold ctx_at, ctx_timer, case_ctx_done. intros Hd Hle.
  destruct (w_ctxs w !! ctx) as [c|]; [|done]. simpl in Hd. injection Hd as Hd.
  unfold Context.err_at. rewrite Hd, (proj2 (Z.leb_le _ _)) by done.
  destruct (ctx_err c); by eexists.
Qed.

Lemma returns_exchange n t c : returns_any (exchange n t c).
Proof.
  unfold exchange, await.
  eapply returns_bind; [apply returns_now|]. intros t0 _. case_match; [by apply returns_ret|].
  eapply returns_bind; [by apply returns_act_|]. intros a _.
  assert (forall r, returns_any (wait_until t;; Ret r : M (option error * list string))) as Hwait.
  { intros r. eapply returns_bind; [apply returns_wait_until|]. intros. by apply returns_ret. }
  destruct a; [| |apply Hwait];
    (eapply returns_bind; [apply returns_now|]; intros t1 _; case_match; [|apply Hwait];
     eapply returns_bind; [apply returns_wait_until|]; intros; by apply returns_ret).
Qed.

Lemma returns_command n t c : returns_any (command n t c).
Proof.
  eapply returns_bind; [apply returns_exchange|]. intros [err exts] _. by apply returns_ret.
Qed.

Lemma returns_or_fail step msg rest :
  returns_any step -> returns_any rest -> returns_any (or_fail step msg rest).
Proof.
  intros Hs Hr. eapply returns_bind; [exact Hs|]. intros [e|] _; [by apply returns_ret|done].
Qed.

Lemma returns_err : returns_any (Context.Err ctx).
Proof. by apply returns_act_. Qed.

Lemma returns_dial n addr : returns_any (dial n ctx addr).
Proof.
  unfold dial. eapply returns_bind; [apply returns_err|]. intros [e|] _; [by apply returns_ret|].
  eapply returns_bind; [apply returns_now|]. intros t _.
  eapply returns_bind; [apply returns_timer|]. intros timer <-.
  eapply returns_bind; [by apply returns_act_|]. intros a _. cbn [from_option Datatypes.id].
  assert (forall t x, Delivery.plain (after t x : alt (option error))) as Hplain
    by (intros; apply Delivery.plain_after).
  destruct a; cbn [app]; apply returns_select;
    repeat (apply Forall_cons; split); try apply Forall_nil; auto using keeps_after, keeps_ctx_done,
      plain_ctx_done; try done; intros w Hw Ht.
  - destruct (decide (t + delay <= w_clock w)); [left; unfold after; rewrite (proj2 (Z.leb_le _ _)) by done; by eexists|].
    right. left. unfold after. rewrite (proj2 (Z.leb_le _ _)) by lia. by eexists.
  - destruct (decide (t + delay <= w_clock w)); [left; unfold after; rewrite (proj2 (Z.leb_le _ _)) by done; by eexists|].
    right. left. unfold after. rewrite (proj2 (Z.leb_le _ _)) by lia. by eexists.
  - left. unfold after. rewrite (proj2 (Z.leb_le _ _)) by lia. by eexists.
Qed.

Lemma returns_converse p n t auth to msg : returns_any (converse p n t auth to msg).
Proof.
  pose proof (returns_command n t) as Hc.
  assert (returns_any (Ret None : M (option error))) as Hnone by (by apply returns_ret).
  unfold converse, hello, start_tls, plain_auth, mail, rcpt.
  eapply (returns_bind (fun _ => True)).
  { eapply returns_bind; [apply returns_exchange|]. intros [[e|] exts] _; [|by apply returns_ret].
    eapply returns_bind; [apply Hc|]. intros. by apply returns_ret. }
  intros [hello_err exts] _. cbv zeta.
  apply returns_or_fail.
  { case_match; [|done]. eapply returns_bind; [apply Hc|]. intros [e|] _; [by apply returns_ret|apply Hc]. }
  apply returns_or_fail.
  { case_match; [|done]. case_match; [by apply returns_ret|]. case_match.
    - eapply returns_bind; [apply Hc|]. intros [[]|] _; try by apply returns_ret.
      eapply returns_bind; [apply Hc|]. intros _ _. eapply returns_bind; [apply Hc|].
      intros. by apply returns_ret.
    - eapply returns_bind; [apply Hc|]. intros. by apply returns_ret. }
  apply returns_or_fail; [repeat case_match; first [by apply returns_ret|apply Hc]|].
  apply returns_or_fail; [case_match; [by apply returns_ret|apply Hc]|].
  by repeat (apply returns_or_fail; [apply Hc|]).
Qed.

(** Every step of the conversation has a deadline. *)
Lemma returns_send p n addr auth to msg : returns_any (sendWithTimeout p n ctx addr auth to msg).
Proof.
  apply returns_or_fail; [apply returns_dial|].
  eapply returns_bind; [apply returns_now|]. intros t _.
  eapply returns_bind; [apply returns_timer|]. intros timer <-. cbn [from_option Datatypes.id].
  eapply returns_bind; [apply returns_command|]. intros [e|] _.
  - eapply returns_bind; [by apply returns_act_|]. intros. by apply returns_ret.
  - intros w1 Hw1.
    destruct (returns_converse p n d auth to msg w1 Hw1) as (r & w2 & Hr & Hw2 & _).
    rewrite run_defer, Hr. unfold hang_up. rewrite run_modify.
    exists r, (net_map (sent n Hangup Silence) w2). by split_and!.
Qed.

Lemma returns_await_result n : returns_any (await_result n ctx).
Proof.
  unfold await_result. eapply returns_bind; [apply returns_timer|]. intros timer <-.
  apply returns_select.
  - constructor; [apply plain_result|constructor; [apply plain_ctx_done|constructor]].
  - constructor; [apply keeps_result|constructor; [apply keeps_ctx_done|constructor]].
  - intros w Hw Ht. right. left. by apply ctx_done_ready.
Qed.

Lemma returns_demo_delay t : returns_any (demo_delay t ctx).
Proof.
  unfold demo_delay. eapply returns_bind; [apply returns_now|]. intros t0 _.
  eapply returns_bind; [apply returns_timer|]. intros timer <-. cbn [from_option Datatypes.id].
  apply returns_select.
  - constructor; [apply Delivery.plain_after|constructor; [apply plain_ctx_done|constructor]].
  - constructor; [apply keeps_after|constructor; [apply keeps_ctx_done|constructor]].
  - intros w Hw Ht. destruct (decide (t0 + t <= w_clock w)).
    + left. unfold after. rewrite (proj2 (Z.leb_le _ _)) by done. by eexists.
    + right. left. apply ctx_done_ready; [done|lia].
Qed.

Lemma returns_process p job : returns_any (Process p ctx job).
Proof.
  unfold Process. cbv zeta. case_match; [by apply returns_ret|].
  eapply returns_bind; [by apply returns_act_|]. intros n _.
  eapply (returns_bind (fun _ => True)); [intros w1 Hw1; by exists tt, w1|]. intros _ _.
  eapply returns_bind; [apply returns_await_result|].
  intros [[e|]|] _; [by apply returns_ret| |apply returns_err].
  eapply returns_bind; [apply returns_demo_delay|].
  intros [] _; [by apply returns_ret|apply returns_err].
Qed.


End returns.

(** The fields of the payload are there. *)
Definition complete (job : Job) : Prop :=
  payload_string (Payload job) "to" <> "" /\ payload_string (Payload job) "subject" <> "" /\
  payload_string (Payload job) "body" <> "".

(** The goroutine [Process] starts. *)
Definition sender (p : EmailProcessor) (n ctx : nat) (job : Job) : M unit :=
  let to := payload_string (Payload job) "to" in
  err ← sendWithTimeout p n ctx (smtpHost p +:+ ":" +:+ pretty (smtpPort p))
    (useAuth p && negb (smtpUser p =? "")%string && negb (smtpPass p =? "")%string) to
    (buildMessage (smtpUser p) to (payload_string (Payload job) "subject")
       (payload_string (Payload job) "body"));
  report n err.

(** A new channel has no result yet. *)
Lemma case_result_new l w :
  net_results (w_net w) = l ++ [make_chan 1] -> case_result (length l) w = None.
Proof. intros Hr. unfold case_result. by rewrite Hr, lookup_app_r, Nat.sub_diag. Qed.

(** C20: a worker is freed at the deadline.  A job whose payload lacks a field is
    refused at once, without a sender; for any other one sender is started,
    and when nothing comes back from it [Process] returns
    [DeadlineExceeded] at the deadline of the context. *)
Theorem stuck_sender_times_out p ctx c job w :
  w_ctxs w !! ctx = Some c -> ctx_err c = None -> w_clock w < ctx_deadline c ->
  (complete job ->
    exists w', executes alone (Process p ctx job) w (Done (Some DeadlineExceeded) w')
      [sender p (length (net_results (w_net w))) ctx job] /\
    w_clock w' = ctx_deadline c) /\
  (~ complete job -> exists e, executes alone (Process p ctx job) w (Done (Some e) w) []).
Proof.
  intros Hc Herr Hlt. unfold Process, complete. cbv zeta. split.
  - intros (H1 & H2 & H3). rewrite !(proj2 (String.eqb_neq _ _)) by done. cbn [orb].
    eexists. split.
    + eapply (executes_bind _ _ _ _ _ _ _ [] _); [apply executes_act_|].
      eapply (executes_bind _ _ _ _ _ _ _ [_] _); [apply executes_go|].
      eapply (executes_bind _ _ _ _ _ _ _ [] []).
      * unfold await_result. eapply (executes_bind _ _ _ _ _ _ _ [] []); [apply executes_act_|].
        unfold ctx_timer. cbn [fst snd net_map w_ctxs with_net]. rewrite Hc. cbn [fmap option_fmap option_map].
        apply executes_act. cbn [run].
        set (w1 := net_map _ w).
        rewrite Delivery.select_none.
        2: { simpl. rewrite case_result_new by done. unfold case_ctx_done, w1. simpl. rewrite Hc.
             unfold Context.err_at. by rewrite Herr, (proj2 (Z.leb_gt _ _)). }
        rewrite (Delivery.select_one _ _ (None, with_clock (ctx_deadline c) w1)); [done|].
        unfold alone. simpl wake. rewrite Z.max_r by (simpl; lia). simpl.
        rewrite case_result_new by done. unfold case_ctx_done. simpl. rewrite Hc. unfold Context.err_at.
        by rewrite Herr, Z.leb_refl.
      * split; [|done]. unfold Context.Err. rewrite run_gets. simpl. rewrite Hc.
        unfold Context.err_at. by rewrite Herr, Z.leb_refl.
    + done.
  - intros Hn. eexists.
    destruct (String.eqb_spec (payload_string (Payload job) "to") ""); [done|].
    destruct (String.eqb_spec (payload_string (Payload job) "subject") ""); [done|].
    destruct (String.eqb_spec (payload_string (Payload job) "body") ""); [done|].
    exfalso. by apply Hn.
Qed.

(** ** Witnesses *)

Lemma message_round_trip_witness :
  read_message 4 (buildMessage "rjq@localhost" "ann@example.com" "hello" "text") =
    Some (["From: rjq@localhost"; "To: ann@example.com"; "Subject: hello"], "text").
Proof. by apply (message_round_trip 0). Defined.


(** A server that accepts the connection and says nothing more. *)
Lemma stuck_sender_times_out_witness :
  (complete email_job ->
    exists w', executes alone (Process mailer 0 email_job) mailing (Done (Some DeadlineExceeded) w')
      [sender mailer 0 0 email_job] /\ w_clock w' = mail_deadline) /\
  (~ complete email_job ->
    exists e, executes alone (Process mailer 0 email_job) mailing (Done (Some e) mailing) []) /\
  complete email_job.
Proof.
  split_and!; [| |done..]; by apply (stuck_sender_times_out mailer 0 mail_context email_job mailing).
Defined.

End EmailBehaviour.
