(* ===== verification/EmailConversation.v ===== *)
(** * The conversation of the email processor with the mail server

    What a sender has said when it ends, whatever the server answered and
    whatever the other goroutines did meanwhile. *)

From S2P Require Import Prelude Go Models World Metrics Sql Storage Invariant Queue Worker Email.
From S2P Require Import Delivery Examples.

Module EmailConversation.
Import Email Examples.

(** ** The order of the conversation *)

(** The conversation [n] so far: what was sent, with the answer. *)
Definition log (n : nat) (w : World) : list (smtp_command * answer) :=
  omap (fun m => if decide (m.1 = n) then Some m.2 else None) (net_wire (w_net w)).
Definition said (n : nat) (w : World) : list smtp_command := (log n w).*1.

Lemma log_sent n c a w : log n (net_map (sent n c a) w) = log n w ++ [(c, a)].
Proof. unfold log. simpl. rewrite omap_app. simpl. by rewrite decide_True. Qed.
Lemma said_sent n c a w : said n (net_map (sent n c a) w) = said n w ++ [c].
Proof. unfold said. by rewrite log_sent, fmap_app. Qed.

Section conversation.
(** The others do not speak in conversation [n]. *)
Variable n : nat.
Variable env : World -> World.
Hypothesis env_log : forall w, log n (env w) = log n w.

Lemma env_silent w : said n (env w) = said n w.
Proof. unfold said. by rewrite env_log. Qed.

(** When [p] ends with [a], it has sent a list that is in the relation [R]
    with [a]. *)
Definition speaks {A} (p : M A) (R : A -> list smtp_command -> Prop) : Prop :=
  forall w a w', run env p w = Done a w' -> exists l, said n w' = said n w ++ l /\ R a l.

Lemma speaks_ret {A} (a : A) (R : A -> list smtp_command -> Prop) : R a [] -> speaks (Ret a) R.
Proof. intros HR w b w' [= <- <-]. exists []. by rewrite app_nil_r. Qed.

Lemma speaks_weaken {A} (p : M A) (R R' : A -> list smtp_command -> Prop) :
  speaks p R -> (forall a l, R a l -> R' a l) -> speaks p R'.
Proof. intros Hp HR w a w' Hr. destruct (Hp _ _ _ Hr) as (l & ? & ?). eauto. Qed.

Lemma speaks_bind {A B} (p : M A) (f : A -> M B) R (R' : B -> list smtp_command -> Prop) :
  speaks p R ->
  (forall a l1, R a l1 -> speaks (f a) (fun b l2 => R' b (l1 ++ l2))) -> speaks (p ≫= f) R'.
Proof.
  intros Hp Hf w b w'. rewrite run_bind. destruct (run env p w) as [a w1| | |] eqn:Hr; try done.
  intros Hb. destruct (Hp _ _ _ Hr) as (l1 & Hs1 & H1).
  destruct (Hf a l1 H1 _ _ _ Hb) as (l2 & Hs2 & H2). exists (l1 ++ l2).
  by rewrite app_assoc, <- Hs1.
Qed.

(** Programs that send nothing, and what they return. *)
Definition quiet {A} (Q : A -> Prop) (p : M A) : Prop :=
  forall w a w', run env p w = Done a w' -> log n w' = log n w /\ Q a.
Notation silent := (quiet (fun _ => True)).

Lemma quiet_ret {A} (Q : A -> Prop) a : Q a -> quiet Q (Ret a).
Proof. by intros HQ w b w' [= <- <-]. Qed.

Lemma quiet_bind {A B} (Q : A -> Prop) (Q' : B -> Prop) (p : M A) f :
  quiet Q p -> (forall a, Q a -> quiet Q' (f a)) -> quiet Q' (p ≫= f).
Proof.
  intros Hp Hf w b w'. rewrite run_bind. destruct (run env p w) as [a w1| | |] eqn:Hr; try done.
  destruct (Hp _ _ _ Hr) as [<- Ha]. by apply Hf.
Qed.

Lemma silent_act_ {X} (g : World -> X * World) :
  (forall w, log n (g w).2 = log n w) -> silent (act_ g).
Proof. intros Hg w a w'. rewrite run_act_. intros [= <- <-]. by rewrite Hg. Qed.

Lemma log_wake t w : log n (env (wake t w)) = log n w.
Proof. rewrite env_log. by destruct t. Qed.

Lemma silent_wait_until t : silent (wait_until t).
Proof.
  intros w a w'. unfold wait_until. cbn [run]. destruct (clock w <? t).
  - pose proof (log_wake (Some t) w) as Hw. destruct (clock _ <? t); [done|].
    by intros [= <- <-].
  - by intros [= <- <-].
Qed.

Lemma quiet_wait_ret {A} t (a : A) : quiet (eq a) (wait_until t;; Ret a).
Proof. eapply quiet_bind; [apply silent_wait_until|]. intros _ _. by apply quiet_ret. Qed.

Lemma quiet_await t b r :
  quiet (fun r' => r' = r \/ r' = (Some io_timeout, [])) (await t b r).
Proof.
  unfold await. eapply quiet_bind; [by apply silent_act_|]. intros t1 _.
  case_match; intros w a w' Hr; apply quiet_wait_ret in Hr as [Hl <-]; auto.
Qed.

Lemma speaks_quiet {A} (Q : A -> Prop) (p : M A) (R : A -> list smtp_command -> Prop) :
  quiet Q p -> (forall a, Q a -> R a []) -> speaks p R.
Proof.
  intros Hp HR w a w' Hr. destruct (Hp _ _ _ Hr) as [Hl Ha]. exists [].
  rewrite app_nil_r. split; [unfold said; by rewrite Hl|by apply HR].
Qed.

Lemma speaks_silent {A B} (p : M A) (f : A -> M B) R :
  silent p -> (forall a, speaks (f a) R) -> speaks (p ≫= f) R.
Proof.
  intros Hp Hf. eapply (speaks_bind _ _ (fun _ l => l = [])); [by eapply speaks_quiet|].
  intros a l ->. apply Hf.
Qed.

(** The next command is sent, with its answer. *)
Lemma run_send_log c w a w' : run env (send_command n c) w = Done a w' ->
  log n w' = log n w ++ [(c, a)].
Proof. unfold send_command. rewrite run_act_. intros [= <- <-]. apply log_sent. Qed.

Lemma speaks_send c : speaks (send_command n c) (fun _ l => l = [c]).
Proof.
  intros w a w' Hl%run_send_log. exists [c]. unfold said. by rewrite Hl, fmap_app.
Qed.

(** A command is sent, or the deadline has passed and it fails. *)
Definition command_sent {A} (failed : A -> Prop) (c : smtp_command) (r : A)
    (l : list smtp_command) : Prop := l = [c] \/ l = [] /\ failed r.

Lemma late_exchange t c w : t <= w_clock w ->
  run env (exchange n t c) w = Done (Some io_timeout, []) w.
Proof.
  intros Ht. unfold exchange. rewrite run_bind, run_now. simpl clock.
  by rewrite (proj2 (Z.leb_le _ _)).
Qed.

Definition accepts (a : answer) : Prop := match a with Accepts _ _ => True | _ => False end.

(** A command that succeeds was accepted. *)
Lemma exchange_log t c w r w' : w_clock w < t ->
  run env (exchange n t c) w = Done r w' ->
  exists a, log n w' = log n w ++ [(c, a)] /\ (r.1 = None -> accepts a).
Proof.
  intros Ht. unfold exchange. rewrite run_bind, run_now. simpl clock.
  rewrite (proj2 (Z.leb_gt _ _)) by done. rewrite run_bind.
  destruct (run env (send_command n c) w) as [a w1| | |] eqn:Hs; try done.
  apply run_send_log in Hs. intros Hr. exists a. rewrite <- Hs.
  destruct a as [delay exts|delay m|]; [apply quiet_await in Hr as [-> _]; done| |].
  - apply quiet_await in Hr as [-> [->| ->]]; done.
  - apply quiet_wait_ret in Hr as [-> <-]. done.
Qed.

Lemma timely_exchange t c w r w' : w_clock w < t ->
  run env (exchange n t c) w = Done r w' -> said n w' = said n w ++ [c].
Proof.
  intros Ht Hr. destruct (exchange_log _ _ _ _ _ Ht Hr) as (a & Hl & _).
  unfold said. by rewrite Hl, fmap_app.
Qed.

Lemma speaks_exchange t c :
  speaks (exchange n t c) (command_sent (fun r => r.1 <> None) c).
Proof.
  intros w r w' Hr. destruct (Z.lt_ge_cases (w_clock w) t) as [Ht|Ht].
  - exists [c]. split; [by eapply timely_exchange|by left].
  - rewrite late_exchange in Hr by done. simplify_eq. exists []. rewrite app_nil_r.
    split; [done|by right].
Qed.

Lemma speaks_command t c : speaks (command n t c) (command_sent (fun r => r <> None) c).
Proof.
  eapply speaks_bind; [apply speaks_exchange|]. intros [err exts] l Hl. apply speaks_ret.
  rewrite app_nil_r. destruct Hl as [->|[-> Hne]]; [by left|by right].
Qed.

Definition no_auth (l : list smtp_command) : Prop := forall u s, Auth u s ∉ l.

Lemma no_auth_nil : no_auth [].
Proof. intros u s Hin. by apply not_elem_of_nil in Hin. Qed.
Lemma no_auth_cons c l : (forall u s, c <> Auth u s) -> no_auth l -> no_auth (c :: l).
Proof. intros Hc Hl u s [Heq|Hin]%elem_of_cons; [by apply (Hc u s)|by eapply Hl]. Qed.
Lemma no_auth_app l l' : no_auth l -> no_auth l' -> no_auth (l ++ l').
Proof. intros Hl Hl' u s. rewrite elem_of_app. intros [?|?]; [by eapply Hl|by eapply Hl']. Qed.
Lemma command_no_auth {A} (F : A -> Prop) c r l :
  command_sent F c r l -> (forall u s, c <> Auth u s) -> no_auth l.
Proof. intros [->|[-> _]] Hc; [by apply no_auth_cons, no_auth_nil|apply no_auth_nil]. Qed.

Lemma speaks_hello t :
  speaks (hello n t) (fun r l => (r.1 = None -> l = [Ehlo] \/ l = [Ehlo; Helo]) /\ no_auth l).
Proof.
  intros w r w' Hr. unfold hello in Hr. rewrite run_bind in Hr.
  destruct (Z.lt_ge_cases (w_clock w) t) as [Ht|Ht].
  - destruct (run env (exchange n t Ehlo) w) as [[err exts] w1| | |] eqn:He; try done.
    pose proof (timely_exchange _ _ _ _ _ Ht He) as Hs1.
    destruct err as [e|].
    + rewrite run_bind in Hr.
      destruct (run env (command n t Helo) w1) as [err2 w2| | |] eqn:Hh; try done.
      destruct (speaks_command _ _ _ _ _ Hh) as (l & Hs2 & Hl). injection Hr as <- <-.
      exists (Ehlo :: l). rewrite Hs2, Hs1, <- app_assoc. split; [done|]. split.
      * intros Hnone. simpl in Hnone. destruct Hl as [->|[_ Hne]]; [by right|done].
      * apply no_auth_cons; [done|]. (eapply command_no_auth; [eassumption|done]).
    + injection Hr as <- <-. exists [Ehlo]. split; [done|]. split; [by left|].
      by apply no_auth_cons, no_auth_nil.
  - rewrite late_exchange in Hr by done. rewrite run_bind in Hr. unfold command in Hr.
    rewrite run_bind, late_exchange in Hr by done. injection Hr as <- <-.
    exists []. rewrite app_nil_r. split; [done|]. split; [done|apply no_auth_nil].
Qed.

(** A step that has to succeed for the rest to be reached. *)
Lemma speaks_or_fail step msg rest (R1 R2 R : option error -> list smtp_command -> Prop) :
  speaks step R1 -> speaks rest R2 ->
  (forall e l, R1 (Some e) l -> R (Some (Wrap msg e)) l) ->
  (forall r l1 l2, R1 None l1 -> R2 r l2 -> R r (l1 ++ l2)) ->
  speaks (or_fail step msg rest) R.
Proof.
  intros Hs Hr HF HR. eapply speaks_bind; [exact Hs|]. intros [e|] l1 H1.
  - apply speaks_ret. rewrite app_nil_r. by apply HF.
  - eapply speaks_weaken; [exact Hr|]. intros r l2 H2. by apply HR.
Qed.

(** ** The whole conversation *)

Variable p : EmailProcessor.
Variables to msg : string.

Definition envelope_from : string :=
  if (smtpUser p =? "")%string then "rjq@localhost" else smtpUser p.

(** What a successful conversation consists of, [helo] if [EHLO] was refused,
    [tls] if the server offered [STARTTLS]. *)
Definition dialogue (helo tls auth : bool) : list smtp_command :=
  [Ehlo] ++ (if helo then [Helo] else []) ++
  (if tls then [StartTLS (smtpHost p); Ehlo] else []) ++
  (if auth then [Auth (smtpUser p) (smtpPass p)] else []) ++
  [Mail envelope_from; Rcpt to; Data; Message msg; Quit].

(** The credentials are sent over TLS or to this machine. *)
Definition auth_protected (l : list smtp_command) : Prop :=
  forall l1 u s l2, l = l1 ++ Auth u s :: l2 ->
    StartTLS (smtpHost p) ∈ l1 \/ isLocalhost (smtpHost p) = true.

Lemma no_auth_protected l : no_auth l -> auth_protected l.
Proof. intros Hl l1 u s l2 ->. exfalso. apply (Hl u s). set_solver. Qed.

Lemma speaks_start_tls t :
  speaks (start_tls n t (smtpHost p)) (fun r l =>
    (r = None -> l = [StartTLS (smtpHost p); Ehlo]) /\ no_auth l).
Proof.
  eapply speaks_bind; [apply speaks_command|]. intros [e|] l1 H1.
  - apply speaks_ret. split; [done|]. rewrite app_nil_r. (eapply command_no_auth; [eassumption|done]).
  - eapply speaks_weaken; [apply speaks_command|]. intros r l2 H2. split.
    + intros ->. destruct H1 as [->|[_ ?]], H2 as [->|[_ ?]]; done.
    + apply no_auth_app; (eapply command_no_auth; [eassumption|done]).
Qed.

(** The credentials are sent once, and only when [tls] is on or the server is
    this machine. *)
Lemma speaks_plain_auth t hello_err tls :
  speaks (plain_auth n t hello_err tls (smtpHost p) (smtpUser p) (smtpPass p)) (fun r l =>
    (r = None -> hello_err = None /\ l = [Auth (smtpUser p) (smtpPass p)]) /\
    (no_auth l \/ (tls = true \/ isLocalhost (smtpHost p) = true) /\
      exists l', l = Auth (smtpUser p) (smtpPass p) :: l' /\ no_auth l')).
Proof.
  unfold plain_auth. destruct hello_err as [e|].
  { apply speaks_ret. split; [done|]. left. apply no_auth_nil. }
  destruct (tls || isLocalhost (smtpHost p)) eqn:Hok.
  - apply orb_true_iff in Hok. eapply speaks_bind; [apply speaks_command|]. intros r l1 H1.
    assert (l1 = [] \/ l1 = [Auth (smtpUser p) (smtpPass p)]) as Hl1
      by (destruct H1 as [->|[-> _]]; auto).
    assert (forall l2, no_auth l2 -> no_auth (l1 ++ l2) \/ (tls = true \/ isLocalhost (smtpHost p) = true) /\
      exists l', l1 ++ l2 = Auth (smtpUser p) (smtpPass p) :: l' /\ no_auth l') as Hauth.
    { intros l2 Hl2. destruct Hl1 as [->| ->]; [by left|right]. split; [done|]. by exists l2. }
    assert (forall e, speaks (Ret (Some e) : M (option error)) (fun r l2 =>
      (r = None -> None = (None : option error) /\ l1 ++ l2 = [Auth (smtpUser p) (smtpPass p)]) /\
      (no_auth (l1 ++ l2) \/ (tls = true \/ isLocalhost (smtpHost p) = true) /\
       exists l', l1 ++ l2 = Auth (smtpUser p) (smtpPass p) :: l' /\ no_auth l'))) as Hret.
    { intros e. apply speaks_ret. split; [done|]. apply Hauth, no_auth_nil. }
    destruct r as [[]|]; try apply Hret.
    + eapply speaks_bind; [apply speaks_command|]. intros r2 l2 H2.
      eapply speaks_bind; [apply speaks_command|]. intros r3 l3 H3. apply speaks_ret.
      split; [done|]. apply Hauth. rewrite app_nil_r.
      apply no_auth_app; (eapply command_no_auth; [eassumption|done]).
    + apply speaks_ret. split; [|apply Hauth, no_auth_nil]. rewrite app_nil_r. intros _.
      destruct H1 as [->|[_ ?]]; done.
  - eapply speaks_bind; [apply speaks_command|]. intros r l1 H1. apply speaks_ret.
    split; [done|]. left. rewrite app_nil_r. (eapply command_no_auth; [eassumption|done]).
Qed.

Lemma speaks_mail t hello_err :
  speaks (mail n t hello_err envelope_from) (fun r l =>
    (r = None -> hello_err = None /\ l = [Mail envelope_from]) /\ no_auth l).
Proof.
  unfold mail. case_match; [apply speaks_ret; split; [done|apply no_auth_nil]|].
  destruct hello_err; [apply speaks_ret; split; [done|apply no_auth_nil]|].
  eapply speaks_weaken; [apply speaks_command|]. intros r l Hl.
  split; [|eapply command_no_auth; [eassumption|done]].
  intros ->. by destruct Hl as [->|[_ ?]].
Qed.

(** A step that is one command. *)
Lemma speaks_then step msg0 rest c (R : option error -> list smtp_command -> Prop) :
  speaks step (command_sent (fun r => r <> None) c) -> (forall u s, c <> Auth u s) ->
  speaks rest (fun r l => (r = None -> R r (c :: l)) /\ no_auth l) ->
  speaks (or_fail step msg0 rest) (fun r l => (r = None -> R r l) /\ no_auth l).
Proof.
  intros Hs Hc Hr. eapply speaks_or_fail; [exact Hs|exact Hr|..]; cbv beta.
  - intros e l Hl. split; [done|]. by eapply command_no_auth.
  - intros r l1 l2 [->|[_ ?]] [H1 H2]; [|done]. split; [done|]. by apply no_auth_cons.
Qed.

Lemma speaks_rcpt t : speaks (rcpt n t to) (command_sent (fun r => r <> None) (Rcpt to)).
Proof. unfold rcpt. case_match; [apply speaks_ret; by right|apply speaks_command]. Qed.

(** From [MAIL] on. *)
Lemma speaks_transfer t hello_err :
  speaks (or_fail (mail n t hello_err envelope_from) "mail from failed"
    (or_fail (rcpt n t to) "rcpt to failed"
    (or_fail (command n t Data) "data failed"
    (or_fail (command n t (Message msg)) "close failed"
    (or_fail (command n t Quit) "quit failed" (Ret None))))))
    (fun r l => (r = None -> hello_err = None /\
      l = [Mail envelope_from; Rcpt to; Data; Message msg; Quit]) /\ no_auth l).
Proof.
  eapply (speaks_or_fail _ _ _ _ (fun r l =>
    (r = None -> l = [Rcpt to; Data; Message msg; Quit]) /\ no_auth l)); [apply speaks_mail|..]; cbv beta.
  - eapply (speaks_then _ _ _ _ (fun r l => l = _)); [apply speaks_rcpt|done|].
    eapply (speaks_then _ _ _ _ (fun r l => _ :: l = _)); [apply speaks_command|done|].
    eapply (speaks_then _ _ _ _ (fun r l => _ :: _ :: l = _)); [apply speaks_command|done|].
    eapply (speaks_then _ _ _ _ (fun r l => _ :: _ :: _ :: l = _)); [apply speaks_command|done|].
    apply speaks_ret. split; [done|apply no_auth_nil].
  - intros e l [_ ?]. by split.
  - intros r l1 l2 [H1 ?] [H2 ?]. split; [|by apply no_auth_app].
    intros Hr. destruct (H1 eq_refl) as [? ->]. by rewrite (H2 Hr).
Qed.

Lemma auth_protected_app l1 l : no_auth l1 ->
  (no_auth l \/ (StartTLS (smtpHost p) ∈ l1 \/ isLocalhost (smtpHost p) = true) /\
    exists l', l = Auth (smtpUser p) (smtpPass p) :: l' /\ no_auth l') ->
  auth_protected (l1 ++ l).
Proof.
  intros H1 [Hl|[Hok (l' & -> & Hl')]]; [by apply no_auth_protected, no_auth_app|].
  intros k1 u s k2 Heq. destruct Hok as [Hok|Hok]; [left|by right].
  apply app_eq_inv in Heq as [(k & -> & Hk)|(k & -> & Hk)]; [|set_solver].
  destruct k as [|c k]; simplify_eq/=; [by rewrite app_nil_r in Hok|].
  exfalso. apply (H1 u s). set_solver.
Qed.

Lemma auth_protected_cons c l : (forall u s, c <> Auth u s) ->
  auth_protected l -> auth_protected (c :: l).
Proof.
  intros Hc Hl [|c' k1] u s k2 Hk; injection Hk as -> Hk; [by destruct (Hc u s)|].
  destruct (Hl k1 u s k2 Hk); [left; set_solver|by right].
Qed.

Lemma auth_protected_snoc c l : (forall u s, c <> Auth u s) ->
  auth_protected l -> auth_protected (l ++ [c]).
Proof.
  intros Hc Hl k1 u s k2 Hk. destruct k2 as [|x k2 _] using rev_ind.
  - apply app_inj_tail in Hk as [_ ->]. by destruct (Hc u s).
  - rewrite app_comm_cons, app_assoc in Hk. apply app_inj_tail in Hk as [-> _]. by apply (Hl k1 u s k2).
Qed.

Lemma speaks_converse t auth :
  speaks (converse p n t auth to msg) (fun r l =>
    (r = None -> exists helo tls, l = dialogue helo tls auth) /\ auth_protected l).
Proof.
  unfold converse. eapply speaks_bind; [apply speaks_hello|].
  intros [hello_err exts] l0 [Hhello Hno0]. cbv beta zeta. simpl in Hhello.
  set (tls := bool_decide ("STARTTLS" ∈ exts)).
  eapply (speaks_or_fail _ _ _ (fun r l => (r = None ->
      l = if tls then [StartTLS (smtpHost p); Ehlo] else []) /\ no_auth l)
    (fun r l => (r = None -> hello_err = None /\ l = (if auth then [Auth (smtpUser p) (smtpPass p)] else []) ++
        [Mail envelope_from; Rcpt to; Data; Message msg; Quit]) /\
      (no_auth l \/ (tls = true \/ isLocalhost (smtpHost p) = true) /\
        exists l', l = Auth (smtpUser p) (smtpPass p) :: l' /\ no_auth l'))); cbv beta.
  - destruct tls; [apply speaks_start_tls|]. apply speaks_ret. split; [done|apply no_auth_nil].
  - eapply (speaks_or_fail _ _ _ (fun r l => (r = None ->
        l = if auth then [Auth (smtpUser p) (smtpPass p)] else []) /\
      (no_auth l \/ (tls = true \/ isLocalhost (smtpHost p) = true) /\
        exists l', l = Auth (smtpUser p) (smtpPass p) :: l' /\ no_auth l'))); cbv beta.
    + destruct auth; [|apply speaks_ret; split; [done|left; apply no_auth_nil]].
      eapply speaks_weaken; [apply speaks_plain_auth|]. intros r l [H1 H2].
      split; [intros Hr; by apply H1|done].
    + apply speaks_transfer.
    + intros e l [_ H2]. by split.
    + intros r l1 l2 [H1 H2] [H3 H4]. split.
      * intros Hr. destruct (H3 Hr) as [? ->]. by rewrite (H1 eq_refl).
      * destruct H2 as [H2|[Hok (l' & -> & Hl')]]; [left; by apply no_auth_app|right].
        split; [done|]. exists (l' ++ l2). split; [done|by apply no_auth_app].
  - intros e l [_ H2]. split; [done|]. apply no_auth_protected. by apply no_auth_app.
  - intros r l1 l2 [H1 H2] [H3 H4]. rewrite app_assoc. split.
    + intros Hr. destruct (H3 Hr) as [He ->]. rewrite (H1 eq_refl).
      destruct (Hhello He) as [->| ->]; [exists false, tls|exists true, tls]; unfold dialogue;
        by rewrite <- app_assoc.
    + apply auth_protected_app; [by apply no_auth_app|]. destruct H4 as [H4|[Hok H4]]; [by left|right].
      split; [|done]. destruct Hok as [->|Hok]; [left|by right]. rewrite (H1 eq_refl). set_solver.
Qed.

(** The connection. *)
Lemma select_action_inv {X} (alts : list (alt X)) w x w' :
  select_action alts w = Some (x, w') ->
  exists a w1, a ∈ alts /\ a w1 = Some (x, w') /\ (w1 = w \/ exists cs, w1 = with_coins cs w).
Proof.
  unfold select_action. pose proof (Delivery.flip_coins (length (omap (fun a => a w) alts)) w) as Hf.
  destruct (flip _ w) as [i w1]. simpl in Hf.
  intros (a & Ha & Haw)%list_elem_of_lookup_2%list_elem_of_omap. by exists a, w1.
Qed.

Lemma quiet_select {X} (Q : X -> Prop) (alts : list (alt X)) timer :
  Forall (fun a : alt X => forall w x w', a w = Some (x, w') -> w_net w' = w_net w /\ Q x) alts ->
  quiet Q (select_ alts timer).
Proof.
  intros Ha.
  assert (forall w x w', select_action alts w = Some (x, w') -> log n w' = log n w /\ Q x) as Hsel.
  { intros w x w' (a & w1 & Hin & Haw & Hw1)%select_action_inv.
    rewrite Forall_forall in Ha. destruct (Ha a Hin _ _ _ Haw) as [Hn HQ]. split; [|done].
    unfold log. rewrite Hn. by destruct Hw1 as [->|[cs ->]]. }
  intros w x w'. cbn [select_ run]. destruct (select_action alts w) as [[y w1]|] eqn:Hs.
  - intros [= <- <-]. by apply Hsel.
  - destruct (select_action alts (env (wake timer w))) as [[y w1]|] eqn:Hs'; [|done].
    intros [= <- <-]. destruct (Hsel _ _ _ Hs') as [-> HQ]. by rewrite log_wake.
Qed.

(** The connection succeeds only when it was accepted. *)
Lemma quiet_dial ctx a t limit timer :
  quiet (fun r => r = None -> accepts a)
    (select_ (match a with
              | Accepts delay _ => [after (t + delay) None]
              | Refuses delay m => [after (t + delay) (Some (External m))]
              | Silence => []
              end ++ [after limit (Some io_timeout); case_ctx_done ctx (Some Canceled)]) timer).
Proof.
  assert (forall t1 x w y w', (after t1 x : alt (option error)) w = Some (y, w') ->
    w_net w' = w_net w /\ y = x) as Hafter.
  { intros t1 x w y w'. unfold after. case_match; [|done]. by intros [= <- <-]. }
  assert (forall x w y w', (case_ctx_done ctx x : alt (option error)) w = Some (y, w') ->
    w_net w' = w_net w /\ y = x) as Hdone.
  { intros x w y w'. unfold case_ctx_done. repeat case_match; try done. by intros [= <- <-]. }
  apply quiet_select. destruct a; cbn [app]; repeat (apply Forall_cons; split); try apply Forall_nil;
    try done; intros w y w' Hw; first [apply Hafter in Hw|apply Hdone in Hw]; by destruct Hw as [-> ->].
Qed.

Lemma speaks_dial ctx addr :
  speaks (dial n ctx addr) (fun r l => (r = None -> l = [Dial addr]) /\ no_auth l).
Proof.
  unfold dial. apply speaks_silent; [by apply silent_act_|].
  intros [e|]; [apply speaks_ret; split; [done|apply no_auth_nil]|].
  apply speaks_silent; [by apply silent_act_|]. intros t.
  apply speaks_silent; [by apply silent_act_|]. intros timer. cbv zeta.
  eapply speaks_bind; [apply speaks_send|]. intros a l ->.
  eapply speaks_quiet; [apply quiet_dial|]. intros r _. split; [done|].
  by apply no_auth_cons, no_auth_nil.
Qed.

Lemma speaks_sendWithTimeout ctx addr auth :
  speaks (sendWithTimeout p n ctx addr auth to msg) (fun r l =>
    (r = None -> exists helo tls, l = [Dial addr; Greeting] ++ dialogue helo tls auth ++ [Hangup]) /\
    auth_protected l).
Proof.
  assert (speaks (hang_up n) (fun _ l => l = [Hangup])) as Hhang.
  { intros w r w'. unfold hang_up. rewrite run_modify. intros [= <- <-]. exists [Hangup].
    split; [apply said_sent|done]. }
  unfold sendWithTimeout.
  eapply (speaks_or_fail _ _ _ _ (fun r l =>
    (r = None -> exists helo tls, l = [Greeting] ++ dialogue helo tls auth ++ [Hangup]) /\
    auth_protected l)); [apply speaks_dial|..]; cbv beta.
  - apply speaks_silent; [by apply silent_act_|]. intros t.
    apply speaks_silent; [by apply silent_act_|]. intros timer. cbv zeta.
    eapply speaks_bind; [apply speaks_command|]. intros [e|] l1 H1.
    + eapply speaks_bind; [exact Hhang|]. intros _ l2 ->. apply speaks_ret. split; [done|].
      rewrite app_nil_r. apply no_auth_protected, no_auth_app;
        [eapply command_no_auth; [eassumption|done]|]. by apply no_auth_cons, no_auth_nil.
    + intros w r w' Hr. rewrite run_defer in Hr.
      destruct (run env (converse _ _ _ _ _ _) w) as [r1 w1| | |] eqn:Hc; try done.
      destruct (speaks_converse _ _ _ _ _ Hc) as (l2 & Hs2 & Hd & Hp).
      unfold hang_up in Hr. rewrite run_modify in Hr. injection Hr as <- <-.
      exists (l2 ++ [Hangup]). rewrite app_assoc, <- Hs2.
      split; [apply said_sent|].
      destruct H1 as [->|[_ ?]]; [|done]. split.
      * intros ->. destruct (Hd eq_refl) as (helo & tls & ->). by exists helo, tls.
      * by apply auth_protected_cons, auth_protected_snoc.
  - intros e l [_ H2]. split; [done|]. by apply no_auth_protected.
  - intros r l1 l2 [H1 H2] [H3 H4]. split.
    + intros Hr. destruct (H3 Hr) as (helo & tls & ->). rewrite (H1 eq_refl). by exists helo, tls.
    + rewrite (H1 eq_refl). by apply auth_protected_cons.
Qed.

(** ** The answers of the server *)

(** Every command but [EHLO], which may fall back on [HELO], is accepted. *)
Definition accepted (m : smtp_command * answer) : Prop :=
  match m.1 with Ehlo | Hangup => True | _ => accepts m.2 end.

(** When [q] ends with a result that is [ok], what it sent was accepted. *)
Definition confirms {A} (ok : A -> Prop) (q : M A) : Prop :=
  forall w a w', run env q w = Done a w' ->
    exists l, log n w' = log n w ++ l /\ (ok a -> Forall accepted l).
Notation succeeds := (confirms (fun r : option error => r = None)).

Lemma confirms_quiet {A} ok (Q : A -> Prop) (q : M A) : quiet Q q -> confirms ok q.
Proof.
  intros Hq w a w' Hr. destruct (Hq _ _ _ Hr) as [-> _]. exists []. by rewrite app_nil_r.
Qed.

Lemma confirms_ret {A} ok (a : A) : confirms ok (Ret a).
Proof. by apply (confirms_quiet _ (fun _ => True)), quiet_ret. Qed.

(** The second program only succeeds after the first. *)
Lemma confirms_bind {A B} (ok : A -> Prop) (ok' : B -> Prop) (q : M A) f :
  confirms ok q ->
  (forall a, ok a \/ (forall w b w', run env (f a) w = Done b w' -> ~ ok' b)) ->
  (forall a, confirms ok' (f a)) -> confirms ok' (q ≫= f).
Proof.
  intros Hq Hok Hf w b w'. rewrite run_bind. destruct (run env q w) as [a w1| | |] eqn:Hr; try done.
  intros Hb. destruct (Hq _ _ _ Hr) as (l1 & Hl1 & H1), (Hf a _ _ _ Hb) as (l2 & Hl2 & H2).
  exists (l1 ++ l2). rewrite app_assoc, <- Hl1. split; [done|]. intros Hb'.
  apply Forall_app. split; [|by apply H2]. apply H1. by destruct (Hok a) as [|Hn]; [|destruct (Hn _ _ _ Hb)].
Qed.

Lemma confirms_silent {A B} (ok : B -> Prop) (q : M A) f :
  silent q -> (forall a, confirms ok (f a)) -> confirms ok (q ≫= f).
Proof.
  intros Hq Hf. eapply (confirms_bind (fun _ => True)); [by eapply confirms_quiet|by left|done].
Qed.

Lemma confirms_exchange t c : confirms (fun r => r.1 = None) (exchange n t c).
Proof.
  intros w r w' Hr. destruct (Z.lt_ge_cases (w_clock w) t) as [Ht|Ht].
  - destruct (exchange_log _ _ _ _ _ Ht Hr) as (a & Hl & Ha). exists [(c, a)]. split; [done|].
    intros Hn. apply Forall_singleton. unfold accepted. simpl. specialize (Ha Hn). by destruct c.
  - rewrite late_exchange in Hr by done. simplify_eq. exists []. by rewrite app_nil_r.
Qed.

Lemma succeeds_command t c : succeeds (command n t c).
Proof.
  eapply confirms_bind; [apply confirms_exchange|..]; intros [err exts]; [|apply confirms_ret].
  destruct err; [right|by left]. by intros w b w' [= <- _].
Qed.

Lemma succeeds_or_fail step m rest :
  succeeds step -> succeeds rest -> succeeds (or_fail step m rest).
Proof.
  intros Hs Hr. eapply confirms_bind; [exact Hs|..]; intros [e|]; [right|by left|apply confirms_ret|done].
  by intros w b w' [= <- _].
Qed.

Lemma succeeds_start_tls t host : succeeds (start_tls n t host).
Proof.
  eapply confirms_bind; [apply succeeds_command|..];
    intros [e|]; [right|by left|apply confirms_ret|apply succeeds_command]. by intros w b w' [= <- _].
Qed.

Lemma succeeds_plain_auth t err tls host u s : succeeds (plain_auth n t err tls host u s).
Proof.
  unfold plain_auth. destruct err; [apply confirms_ret|].
  destruct (tls || isLocalhost host).
  - eapply confirms_bind; [apply succeeds_command|..].
    + intros [[]|]; [right..|by left]; try by intros w b w' [= <- _].
      intros w b w'. rewrite run_bind. destruct (run env _ w) as [r1 w1| | |]; try done.
      rewrite run_bind. destruct (run env _ w1) as [r2 w2| | |]; try done. by intros [= <- _].
    + intros [[]|]; try apply confirms_ret.
      intros w b w'. rewrite run_bind. destruct (run env _ w) as [r1 w1| | |] eqn:H1; try done.
      rewrite run_bind. destruct (run env _ w1) as [r2 w2| | |] eqn:H2; try done. intros [= <- <-].
      destruct (succeeds_command _ _ _ _ _ H1) as (l1 & Hl1 & _), (succeeds_command _ _ _ _ _ H2) as (l2 & Hl2 & _).
      exists (l1 ++ l2). by rewrite app_assoc, <- Hl1.
  - intros w b w'. rewrite run_bind. destruct (run env _ w) as [r1 w1| | |] eqn:H1; try done.
    intros [= <- <-]. destruct (succeeds_command _ _ _ _ _ H1) as (l1 & Hl1 & _). by exists l1.
Qed.

(** The greeting: an [EHLO] that is refused is not counted. *)
Lemma confirms_hello t : confirms (fun r => r.1 = None) (hello n t).
Proof.
  eapply (confirms_bind (fun _ => True)); [|by left|].
  - intros w r w' Hr. destruct (Z.lt_ge_cases (w_clock w) t) as [Ht|Ht].
    + destruct (exchange_log _ _ _ _ _ Ht Hr) as (a & Hl & _). exists [(Ehlo, a)].
      split; [done|]. intros _. by apply Forall_singleton.
    + rewrite late_exchange in Hr by done. simplify_eq. exists []. by rewrite app_nil_r.
  - intros [[e|] exts]; [|apply confirms_ret].
    eapply confirms_bind; [apply succeeds_command|..]; intros [e'|]; try apply confirms_ret;
      [right|by left]. by intros w b w' [= <- _].
Qed.

Lemma succeeds_mail t err from : succeeds (mail n t err from).
Proof. unfold mail. repeat case_match; try apply confirms_ret. apply succeeds_command. Qed.
Lemma succeeds_rcpt t : succeeds (rcpt n t to).
Proof. unfold rcpt. case_match; [apply confirms_ret|apply succeeds_command]. Qed.

Lemma fails_or_fail step m rest :
  (forall w r w', run env rest w = Done r w' -> r <> None) ->
  forall w r w', run env (or_fail step m rest) w = Done r w' -> r <> None.
Proof.
  intros Hr w r w'. unfold or_fail. rewrite run_bind.
  destruct (run env step w) as [[e|] w1| | |]; try done; [|apply Hr]. by intros [= <- _].
Qed.

Lemma succeeds_converse t auth : succeeds (converse p n t auth to msg).
Proof.
  unfold converse. eapply confirms_bind; [apply confirms_hello|..]; intros [hello_err exts]; cbv zeta.
  - destruct hello_err as [e|]; [right|by left].
    do 2 (apply fails_or_fail). unfold or_fail at 1. intros w r w'. rewrite run_bind.
    unfold mail. destruct (has_line_break _); cbn [run]; by intros [= <- _].
  - repeat apply succeeds_or_fail; try apply succeeds_command; try apply confirms_ret;
      [case_match; [apply succeeds_start_tls|apply confirms_ret]
      |case_match; [apply succeeds_plain_auth|apply confirms_ret]
      |apply succeeds_mail|apply succeeds_rcpt].
Qed.

Lemma succeeds_dial ctx addr : succeeds (dial n ctx addr).
Proof.
  unfold dial. apply confirms_silent; [by apply silent_act_|]. intros [e|]; [apply confirms_ret|].
  apply confirms_silent; [by apply silent_act_|]. intros t.
  apply confirms_silent; [by apply silent_act_|]. intros timer. cbv zeta.
  intros w r w'. rewrite run_bind.
  destruct (run env (send_command n (Dial addr)) w) as [a w1| | |] eqn:Hs; try done.
  apply run_send_log in Hs. intros [Hl Ha]%quiet_dial. exists [(Dial addr, a)].
  rewrite Hl. split; [done|]. intros Hn. apply Forall_singleton. by apply Ha.
Qed.

Lemma succeeds_sendWithTimeout ctx addr auth : succeeds (sendWithTimeout p n ctx addr auth to msg).
Proof.
  unfold sendWithTimeout. apply succeeds_or_fail; [apply succeeds_dial|].
  apply confirms_silent; [by apply silent_act_|]. intros t.
  apply confirms_silent; [by apply silent_act_|]. intros timer. cbv zeta.
  eapply confirms_bind; [apply succeeds_command|..]; intros [e|].
  - right. intros w r w'. rewrite run_bind. unfold hang_up. rewrite run_modify. by intros [= <- _].
  - by left.
  - intros w r w'. rewrite run_bind. unfold hang_up. rewrite run_modify. intros [= <- <-].
    rewrite log_sent. by eexists.
  - intros w r w' Hr. rewrite run_defer in Hr.
    destruct (run env (converse _ _ _ _ _ _) w) as [r1 w1| | |] eqn:Hc; try done.
    destruct (succeeds_converse _ _ _ _ _ Hc) as (l & Hl & Ha).
    unfold hang_up in Hr. rewrite run_modify in Hr. injection Hr as <- <-.
    exists (l ++ [(Hangup, Silence)]). rewrite log_sent, Hl, app_assoc. split; [done|].
    intros Hn. apply Forall_app. split; [by apply Ha|]. by apply Forall_singleton.
Qed.


(** C18: the password does not travel in clear.  Whatever the server answers, the
    credentials are only sent after [STARTTLS] in the same conversation, or to
    this machine. *)
Theorem credentials_protected ctx addr auth w r w' :
  run env (sendWithTimeout p n ctx addr auth to msg) w = Done r w' ->
  exists l, said n w' = said n w ++ l /\ auth_protected l.
Proof.
  intros Hr. destruct (speaks_sendWithTimeout _ _ _ _ _ _ Hr) as (l & Hs & _ & Hp). by exists l.
Qed.

End conversation.

(** ** A server that answers at once *)

Section prompt.
Variable n : nat.
Variable deadline : Z.

(** [c] has been sent, the answers [l] are still to come. *)
Definition spoke (c : smtp_command) (l : list answer) (w : World) : World :=
  net_map (fun t => sent n c (hd Silence (net_answers t)) (mkNet l (net_wire t) (net_results t))) w.

Lemma run_send c a l w : net_answers (w_net w) = a :: l ->
  run alone (send_command n c) w = Done a (spoke c l w).
Proof. intros Ha. unfold send_command, spoke, net_map, sent. rewrite run_act_. simpl. by rewrite Ha. Qed.

(** An answer that comes at once. *)
Definition prompt (a : answer) : Prop :=
  match a with Accepts delay _ | Refuses delay _ => delay = 0 | Silence => False end.
Definition refusal (a : answer) : option error :=
  match a with Refuses _ m => Some (External m) | _ => None end.
Definition offers (a : answer) : list string :=
  match a with Accepts _ exts => exts | _ => [] end.

Lemma run_prompt_exchange c a l w :
  w_clock w < deadline -> net_answers (w_net w) = a :: l -> prompt a ->
  run alone (exchange n deadline c) w = Done (refusal a, offers a) (spoke c l w).
Proof.
  intros Ht Ha Hd. unfold exchange. rewrite run_bind, run_now. simpl clock.
  rewrite (proj2 (Z.leb_gt _ _)) by done. rewrite run_bind, (run_send _ _ _ _ Ha).
  destruct a as [delay exts|delay m|]; [| |done]; simpl in Hd; subst delay; unfold await, wait_until;
    rewrite run_bind, run_now; simpl clock; rewrite Z.add_0_r, (proj2 (Z.leb_le _ _)) by lia;
    cbn; rewrite Z.ltb_irrefl; done.
Qed.

Lemma run_prompt_command c a l w :
  w_clock w < deadline -> net_answers (w_net w) = a :: l -> prompt a ->
  run alone (command n deadline c) w = Done (refusal a) (spoke c l w).
Proof. intros Ht Ha Hd. unfold command. by rewrite run_bind, (run_prompt_exchange _ _ _ _ Ht Ha Hd). Qed.

Lemma run_prompt_dial ctx c addr exts l w :
  w_ctxs w !! ctx = Some c -> ctx_err c = None -> w_clock w < ctx_deadline c ->
  net_answers (w_net w) = Accepts 0 exts :: l ->
  run alone (dial n ctx addr) w = Done None (spoke (Dial addr) l w).
Proof.
  intros Hc Herr Ht Ha. unfold dial. rewrite run_bind. unfold Context.Err. rewrite run_gets, Hc.
  unfold Context.err_at at 1. rewrite Herr, (proj2 (Z.leb_gt _ _)) by done.
  rewrite run_bind, run_now. cbv beta iota. rewrite run_bind, run_gets. cbv beta iota.
  unfold ctx_timer. rewrite Hc, run_bind, (run_send _ _ _ _ Ha).
  cbn [app fmap option_fmap option_map from_option run select_].
  rewrite (Delivery.select_one _ _ (None, spoke (Dial addr) l w)); [done|].
  simpl. unfold after, case_ctx_done, Datatypes.id. simpl.
  rewrite Z.add_0_r, Z.leb_refl, Hc. unfold Context.err_at. rewrite Herr.
  rewrite !(proj2 (Z.leb_gt _ _)) by (done || unfold Second; lia). done.
Qed.
End prompt.

(** The next command, to a server that answers at once. *)
Ltac prompt_command Ht :=
  unfold or_fail at 1; rewrite run_bind;
  erewrite run_prompt_command; [|exact Ht|reflexivity|done]; cbn [refusal].

(** C22: the answer to [QUIT] decides.  Against a server without extensions that
    accepts every command at once, a message without authentication is
    delivered; but when the server refuses the [QUIT] that follows the accepted
    message, the sending is reported as failed, and the job will be retried. *)
Theorem quit_decides p n ctx c addr to msg quit w :
  w_ctxs w !! ctx = Some c -> ctx_err c = None -> w_clock w < ctx_deadline c ->
  has_line_break (smtpUser p) = false -> has_line_break to = false ->
  net_answers (w_net w) = replicate 7 (Accepts 0 []) ++ [quit] -> prompt quit ->
  exists w', run alone (sendWithTimeout p n ctx addr false to msg) w =
      Done (match quit with Refuses _ m => Some (Wrap "quit failed" (External m)) | _ => None end) w' /\
    said n w' = said n w ++ [Dial addr; Greeting] ++ dialogue p to msg false false false ++ [Hangup].
Proof.
  intros Hc Herr Ht Hu Hto Ha Hq. simpl in Ha. unfold sendWithTimeout, or_fail at 1.
  rewrite run_bind, (run_prompt_dial n ctx c addr _ _ w Hc Herr Ht Ha).
  rewrite run_bind, run_now, run_bind, run_gets.
  match goal with |- context [ctx_timer ctx ?w0] =>
    assert (ctx_timer ctx w0 = Some (ctx_deadline c)) as -> by (unfold ctx_timer; simpl; by rewrite Hc)
  end.
  cbn [from_option]. unfold Datatypes.id.
  rewrite run_bind. erewrite run_prompt_command; [|exact Ht|reflexivity|done].
  cbn [refusal]. rewrite run_defer. unfold converse, hello.
  rewrite run_bind, run_bind. erewrite run_prompt_exchange; [|exact Ht|reflexivity|done].
  cbn [refusal offers run]. rewrite bool_decide_false by set_solver.
  unfold or_fail at 1. rewrite run_bind. cbn [run]. unfold or_fail at 1. rewrite run_bind. cbn [run].
  unfold mail, rcpt. rewrite Hto.
  assert (has_line_break (if (smtpUser p =? "")%string then "rjq@localhost" else smtpUser p) = false)
    as -> by (by case_match).
  do 4 prompt_command Ht.
  unfold or_fail. rewrite run_bind. erewrite run_prompt_command; [|exact Ht|reflexivity|done].
  destruct quit as [delay exts|delay m|]; [| |done]; cbn [refusal run]; unfold hang_up;
    rewrite run_modify; (eexists; split; [done|]); unfold said, log; simpl;
    rewrite !omap_app; simpl; rewrite !decide_True by done; rewrite !fmap_app; by rewrite <- !app_assoc.
Qed.

(** ** A job that is preempted while its email is on the way *)

Definition smtp_addr : string := "localhost:1025".

(** Another goroutine cancels the context at the first wait; the server takes
    its time after the connection. *)
Definition preempting (w : World) : World :=
  with_ctxs ((fun c => mkContext (ctx_deadline c) (Some Canceled)) <$> w_ctxs w) w.
Definition slow_server : World :=
  with_net (mkNet (Accepts 0 [] :: replicate 7 (Accepts 1000 [])) [] []) mailing.

(** The context ends the wait of [Process] but not the conversation, which only
    knows its deadline: the worker gives the job back while its sender still
    delivers the message. *)
Lemma cancelled_sender_delivers :
  (exists w', run preempting (Process mailer 0 email_job) slow_server = Done (Some Canceled) w') /\
  exists w', run preempting (sendWithTimeout mailer 0 0 smtp_addr false "ann@example.com" "text")
      slow_server = Done None w' /\
    said 0 w' = [Dial smtp_addr; Greeting] ++
      dialogue mailer "ann@example.com" "text" false false false ++ [Hangup].
Proof. split; [eexists; by vm_compute|]. eexists. split; vm_compute; reflexivity. Qed.

(** ** Witnesses *)

(** A server that accepts everything at once. *)
Definition to_ann : World :=
  with_net (mkNet (replicate 7 (Accepts 0 []) ++ [Accepts 0 []]) [] []) mailing.
Definition sending : M (option error) :=
  sendWithTimeout mailer 0 0 smtp_addr false "ann@example.com" "text".


(** With authentication, against a server that offers [STARTTLS]. *)
Definition over_tls : World :=
  with_net (mkNet (replicate 2 (Accepts 0 []) ++ [Accepts 0 ["STARTTLS"]] ++
    replicate 8 (Accepts 0 [])) [] []) mailing.
Definition authenticating : M (option error) :=
  sendWithTimeout mailer 0 0 smtp_addr true "ann@example.com" "text".

Lemma credentials_protected_witness :
  said 0 (final_state (run alone authenticating over_tls)) !! 5%nat = Some (Auth "user" "secret") /\
  exists l, said 0 (final_state (run alone authenticating over_tls)) = said 0 over_tls ++ l /\
    auth_protected mailer l.
Proof.
  split; [by vm_compute|].
  apply (credentials_protected 0 alone ltac:(done) mailer "ann@example.com" "text" 0 smtp_addr true
    _ None).
  vm_compute. reflexivity.
Defined.

Lemma quit_decides_witness :
  exists w', run alone sending (with_net (mkNet (replicate 7 (Accepts 0 []) ++ [Refuses 0 "421"]) [] [])
      mailing) = Done (Some (Wrap "quit failed" (External "421"))) w' /\
    said 0 w' = [Dial smtp_addr; Greeting] ++
      dialogue mailer "ann@example.com" "text" false false false ++ [Hangup].
Proof.
  apply (quit_decides mailer 0 0 mail_context smtp_addr "ann@example.com" "text" (Refuses 0 "421"));
    done.
Defined.

End EmailConversation.
