(* ===== verification/Handlers.v ===== *)
(** * What the HTTP handlers answer

    The responses of [POST /jobs] and [POST /jobs/{id}/retry] and what they
    have done to the table and the queues, over any backend that meets
    [StorageSpec] and the router as the queue; and the start of the program. *)

From S2P Require Import Prelude Go Models World Metrics Sql Storage Invariant.
From S2P Require Import MemoryQueue SortedQueue RateLimitedQueue Router Queue Worker QueueDepth Api.
From S2P Require Import Config Database Main Delivery Outcomes Recovery PoolBehaviour Sqlite ReferencePlatform Examples.

Module Handlers.
Import Outcomes.

Section handlers.
Context `{StorageSpec} `{Processor}.
Context `{HttpLibs} `{Collector}.
Variables fuel rounds turns : nat.
#[local] Instance the_queue : Queue := router_queue fuel rounds.
Implicit Types (w : World) (j : Job) (i : string).

(** The job [CreateJob] makes of a request. *)
Definition job_for (req : CreateRequest) (uuid : string) w : Job :=
  Handler.new_job (Handler.normalize req) uuid (w_clock w).

(** The request has a type, fits the columns, and is not super-urgent; the queue
    it names is the FIFO queue or one the router does not know. *)
Definition plain_request (req : CreateRequest) : Prop :=
  req_JobType req <> "" /\ st_payload_ok (req_Payload (Handler.normalize req)) /\
  req_Priority (Handler.normalize req) <> PrioritySuperUrgent /\
  req_Queue (Handler.normalize req) <> QueueTypePriority /\
  req_Queue (Handler.normalize req) <> QueueTypeRateLimited.

Lemma normalize_priority req : 1 <= req_Priority (Handler.normalize req) <= 3.
Proof.
  unfold Handler.normalize, PriorityNormal. simpl.
  destruct ((req_Priority req <? 1) || (3 <? req_Priority req)) eqn:Hp; lia.
Qed.

Lemma run_new_uuid env u us w : w_uuids w = u :: us ->
  run env Handler.new_uuid w = Done u (with_uuids us w).
Proof. intros Hu. unfold Handler.new_uuid. cbn [run]. by rewrite Hu. Qed.


(** what [POST /jobs] refuses.  A body that cannot be decoded and a request
    without a type are 400; a job the storage does not take is 500.  In each case
    the table and the queues are as before. *)
Theorem create_job_refused req u us w j0 :
  storage_ready w -> w_uuids w = u :: us -> jobs_of w !! u = Some j0 ->
  run alone (Handler.CreateJob None) w =
    Done (mkResponse StatusBadRequest (ErrorBody "invalid JSON body")) w /\
  run alone (Handler.CreateJob (Some req)) w =
    if (req_JobType req =? "")%string
    then Done (mkResponse StatusBadRequest (ErrorBody "job_type is required")) w
    else Done (mkResponse StatusInternalServerError (ErrorBody "failed to create job"))
           (with_uuids us w).
Proof.
  intros [Hok Hf] Hu Hj. split; [done|]. cbn [Handler.CreateJob].
  destruct (req_JobType req =? "")%string; [done|].
  rewrite run_bind, run_now. cbv beta iota.
  rewrite run_bind, (run_new_uuid _ _ _ _ Hu). cbv beta iota.
  destruct (SaveJob_duplicate alone (with_uuids us w)
    (Handler.new_job (Handler.normalize req) u (clock w)) j0) as [e He]; [done..|].
  rewrite run_bind, He. done.
Qed.

(** a super-urgent job is handed to a worker that gives way, and only when
    there is none is it queued like the others. *)
Theorem urgent_job_dispatch w j :
  sys_inv w -> Forall is_Some (p_workers (w_pool w)) -> Priority j = PrioritySuperUrgent ->
  (exists k cur c, PoolBehaviour.candidate w k cur c /\
     run alone (Handler.dispatch j) w =
       Done None
         (with_pool (Pool.with_preemptQueue
            (<[k := Some j]> (p_preemptQueue (w_pool w))) (w_pool w))
            (Context.cancel_in c
               (with_met (preempted_add (QueueType cur) 1 (w_met w)) w)))) \/
  ((forall k cur c, ~ PoolBehaviour.candidate w k cur c) /\
   run alone (Handler.dispatch j) w = run alone (Router.Enqueue j) w).
Proof.
  intros Hw Hstarted Hp. unfold Handler.dispatch.
  rewrite (proj2 (Z.eqb_eq _ _)) by done. rewrite run_bind.
  destruct (PoolBehaviour.run_Preempt alone w j Hw Hstarted)
    as [(k & cur & c & Hc & _ & Hr)|[Hno Hr]]; rewrite Hr.
  - left. by exists k, cur, c.
  - by right.
Qed.

(** C35: [POST /jobs/{id}/retry] answers 404 for an id without a job and 400 for
    a job that has not failed, without an effect; a failed job is pending again
    with three more attempts, queued, and the answer is 200. *)
Theorem retry_job_responses i w :
  storage_ready w -> room_for 1 FIFORef w -> st_int 3 = true ->
  (forall j, jobs_of w !! i = Some j -> st_int (MaxRetries j + 3) = true) ->
  match jobs_of w !! i with
  | None =>
      run alone (Handler.RetryJob i) w =
        Done (mkResponse StatusNotFound (ErrorBody "job not found")) w
  | Some j =>
      if bool_decide (Status j = StatusFailed) then
        exists t' j', j' = reset_for_retry (st_reset (RetryCount j)) 3 (st_time (w_clock w)) j /\
          st_view t' = <[i := j']> (jobs_of w) /\
          run alone (Handler.RetryJob i) w =
            Done (mkResponse StatusOK (RetriedBody "pending" i)) (pushed FIFORef j' (with_db t' w))
      else
        run alone (Handler.RetryJob i) w =
          Done (mkResponse StatusBadRequest (ErrorBody "only failed jobs can be retried")) w
  end.
Proof.
  intros [Hok Hf] Hroom Hint3 Hmax. unfold Handler.RetryJob.
  rewrite run_bind, GetJob_spec by done. unfold jobs_of in *.
  destruct (st_view (w_db w) !! i) as [j|] eqn:Hj; [|done]. cbv beta iota.
  rewrite <- bool_decide_eqb. case_bool_decide as Hs; [|done]. simpl negb. cbv iota.
  destruct (run_Retry_room FIFORef i j 3 w) as (t' & [_ Hv] & Hr); [by split|done..|by apply Hmax|].
  eexists t', _. split; [done|]. split; [exact Hv|].
  rewrite run_bind. simpl q_Retry. unfold Router.Retry. by rewrite Hr.
Qed.

(** ** The start of the program *)

(** The state in which [boot] recovers the queues. *)
Definition booting (cfg : Config) (w : World) : World :=
  let n := Z.to_nat (Workers (cfg_Queue cfg)) in
  let q := mkMemoryQueue (make_chan (n * 10)) 0 false false in
  let r := EmailsPerMinute (cfg_RateLimit cfg) in
  let b := Burst (cfg_RateLimit cfg) in
  with_pool (mkPool (Workers (cfg_Queue cfg)) (seconds (JobSeconds (cfg_Timeout cfg)))
       (seconds (CooldownSec (cfg_Queue cfg))) (Z.of_nat n) false
       (replicate n (Some (mkWorkerState None None))) (replicate n None)
       (replicate n (Some (make_chan 1))) (make_chan n) 0)
    (with_rl (mkRateLimitedQueue q r b b false 0)
      (with_prio (mkSortedQueue [] (make_chan 1) false false)
        (with_fifo q
          (with_met
            (foldl (fun m q => preempted_add q 0 (retried_add q 0 (failed_add q 0 m))) (w_met w)
              [QueueTypeFIFO; QueueTypePriority; QueueTypeRateLimited]) w)))).

(** What runs by then. *)
Definition background (cfg : Config) : list (M unit) :=
  [RateLimitedQueue.refill turns
     (RateLimitedQueue.refill_interval (EmailsPerMinute (cfg_RateLimit cfg)));
   every turns (5 * Minute) (MemoryQueue.sweep FIFORef);
   every turns (5 * Minute) SortedQueue.sweep;
   every turns (5 * Minute) RateLimitedQueue.sweep] ++
  (Pool.worker turns <$> seq 0 (Z.to_nat (Workers (cfg_Queue cfg)))) ++
  [Pool.supervise turns turns].

(** The pool once the workers from [i] on, [n] of them, have been started. *)
Definition started (i n : nat) (p : Pool) : Pool :=
  mkPool (p_count p) (p_timeout p) (p_cooldown p) (p_wg p + Z.of_nat n) (p_done p)
    (take i (p_workers p) ++ replicate n (Some (mkWorkerState None None)))
    (p_preemptQueue p)
    (take i (p_preemptSignal p) ++ replicate n (Some (make_chan 1)))
    (p_workerDied p) (p_aliveWorkers p).

Lemma take_insert_next {A} (i n : nat) (x : A) l : (i < length l)%nat ->
  take (S i) (<[i := x]> l) ++ replicate n x = take i l ++ replicate (S n) x.
Proof.
  intros Hi. rewrite (take_S_r _ _ x) by (by apply list_lookup_insert_eq).
  by rewrite take_insert_ge, <- app_assoc by done.
Qed.

Definition slot_started (i : nat) (p : Pool) : Pool :=
  mkPool (p_count p) (p_timeout p) (p_cooldown p) (p_wg p + 1) (p_done p)
    (<[i := Some (mkWorkerState None None)]> (p_workers p)) (p_preemptQueue p)
    (<[i := Some (make_chan 1)]> (p_preemptSignal p)) (p_workerDied p) (p_aliveWorkers p).

Lemma start_slot_executes (i : nat) w :
  (i < length (p_workers (w_pool w)))%nat -> (i < length (p_preemptSignal (w_pool w)))%nat ->
  executes alone (Pool.start_slot i) w (Done tt (with_pool (slot_started i (w_pool w)) w)) [].
Proof.
  intros Hw Hs. unfold Pool.start_slot.
  eapply (executes_bind _ _ _ _ _ _ _ [] []); [apply executes_act_|]. cbv beta zeta.
  rewrite !(proj2 (Nat.ltb_lt _ _)) by done. done.
Qed.

Lemma start_workers_executes (n i : nat) w :
  length (p_workers (w_pool w)) = (i + n)%nat ->
  length (p_preemptSignal (w_pool w)) = (i + n)%nat ->
  executes alone (Pool.start_workers turns i n) w
    (Done tt (with_pool (started i n (w_pool w)) w)) (Pool.worker turns <$> seq i n).
Proof.
  revert i w. induction n as [|n IH]; intros i w Hw Hs.
  - assert (with_pool (started i 0 (w_pool w)) w = w) as ->; [|done].
    unfold started. simpl replicate.
    rewrite !take_ge, !app_nil_r, Z.add_0_r by (rewrite ?Hw, ?Hs; lia).
    by destruct w as [? ? ? ? ? ? ? ? ? ? ? ? [] ? ?].
  - cbn [Pool.start_workers seq fmap list_fmap].
    eapply (executes_bind _ _ _ _ _ _ _ [] _); [apply start_slot_executes; lia|].
    eapply (executes_bind _ _ _ _ _ _ _ [_] _); [apply executes_go|].
    pose proof (IH (S i) (with_pool (slot_started i (w_pool w)) w)) as Hrun.
    simpl in Hrun. rewrite !length_insert in Hrun. specialize (Hrun ltac:(lia) ltac:(lia)).
    assert (started (S i) n (slot_started i (w_pool w)) = started i (S n) (w_pool w)) as Heq.
    { unfold started. simpl. rewrite !take_insert_next by lia. simpl. f_equal. lia. }
    rewrite Heq in Hrun. exact Hrun.
Qed.

(** Goes past an action of a program that is being executed. *)
Ltac executes_action :=
  eapply (executes_bind _ _ _ _ _ _ _ [] _); [apply executes_act_|]; cbv beta zeta; cbn [fst snd].

Lemma launch_executes cfg w :
  0 < Workers (cfg_Queue cfg) -> Workers (cfg_Queue cfg) * 10 <= int64_max ->
  EmailsPerMinute (cfg_RateLimit cfg) <> 0 ->
  executes alone (launch fuel rounds turns cfg) w
    (Done tt (booting cfg w)) (background cfg).
Proof.
  intros Hn Hmax Hr. unfold launch, register_counters.
  assert (wrap64 (Workers (cfg_Queue cfg) * 10) = Workers (cfg_Queue cfg) * 10) as ->.
  { apply wrap64_id. unfold int64_min. lia. }
  assert (Z.to_nat (Workers (cfg_Queue cfg) * 10) = Z.to_nat (Workers (cfg_Queue cfg)) * 10)%nat
    as Hcap by lia.
  executes_action.
  unfold MemoryQueue.NewMemoryQueue. rewrite (proj2 (Z.ltb_ge _ _)) by lia. executes_action.
  executes_action.
  unfold background. cbn [app].
  eapply (executes_bind _ _ _ _ _ _ _ [_] _).
  { unfold RateLimitedQueue.NewRateLimitedQueue. rewrite (proj2 (Z.ltb_ge _ _)) by lia.
    executes_action. unfold RateLimitedQueue.startRefill.
    executes_action. cbn [w_rl with_rl rq_rate].
    rewrite (proj2 (Z.eqb_neq _ _)) by done. apply executes_go. }
  eapply (executes_bind _ _ _ _ _ _ _ [_] _); [apply executes_go|].
  eapply (executes_bind _ _ _ _ _ _ _ [_] _); [apply executes_go|].
  eapply (executes_bind _ _ _ _ _ _ _ [_] _); [apply executes_go|].
  unfold Pool.NewPool. rewrite (proj2 (Z.ltb_ge _ _)) by lia. executes_action.
  unfold Pool.Start. executes_action.
  eapply (executes_bind _ _ _ _ _ _ _ _ [_]).
  - apply start_workers_executes; simpl; by rewrite length_replicate.
  - unfold booting. rewrite <- Hcap. apply executes_go.
Qed.

Lemma boot_spawns cfg w w' :
  0 < Workers (cfg_Queue cfg) -> Workers (cfg_Queue cfg) * 10 <= int64_max ->
  EmailsPerMinute (cfg_RateLimit cfg) <> 0 ->
  run alone (boot fuel rounds turns cfg) w = Done tt w' ->
  spawned alone (boot fuel rounds turns cfg) w =
    background cfg ++ spawned alone Router.Recover (booting cfg w) ++ [Handler.server turns].
Proof.
  intros Hn Hmax Hr Hrun. destruct (launch_executes cfg w) as [Hrun1 Hsp]; [done..|].
  unfold boot in *. rewrite run_bind, Hrun1 in Hrun. rewrite spawned_bind, Hrun1, Hsp.
  f_equal. unfold recover_and_serve in *.
  rewrite run_bind, run_now, run_bind in Hrun. rewrite spawned_bind, run_now, spawned_bind.
  destruct (run alone Router.Recover (booting cfg w)) as [[e|] w1| | |]; done.
Qed.


End handlers.

(** The configuration is not checked far enough.  A file without a rate limit
    passes [LoadConfig], and once the database is open [main] divides by
    zero. *)
Theorem missing_rate_crashes `{Viper} `{Platform} `{SqlDriver} `{HttpLibs} fuel rounds turns cfg w w1 :
  LoadConfig "config.yaml" = inl cfg -> Workers (cfg_Queue cfg) * 10 <= int64_max ->
  EmailsPerMinute (cfg_RateLimit cfg) = 0 ->
  run alone (open_storage (cfg_Database cfg)) w = Done None w1 ->
  Port (cfg_Server cfg) <> 0 /\ 0 < Workers (cfg_Queue cfg) /\
  exists w', run alone (main fuel rounds turns) w = Crash "integer divide by zero" w'.
Proof.
  intros Hload Hmax Hr Hopen.
  assert (Port (cfg_Server cfg) <> 0 /\ 0 < Workers (cfg_Queue cfg)) as [Hp Hn].
  { unfold LoadConfig in Hload. repeat case_match; simplify_eq; lia. }
  split; [done|]. split; [done|]. unfold main. rewrite Hload, run_bind, Hopen.
  unfold serve, boot, launch, register_counters. rewrite !run_bind, run_metric.
  unfold MemoryQueue.NewMemoryQueue. rewrite wrap64_id by (unfold int64_min; lia).
  rewrite (proj2 (Z.ltb_ge _ _)) by lia. rewrite run_bind, run_modify.
  rewrite run_bind. unfold SortedQueue.NewSortedQueue. rewrite run_modify.
  rewrite run_bind. unfold RateLimitedQueue.NewRateLimitedQueue.
  rewrite (proj2 (Z.ltb_ge _ _)) by lia. rewrite run_bind, run_modify.
  unfold RateLimitedQueue.startRefill. rewrite run_bind, run_gets. cbn [w_rl with_rl rq_rate].
  rewrite Hr. by eexists.
Qed.

(** ** On a concrete process *)

Section concrete.
Import Examples.

Definition request_c : CreateRequest := request "" 0.

Lemma ready_uuids us w : storage_ready w -> storage_ready (with_uuids us w).
Proof. done. Qed.
Lemma room_uuids n q us w : room_for n q w -> room_for n q (with_uuids us w).
Proof. by destruct q. Qed.


Lemma create_job_refused_witness :
  run alone (Handler.CreateJob (Some request_c)) (with_uuids ["a"] restarted) =
    Done (mkResponse 500 (ErrorBody "failed to create job")) (with_uuids [] restarted).
Proof.
  apply (create_job_refused fuel rounds request_c "a" [] (with_uuids ["a"] restarted)
    (stored_job "a" "fifo" 1 StatusPending 1)).
  - apply ready_uuids, restarted_ready.
  - reflexivity.
  - vm_compute. reflexivity.
Defined.

Lemma urgent_job_dispatch_witness : exists k cur c,
  PoolBehaviour.candidate PoolBehaviour.busy k cur c /\
  run alone (Handler.dispatch PoolBehaviour.urgent) PoolBehaviour.busy =
    Done None
      (with_pool (Pool.with_preemptQueue
         (<[k := Some PoolBehaviour.urgent]> (p_preemptQueue (w_pool PoolBehaviour.busy)))
         (w_pool PoolBehaviour.busy))
         (Context.cancel_in c
            (with_met (preempted_add (QueueType cur) 1 (w_met PoolBehaviour.busy))
               PoolBehaviour.busy))).
Proof.
  assert (Forall is_Some (p_workers (w_pool PoolBehaviour.busy))) as Hstarted.
  { apply PoolBehaviour.all_started. vm_compute. reflexivity. }
  destruct (urgent_job_dispatch fuel rounds PoolBehaviour.busy PoolBehaviour.urgent
    PoolBehaviour.busy_inv Hstarted eq_refl) as [(k & cur & c & Hc & Hr)|[Hno _]].
  - exists k, cur, c. exact (conj Hc Hr).
  - exfalso. apply (Hno 0%nat (job "a" "fifo" 1 1000000) 0%nat).
    split; [lia|]. split; [vm_compute; reflexivity|]. split; vm_compute; reflexivity.
Defined.

Lemma retry_job_responses_witness :
  run alone (Handler.RetryJob "a") restarted =
    Done (mkResponse 400 (ErrorBody "only failed jobs can be retried")) restarted.
Proof.
  assert (jobs_of restarted !! "a" = Some (stored_job "a" "fifo" 1 StatusPending 1)) as Hj
    by (vm_compute; reflexivity).
  pose proof (retry_job_responses fuel rounds "a" restarted restarted_ready
    (restarted_room 1 FIFORef ltac:(lia)) eq_refl) as Hr.
  rewrite Hj in Hr. apply Hr. intros j [= <-]. reflexivity.
Defined.


(** A file that says nothing about the rate. *)
Definition no_rate : Config :=
  mkConfig (mkServerConfig 8080) (mkQueueConfig 2 0 0) email_config
    (mkRetryConfig 3 5) (mkTimeoutConfig 30) (mkRateLimitConfig 0 0)
    (mkDatabaseConfig "sqlite" "rjq.db" "").
Definition no_rate_viper : Viper :=
  {| read_in_config _ := None; viper_unmarshal _ := inl no_rate |}.

Lemma missing_rate_crashes_witness : exists w',
  run alone (@main no_rate_viper ref_platform _ _ fuel rounds turns) (fresh 0 ∅ []) =
    Crash "integer divide by zero" w'.
Proof.
  destruct (@missing_rate_crashes no_rate_viper ref_platform _ _ fuel rounds turns no_rate (fresh 0 ∅ [])
    (fresh 0 ∅ [])) as (_ & _ & w' & Hr);
    [reflexivity|vm_compute; discriminate|reflexivity|vm_compute; reflexivity|].
  exists w'. exact Hr.
Defined.

End concrete.

End Handlers.
