(* ===== verification/Backends.v ===== *)
(** * What the program relies on of its database

    [main] opens one of the two backends by the name in the configuration;
    the theorems of this file hold of both. *)

From S2P Require Import Prelude Go Models ReferencePlatform World Metrics Sql Storage Backend.
From S2P Require Import Sqlite Postgres QueueDepth Database Main Examples.

Module Backends.

(** ** The operations as data, and the abstract jobs map *)

Inductive op : Type :=
| OpSave (j : Job)
| OpGet (i : string)
| OpStatus (i s err : string)
| OpRetry (i s : string) (n : Z) (err : string)
| OpRequeue (i : string)
| OpReset (i : string) (extra : Z).

Inductive op_result : Type :=
| Succeeded
| Failed
| Found (j : option Job).

Definition answer (err : option error) : op_result :=
  match err with None => Succeeded | Some _ => Failed end.

Section abstract.
Context `{StorageSpec}.

Definition exec (o : op) : M op_result :=
  match o with
  | OpSave j => err ← SaveJob j; Ret (answer err)
  | OpGet i => '(j, err) ← GetJob i; Ret (match err with None => Found j | Some _ => Failed end)
  | OpStatus i s e => err ← UpdateJobStatus i s e; Ret (answer err)
  | OpRetry i s n e => err ← UpdateJobRetry i s n e; Ret (answer err)
  | OpRequeue i => err ← Requeue i; Ret (answer err)
  | OpReset i extra => err ← ResetForRetry i extra; Ret (answer err)
  end.

Fixpoint exec_all (os : list op) : M (list op_result) :=
  match os with
  | [] => Ret []
  | o :: os => r ← exec o; rs ← exec_all os; Ret (r :: rs)
  end.

(** What an operation does to the jobs at the instant [t], and its result. *)
Definition abs_exec (t : Z) (o : op) (m : gmap string Job) : gmap string Job * op_result :=
  match o with
  | OpSave j =>
      match m !! ID j with
      | Some _ => (m, Failed)
      | None => (<[ID j := as_saved st_time (st_payload (Payload j)) j]> m, Succeeded)
      end
  | OpGet i => (m, Found (m !! i))
  | OpStatus i s e =>
      match m !! i with
      | Some j => (<[i := with_status s e (st_time t) j]> m, Succeeded)
      | None => (m, Failed)
      end
  | OpRetry i s n e =>
      match m !! i with
      | Some j => (<[i := with_retry s n e (st_time t) j]> m, Succeeded)
      | None => (m, Failed)
      end
  | OpRequeue i => (alter (requeued (st_time t)) i m, Succeeded)
  | OpReset i extra =>
      match m !! i with
      | Some j =>
          if bool_decide (Status j = StatusFailed) then
            (<[i := reset_for_retry (st_reset (RetryCount j)) extra (st_time t) j]> m, Succeeded)
          else (m, Failed)
      | None => (m, Failed)
      end
  end.

Fixpoint abs_exec_all (t : Z) (os : list op) (m : gmap string Job) :
    gmap string Job * list op_result :=
  match os with
  | [] => (m, [])
  | o :: os =>
      let '(m, r) := abs_exec t o m in
      let '(m, rs) := abs_exec_all t os m in (m, r :: rs)
  end.

(** The values fit the columns. *)
Definition op_ok (o : op) (m : gmap string Job) : Prop :=
  match o with
  | OpSave j =>
      valid_status (Status j) = true /\ st_payload_ok (Payload j) /\
      st_int (Priority j) = true /\ st_int (RetryCount j) = true /\ st_int (MaxRetries j) = true
  | OpStatus i s e => valid_status s = true
  | OpRetry i s n e => valid_status s = true /\ st_int n = true
  | OpReset i extra =>
      st_int extra = true /\
      (forall j, m !! i = Some j -> st_int (MaxRetries j + extra) = true)
  | OpGet _ | OpRequeue _ => True
  end.

Fixpoint ops_ok (t : Z) (os : list op) (m : gmap string Job) : Prop :=
  match os with
  | [] => True
  | o :: os => op_ok o m /\ ops_ok t os (abs_exec t o m).1
  end.

(** The table, the clock and the driver stay what the operations need. *)
Definition refines_map (m : gmap string Job) (t : Z) (w : World) : Prop :=
  st_ok (w_db w) /\ st_view (w_db w) = m /\ w_faults w = [] /\ w_clock w = t.

Lemma exec_refines env w o m t : refines_map m t w -> op_ok o m ->
  exists w', run env (exec o) w = Done (abs_exec t o m).2 w' /\
    refines_map (abs_exec t o m).1 t w'.
Proof.
  intros (Hok & Hv & Hf & <-) Ho. unfold refines_map. subst m.
  destruct o as [j|i|i s e|i s n e|i|i extra]; cbn [exec abs_exec op_ok] in *.
  - destruct Ho as (?&?&?&?&?). destruct (st_view (w_db w) !! ID j) as [j0|] eqn:Hj.
    + destruct (SaveJob_duplicate env w j j0) as [e He]; [done..|]. exists w.
      by rewrite run_bind, He.
    + destruct (SaveJob_spec env w j) as (t' & Hr & Hok' & Hv'); [done..|]. eexists.
      by rewrite run_bind, Hr.
  - exists w. by rewrite run_bind, GetJob_spec.
  - destruct (st_view (w_db w) !! i) as [j|] eqn:Hj.
    + destruct (UpdateJobStatus_spec env w i s e j) as (t' & Hr & Hok' & Hv'); [done..|].
      eexists. by rewrite run_bind, Hr.
    + exists w. by rewrite run_bind, UpdateJobStatus_missing.
  - destruct Ho as [Hs Hn]. destruct (st_view (w_db w) !! i) as [j|] eqn:Hj.
    + destruct (UpdateJobRetry_spec env w i s n e j) as (t' & Hr & Hok' & Hv'); [done..|].
      eexists. by rewrite run_bind, Hr.
    + exists w. by rewrite run_bind, UpdateJobRetry_missing.
  - destruct (Requeue_spec env w i) as (t' & Hr & Hok' & Hv'); [done..|].
    eexists. by rewrite run_bind, Hr.
  - destruct Ho as [He Hm].
    assert ((forall j, st_view (w_db w) !! i = Some j -> Status j <> StatusFailed) ->
      run env (err ← ResetForRetry i extra; Ret (answer err)) w = Done Failed w) as Hno.
    { intros Hj. by rewrite run_bind, ResetForRetry_refused. }
    destruct (st_view (w_db w) !! i) as [j|] eqn:Hj; [case_bool_decide as Hs|].
    + destruct (ResetForRetry_spec env w i extra j) as (t' & Hr & Hok' & Hv'); [by auto..|].
      eexists. by rewrite run_bind, Hr.
    + exists w. rewrite Hno; [done|]. by intros ? [= <-].
    + exists w. by rewrite Hno.
Qed.

Lemma exec_all_refines env os : forall w m t, refines_map m t w -> ops_ok t os m ->
  exists w', run env (exec_all os) w = Done (abs_exec_all t os m).2 w' /\
    refines_map (abs_exec_all t os m).1 t w'.
Proof.
  induction os as [|o os IH]; intros w m t Hw Hos; [by exists w|].
  destruct Hos as [Ho Hos]. destruct (exec_refines env w o m t Hw Ho) as (w1 & Hr1 & Hw1).
  destruct (abs_exec t o m) as [m1 r] eqn:Habs. cbn [fst snd] in *.
  destruct (IH w1 m1 t Hw1 Hos) as (w2 & Hr2 & Hw2). exists w2.
  cbn [exec_all abs_exec_all]. rewrite Habs, run_bind, Hr1. cbv beta iota.
  rewrite run_bind, Hr2. by destruct (abs_exec_all t os m1).
Qed.

End abstract.

(** ** Lists of jobs and counts *)

Lemma count_fold (gs : list ((string * string) * Z)) m q s : NoDup gs.*1 ->
  foldl SQLiteStorage.add_count m gs !! q ≫= (.!! s) =
    match (list_to_map gs : gmap (string * string) Z) !! (q, s) with
    | Some n => Some n
    | None => m !! q ≫= (.!! s)
    end.
Proof.
  revert m. induction gs as [|[[q0 s0] n] gs IH]; intros m Hnd; [done|].
  apply NoDup_cons in Hnd as [Hnot Hnd]. simpl. rewrite IH by done.
  destruct (decide ((q0, s0) = (q, s))) as [[= -> ->]|Hne].
  - rewrite !lookup_insert_eq, not_elem_of_list_to_map_1 by done. simpl.
    by rewrite lookup_insert_eq.
  - rewrite (lookup_insert_ne _ (q0, s0)) by done. case_match; [done|].
    destruct (decide (q0 = q)) as [->|Hq]; [|by rewrite lookup_insert_ne].
    rewrite lookup_insert_eq. simpl. rewrite lookup_insert_ne by (intros ->; by apply Hne).
    by destruct (m !! q).
Qed.

(** ** Both backends *)

Section both.
Context `{PlatformLaws} (backend : string).
#[local] Instance opened : Storage := storage_of backend.
#[local] Instance opened_spec : StorageSpec := storage_of_spec backend.



(** what [ResetForRetry] does to the attempts.  The budget grows by the
    extra retries on both backends; SQLite also starts counting at zero again,
    Postgres does not. *)
Theorem reset_attempts env w i extra j :
  st_ok (w_db w) -> w_faults w = [] -> st_view (w_db w) !! i = Some j ->
  Status j = StatusFailed -> op_ok (OpReset i extra) (st_view (w_db w)) ->
  exists w' j', run env (ResetForRetry i extra) w = Done None w' /\
    run env (GetJob i) w' = Done (Some j', None) w' /\
    Status j' = StatusPending /\ ErrorMessage j' = "" /\
    MaxRetries j' = MaxRetries j + extra /\
    RetryCount j' = if (backend =? "postgres")%string then RetryCount j else 0.
Proof.
  intros Hok Hf Hj Hs [He Hm].
  destruct (ResetForRetry_spec env w i extra j) as (t' & Hr & Hok' & Hv); [by auto..|].
  exists (with_db t' w), (reset_for_retry (st_reset (RetryCount j)) extra (st_time (w_clock w)) j).
  split; [done|]. split.
  - rewrite GetJob_spec; [|done..]. simpl. rewrite Hv. by rewrite lookup_insert_eq.
  - split_and!; [done..|]. clear. simpl. unfold opened_spec, storage_of_spec, opened, storage_of.
    by destruct (backend =? "postgres")%string.
Qed.

(** C23: the listing that recovery and the sweepers read is complete and in
    order: it holds every unfinished job once, by decreasing priority and, for
    one priority, by creation time. *)
Theorem pending_listing_complete env w :
  st_ok (w_db w) -> w_faults w = [] ->
  exists l, run env ListPendingJobs w = Done (l, None) w /\
    (forall j, j ∈ l <-> st_view (w_db w) !! ID j = Some j /\ unfinished j = true) /\
    NoDup (ID <$> l) /\
    StronglySorted (fun x y => job_before x y = true) l.
Proof.
  intros Hok Hf. destruct (ListPendingJobs_spec env w) as (l & Hr & Hp & Hs); [done..|].
  exists l. split; [done|]. split; [|split; [|done]].
  - intros j. rewrite Hp, list_elem_of_filter, list_elem_of_fmap. split.
    + intros (Hu & [i j'] & -> & Hj%elem_of_map_to_list). split; [|done].
      simpl. by rewrite (st_view_id _ _ _ Hok Hj).
    + intros [Hj Hu]. split; [done|]. exists (ID j, j).
      split; [done|]. by apply elem_of_map_to_list.
  - rewrite Hp. apply (NoDup_view_filter _ (st_view (w_db w))).
    intros i j. apply (st_view_id _ _ _ Hok).
Qed.

(** C39: [CountByQueueAndStatus] counts: under a queue and a status it has the
    number of rows with both, and no entry for a pair without rows. *)
Theorem count_by_queue_and_status env w :
  w_faults w = [] ->
  exists m, run env CountByQueueAndStatus w = Done (m, None) w /\
    forall q s, m !! q ≫= (.!! s) =
      (let n := count_key (fun r => (queue_type r, status r)) (q, s) (rows (w_db w)) in
       if 0 <? n then Some n else None).
Proof.
  intros Hf. exists (foldl SQLiteStorage.add_count ∅
    (group_count (fun r => (queue_type r, status r)) (rows (w_db w)))). split.
  - unfold opened, storage_of. destruct (backend =? "postgres")%string.
    + by apply PostgresStorage.pg_run_CountByQueueAndStatus.
    + by apply SQLiteStorage.run_CountByQueueAndStatus.
  - intros q s. rewrite count_fold by apply group_count_keys. cbv zeta.
    apply option_eq. intros n. rewrite lookup_empty. simpl.
    destruct (list_to_map _ !! (q, s)) as [n'|] eqn:Hn.
    + apply elem_of_list_to_map_2, group_count_elem in Hn as [-> Hpos].
      apply Z.ltb_lt in Hpos. by rewrite Hpos.
    + case_match eqn:Hpos; [|done]. exfalso.
      apply (not_elem_of_list_to_map_2 (M := gmap (string * string)) _ _ Hn).
      apply list_elem_of_fmap. eexists (_, _). split; [done|].
      apply group_count_elem. split; [done|]. by apply Z.ltb_lt.
Qed.

Lemma undone_answer env p w w' : undone_on_error p ->
  run env (err ← p; Ret (answer err)) w = Done Failed w' -> w_db w' = w_db w.
Proof.
  intros Hp. rewrite run_bind. destruct (run env p w) as [[e|] w1| | |] eqn:Hr; try done.
  cbn. intros [= <-]. by eapply Hp.
Qed.

Lemma backend_undone : 
  (forall j, undone_on_error (SaveJob j)) /\
  (forall i s err, undone_on_error (UpdateJobStatus i s err)) /\
  (forall i s n err, undone_on_error (UpdateJobRetry i s n err)) /\
  (forall i, undone_on_error (Requeue i)) /\
  (forall i extra, undone_on_error (ResetForRetry i extra)) /\
  (forall env w i, exists r w1, run env (GetJob i) w = Done r w1 /\ w_db w1 = w_db w).
Proof.
  unfold opened, storage_of. destruct (backend =? "postgres")%string.
  - split_and!; intros.
    + apply PostgresStorage.pg_undone_SaveJob.
    + apply PostgresStorage.pg_undone_UpdateJobStatus.
    + apply PostgresStorage.pg_undone_UpdateJobRetry.
    + apply PostgresStorage.pg_undone_Requeue.
    + apply PostgresStorage.pg_undone_ResetForRetry.
    + apply PostgresStorage.pg_run_GetJob_cases.
  - split_and!; intros.
    + apply SQLiteStorage.undone_SaveJob.
    + apply SQLiteStorage.undone_UpdateJobStatus.
    + apply SQLiteStorage.undone_UpdateJobRetry.
    + apply SQLiteStorage.undone_Requeue.
    + apply SQLiteStorage.undone_ResetForRetry.
    + apply SQLiteStorage.run_GetJob_cases.
Qed.


End both.

(** C40: the queue depth gauge counts the pending rows: one value for each queue
    type that has some, and the number of them. *)
Theorem collect_counts_pending `{PlatformLaws} env w :
  w_faults w = [] ->
  exists gs, run env QueueDepthCollector.Collect w = Done gs w /\ NoDup gs.*1 /\
    forall q n, (q, n) ∈ gs <->
      0 < n /\
      n = Z.of_nat (length (filter (fun r => queue_type r = q /\ status r = StatusPending)
                              (rows (w_db w)))).
Proof.
  intros Hf. eexists. split; [|split].
  - unfold QueueDepthCollector.Collect. by rewrite run_bind, run_db_rows.
  - apply group_count_keys.
  - intros q n. rewrite group_count_elem. unfold count_key. rewrite list_filter_filter.
    rewrite (list_filter_iff _ (fun r => queue_type r = q /\ status r = StatusPending)); [tauto|].
    intros r. unfold status_is. by rewrite bool_decide_eq_true.
Qed.


(** ** On concrete tables *)

Definition empty_world : World := Examples.launched.
Definition an_email : Job :=
  mkJob "a" "email" (Some {["to" := JStr "ann@example.com"]}) "fifo" 1 StatusPending 0 3
    1500 1500 None "".

Definition some_ops : list op :=
  [OpSave an_email; OpGet "a"; OpSave an_email; OpStatus "a" StatusFailed "boom";
   OpReset "a" 3; OpReset "a" 3; OpStatus "b" StatusCompleted ""; OpGet "a"].

Lemma an_email_payload : json_unmarshal
  ("{" +:+ bits_of (encode ({["to" := "ann@example.com"]} : gmap string string)))
  = Some (Payload an_email).
Proof. by vm_compute. Qed.

Lemma empty_table_ok backend : @st_ok _ (storage_of_spec backend) ∅.
Proof.
  unfold storage_of_spec, storage_of.
  destruct (backend =? "postgres")%string; split; by intros i r Hr.
Qed.

Lemma empty_table_view backend : @st_view _ (storage_of_spec backend) ∅ = ∅.
Proof. unfold storage_of_spec, storage_of. by destruct (backend =? "postgres")%string. Qed.

Lemma an_email_op_ok m :
  @op_ok (storage_of "postgres") (storage_of_spec "postgres") (OpSave an_email) m.
Proof.
  split_and!; try done. split; [eexists; exact an_email_payload|]. by do 2 eexists.
Qed.

Lemma budget_after (m : gmap string Job) i n :
  MaxRetries <$> m !! i = Some n -> in_int32 (n + 3) = true ->
  forall j, m !! i = Some j -> in_int32 (MaxRetries j + 3) = true.
Proof. intros Hn Hin j Hj. rewrite Hj in Hn. by injection Hn as ->. Qed.



(** A table with a job that has used up its retries. *)
Definition failed_row : Row :=
  mkRow "a" "email" "{}" "fifo" 1 StatusFailed 3 3 1000 2000 (Some 2000) (Some "boom").
Definition failed_table : table := {["a" := failed_row]}.
Definition failed_world : World := Main.fresh 5000 failed_table [].
Definition failed_job : Job := job_of_row (Some ∅) failed_row.

Lemma failed_table_ok backend : @st_ok _ (storage_of_spec backend) failed_table.
Proof.
  unfold storage_of_spec, storage_of.
  destruct (backend =? "postgres")%string; split;
    (intros i r Hr; unfold failed_table in Hr; apply lookup_singleton_Some in Hr as [<- <-]); repeat split; by eexists.
Qed.

Lemma failed_table_view backend : @st_view _ (storage_of_spec backend) failed_table !! "a" =
  Some failed_job.
Proof. unfold storage_of_spec, storage_of. by destruct (backend =? "postgres")%string. Qed.

Lemma reset_attempts_witness : exists w' j',
  run alone (@ResetForRetry (storage_of "postgres") "a" 3) failed_world = Done None w' /\
  run alone (@GetJob (storage_of "postgres") "a") w' = Done (Some j', None) w' /\
  MaxRetries j' = 6 /\ RetryCount j' = 3.
Proof.
  destruct (reset_attempts "postgres" alone failed_world "a" 3 failed_job)
    as (w' & j' & H1 & H2 & _ & _ & H3 & H4).
  - apply failed_table_ok.
  - done.
  - apply failed_table_view.
  - done.
  - split; [done|]. intros j Hj. assert (Some j = Some failed_job) as [= ->].
    { rewrite <- Hj. apply failed_table_view. }
    done.
  - exists w', j'. exact (conj H1 (conj H2 (conj H3 H4))).
Defined.

Lemma pending_listing_complete_witness : exists l,
  run alone (@ListPendingJobs (storage_of "sqlite")) failed_world = Done (l, None) failed_world /\
  StronglySorted (fun x y => job_before x y = true) l.
Proof.
  destruct (pending_listing_complete "sqlite" alone failed_world) as (l & Hr & _ & _ & Hs);
    [apply failed_table_ok|done|].
  exists l. exact (conj Hr Hs).
Defined.

Lemma count_by_queue_and_status_witness : exists m,
  run alone (@CountByQueueAndStatus (storage_of "sqlite")) failed_world =
    Done (m, None) failed_world /\
  m !! "fifo" ≫= (.!! StatusFailed) = Some 1.
Proof.
  destruct (count_by_queue_and_status "sqlite" alone failed_world) as (m & Hr & Hm); [done|].
  exists m. split; [exact Hr|]. rewrite Hm. by vm_compute.
Defined.

(** The driver refuses the only statement of a requeue. *)
Definition refusing_world : World := with_faults [true] failed_world.


Lemma collect_counts_pending_witness : exists gs,
  run alone QueueDepthCollector.Collect Examples.with_three_jobs =
    Done gs Examples.with_three_jobs /\ ("priority", 1) ∈ gs.
Proof.
  destruct (collect_counts_pending alone Examples.with_three_jobs) as (gs & Hr & _ & Hgs);
    [by vm_compute|].
  exists gs. split; [exact Hr|]. apply Hgs. split; [reflexivity|]. vm_compute. reflexivity.
Defined.

End Backends.
