(* ===== verification/Ownership.v ===== *)
(** * Who may close, who must call [Done]

    The tokens of the program.  An [Enqueueing q] is owed a [wg.Done] of that
    queue, [Closing q] is the right to close its channel, [Refilling] the right
    to close [stopRefill], [PoolOpen] the right to stop the pool; [Working] and
    [Living] stand for a worker in the wait group and in the count of the
    living.  [Unmade] and [PoolUnmade] are [main]'s while it has not made a
    queue or the pool.  [token_view] is the part of the state they are about. *)

From stdpp Require Import gmultiset.
From S2P Require Import Prelude Go Tokens Models World Metrics Sql Storage Invariant.
From S2P Require Import MemoryQueue SortedQueue RateLimitedQueue Router Queue Worker.

Inductive token : Type :=
| Enqueueing (q : mqref)
| Closing (q : mqref)
| Unmade (q : mqref)
| Refilling
| PoolUnmade
| PoolOpen
| Working
| Living.

#[export] Instance token_eq_dec : EqDecision token.
Proof. solve_decision. Defined.

Definition token_code (t : token) : mqref * nat :=
  match t with
  | Enqueueing q => (q, 0) | Closing q => (q, 1) | Unmade q => (q, 2)
  | Refilling => (FIFORef, 3) | PoolUnmade => (FIFORef, 4) | PoolOpen => (FIFORef, 5)
  | Working => (FIFORef, 6) | Living => (FIFORef, 7)
  end%nat.
Definition token_of_code (c : mqref * nat) : token :=
  match c.2 with
  | 0 => Enqueueing c.1 | 1 => Closing c.1 | 2 => Unmade c.1
  | 3 => Refilling | 4 => PoolUnmade | 5 => PoolOpen | 6 => Working | _ => Living
  end%nat.

#[export] Instance mqref_countable : Countable mqref.
Proof.
  apply (inj_countable' (fun q => match q with FIFORef => true | RateLimitedRef => false end)
    (fun b : bool => if b then FIFORef else RateLimitedRef)). by intros [].
Defined.
#[export] Instance token_countable : Countable token.
Proof. apply (inj_countable' token_code token_of_code). by intros []. Defined.

(** ** The state the tokens are about *)

Record queue_view : Type := mkQueueView {
  v_cap : nat;
  v_wg : Z;
  v_closed : bool;
  v_chan_closed : bool;
}.
Record pool_view : Type := mkPoolView {
  v_workers : nat;
  v_signals : nat;
  v_count : Z;
  v_pool_wg : Z;
  v_alive : Z;
  v_done : bool;
}.
Definition view_queue (m : MemoryQueue) : queue_view :=
  mkQueueView (ch_cap (mq_jobs m)) (mq_wg m) (mq_closed m) (ch_closed (mq_jobs m)).
Definition view_pool (p : Pool) : pool_view :=
  mkPoolView (length (p_workers p)) (length (p_preemptSignal p)) (p_count p) (p_wg p) (p_aliveWorkers p)
    (p_done p).
Definition token_view (w : World) : queue_view * queue_view * bool * Z * pool_view :=
  (view_queue (w_fifo w), view_queue (rq_memory (w_rl w)), rq_stopRefill (w_rl w),
   rq_rate (w_rl w), view_pool (w_pool w)).

Implicit Types (t : gmultiset token) (w : World) (v : queue_view).
Notation count x t := (multiplicity x t).

(** ** The invariant *)

Record queue_owned (q : mqref) t v : Prop := QueueOwned {
  qo_wg : v_wg v = Z.of_nat (count (Enqueueing q) t);
  qo_open : v_closed v = false -> v_chan_closed v = false /\ count (Closing q) t = 0%nat;
  qo_closing : (count (Closing q) t + (if v_chan_closed v then 1 else 0) <= 1)%nat;
  qo_drained : v_chan_closed v = true -> v_wg v = 0;
  qo_unmade : (0 < count (Unmade q) t)%nat ->
    v_cap v = 0%nat /\ v_wg v = 0 /\ v_closed v = false /\ count (Unmade q) t = 1%nat;
}.

Record pool_owned t (v : pool_view) : Prop := PoolOwned {
  po_wg : v_pool_wg v = Z.of_nat (count Working t);
  po_alive : v_alive v = Z.of_nat (count Living t);
  po_open : (0 < count PoolOpen t)%nat -> v_done v = false /\ count PoolOpen t = 1%nat;
  po_unmade : (0 < count PoolUnmade t)%nat ->
    v_workers v = 0%nat /\ count Working t = 0%nat /\ count Living t = 0%nat /\
    count PoolOpen t = 0%nat /\ count PoolUnmade t = 1%nat;
}.

Record owned t w : Prop := Owned {
  ow_fifo : queue_owned FIFORef t (view_queue (w_fifo w));
  ow_limited : queue_owned RateLimitedRef t (view_queue (rq_memory (w_rl w)));
  ow_refill : (0 < count Refilling t)%nat ->
    rq_stopRefill (w_rl w) = false /\ count Refilling t = 1%nat;
  ow_refill_unmade : (0 < count (Unmade RateLimitedRef) t)%nat -> count Refilling t = 0%nat;
  ow_pool : pool_owned t (view_pool (w_pool w));
}.

(** What others do not undo. *)
Definition queue_le v v' : Prop :=
  v_cap v <> 0%nat ->
  v_cap v' = v_cap v /\
  (v_closed v = true -> v_closed v' = true /\ (v_wg v = 0 -> v_wg v' = 0)).

Definition pool_le (v v' : pool_view) : Prop :=
  v_workers v <> 0%nat ->
  v_workers v' = v_workers v /\ v_signals v' = v_signals v /\ v_count v' = v_count v.

Definition owned_le w w' : Prop :=
  queue_le (view_queue (w_fifo w)) (view_queue (w_fifo w')) /\
  queue_le (view_queue (rq_memory (w_rl w))) (view_queue (rq_memory (w_rl w'))) /\
  (ch_cap (mq_jobs (rq_memory (w_rl w))) <> 0%nat -> rq_rate (w_rl w') = rq_rate (w_rl w)) /\
  pool_le (view_pool (w_pool w)) (view_pool (w_pool w')).

#[export] Instance queue_le_preorder : PreOrder queue_le.
Proof.
  split; [by intros v|]. intros v1 v2 v3 H12 H23 Hc.
  destruct (H12 Hc) as [Hcap Hcl]. destruct (H23 ltac:(congruence)) as [Hcap' Hcl'].
  split; [congruence|]. intros H1. destruct (Hcl H1) as [H2 Hw]. destruct (Hcl' H2) as [H3 Hw'].
  split; auto.
Qed.

#[export] Instance pool_le_preorder : PreOrder pool_le.
Proof.
  split; [by intros v|]. intros v1 v2 v3 H12 H23 Hc.
  destruct (H12 Hc) as (?&?&?). destruct (H23 ltac:(congruence)) as (?&?&?). split_and!; congruence.
Qed.

#[export] Instance owned_le_preorder : PreOrder owned_le.
Proof.
  split; [by intros w; split_and!|].
  intros w1 w2 w3 (Hf1 & Hl1 & Hr1 & Hp1) (Hf2 & Hl2 & Hr2 & Hp2).
  split_and!; [by etrans|by etrans| |by etrans].
  intros Hc. destruct (Hl1 Hc) as [Hcap _]. rewrite Hr2; [by apply Hr1|]. simpl in *. congruence.
Qed.

Lemma owned_le_view w w' : token_view w' = token_view w -> owned_le w w'.
Proof.
  unfold token_view. rewrite !pair_equal_spec. intros [[[[Hf Hl] _] Hr] Hp]. unfold owned_le. rewrite Hf, Hl, Hp. by split_and!.
Qed.

Lemma owned_view t w w' : token_view w' = token_view w -> owned t w -> owned t w'.
Proof.
  unfold token_view. rewrite !pair_equal_spec. intros [[[[Hf Hl] Hs] _] Hp] []. split; by rewrite ?Hf, ?Hl, ?Hs, ?Hp.
Qed.

Definition ownership : token_protocol World token.
Proof.
  refine (TokenProtocol owned owned_le _ _ _).
  - intros t w c Ht _. by apply (owned_view _ w).
  - intros w c _. by apply owned_le_view.
Defined.
