(* ===== verification/Calm.v ===== *)
(** * What touches no token

    Most of the program leaves the wait groups, the closing of the channels and
    the shape of the pool alone: the storage operations, the metrics, the
    clock, everything taken from a queue, the priority queue, the conversation
    with the mail server.  [StorageCalm] is that promise of a backend. *)

From S2P Require Import Prelude Go Tokens Models World Metrics Sql Storage Invariant Backend.
From S2P Require Import Sqlite Postgres MemoryQueue SortedQueue RateLimitedQueue Router Queue.
From S2P Require Import Worker Email QueueDepth Api Config Database Main Ownership.

Notation calm p := (Tokens.calm token_view p).

Create HintDb calm.

Lemma calm_now : calm now.
Proof. apply calm_gets. Qed.
Lemma calm_metric f : calm (metric f).
Proof. by apply calm_act_. Qed.
Lemma calm_wait_until t : calm (wait_until t).
Proof. intros w x w'. case_match; [done|]. by intros [= <- <-]. Qed.
Lemma calm_sleep d : calm (sleep d).
Proof. apply calm_bind; [apply calm_now|intros; apply calm_wait_until]. Qed.

(** A case of a [select] that touches no token. *)
Definition calm_alt {X} (a : alt X) : Prop :=
  forall w x w', a w = Some (x, w') -> token_view w' = token_view w.

Lemma view_flip n w : token_view (flip n w).2 = token_view w.
Proof. unfold flip. by repeat case_match. Qed.

Lemma view_select_action {X} (alts : list (alt X)) w x w' :
  Forall calm_alt alts -> select_action alts w = Some (x, w') -> token_view w' = token_view w.
Proof.
  unfold select_action. intros Ha.
  pose proof (view_flip (length (omap (fun a => a w) alts)) w) as Hf.
  destruct (flip _ w) as [i w1]; simpl in Hf.
  intros (a & Hin & Haw)%list_elem_of_lookup_2%list_elem_of_omap. rewrite Forall_forall in Ha.
  by rewrite (Ha a Hin _ _ _ Haw).
Qed.

Lemma calm_select {X} (alts : list (alt X)) timer :
  Forall calm_alt alts -> calm (select_ alts timer).
Proof.
  intros Ha w x w'. destruct (select_action alts w) as [[y w1]|] eqn:Hs; [|done].
  intros [= <- <-]. split; [|done]. by eapply view_select_action.
Qed.

Lemma calm_select_default {X} (alts : list (alt X)) d :
  Forall calm_alt alts -> calm (select_default alts d).
Proof.
  intros Ha. apply calm_act_. intros w.
  destruct (select_action alts w) as [[y w1]|] eqn:Hs; [|done]. by eapply view_select_action.
Qed.

Lemma calm_after {X} t (x : X) : calm_alt (after t x).
Proof. intros w y w'. unfold after. case_match; [|done]. by intros [= <- <-]. Qed.

Lemma view_next_fault w : token_view (next_fault w).2 = token_view w.
Proof. unfold next_fault. by case_match. Qed.

Lemma calm_db_exec stmt : calm (db_exec stmt).
Proof.
  apply calm_act_. intros w. pose proof (view_next_fault w) as Hv.
  destruct (next_fault w) as [b w1]; simpl in *. by repeat case_match.
Qed.

Lemma calm_db_query {X} (q : table -> X) : calm (db_query q).
Proof.
  apply calm_act_. intros w. pose proof (view_next_fault w) as Hv. by destruct (next_fault w).
Qed.

Lemma view_fetch {X} (l : list X) w : token_view (fetch l w).2 = token_view w.
Proof.
  revert w. induction l as [|x l IH]; intros w; simpl; pose proof (view_next_fault w) as Hv;
    destruct (next_fault w) as [[] w1]; simpl in *; try done.
  specialize (IH w1). destruct (fetch l w1) as [[xs e] w2]. simpl in *. congruence.
Qed.

Lemma calm_db_rows {X} (q : table -> list X) : calm (db_rows q).
Proof.
  apply calm_act_. intros w. pose proof (view_next_fault w) as Hv.
  destruct (next_fault w) as [[] w1]; simpl in *; [done|].
  pose proof (view_fetch (q (w_db w1)) w1) as Hf. destruct (fetch _ w1) as [[xs e] w2].
  simpl in *. congruence.
Qed.

#[export] Hint Resolve calm_now calm_metric calm_wait_until calm_sleep calm_gets calm_after
  calm_db_exec calm_db_query calm_db_rows : calm.
#[export] Hint Extern 1 (Tokens.calm _ (Ret _)) => exact I : calm.
#[export] Hint Extern 1 (Tokens.calm _ OutOfFuel) => exact I : calm.

(** Goes through a program. *)
Ltac calm_tac :=
  repeat first
    [ solve [auto with calm]
    | progress cbv beta zeta
    | progress intros
    | apply calm_bind
    | apply calm_select | apply calm_select_default
    | apply Forall_cons; split | apply Forall_nil; exact I
    | solve [apply calm_act_; intros; repeat case_match; done]
    | match goal with
      | |- Tokens.calm _ (match ?x with _ => _ end) => destruct x
      end ].

(** ** The backends *)

Class StorageCalm `{Storage} : Prop := {
  calm_save j : calm (SaveJob j);
  calm_get i : calm (GetJob i);
  calm_status i s err : calm (UpdateJobStatus i s err);
  calm_retry i s n err : calm (UpdateJobRetry i s n err);
  calm_requeue i : calm (Requeue i);
  calm_reset i n : calm (ResetForRetry i n);
  calm_pending : calm ListPendingJobs;
  calm_recent n : calm (ListRecentJobs n);
  calm_processing : calm GetProcessingJobs;
  calm_all_pending : calm ListAllPendingJobs;
  calm_pending_by q : calm (ListPendingByQueue q);
  calm_count : calm CountByQueueAndStatus;
}.
#[export] Hint Resolve calm_save calm_get calm_status calm_retry calm_requeue calm_reset
  calm_pending calm_recent calm_processing calm_all_pending calm_pending_by calm_count : calm.

Lemma sqlite_calm `{Platform} : @StorageCalm SQLiteStorage.storage.
Proof.
  assert (forall i, calm (SQLiteStorage.GetJob i)) as Hget
    by (intros; unfold SQLiteStorage.GetJob; calm_tac).
  assert (forall q, calm (SQLiteStorage.queryJobs q)) as Hquery
    by (intros; unfold SQLiteStorage.queryJobs; calm_tac).
  split; intros; simpl; try apply Hquery; [unfold SQLiteStorage.SaveJob|apply Hget
    |unfold SQLiteStorage.UpdateJobStatus|unfold SQLiteStorage.UpdateJobRetry
    |unfold SQLiteStorage.Requeue|unfold SQLiteStorage.ResetForRetry
    |unfold SQLiteStorage.CountByQueueAndStatus]; calm_tac.
Qed.

Lemma postgres_calm `{Platform} : @StorageCalm PostgresStorage.storage.
Proof.
  assert (forall i, calm (PostgresStorage.GetJob i)) as Hget
    by (intros; unfold PostgresStorage.GetJob; calm_tac).
  assert (forall q, calm (PostgresStorage.pgQueryJobs q)) as Hquery
    by (intros; unfold PostgresStorage.pgQueryJobs; calm_tac).
  split; intros; simpl; try apply Hquery; [unfold PostgresStorage.SaveJob|apply Hget
    |unfold PostgresStorage.UpdateJobStatus|unfold PostgresStorage.UpdateJobRetry
    |unfold PostgresStorage.Requeue|unfold PostgresStorage.ResetForRetry
    |unfold PostgresStorage.ListRecentJobs|unfold PostgresStorage.CountByQueueAndStatus];
    calm_tac; apply Hquery.
Qed.

#[export] Instance storage_of_calm `{Platform} backend : @StorageCalm (storage_of backend).
Proof. unfold storage_of. case_match; [apply postgres_calm|apply sqlite_calm]. Qed.

Lemma calm_open_storage `{Platform} `{SqlDriver} cfg : calm (open_storage cfg).
Proof.
  unfold open_storage, PostgresStorage.NewPostgresStorage, SQLiteStorage.NewSQLiteStorage.
  assert (calm db_ping) as Hping.
  { apply calm_act_. intros w. pose proof (view_next_fault w). by destruct (next_fault w). }
  unfold PostgresStorage.pgMigrate, SQLiteStorage.migrate. calm_tac; apply Hping.
Qed.

(** ** Taking from the queues *)

Lemma view_set_jobs q c w :
  ch_cap c = ch_cap (mq_jobs (get_mq q w)) -> ch_closed c = ch_closed (mq_jobs (get_mq q w)) ->
  token_view (set_mq q (MemoryQueue.set_jobs c (get_mq q w)) w) = token_view w.
Proof. intros Hc Hd. unfold token_view. destruct q; simpl in *; unfold view_queue; simpl; by rewrite Hc, Hd. Qed.

Lemma calm_receive q : calm_alt (MemoryQueue.case_receive q).
Proof.
  intros w x w'. unfold MemoryQueue.case_receive.
  repeat case_match; try done; intros [= <- <-]; [done|by apply view_set_jobs].
Qed.

Lemma calm_case_wait : calm_alt SortedQueue.case_wait.
Proof. intros w x w'. unfold SortedQueue.case_wait. case_match; [done|]. by intros [= <- <-]. Qed.
Lemma calm_case_done : calm_alt SortedQueue.case_done.
Proof. intros w x w'. unfold SortedQueue.case_done. case_match; [|done]. by intros [= <- <-]. Qed.
Lemma calm_case_signal : calm_alt SortedQueue.case_signal.
Proof. intros w x w'. unfold SortedQueue.case_signal. case_match; [|done]. by intros [= <- <-]. Qed.
#[export] Hint Resolve calm_receive calm_case_wait calm_case_done calm_case_signal : calm.

Lemma calm_pop_lock : calm SortedQueue.pop_lock.
Proof. apply calm_act_. intros w. cbv zeta. by destruct (SortedQueue.popLocked _). Qed.
#[export] Hint Resolve calm_pop_lock : calm.

Lemma calm_prio_wait d : calm (SortedQueue.DequeueOrWait d).
Proof. unfold SortedQueue.DequeueOrWait. calm_tac. Qed.

Lemma calm_prio_Enqueue j : calm (SortedQueue.Enqueue j).
Proof. unfold SortedQueue.Enqueue, SortedQueue.Enqueue_lock, SortedQueue.Enqueue_wake. calm_tac. Qed.

Lemma calm_prio_Close : calm SortedQueue.Close.
Proof. unfold SortedQueue.Close. apply calm_act_. intros w. cbv zeta. by case_match. Qed.

Lemma calm_wait_for_token fuel : calm (RateLimitedQueue.wait_for_token fuel).
Proof.
  induction fuel as [|fuel IH]; [done|]. cbn [RateLimitedQueue.wait_for_token]. apply calm_bind.
  - apply calm_act_. intros w. unfold RateLimitedQueue.take_token.
    by destruct (0 <? rq_tokens (w_rl w)).
  - calm_tac.
Qed.
#[export] Hint Resolve calm_prio_wait calm_prio_Enqueue calm_prio_Close calm_wait_for_token : calm.

Lemma calm_poll fuel : calm (Router.poll fuel).
Proof.
  unfold Router.poll, RateLimitedQueue.AvailableTokens, RateLimitedQueue.DequeueOrWait,
    MemoryQueue.DequeueOrWait. calm_tac.
Qed.
#[export] Hint Resolve calm_poll : calm.

Lemma calm_router_wait fuel rounds d : calm (Router.DequeueOrWait fuel rounds d).
Proof.
  unfold Router.DequeueOrWait. apply calm_bind; [apply calm_now|]. intros t.
  generalize (t + d). induction rounds as [|rounds IH]; intros deadline; [done|].
  cbn [Router.DequeueOrWait_loop]. calm_tac.
Qed.
#[export] Hint Resolve calm_router_wait : calm.

Section storage.
Context `{StorageCalm}.

Lemma calm_prio_Recover : calm SortedQueue.Recover.
Proof.
  unfold SortedQueue.Recover. calm_tac.
  match goal with |- context [SortedQueue.Recover_loop ?l] => induction l as [|j l IH] end; [done|].
  cbn [SortedQueue.Recover_loop]. unfold SortedQueue.Recover_job. calm_tac.
Qed.

Lemma calm_prio_sweep : calm SortedQueue.sweep.
Proof.
  unfold SortedQueue.sweep. calm_tac.
  match goal with |- context [SortedQueue.sweep_loop ?l] => induction l as [|j l IH] end; [done|].
  cbn [SortedQueue.sweep_loop]. unfold SortedQueue.sweep_job. calm_tac.
Qed.
End storage.

(** ** The conversation with the mail server *)

Lemma calm_send n c : calm (Email.send_command n c).
Proof. by apply calm_act_. Qed.
#[export] Hint Resolve calm_send : calm.

Lemma calm_exchange n d c : calm (Email.exchange n d c).
Proof. unfold Email.exchange, Email.await. calm_tac. Qed.
#[export] Hint Resolve calm_exchange : calm.

Lemma calm_command n d c : calm (Email.command n d c).
Proof. unfold Email.command. calm_tac. Qed.
#[export] Hint Resolve calm_command : calm.

Lemma calm_ctx_done {X} ctx (x : X) : calm_alt (Email.case_ctx_done ctx x).
Proof. intros w y w'. unfold Email.case_ctx_done. repeat case_match; try done. by intros [= <- <-]. Qed.
Lemma calm_case_result n : calm_alt (Email.case_result n).
Proof. intros w y w'. unfold Email.case_result. repeat case_match; try done. by intros [= <- <-]. Qed.
Lemma calm_ctx_err ctx : calm (Context.Err ctx).
Proof. apply calm_gets. Qed.
#[export] Hint Resolve calm_ctx_done calm_case_result calm_ctx_err : calm.

Lemma calm_or_fail step msg rest : calm step -> calm rest -> calm (Email.or_fail step msg rest).
Proof. intros Hs Hr. unfold Email.or_fail. apply calm_bind; [done|]. by intros []. Qed.

Lemma calm_converse p n d auth to msg : calm (Email.converse p n d auth to msg).
Proof.
  unfold Email.converse, Email.hello, Email.start_tls, Email.plain_auth, Email.mail, Email.rcpt.
  calm_tac; repeat (apply calm_or_fail; [calm_tac|]); done.
Qed.

Lemma calm_sendWithTimeout p n ctx addr auth to msg :
  calm (Email.sendWithTimeout p n ctx addr auth to msg).
Proof.
  unfold Email.sendWithTimeout. apply calm_or_fail.
  - unfold Email.dial. calm_tac.
    match goal with a : answer |- _ => destruct a end; cbn [app]; calm_tac.
  - assert (calm (Email.hang_up n)) by (by apply calm_act_). calm_tac.
    apply calm_defer; [done|apply calm_converse].
Qed.

Lemma calm_report n err : calm (Email.report n err).
Proof. intros w x w'. repeat case_match; try done. by intros [= <- <-]. Qed.

Lemma calm_make_result : calm Email.make_result.
Proof. by apply calm_act_. Qed.

Lemma calm_await_result n ctx : calm (Email.await_result n ctx).
Proof. unfold Email.await_result. calm_tac. Qed.

Lemma calm_demo_delay d ctx : calm (Email.demo_delay d ctx).
Proof. unfold Email.demo_delay. calm_tac. Qed.
#[export] Hint Resolve calm_sendWithTimeout calm_report calm_make_result calm_await_result
  calm_demo_delay : calm.
