(* ===== verification/NoCrash.v ===== *)
(** * No goroutine dies of a misuse of channels or wait groups

    The programs of the queues, the pool, the server and [main] against the
    tokens of [Ownership.v].  Most are [balanced]: they end with the tokens they
    had.  The conclusion is that of the whole process: among the goroutines
    only [main] can panic, and only because it could not start. *)

From stdpp Require Import gmultiset.
From S2P Require Import Prelude Go Tokens Models World Metrics Sql Storage Invariant Backend.
From S2P Require Import MemoryQueue SortedQueue RateLimitedQueue Router Queue Worker Email.
From S2P Require Import QueueDepth Api Config Database Main Handlers Ownership Calm.

Definition startup_failure (m : string) : Prop :=
  m ∈ ["Failed to load config"; "Failed to initialize storage"; "Failed to recover queues"].

Notation own := (Tokens.own ownership startup_failure).
Notation post A := (World -> A -> gmultiset token -> Prop).
Implicit Types (n f t : gmultiset token) (w : World).

(** ** Counting *)

Lemma count_union (x : token) t t' : count x (t ⊎ t') = (count x t + count x t')%nat.
Proof. apply multiplicity_disj_union. Qed.
Lemma count_same (x : token) : count x {[+ x +]} = 1%nat.
Proof. apply multiplicity_singleton_eq. Qed.
Lemma count_other (x y : token) : x <> y -> count x {[+ y +]} = 0%nat.
Proof. apply multiplicity_singleton_ne. Qed.

Ltac counting :=
  repeat match goal with q : mqref |- _ => destruct q end;
  rewrite ?count_union, ?count_same in *;
  repeat match goal with
  | |- context [multiplicity ?x {[+ ?y +]}] => rewrite (count_other x y) in * by done
  | H : context [multiplicity ?x {[+ ?y +]}] |- _ => rewrite (count_other x y) in * by done
  end; simplify_eq; simpl in *; try done; try lia.

(** The queue and the pool of a state, under other tokens. *)
Lemma queue_owned_counts q t t' v :
  count (Enqueueing q) t' = count (Enqueueing q) t ->
  count (Closing q) t' = count (Closing q) t ->
  count (Unmade q) t' = count (Unmade q) t -> queue_owned q t v -> queue_owned q t' v.
Proof. intros H1 H2 H3 []. by split; rewrite ?H1, ?H2, ?H3. Qed.

Lemma pool_owned_counts t t' v :
  (forall x, x ∈ [Working; Living; PoolOpen; PoolUnmade] -> count x t' = count x t) ->
  pool_owned t v -> pool_owned t' v.
Proof. intros Hc []. split; rewrite ?Hc by set_solver; done. Qed.

(** A step of one queue. *)
Lemma owned_set_mq q m t t' w :
  owned t w ->
  (forall x, x <> Enqueueing q -> x <> Closing q -> count x t' = count x t) ->
  queue_owned q t' (view_queue m) -> queue_le (view_queue (get_mq q w)) (view_queue m) ->
  owned t' (set_mq q m w) /\ owned_le w (set_mq q m w).
Proof.
  intros [Hf Hl Hr Hru Hp] Hc Hq Hle. split.
  - split.
    + destruct q; [done|]. eapply queue_owned_counts; [..|exact Hf]; by apply Hc.
    + destruct q; [|done]. eapply queue_owned_counts; [..|exact Hl]; by apply Hc.
    + rewrite Hc by done. by destruct q.
    + by rewrite !Hc.
    + eapply pool_owned_counts; [|by destruct q].
      intros x Hx. apply Hc; intros ->; set_solver.
  - unfold owned_le. by destruct q.
Qed.

(** A step of the pool. *)
Lemma owned_with_pool p t t' w :
  owned t w ->
  (forall x, x ∉ [Working; Living; PoolOpen; PoolUnmade] -> count x t' = count x t) ->
  pool_owned t' (view_pool p) -> pool_le (view_pool (w_pool w)) (view_pool p) ->
  owned t' (with_pool p w) /\ owned_le w (with_pool p w).
Proof.
  intros [Hf Hl Hr Hru Hp] Hc Hq Hle. split; [|done]. split; [..|done].
  - eapply queue_owned_counts; [..|exact Hf]; apply Hc; set_solver.
  - eapply queue_owned_counts; [..|exact Hl]; apply Hc; set_solver.
  - by rewrite Hc by set_solver.
  - by rewrite !Hc by set_solver.
Qed.

(** ** Balanced programs *)

Definition queues_up w : Prop :=
  ch_cap (mq_jobs (w_fifo w)) <> 0%nat /\ ch_cap (mq_jobs (rq_memory (w_rl w))) <> 0%nat.

Lemma queues_up_mono w w' : owned_le w w' -> queues_up w -> queues_up w'.
Proof.
  intros (Hf & Hl & _) [H1 H2]. destruct (Hf H1) as [Hc _], (Hl H2) as [Hc' _].
  simpl in *. split; congruence.
Qed.

Definition kept {A} n : post A := fun _ _ n' => n' = n.
Definition kept_panic (X : string -> Prop) n : post string := fun _ m n' => X m /\ n' = n.
Definition nothing (m : string) : Prop := False.
Definition anything (m : string) : Prop := True.

(** Once the queues are made, [p] ends with the tokens it had; the panics it
    may end with are those of [X]. *)
Definition balanced {A} (X : string -> Prop) (p : M A) : Prop :=
  forall w n, queues_up w -> own (kept n) (kept_panic X n) p w n.

Lemma balanced_ret {A} X (a : A) : balanced X (Ret a).
Proof. by intros w n _. Qed.

Lemma balanced_throw {A} (X : string -> Prop) m : X m -> balanced X (Throw m : M A).
Proof. by intros Hm w n _. Qed.

Lemma balanced_bind {A B} X (p : M A) (g : A -> M B) :
  balanced X p -> (forall a, balanced X (g a)) -> balanced X (p ≫= g).
Proof.
  intros Hp Hg w n Hw. eapply own_bind; [by apply Hp|].
  intros w1 a n1 Hle ->. apply Hg. by eapply queues_up_mono.
Qed.

Lemma balanced_weaken {A} (X Y : string -> Prop) (p : M A) :
  (forall m, X m -> Y m) -> balanced X p -> balanced Y p.
Proof.
  intros HXY Hp w n Hw. eapply own_weaken; [by apply Hp|done|]. intros w1 m n1 _ [? ->]. split; auto.
Qed.

Lemma balanced_catch {A B} X Y (p : M A) (h : exit_ A -> M B) :
  balanced X p -> (forall a, balanced Y (h (Returned a))) ->
  (forall m, X m -> balanced Y (h (Panicked m))) -> balanced Y (catch p h).
Proof.
  intros Hp Hr Ht w n Hw. eapply own_catch; [by apply Hp|..].
  - intros w1 a n1 Hle ->. apply Hr. by eapply queues_up_mono.
  - intros w1 m n1 Hle [Hm ->]. apply Ht; [done|]. by eapply queues_up_mono.
Qed.

Lemma balanced_defer {A} X (d : M unit) (body : M A) :
  balanced X d -> balanced X body -> balanced X (defer_ d body).
Proof.
  intros Hd Hb. eapply balanced_catch; [exact Hb|..].
  - intros a. apply balanced_bind; [done|]. intros. apply balanced_ret.
  - intros m Hm. apply balanced_bind; [done|]. intros. by apply balanced_throw.
Qed.

(** A goroutine that is given no token. *)
Lemma balanced_child p w : balanced nothing p -> queues_up w ->
  own (fun _ (_ : unit) _ => True) (fun _ m _ => startup_failure m) p w ∅.
Proof. intros Hp Hw. eapply own_weaken; [by apply Hp|done|]. by intros w1 m n1 _ []. Qed.

Lemma balanced_go X p : balanced nothing p -> balanced X (go p).
Proof.
  intros Hp w n Hw. eapply (own_go _ _ _ _ _ _ _ ∅ n); [multiset_solver|by apply balanced_child|done].
Qed.

Lemma own_calm {A} (p : M A) (Q : post A) (E : post string) w n :
  calm p -> (forall w' a, owned_le w w' -> Q w' a n) -> own Q E p w n.
Proof.
  revert w. induction p as [| | |B act k IH|c k IH] using prog_ind'; intros w Hc HQ; try done.
  - by apply HQ.
  - intros f s x s' Hle Hs Hact. destruct (Hc s x s' Hact) as [Hv Hk].
    assert (owned_le s s') as Hle' by (by apply owned_le_view).
    exists n. split_and!; [done|by apply (owned_view _ s)|].
    apply IH; [done|]. intros w' a Hw'. apply HQ. by etrans; [|etrans].
Qed.

Lemma balanced_calm {A} X (p : M A) : calm p -> balanced X p.
Proof. intros Hp w n _. by apply own_calm. Qed.

(** An action that leaves the view as it is. *)
Lemma balanced_act_ {A} X (g : World -> A * World) :
  (forall w, token_view (g w).2 = token_view w) -> balanced X (act_ g).
Proof. intros Hg. by apply balanced_calm, calm_act_. Qed.

Create HintDb balanced.
#[export] Hint Resolve balanced_ret balanced_go : balanced.
#[export] Hint Extern 2 (balanced _ _) => apply balanced_calm; solve [calm_tac] : balanced.
#[export] Hint Extern 1 (balanced anything (Throw _)) => by apply balanced_throw : balanced.

Ltac balanced_tac :=
  repeat first
    [ solve [auto with balanced]
    | progress cbv beta zeta
    | progress intros
    | apply balanced_bind
    | apply balanced_defer
    | match goal with
      | |- balanced _ (match ?x with _ => _ end) => destruct x
      end ].

(** ** The FIFO queue and the one under the rate limit *)

Definition queue_up q w : Prop := ch_cap (mq_jobs (get_mq q w)) <> 0%nat.
Lemma up_queue q w : queues_up w -> queue_up q w.
Proof. intros []. by destruct q. Qed.

Lemma get_queue_owned q t w : owned t w -> queue_owned q t (view_queue (get_mq q w)).
Proof. intros []. by destruct q. Qed.

Lemma get_queue_le q w w' : owned_le w w' ->
  queue_le (view_queue (get_mq q w)) (view_queue (get_mq q w')).
Proof. intros (?&?&_). by destruct q. Qed.

(** [Enqueue] registers with the wait group, unless the queue is closed. *)
Lemma own_Enqueue_lock q w n : queue_up q w ->
  own (fun _ (ok : bool) n' => n' = if ok then n ⊎ {[+ Enqueueing q +]} else n) (kept_panic nothing n)
    (MemoryQueue.Enqueue_lock q) w n.
Proof.
  intros Hup. apply own_act_. intros f s Hle Hs. cbv zeta.
  pose proof (get_queue_owned q _ _ Hs) as [Hwg Hopen Hcl Hdr Hun].
  assert (queue_up q s) as Hup'.
  { destruct (get_queue_le q w s Hle Hup) as [Hc _]. unfold queue_up in *. simpl in *. congruence. }
  destruct (mq_closed (get_mq q s)) eqn:Hclosed; simpl in *.
  - exists n. by split_and!.
  - exists (n ⊎ {[+ Enqueueing q +]}). rewrite Hclosed in *. destruct (Hopen eq_refl) as [Hopen' Hno].
    edestruct (owned_set_mq q) as [Hs' Hle']; [exact Hs|..|split_and!; [exact Hle'|exact Hs'|done]].
    + intros x Hx1 Hx2. by counting.
    + split; simpl; rewrite ?Hopen'; try done.
      * counting.
      * intros _. split; [done|]. counting.
      * counting.
      * intros Hu. destruct Hun as (Hc & _); [counting|]. done.
    + intros _. simpl. rewrite Hclosed. by split.
Qed.

(** [wg.Done()] by a goroutine that registered. *)
Lemma own_wg_done q w n :
  own (kept n) (fun _ _ _ => False) (MemoryQueue.wg_done q) w (n ⊎ {[+ Enqueueing q +]}).
Proof.
  eapply (own_bind _ _ (fun _ (ok : bool) n' => ok = true /\ n' = n)).
  - apply own_act_. intros f s Hle Hs. cbv zeta.
    pose proof (get_queue_owned q _ _ Hs) as [Hwg Hopen Hcl Hdr Hun]. simpl in *.
    assert (0 < mq_wg (get_mq q s)) as Hpos by (rewrite Hwg; counting).
    rewrite (proj2 (Z.leb_gt _ _)) by done. exists n. simpl.
    edestruct (owned_set_mq q) as [Hs' Hle']; [exact Hs|..|split_and!; [exact Hle'|exact Hs'|done..]].
    + intros x Hx1 Hx2. by counting.
    + split; simpl.
      * rewrite Hwg. counting.
      * intros Hc. destruct (Hopen Hc) as [? ?]. split; [done|]. counting.
      * counting.
      * intros Hc. specialize (Hdr Hc). lia.
      * intros Hu. destruct Hun as (_ & ? & _); [counting|]. lia.
    + intros _. simpl. split; [done|]. intros Hc. split; [done|]. lia.
  - intros w1 ok n1 _ [-> ->]. done.
Qed.

(** A registered sender does not find the channel closed. *)
Lemma own_Enqueue_select q j d w n :
  own (fun _ c n' => c <> MemoryQueue.SendOnClosed /\ n' = n ⊎ {[+ Enqueueing q +]})
    (fun _ _ _ => False) (MemoryQueue.Enqueue_select q j d) w (n ⊎ {[+ Enqueueing q +]}).
Proof.
  intros f s x s' Hle Hs Hact. unfold MemoryQueue.Enqueue_select in Hact.
  destruct (select_action _ s) as [[c s1]|] eqn:Hsel; [|done]. simplify_eq.
  assert (ch_closed (mq_jobs (get_mq q s)) = false) as Hopen.
  { pose proof (get_queue_owned q _ _ Hs) as [Hwg _ _ Hdr _]. simpl in *.
    destruct (ch_closed _); [|done]. specialize (Hdr eq_refl). rewrite Hdr in Hwg. counting. }
  assert (token_view s' = token_view s /\ x <> MemoryQueue.SendOnClosed) as [Hv Hx].
  { unfold select_action in Hsel.
    pose proof (view_flip (length (omap (fun a => a s) [MemoryQueue.case_send q j;
      MemoryQueue.case_done q; after d MemoryQueue.TimedOut])) s) as Hf.
    destruct (flip _ s) as [i s1] eqn:Hflip; simpl in Hf.
    assert (get_mq q s1 = get_mq q s) as Hg.
    { unfold flip in Hflip. repeat case_match; simplify_eq; by destruct q. }
    apply list_elem_of_lookup_2, list_elem_of_omap in Hsel as (a & Ha & Haw).
    rewrite <- Hf. apply list_elem_of_In in Ha as [<-|[<-|[<-|[]]]].
    - unfold MemoryQueue.case_send in Haw. rewrite Hg, Hopen in Haw. case_match; simplify_eq.
      split; [|done]. rewrite <- Hg. by apply view_set_jobs.
    - unfold MemoryQueue.case_done in Haw. case_match; by simplify_eq.
    - unfold after in Haw. case_match; by simplify_eq. }
  exists (n ⊎ {[+ Enqueueing q +]}). split_and!; [by apply owned_le_view|by apply (owned_view _ s)|].
  done.
Qed.

Lemma balanced_mq_Enqueue q j : balanced nothing (MemoryQueue.Enqueue q j).
Proof.
  intros w n Hw. unfold MemoryQueue.Enqueue.
  eapply own_bind; [by apply own_Enqueue_lock, up_queue|].
  intros w1 [] n1 Hle ->; [|done].
  eapply (own_defer _ _ (fun _ _ n' => n' = n ⊎ {[+ Enqueueing q +]}) _ (fun _ _ _ => False)).
  - eapply own_bind; [apply (own_calm _ (fun _ _ n' => n' = n ⊎ {[+ Enqueueing q +]})); [calm_tac|done]|].
    intros w2 t n2 _ ->. eapply own_bind; [apply own_Enqueue_select|].
    by intros w3 [] n3 _ [Hc ->].
  - intros w2 a n2 _ ->. eapply own_weaken; [apply own_wg_done|done|done].
  - by intros.
Qed.
#[export] Hint Resolve balanced_mq_Enqueue : balanced.

Section storage.
Context `{StorageCalm}.

Lemma balanced_Nack q i : balanced nothing (MemoryQueue.Nack q i).
Proof. unfold MemoryQueue.Nack. balanced_tac. Qed.
Lemma balanced_Requeue q i : balanced nothing (MemoryQueue.Requeue q i).
Proof. unfold MemoryQueue.Requeue. balanced_tac. Qed.
Lemma balanced_Retry q i k : balanced nothing (MemoryQueue.Retry q i k).
Proof. unfold MemoryQueue.Retry. balanced_tac. Qed.

Lemma balanced_Recover q : balanced nothing (MemoryQueue.Recover q).
Proof.
  unfold MemoryQueue.Recover. balanced_tac.
  match goal with |- context [MemoryQueue.Recover_loop _ ?l] => induction l as [|j l IH] end;
    [apply balanced_ret|].
  cbn [MemoryQueue.Recover_loop]. unfold MemoryQueue.Recover_job. balanced_tac.
Qed.

Lemma balanced_sweep q : balanced nothing (MemoryQueue.sweep q).
Proof.
  unfold MemoryQueue.sweep. balanced_tac.
  match goal with |- context [MemoryQueue.sweep_loop _ ?l] => induction l as [|j l IH] end;
    [apply balanced_ret|].
  cbn [MemoryQueue.sweep_loop]. unfold MemoryQueue.sweep_job. balanced_tac.
Qed.

Lemma balanced_every k interval p : 0 < interval -> balanced nothing p ->
  balanced nothing (every k interval p).
Proof.
  intros Hi Hp. unfold every. rewrite (proj2 (Z.leb_gt _ _)) by done.
  apply balanced_bind; [balanced_tac|]. intros t. generalize (t + interval).
  induction k as [|k IH]; intros tick; [by intros w n _|]. cbn [ticker_loop]. balanced_tac.
Qed.

Lemma balanced_router_Enqueue j : balanced nothing (Router.Enqueue j).
Proof. unfold Router.Enqueue, RateLimitedQueue.Enqueue. balanced_tac. Qed.
#[local] Hint Resolve balanced_Nack balanced_Requeue balanced_Retry balanced_Recover
  balanced_sweep balanced_router_Enqueue calm_prio_Recover calm_prio_sweep : balanced.

Lemma balanced_router_Recover : balanced nothing Router.Recover.
Proof.
  pose proof calm_prio_Recover. unfold Router.Recover, RateLimitedQueue.Recover. balanced_tac.
Qed.

End storage.

(** ** Making and closing the queues *)

Lemma own_NewMemoryQueue q size w n :
  0 < size ->
  own (fun w' _ n' => queue_up q w' /\ n' = n) (fun _ _ _ => False)
    (MemoryQueue.NewMemoryQueue q size) w (n ⊎ {[+ Unmade q +]}).
Proof.
  intros Hsize. unfold MemoryQueue.NewMemoryQueue. rewrite (proj2 (Z.ltb_ge _ _)) by lia.
  apply own_act_. intros f s Hle Hs. cbn [fst snd].
  pose proof (get_queue_owned q _ _ Hs) as [Hwg Hopen Hcl Hdr Hun]. simpl in *.
  destruct Hun as (Hcap & Hw0 & Hc & Hone); [counting|].
  destruct (Hopen Hc) as [Hco Hno].
  exists n. split; [|split].
  - destruct Hs as [Hf Hl Hr Hru Hp]. unfold owned_le. simpl.
    destruct q; simpl in *; split_and!; try done; intros Hx; by destruct Hx.
  - destruct Hs as [Hf Hl Hr Hru Hp]. split.
    + destruct q; [|by destruct Hf; split; counting]. split; simpl; counting.
    + destruct q; [by destruct Hl; split; counting|]. split; simpl; counting.
    + destruct q; simpl in *; counting.
    + destruct q; simpl in *; counting.
    + destruct q; simpl; destruct Hp; split; counting.
  - split; [|done]. unfold queue_up. destruct q; simpl; lia.
Qed.

Lemma calm_refill k interval : 0 < interval -> calm (RateLimitedQueue.refill k interval).
Proof.
  intros Hi. unfold RateLimitedQueue.refill. rewrite (proj2 (Z.leb_gt _ _)) by done.
  apply calm_bind; [by apply calm_act_|]. intros _.
  induction k as [|k IH]; [done|]. cbn [RateLimitedQueue.refill_loop].
  unfold RateLimitedQueue.refill_turn. apply calm_bind; [|intros []; [exact IH|done]].
  assert (calm_alt RateLimitedQueue.case_tick /\ calm_alt RateLimitedQueue.case_stop) as [? ?].
  { split; intros w x w'; [unfold RateLimitedQueue.case_tick|unfold RateLimitedQueue.case_stop];
      case_match; [|done| |done]; by intros [= <- <-]. }
  calm_tac. apply calm_act_. intros w. unfold RateLimitedQueue.add_token.
  by destruct (rq_tokens (w_rl w) <? rq_burst (w_rl w)).
Qed.

(** The goroutine that refills the bucket is given nothing. *)
Lemma own_NewRateLimitedQueue k size r b w n :
  0 < size -> 0 < RateLimitedQueue.refill_interval r -> queue_up FIFORef w ->
  own (fun w' _ n' => queues_up w' /\ n' = n ⊎ {[+ Refilling +]}) (fun _ _ _ => False)
    (RateLimitedQueue.NewRateLimitedQueue k size r b) w (n ⊎ {[+ Unmade RateLimitedRef +]}).
Proof.
  intros Hsize Hi Hup. unfold RateLimitedQueue.NewRateLimitedQueue.
  rewrite (proj2 (Z.ltb_ge _ _)) by lia.
  eapply (own_bind _ _ (fun w' _ n' => (queues_up w' /\ rq_rate (w_rl w') = r) /\
    n' = n ⊎ {[+ Refilling +]})).
  - apply own_act_. intros f s Hle Hs. cbn [fst snd].
    pose proof (get_queue_owned RateLimitedRef _ _ Hs) as [Hwg Hopen Hcl Hdr Hun]. simpl in *.
    destruct Hun as (Hcap & Hw0 & Hc & Hone); [counting|]. destruct (Hopen Hc) as [Hco Hno].
    exists (n ⊎ {[+ Refilling +]}). split; [|split].
    + unfold owned_le. simpl. split_and!; try done; intros Hx; by destruct Hx.
    + destruct Hs as [Hf Hl Hr Hru Hp]. specialize (Hru ltac:(counting)). split.
      * destruct Hf; split; counting.
      * split; simpl; counting.
      * simpl. intros _. split; [done|]. counting.
      * simpl in *. intros Hx. exfalso. revert Hx Hone. counting.
      * destruct Hp; split; counting.
    + split; [|done]. split; [|done]. split; simpl; [|lia].
      destruct Hle as [Hf _]. destruct (Hf Hup) as [Hc' _]. unfold queue_up in Hup.
      simpl in *. congruence.
  - intros w1 [] n1 Hle [[Hup1 Hrate] ->]. unfold RateLimitedQueue.startRefill.
    eapply (own_bind _ _ (fun w' r' n' => (queues_up w' /\ r' = r) /\ n' = n ⊎ {[+ Refilling +]})).
    + apply own_act_. intros f s Hle1 Hs. exists (n ⊎ {[+ Refilling +]}). split_and!; try done.
      * by eapply queues_up_mono.
      * destruct Hle1 as (_ & _ & Hr & _). simpl. rewrite Hr; [done|by apply Hup1].
    + intros w2 r' n2 Hle2 [[Hup2 ->] ->]. destruct (Z.eqb_spec r 0) as [->|_].
      { exfalso. revert Hi. vm_compute. discriminate. }
      eapply (own_go _ _ _ _ _ _ _ ∅); [symmetry; apply gmultiset_disj_union_left_id| |done].
      apply own_calm; [by apply calm_refill|done].
Qed.

(** [MemoryQueue.Close]: the first call waits for the senders and closes. *)
Lemma own_Close_lock q w n : queue_up q w ->
  own (fun w' (ok : bool) n' => if ok then n' = n ⊎ {[+ Closing q +]} else n' = n) (fun _ _ _ => False)
    (MemoryQueue.Close_lock q) w n.
Proof.
  intros Hup. apply own_act_. intros f s Hle Hs. cbv zeta.
  pose proof (get_queue_owned q _ _ Hs) as [Hwg Hopen Hcl Hdr Hun].
  assert (queue_up q s) as Hup'.
  { destruct (get_queue_le q w s Hle Hup) as [Hc _]. unfold queue_up in *. simpl in *. congruence. }
  destruct (mq_closed (get_mq q s)) eqn:Hclosed; simpl in *; [by exists n|].
  rewrite Hclosed in *. destruct (Hopen eq_refl) as [Hopen' Hno].
  exists (n ⊎ {[+ Closing q +]}). rewrite Hopen' in *.
  edestruct (owned_set_mq q) as [Hs' Hle']; [exact Hs|..|split_and!; [exact Hle'|exact Hs'|done]].
  - intros x Hx1 Hx2. by counting.
  - split; simpl; rewrite ?Hopen'; try done.
    + counting.
    + counting.
    + intros Hu. destruct Hun as (Hc & _); [counting|]. done.
  - intros _. simpl. split; [done|]. rewrite Hclosed. done.
Qed.

(** After the wait there is no sender, and there will be none. *)
Definition queue_drained q w : Prop :=
  queue_up q w /\ mq_closed (get_mq q w) = true /\ mq_wg (get_mq q w) = 0.

Lemma queue_drained_mono q w w' : owned_le w w' -> queue_drained q w -> queue_drained q w'.
Proof.
  intros Hle (Hup & Hc & Hw). destruct (get_queue_le q w w' Hle Hup) as [Hcap Hd].
  destruct (Hd Hc) as [Hc' Hw']. split_and!; [|done|by apply Hw'].
  unfold queue_up in *. simpl in *. congruence.
Qed.

Lemma own_wg_wait q w n : queue_up q w ->
  own (fun w' _ n' => queue_drained q w' /\ n' = n ⊎ {[+ Closing q +]}) (fun _ _ _ => False)
    (MemoryQueue.wg_wait q) w (n ⊎ {[+ Closing q +]}).
Proof.
  intros Hup f s [] s' Hle Hs. case_match eqn:Hw; [|done]. intros [= <-].
  exists (n ⊎ {[+ Closing q +]}). split_and!; [done..|]. split; [|done].
  pose proof (get_queue_owned q _ _ Hs) as [Hwg Hopen Hcl Hdr Hun].
  destruct (get_queue_le q w s Hle Hup) as [Hc _]. simpl in *. split_and!; [| |lia].
  - unfold queue_up in *. simpl in *. congruence.
  - destruct (mq_closed (get_mq q s)); [done|]. destruct (Hopen eq_refl) as [_ Hno]. counting.
Qed.

Lemma own_close_jobs q w n : queue_drained q w ->
  own (kept n) (fun _ _ _ => False) (MemoryQueue.close_jobs q) w (n ⊎ {[+ Closing q +]}).
Proof.
  intros Hd. eapply (own_bind _ _ (fun _ (ok : bool) n' => ok = true /\ n' = n)).
  - apply own_act_. intros f s Hle Hs. cbv zeta.
    destruct (queue_drained_mono q w s Hle Hd) as (Hup & Hc & Hw).
    pose proof (get_queue_owned q _ _ Hs) as [Hwg Hopen Hcl Hdr Hun]. simpl in *.
    destruct (ch_closed (mq_jobs (get_mq q s))); [exfalso; counting|]. exists n. simpl.
    edestruct (owned_set_mq q) as [Hs' Hle']; [exact Hs|..|split_and!; [exact Hle'|exact Hs'|done..]].
    + intros x Hx1 Hx2. by counting.
    + split; simpl; try done.
      * rewrite Hwg. counting.
      * by rewrite Hc.
      * counting.
      * intros Hu. destruct Hun as (Hcap & _); [counting|]. done.
    + intros _. simpl. done.
  - intros w1 ok n1 _ [-> ->]. done.
Qed.

Lemma own_mq_Close `{Storage} q w n : queue_up q w ->
  own (kept n) (fun _ _ _ => False) (MemoryQueue.Close q) w n.
Proof.
  intros Hup. unfold MemoryQueue.Close.
  eapply own_bind; [by apply own_Close_lock|]. intros w1 [] n1 Hle ->; [|done].
  assert (queue_up q w1) as Hup1.
  { destruct (get_queue_le q w w1 Hle Hup) as [Hc _]. unfold queue_up in *. simpl in *. congruence. }
  eapply own_bind; [by apply own_wg_wait|]. intros w2 [] n2 _ [Hd ->].
  eapply own_bind; [by apply own_close_jobs|]. by intros w3 [] n3 _ ->.
Qed.

(** [Router.Close], once. *)
Lemma own_router_Close `{Storage} w n : queues_up w ->
  own (kept n) (fun _ _ _ => False) Router.Close w (n ⊎ {[+ Refilling +]}).
Proof.
  intros Hw. unfold Router.Close.
  eapply own_bind; [by apply own_mq_Close, up_queue|]. intros w1 _ n1 Hle1 ->.
  eapply own_bind; [apply (own_calm _ (fun _ _ n' => n' = n ⊎ {[+ Refilling +]})); [calm_tac|done]|].
  intros w2 _ n2 Hle2 ->.
  assert (queues_up w2) as Hw2 by (do 2 (eapply queues_up_mono; [eassumption|]); done).
  unfold RateLimitedQueue.Close. eapply (own_bind _ _ (kept n)); [|by intros w3 ? n3 _ ->].
  eapply (own_bind _ _ (fun w' (ok : bool) n' => (queues_up w' /\ ok = true) /\ n' = n)).
  - apply own_act_. intros f s Hle Hs. cbv zeta.
    destruct (ow_refill _ _ Hs) as [Hstop Hone]; [counting|]. rewrite Hstop. exists n. simpl.
    assert (queues_up s) as Hup by (by eapply queues_up_mono).
    split_and!; [by unfold owned_le| |done..].
    destruct Hs as [Hf Hl Hr Hru Hp]. split; simpl.
    + destruct Hf; split; counting.
    + destruct Hl; split; counting.
    + counting.
    + counting.
    + destruct Hp; split; counting.
  - intros w3 ok n3 _ [[Hup ->] ->]. by apply own_mq_Close, (up_queue RateLimitedRef).
Qed.

(** ** The pool *)

Lemma balanced_Preempt j : balanced anything (Pool.Preempt j).
Proof.
  unfold Pool.Preempt. apply balanced_bind.
  - apply balanced_act_. intros w. cbv zeta. by repeat case_match.
  - intros r. repeat case_match; auto with balanced.
Qed.

Lemma balanced_set_worker id j c : balanced anything (Pool.set_worker id j c).
Proof.
  unfold Pool.set_worker. apply balanced_bind.
  - apply balanced_act_. intros w. cbv zeta. repeat case_match; try done.
    unfold token_view, view_pool. simpl. by rewrite length_insert.
  - intros r. repeat case_match; auto with balanced.
Qed.

Lemma balanced_take_slot id : balanced anything (Pool.take_slot id).
Proof.
  unfold Pool.take_slot. apply balanced_bind.
  - apply balanced_act_. intros w. cbv zeta. by repeat case_match.
  - intros r. repeat case_match; auto with balanced.
Qed.

(** The processor sends the email in a goroutine of its own. *)
Lemma balanced_email p ctx j : balanced nothing (Email.Process p ctx j).
Proof.
  unfold Email.Process. cbv zeta. case_match; [apply balanced_ret|].
  apply balanced_bind; [balanced_tac|]. intros k.
  apply balanced_bind; [apply balanced_go; balanced_tac|]. intros []. balanced_tac.
Qed.

Lemma anything_from_nothing {A} (p : M A) : balanced nothing p -> balanced anything p.
Proof. by apply balanced_weaken. Qed.

Section pool.
Context `{StorageCalm}.
Variable p : EmailProcessor.
Variables fuel rounds : nat.
#[local] Instance the_queue : Queue := router_queue fuel rounds.
#[local] Instance the_processor : Processor := Email.processor p.

#[local] Hint Extern 3 (balanced anything _) => apply anything_from_nothing;
  first [apply balanced_Nack|apply balanced_Requeue|apply balanced_Retry
        |apply balanced_router_Enqueue|apply balanced_email] : balanced.
#[local] Hint Resolve balanced_set_worker balanced_take_slot balanced_Preempt : balanced.

Lemma calm_cancel ctx : calm (modify (Context.cancel_in ctx)).
Proof. by apply calm_act_. Qed.
Lemma calm_WithTimeout d : calm (Context.WithTimeout d).
Proof. by apply calm_act_. Qed.
#[local] Hint Resolve calm_cancel calm_WithTimeout : calm.

Ltac queue_ops :=
  cbn [the_queue router_queue q_Enqueue q_Ack q_Nack q_SetProcessing q_Requeue q_Retry
       q_PendingCount q_DequeueOrWait the_processor Email.processor Worker.Process].

Lemma balanced_finish_job ctx j err : balanced anything (Pool.finish_job ctx j err).
Proof.
  unfold Pool.finish_job. queue_ops. unfold Router.Requeue, Router.Nack, Router.Ack, MemoryQueue.Ack.
  balanced_tac.
Qed.
#[local] Hint Resolve balanced_finish_job : balanced.

Lemma balanced_processJob id j : balanced anything (Pool.processJob id j).
Proof.
  unfold Pool.processJob. queue_ops. unfold Router.SetProcessing, MemoryQueue.SetProcessing.
  balanced_tac.
Qed.
#[local] Hint Resolve balanced_processJob : balanced.

Lemma balanced_worker_loop k id : balanced anything (Pool.worker_loop k id).
Proof.
  induction k as [|k IH]; [by intros w n _|]. cbn [Pool.worker_loop].
  apply balanced_bind; [|intros []; [exact IH|apply balanced_ret]].
  unfold Pool.worker_turn. queue_ops. balanced_tac.
Qed.

Lemma calm_death_signal id : calm (Pool.death_signal id).
Proof.
  unfold Pool.death_signal. apply calm_select_default, Forall_singleton.
  intros w x w'. cbv zeta. case_match; [|done]. by intros [= <- <-].
Qed.

(** [p.wg.Done()] and the count of the living. *)
Lemma own_pool_wg_done w n :
  own (kept n) (fun _ _ _ => False) Pool.wg_done w (n ⊎ {[+ Working +]}).
Proof.
  eapply (own_bind _ _ (fun _ (ok : bool) n' => ok = true /\ n' = n)).
  - apply own_act_. intros f s Hle Hs. cbv zeta. pose proof (ow_pool _ _ Hs) as [Hwg Hal Hop Hun].
    simpl in *. assert (0 < p_wg (w_pool s)) as Hpos by (rewrite Hwg; counting).
    rewrite (proj2 (Z.leb_gt _ _)) by done. exists n. unfold Pool.pool_map. cbn [fst snd].
    edestruct (owned_with_pool (Pool.with_wg (p_wg (w_pool s) - 1) (w_pool s)) (f ⊎ (n ⊎ {[+ Working +]})) (f ⊎ n) s)
      as [Hs' Hle']; [exact Hs|..|split_and!; [exact Hle'|exact Hs'|done..]]; [| |done].
    + intros x Hx. assert (x <> Working) by (intros ->; set_solver). counting.
    + split; simpl; try done.
      * rewrite Hwg. counting.
      * rewrite Hal. counting.
      * intros Hx. destruct Hop; [counting|]. split; [done|]. counting.
      * intros Hx. destruct Hun as (_ & Hno & _); [counting|]. exfalso. revert Hno. counting.
  - intros w1 ok n1 _ [-> ->]. done.
Qed.

Lemma own_alive_up w n :
  own (fun _ _ n' => n' = n ⊎ {[+ Working +]} ⊎ {[+ Living +]}) (fun _ _ _ => False)
    (Pool.alive_add 1) w (n ⊎ {[+ Working +]}).
Proof.
  apply own_act_. intros f s Hle Hs. pose proof (ow_pool _ _ Hs) as [Hwg Hal Hop Hun].
  simpl in *. exists (n ⊎ {[+ Working +]} ⊎ {[+ Living +]}).
  edestruct (owned_with_pool (Pool.with_alive (p_aliveWorkers (w_pool s) + 1) (w_pool s))
    (f ⊎ (n ⊎ {[+ Working +]})) (f ⊎ (n ⊎ {[+ Working +]} ⊎ {[+ Living +]})) s)
    as [Hs' Hle']; [exact Hs|..|split_and!; [exact Hle'|exact Hs'|done..]]; [| |done].
  - intros x Hx. assert (x <> Living) by (intros ->; set_solver). counting.
  - split; simpl; try done.
    + rewrite Hwg. counting.
    + rewrite Hal. counting.
    + intros Hx. destruct Hop; [counting|]. split; [done|]. counting.
    + intros Hx. destruct Hun as (_ & Hno & _); [counting|]. exfalso. revert Hno. counting.
Qed.

Lemma own_alive_down w n :
  own (kept n) (fun _ _ _ => False) (Pool.alive_add (-1)) w (n ⊎ {[+ Living +]}).
Proof.
  apply own_act_. intros f s Hle Hs. pose proof (ow_pool _ _ Hs) as [Hwg Hal Hop Hun].
  simpl in *. exists n.
  edestruct (owned_with_pool (Pool.with_alive (p_aliveWorkers (w_pool s) + -1) (w_pool s))
    (f ⊎ (n ⊎ {[+ Living +]})) (f ⊎ n) s)
    as [Hs' Hle']; [exact Hs|..|split_and!; [exact Hle'|exact Hs'|done..]]; [| |done].
  - intros x Hx. assert (x <> Living) by (intros ->; set_solver). counting.
  - split; simpl; try done.
    + rewrite Hwg. counting.
    + rewrite Hal. counting.
    + intros Hx. destruct Hop; [counting|]. split; [done|]. counting.
    + intros Hx. destruct Hun as (? & ? & Hno & _); [counting|]. exfalso. revert Hno. counting.
Qed.

(** A worker gives back what it was started with, even when its loop panics. *)
Lemma own_worker k id w : queues_up w ->
  own (kept ∅) (fun _ _ _ => False) (Pool.worker k id) w {[+ Working +]}.
Proof.
  intros Hw. unfold Pool.worker. rewrite <- (gmultiset_disj_union_left_id {[+ Working +]}).
  eapply own_bind; [apply own_alive_up|]. intros w1 [] n1 Hle ->.
  eapply (own_defer _ _ (kept (∅ ⊎ {[+ Living +]})) _ (fun _ _ _ => False)).
  - eapply (own_defer _ _ (kept (∅ ⊎ {[+ Living +]} ⊎ {[+ Working +]})) _ (fun _ _ _ => False)).
    + eapply own_weaken with (E := kept_panic nothing _); [|intros w2 a n2 _ Hn; exact Hn|by intros ? ? ? ? []].
      assert (balanced nothing (Pool.recoverWorker (defer_ (Pool.death_signal id) (Pool.worker_loop k id)))) as Hb.
      { unfold Pool.recoverWorker. apply (balanced_catch anything); try (intros; apply balanced_ret).
        apply balanced_defer; [apply balanced_calm, calm_death_signal|apply balanced_worker_loop]. }
      replace (∅ ⊎ {[+ Working +]} ⊎ {[+ Living +]})
        with ((∅ : gmultiset token) ⊎ {[+ Living +]} ⊎ {[+ Working +]}) by multiset_solver.
      apply Hb. by eapply queues_up_mono.
    + intros w2 a n2 _ ->. apply own_pool_wg_done.
    + by intros.
  - intros w2 a n2 _ ->. apply own_alive_down.
  - by intros.
Qed.

(** The pool has been made, with slices of length [m]. *)
Definition pool_up (m : nat) w : Prop :=
  m <> 0%nat /\ length (p_workers (w_pool w)) = m /\ length (p_preemptSignal (w_pool w)) = m /\
  p_count (w_pool w) = Z.of_nat m.

Lemma pool_up_mono m w w' : owned_le w w' -> pool_up m w -> pool_up m w'.
Proof.
  intros (_ & _ & _ & Hp) (Hm & Hw & Hs & Hc).
  destruct Hp as (Hw' & Hs' & Hc'); [simpl in *; congruence|].
  simpl in *. split_and!; congruence.
Qed.

(** [p.wg.Add(1)] for a worker about to be started, the slices keeping their
    lengths. *)
Lemma owned_start f m p0 n w :
  pool_up m w -> owned (f ⊎ n) w ->
  view_pool p0 = mkPoolView m m (Z.of_nat m) (p_wg (w_pool w) + 1) (p_aliveWorkers (w_pool w)) (p_done (w_pool w)) ->
  owned (f ⊎ (n ⊎ {[+ Working +]})) (with_pool p0 w) /\ owned_le w (with_pool p0 w).
Proof.
  intros (Hm & Hw & Hsig & Hcount) Hs Hv. pose proof (ow_pool _ _ Hs) as [Hwg Hal Hop Hun]. simpl in *.
  eapply owned_with_pool; [exact Hs|..].
  - intros x Hx. assert (x <> Working) by (intros ->; set_solver). counting.
  - rewrite Hv. split; simpl; try done.
    + rewrite Hwg. counting.
    + rewrite Hal. counting.
    + intros Hx. destruct Hop; [counting|]. split; [done|]. counting.
    + intros Hx. destruct Hun as (Hno & _); [counting|]. congruence.
  - intros _. rewrite Hv. simpl. by rewrite Hw, Hsig, Hcount.
Qed.

Lemma own_supervise_turn m k w : queues_up w -> pool_up m w ->
  own (kept ∅) (fun _ _ _ => False) (Pool.supervise_turn k) w ∅.
Proof.
  intros Hw Hp. unfold Pool.supervise_turn.
  eapply own_bind; [apply (own_calm _ (kept ∅)); [|done]|].
  { apply calm_select. apply Forall_cons; split; [|apply Forall_singleton];
      intros w1 x w2; [unfold Pool.case_pool_done|unfold Pool.case_died; cbv zeta];
      case_match; [|done|done|]; by intros [= <- <-]. }
  intros w1 [|id] n1 Hle1 ->; [done|].
  eapply own_bind; [by apply (own_calm _ (kept ∅)); [calm_tac|]|]. intros w2 t n2 Hle2 ->.
  eapply own_bind; [apply (own_calm _ (kept ∅)); [|done]|].
  { apply calm_select. apply Forall_cons; split; [apply calm_after|]. apply Forall_singleton.
    intros w3 x w4. case_match; [|done]. by intros [= <- <-]. }
  intros w3 [] n3 Hle3 ->; [|done].
  assert (owned_le w w3) as Hle by (by etrans; [|etrans]).
  assert (queues_up w3) as Hw3 by (by eapply queues_up_mono).
  assert (pool_up m w3) as Hp3 by (by eapply pool_up_mono).
  eapply (own_bind _ _ (fun w' _ n' => n' = ∅ ⊎ {[+ Working +]})).
  - apply own_act_. intros f s Hle4 Hs. exists (∅ ⊎ {[+ Working +]}).
    assert (pool_up m s) as Hps by (by eapply pool_up_mono).
    edestruct (owned_start f m (Pool.with_wg (p_wg (w_pool s) + 1) (w_pool s)) ∅ s)
      as [Hs' Hle']; [done|done| |split_and!; [exact Hle'|exact Hs'|done]].
    unfold view_pool. simpl. by destruct Hps as (_ & -> & -> & ->).
  - intros w4 [] n4 Hle4 ->. eapply (own_bind _ _ (kept ∅)); [|by intros w5 ? n5 _ ->].
    eapply (own_go _ _ _ _ _ _ _ {[+ Working +]} ∅); [multiset_solver| |done].
    eapply own_weaken; [apply own_worker; by eapply queues_up_mono|done|by intros].
Qed.

Lemma own_supervise m k l w : queues_up w -> pool_up m w ->
  own (kept ∅) (fun _ _ _ => False) (Pool.supervise k l) w ∅.
Proof.
  revert w. induction l as [|l IH]; intros w Hw Hp; [done|]. cbn [Pool.supervise].
  eapply own_bind; [by eapply own_supervise_turn|]. intros w1 [] n1 Hle ->; [|done].
  apply IH; [by eapply queues_up_mono|by eapply pool_up_mono].
Qed.

Lemma own_NewPool k (d c : Z) w n :
  0 < k ->
  own (fun w' _ n' => pool_up (Z.to_nat k) w' /\ n' = n ⊎ {[+ PoolOpen +]})
    (fun _ _ _ => False) (Pool.NewPool k d c) w (n ⊎ {[+ PoolUnmade +]}).
Proof.
  intros Hk. unfold Pool.NewPool. rewrite (proj2 (Z.ltb_ge _ _)) by lia. cbv zeta.
  apply own_act_. intros f s Hle Hs. cbn [fst snd].
  pose proof (ow_pool _ _ Hs) as [Hwg Hal Hop Hun]. simpl in *.
  destruct Hun as (Hw & Hno & Hno' & Hpo & Hone); [counting|].
  exists (n ⊎ {[+ PoolOpen +]}).
  edestruct (owned_with_pool (mkPool k d c 0 false (replicate (Z.to_nat k) None)
    (replicate (Z.to_nat k) None) (replicate (Z.to_nat k) None) (make_chan (Z.to_nat k)) 0)
    (f ⊎ (n ⊎ {[+ PoolUnmade +]})) (f ⊎ (n ⊎ {[+ PoolOpen +]})) s)
    as [Hs' Hle']; [exact Hs|..|split; [exact Hle'|split; [exact Hs'|]]].
  - intros x Hx. assert (x <> PoolOpen) by (intros ->; set_solver).
    assert (x <> PoolUnmade) by (intros ->; set_solver). counting.
  - split; simpl; counting.
  - intros Hx. done.
  - split; [|done]. split_and!; simpl; rewrite ?length_replicate; lia.
Qed.

Lemma own_start_slot m i w n : queues_up w -> pool_up m w -> (i < m)%nat ->
  own (fun _ _ n' => n' = n ⊎ {[+ Working +]}) (fun _ _ _ => False) (Pool.start_slot i) w n.
Proof.
  intros Hw Hp Hi. unfold Pool.start_slot.
  eapply (own_bind _ _ (fun _ (ok : bool) n' => ok = true /\ n' = n ⊎ {[+ Working +]})).
  - apply own_act_. intros f s Hle Hs. cbv zeta. assert (pool_up m s) as Hps by (by eapply pool_up_mono).
    pose proof Hps as (_ & Hlw & Hls & Hc). rewrite Hlw, Hls, (proj2 (Nat.ltb_lt _ _)) by done.
    exists (n ⊎ {[+ Working +]}). cbn [andb fst snd].
    edestruct (owned_start f m (Handlers.slot_started i (w_pool s)) n s)
      as [Hs' Hle']; [done|done| |split_and!; [exact Hle'|exact Hs'|done..]].
    unfold view_pool. simpl. by rewrite !length_insert, Hlw, Hls, Hc.
  - intros w1 ok n1 _ [-> ->]. done.
Qed.

Lemma own_start_workers m k i l w n : queues_up w -> pool_up m w -> (i + l <= m)%nat ->
  own (kept n) (fun _ _ _ => False) (Pool.start_workers k i l) w n.
Proof.
  revert i w. induction l as [|l IH]; intros i w Hw Hp Hi; [done|]. cbn [Pool.start_workers].
  eapply own_bind; [eapply own_start_slot; [done..|lia]|]. intros w1 [] n1 Hle1 ->.
  eapply (own_bind _ _ (kept n)).
  - eapply (own_go _ _ _ _ _ _ _ {[+ Working +]} n); [multiset_solver| |done].
    eapply own_weaken; [apply own_worker; by eapply queues_up_mono|done|by intros].
  - intros w2 [] n2 Hle2 ->. apply IH; [..|lia].
    + eapply queues_up_mono; [|exact Hw]. by etrans.
    + eapply pool_up_mono; [|exact Hp]. by etrans.
Qed.

Lemma own_Start m k w n : queues_up w -> pool_up m w ->
  own (kept n) (fun _ _ _ => False) (Pool.Start k) w n.
Proof.
  intros Hw Hp. unfold Pool.Start.
  eapply (own_bind _ _ (fun w' c n' => (queues_up w' /\ pool_up m w' /\ c = Z.of_nat m) /\ n' = n)).
  - apply own_act_. intros f s Hle Hs. exists n. split_and!; try done.
    + by eapply queues_up_mono.
    + by eapply pool_up_mono.
    + by destruct (pool_up_mono m w s Hle Hp) as (_ & _ & _ & ?).
  - intros w1 c n1 _ [(Hw1 & Hp1 & ->) ->]. rewrite Nat2Z.id.
    eapply own_bind; [by eapply own_start_workers|]. intros w2 [] n2 Hle2 ->.
    eapply (own_go _ _ _ _ _ _ _ ∅ n); [multiset_solver| |done].
    eapply own_weaken; [eapply own_supervise|done|by intros];
      [by eapply queues_up_mono|by eapply pool_up_mono].
Qed.

Lemma own_Stop w n :
  own (kept n) (fun _ _ _ => False) Pool.Stop w (n ⊎ {[+ PoolOpen +]}).
Proof.
  eapply (own_bind _ _ (fun _ (ok : bool) n' => ok = true /\ n' = n)).
  - apply own_act_. intros f s Hle Hs. cbv zeta. pose proof (ow_pool _ _ Hs) as [Hwg Hal Hop Hun].
    simpl in *. destruct Hop as [Hd Hone]; [counting|]. rewrite Hd. exists n. cbn [fst snd].
    edestruct (owned_with_pool (mkPool (p_count (w_pool s)) (p_timeout (w_pool s))
      (p_cooldown (w_pool s)) (p_wg (w_pool s)) true (p_workers (w_pool s))
      (p_preemptQueue (w_pool s)) (p_preemptSignal (w_pool s)) (p_workerDied (w_pool s))
      (p_aliveWorkers (w_pool s))) (f ⊎ (n ⊎ {[+ PoolOpen +]})) (f ⊎ n) s)
      as [Hs' Hle']; [exact Hs|..|split_and!; [exact Hle'|exact Hs'|done..]]; [| |done].
    + intros x Hx. assert (x <> PoolOpen) by (intros ->; set_solver). counting.
    + split; simpl.
      * rewrite Hwg. counting.
      * rewrite Hal. counting.
      * intros Hx. exfalso. revert Hx Hone. counting.
      * intros Hx. destruct Hun as (? & ? & ? & Hno & ?); [counting|]. exfalso. revert Hno. counting.
  - intros w1 ok n1 _ [-> ->]. done.
Qed.

End pool.

(** ** The server *)

Section server.
Context `{StorageCalm} `{HttpLibs} `{Collector}.
Variables fuel rounds : nat.
#[local] Instance the_router : Queue := router_queue fuel rounds.

#[local] Hint Extern 3 (balanced anything _) => apply anything_from_nothing;
  first [apply balanced_Retry|apply balanced_router_Enqueue] : balanced.
#[local] Hint Resolve balanced_Preempt : balanced.

Ltac handler_tac :=
  cbn [the_router router_queue q_Enqueue q_Retry q_PendingCount];
  unfold Handler.new_uuid, Handler.writeError, Router.Retry, Router.PendingCount,
    MemoryQueue.PendingCount, SortedQueue.PendingCount, RateLimitedQueue.PendingCount,
    Pool.AliveWorkers, Pool.ExpectedWorkers in *; balanced_tac.

Lemma calm_new_uuid : calm Handler.new_uuid.
Proof. intros w u w'. case_match; [done|]. by intros [= <- <-]. Qed.

Lemma balanced_dispatch j : balanced anything (Handler.dispatch j).
Proof. unfold Handler.dispatch. handler_tac. Qed.

Lemma balanced_CreateJob req : balanced anything (Handler.CreateJob req).
Proof.
  pose proof calm_new_uuid. pose proof balanced_dispatch.
  unfold Handler.CreateJob, Handler.writeError. balanced_tac.
Qed.

Lemma balanced_RetryJob i : balanced anything (Handler.RetryJob i).
Proof. unfold Handler.RetryJob. handler_tac. Qed.

Lemma balanced_list_handler query msg : calm query -> balanced anything (Handler.list_handler query msg).
Proof. intros Hq. unfold Handler.list_handler. handler_tac. Qed.

(** A handler may panic: the server recovers, and the tokens are back. *)
Lemma balanced_ServeHTTP r : calm collect -> balanced nothing (Handler.ServeHTTP r).
Proof.
  intros Hcollect. unfold Handler.ServeHTTP.
  destruct (Handler.route _ _ _) as [[h params]|] eqn:Hr; [|apply balanced_ret].
  apply (balanced_catch anything); [|intros; apply balanced_ret..].
  assert (Forall (fun r : string * string *
      (gmap string string -> option CreateRequest -> M Response) =>
      forall params req, balanced anything (r.2 params req)) Handler.RegisterRoutes) as Hall.
  { unfold Handler.RegisterRoutes.
    repeat (apply Forall_cons; split; simpl; [intros ps req|]); [..|done].
    - apply balanced_CreateJob.
    - unfold Handler.GetJob. handler_tac.
    - unfold Handler.GetStats. handler_tac.
    - unfold Handler.Health. handler_tac.
    - apply balanced_list_handler. auto with calm.
    - apply balanced_ret.
    - apply balanced_list_handler. auto with calm.
    - apply balanced_list_handler. auto with calm.
    - unfold Handler.pending_by. handler_tac.
    - unfold Handler.pending_by. handler_tac.
    - unfold Handler.pending_by. handler_tac.
    - apply balanced_RetryJob.
    - unfold Handler.scrape. handler_tac.
    - unfold Handler.GetCounts. handler_tac. }
  revert Hr. clear Hcollect. induction Hall as [|[[m pat] h'] routes Hh _ IH]; simpl; [done|].
  repeat case_match; intros; simplify_eq; [apply Hh|by apply IH..].
Qed.

Lemma balanced_server k : calm collect -> balanced nothing (Handler.server k).
Proof.
  intros Hcollect. induction k as [|k IH]; [by intros w n _|]. cbn [Handler.server].
  apply balanced_bind.
  { apply balanced_calm. intros w r w'. repeat case_match; try done; by intros [= <- <-]. }
  intros [r|]; [|apply balanced_ret]. apply balanced_bind; [|done].
  apply balanced_go, balanced_bind; [by apply balanced_ServeHTTP|]. intros. apply balanced_ret.
Qed.
End server.

(** ** [main] *)

(** A configuration with a usable rate and a number of workers whose tenfold
    fits an [int]. *)
Definition usable (cfg : Config) : Prop :=
  0 < Workers (cfg_Queue cfg) /\ Workers (cfg_Queue cfg) * 10 <= int64_max /\
  0 < RateLimitedQueue.refill_interval (EmailsPerMinute (cfg_RateLimit cfg)).

Section main.
Context `{StorageCalm} `{HttpLibs} `{Collector}.
Variable p : EmailProcessor.
Variables fuel rounds turns : nat.
#[local] Instance the_mailer : Processor := Email.processor p.

(** What [main] has before and after it has made the queues and the pool. *)
Definition before_launch : gmultiset token :=
  {[+ PoolUnmade +]} ⊎ {[+ Unmade RateLimitedRef +]} ⊎ {[+ Unmade FIFORef +]}.
Definition after_launch : gmultiset token := {[+ PoolOpen +]} ⊎ {[+ Refilling +]}.

Lemma own_go_balanced {A} (c : M unit) (rest : M A) Q E w n :
  balanced nothing c -> queues_up w ->
  (forall w', owned_le w w' -> own Q E rest w' n) -> own Q E (go c;; rest) w n.
Proof.
  intros Hc Hw Hrest. eapply (own_bind _ _ (kept n)).
  - eapply (own_go _ _ _ _ _ _ _ ∅ n); [multiset_solver|by apply balanced_child|done].
  - intros w1 [] n1 Hle ->. by apply Hrest.
Qed.

Lemma own_launch cfg w : usable cfg ->
  own (fun w' _ n' => queues_up w' /\ n' = after_launch) (fun _ _ _ => False)
    (launch fuel rounds turns cfg) w before_launch.
Proof.
  intros (Hk & Hmax & Hi). unfold launch, register_counters.
  rewrite wrap64_id by (unfold int64_min; lia).
  eapply own_bind; [apply (own_calm _ (kept before_launch)); [calm_tac|done]|].
  intros w1 [] n1 _ ->. eapply own_bind; [apply own_NewMemoryQueue; lia|].
  intros w2 [] n2 _ [Hup ->].
  eapply (own_bind _ _ (fun w' _ n' => queue_up FIFORef w' /\ n' = {[+ PoolUnmade +]} ⊎ {[+ Unmade RateLimitedRef +]})).
  { apply own_calm; [by apply calm_act_|]. intros w' a Hle. split; [|done].
    destruct (get_queue_le FIFORef w2 w' Hle Hup) as [Hc _].
    unfold queue_up in *. simpl in *. congruence. }
  intros w3 [] n3 _ [Hup3 ->]. eapply own_bind; [apply own_NewRateLimitedQueue; [lia|done..]|].
  intros w4 [] n4 _ [Hw4 ->].
  assert (0 < 5 * Minute) as Hmin by (unfold Minute, Second; lia).
  apply own_go_balanced; [by apply balanced_every, balanced_sweep|done|]. intros w5 Hle5.
  assert (queues_up w5) as Hw5 by (by eapply queues_up_mono).
  apply own_go_balanced; [by apply balanced_every, balanced_calm, calm_prio_sweep|done|]. intros w6 Hle6.
  assert (queues_up w6) as Hw6 by (by eapply queues_up_mono).
  apply own_go_balanced; [by apply balanced_every, balanced_sweep|done|]. intros w7 Hle7.
  assert (queues_up w7) as Hw7 by (by eapply queues_up_mono).
  replace ({[+ PoolUnmade +]} ⊎ {[+ Refilling +]})
    with ({[+ Refilling +]} ⊎ {[+ PoolUnmade +]} : gmultiset token) by multiset_solver.
  eapply own_bind; [by apply own_NewPool|]. intros w8 [] n8 Hle8 [Hp ->].
  assert (queues_up w8) as Hw8 by (by eapply queues_up_mono).
  eapply own_weaken; [by eapply own_Start|..|done].
  intros w9 [] n9 Hle9 ->. split; [by eapply queues_up_mono|].
  unfold after_launch. multiset_solver.
Qed.

Lemma own_shutdown w : queues_up w ->
  own (fun _ _ _ => True) (fun _ m _ => startup_failure m) shutdown w after_launch.
Proof.
  intros Hw. unfold shutdown, server_shutdown.
  eapply own_bind; [apply (own_calm _ (kept after_launch)); [by apply calm_act_|done]|].
  intros w1 [] n1 Hle1 ->. eapply own_bind.
  { eapply own_weaken; [apply own_router_Close; by eapply queues_up_mono|intros ? ? ? _ Hn; exact Hn|done]. }
  intros w2 a n2 Hle2 ->. rewrite <- (gmultiset_disj_union_left_id {[+ PoolOpen +]}).
  eapply own_bind; [eapply own_weaken; [apply own_Stop|intros ? ? ? _ Hn; exact Hn|done]|].
  intros w3 [] n3 _ ->. apply own_calm; [|done].
  intros w4 x w5. case_match; [|done]. by intros [= <- <-].
Qed.

Lemma own_serve cfg w : usable cfg -> calm collect ->
  own (fun _ _ _ => True) (fun _ m _ => startup_failure m)
    (serve fuel rounds turns cfg) w before_launch.
Proof.
  intros Hcfg Hcollect. unfold serve, boot.
  eapply (own_bind _ _ (fun w' _ n' => queues_up w' /\ n' = after_launch)).
  - eapply own_bind; [eapply own_weaken; [by apply own_launch|intros ? ? ? _ Hn; exact Hn|done]|].
    intros w1 [] n1 _ [Hw1 ->]. unfold recover_and_serve.
    eapply own_bind; [by apply (own_calm _ (kept after_launch)); [calm_tac|]|].
    intros w2 t n2 Hle2 ->. assert (queues_up w2) as Hw2 by (by eapply queues_up_mono).
    eapply own_bind.
    { eapply own_weaken; [by apply balanced_router_Recover|intros ? ? ? _ Hn; exact Hn|by intros ? ? ? ? []]. }
    intros w3 [e|] n3 Hle3 ->; [right; right; left|].
    assert (queues_up w3) as Hw3 by (by eapply queues_up_mono).
    eapply own_weaken with (E := kept_panic nothing after_launch) (Q := fun w' _ n' => queues_up w' /\ n' = after_launch);
      [|intros ? ? ? _ Hn; exact Hn|by intros ? ? ? ? []].
    eapply own_bind; [by apply (own_calm _ (kept after_launch)); [calm_tac|]|].
    intros w4 t' n4 Hle4 ->. eapply own_bind; [by apply (own_calm _ (kept after_launch)); [calm_tac|]|].
    intros w5 [] n5 Hle5 ->.
    assert (queues_up w5) as Hw5 by (do 2 (eapply queues_up_mono; [eassumption|]); done).
    eapply (own_go _ _ _ _ _ _ _ ∅); [symmetry; apply gmultiset_disj_union_left_id| |done].
    apply balanced_child; [by apply balanced_server|done].
  - intros w1 [] n1 _ [Hw1 ->]. eapply own_bind.
    { apply (own_calm _ (fun w' _ n' => queues_up w' /\ n' = after_launch)).
      - intros w2 x w3. repeat case_match; try done. by intros [= <- <-].
      - intros w2 a Hle. split; [by eapply queues_up_mono|done]. }
    intros w2 [] n2 _ [Hw2 ->]. by apply own_shutdown.
Qed.
End main.

(** The bounds on the configuration are those of the file. *)
Lemma own_main `{Viper} `{Platform} `{SqlDriver} `{HttpLibs} fuel rounds turns w :
  (forall cfg, LoadConfig "config.yaml" = inl cfg -> usable cfg) ->
  own (fun _ _ _ => True) (fun _ m _ => startup_failure m) (main fuel rounds turns) w before_launch.
Proof.
  intros Hcfg. unfold main. destruct (LoadConfig _) as [cfg|e]; [|left].
  eapply own_bind.
  { apply (own_calm _ (kept before_launch)); [apply calm_open_storage|done]. }
  intros w1 [e|] n1 _ ->; [right; left|]. apply own_serve; [by apply Hcfg|].
  unfold collect. simpl. unfold QueueDepthCollector.Collect. calm_tac.
Qed.

Lemma owned_fresh w : token_view w =
    (mkQueueView 0 0 false false, mkQueueView 0 0 false false, false, rq_rate (w_rl w),
     mkPoolView 0 0 0 0 0 false) -> owned before_launch w.
Proof.
  unfold token_view. rewrite !pair_equal_spec. intros [[[[Hf Hl] Hs] _] Hp]. unfold before_launch.
  split; rewrite ?Hf, ?Hl, ?Hs, ?Hp; [split; simpl; counting..|counting|counting|split; simpl; counting].
Qed.
