(* ===== verification/System.v ===== *)
(** * The running process

    [main] is the only goroutine there is at first; every other is started by
    one that runs.  The theorems hold of every configuration of goroutines and
    state that can be reached in any interleaving, from any table an earlier
    process left, with any configuration file, whichever statements the
    database refuses, whatever requests arrive and whatever the mail server
    answers. *)

From stdpp Require Import gmultiset.
From S2P Require Import Prelude Go Models ReferencePlatform World Metrics Sql Storage Invariant.
From S2P Require Import Backend Sqlite Config MemoryQueue SortedQueue RateLimitedQueue Router.
From S2P Require Import Queue Worker Email QueueDepth Api Database Main Examples Handlers.
From S2P Require Import Tokens Ownership NoCrash.

Module System.

(** What comes from outside. *)
Record outside : Type := mkOutside {
  o_faults : list bool;
  o_coins : list nat;
  o_requests : list Request;
  o_signal : option Z;
  o_answers : list answer;
}.

Definition arriving (o : outside) (w : World) : World :=
  with_net (mkNet (o_answers o) [] [])
    (with_signal (o_signal o)
      (with_requests (o_requests o)
        (with_coins (o_coins o) (with_faults (o_faults o) w)))).

Section system.
Context `{Viper} `{PlatformLaws} `{SqlDriver} `{HttpLibs}.

(** The bounds of the loops. *)
Variables fuel rounds turns : nat.

(** The configurations of a process: its goroutines and their shared state.
    [main] starts on any table the statements can have written. *)
Definition initial (c : list (M unit) * World) : Prop :=
  exists t db uuids o, table_ok db /\
    c = ([main fuel rounds turns], arriving o (fresh t db uuids)).

Lemma initial_inv t db uuids o : table_ok db -> sys_inv (arriving o (fresh t db uuids)).
Proof. intros [] % (fresh_inv t db uuids). by constructor. Qed.

Definition reachable (c : list (M unit) * World) : Prop :=
  exists c0, initial c0 /\ sys_steps c0 c.

Lemma reachable_steps c c' : reachable c -> sys_steps c c' -> reachable c'.
Proof. intros (c0 & Hc0 & Hs) Hs'. exists c0. split; [done|]. by etrans. Qed.

(** One of the goroutines runs as far as it can without interruption. *)
Lemma reachable_run ts w p ps :
  reachable (ts, w) -> p :: ps ⊆+ ts ->
  exists ts', sys_steps (ts, w) (ts', final_state (run alone p w)) /\
    reachable (ts', final_state (run alone p w)) /\ ps ++ spawned alone p w ⊆+ ts'.
Proof.
  intros Hc Hsub.
  assert (p ∈ ts) as (l1 & l2 & ->)%list_elem_of_split by (eapply elem_of_submseteq; [by left|done]).
  destruct (run_sys_steps (l1 ++ p :: l2) w (length l1) p) as [p' Hsteps];
    [by rewrite list_lookup_middle|].
  eexists. split; [exact Hsteps|]. split; [by eapply reachable_steps|].
  apply submseteq_app; [|done]. rewrite insert_app_r_alt, Nat.sub_diag by done.
  assert (ps ⊆+ l1 ++ l2) as Hps.
  { rewrite <- Permutation_middle in Hsub. by apply (submseteq_app_inv_l ps (l1 ++ l2) [p]) in Hsub. }
  etrans; [exact Hps|]. apply submseteq_app; [done|]. by apply submseteq_cons.
Qed.

(** Or for a number of actions. *)
Fixpoint advance (n : nat) (p : M unit) (w : World) : M unit * World :=
  match n, p with
  | S n, Act act k => match act w with Go x w' => advance n (k x) w' | Park _ => (p, w) end
  | _, _ => (p, w)
  end.

Lemma reachable_advance n ts w p : reachable (ts, w) -> p ∈ ts ->
  exists ts', reachable (ts', (advance n p w).2).
Proof.
  intros Hc [i Hi]%list_elem_of_lookup. revert ts w p Hc Hi.
  induction n as [|n IH]; intros ts w p Hc Hi; [by exists ts|].
  destruct p as [| | |X act k|]; simpl; try by exists ts.
  destruct (act w) as [x w'|] eqn:Hact; [|by exists ts].
  apply (IH (<[i := k x]> ts)).
  - eapply reachable_steps; [exact Hc|]. eapply rtc_once, sys_act; [exact Hi|]. by apply act_step_go.
  - apply list_lookup_insert_eq. by eapply lookup_lt_Some.
Qed.

Lemma reachable_inv c : reachable c ->
  Forall (goroutine_safe sys_protocol c.2) c.1 /\ sys_inv c.2.
Proof.
  intros (c0 & (t & db & uuids & o & Hdb & ->) & Hs).
  edestruct (safe_sys sys_protocol) as (? & ? & _); [exact Hs| |by apply initial_inv|done].
  constructor; [|done]. eexists. split; [done|].
  eapply safe_weaken; [|apply main_safe]. done.
Qed.

Lemma reachable_le c c' : reachable c -> sys_steps c c' -> sys_le c.2 c'.2.
Proof.
  intros Hc Hs. destruct (reachable_inv c Hc) as [Hts Hw].
  edestruct (safe_sys sys_protocol) as (_ & _ & ?); [exact Hs|done..].
Qed.

(** C1: no interleaving loses a job.  Once a job has a row, every later state
    of the process has a row under its id, with the id, type, payload, queue,
    priority and creation time it was submitted with, a retry budget that is
    not smaller, and a processing time that is never taken back. *)
Theorem jobs_never_lost ts w ts' w' i r :
  reachable (ts, w) -> sys_steps (ts, w) (ts', w') -> w_db w !! i = Some r ->
  exists r', w_db w' !! i = Some r' /\ row_le r r'.
Proof. intros Hc Hs Hr. by apply (reachable_le _ _ Hc Hs). Qed.

(** C2: a job is persisted before it is delivered.  Whatever the queues, the
    preemption slots and the workers hold has a row in the table, with a status
    the schema allows. *)
Theorem persisted_before_delivered ts w j :
  reachable (ts, w) -> j ∈ held w ->
  exists r, w_db w !! ID j = Some r /\ id r = ID j /\ valid_status (status r) = true.
Proof.
  intros [_ Hw]%reachable_inv Hj. pose proof (inv_held _ Hw) as Hh.
  rewrite Forall_forall in Hh. destruct (Hh j Hj) as [r Hr].
  exists r. split; [done|]. by apply (inv_db _ Hw).
Qed.

(** C4: the slice of the priority queue is ordered by priority and creation
    time in every reachable state, so its head is a job none other precedes. *)
Theorem priority_queue_sorted ts w :
  reachable (ts, w) -> StronglySorted (fun x y => job_before x y = true) (sq_jobs (w_prio w)).
Proof. intros [_ Hw]%reachable_inv. apply Hw. Qed.

(** C29: a worker that shows a job also shows the cancel function of a context
    that exists, and the slots of the pool fit its workers: what [Preempt]
    relies on when it calls [w.cancel()] and indexes [preemptQueue]. *)
Theorem pool_slots_fit ts w i s j :
  reachable (ts, w) -> p_workers (w_pool w) !! i = Some (Some s) -> currentJob s = Some j ->
  (exists k, cancel s = Some k /\ (k < length (w_ctxs w))%nat) /\
  is_Some (p_preemptQueue (w_pool w) !! i) /\
  Z.of_nat i < p_count (w_pool w).
Proof.
  intros [_ Hw]%reachable_inv Hs Hj. pose proof (lookup_lt_Some _ _ _ Hs) as Hlt. split_and!.
  - eapply (proj1 (Forall_lookup _ _) (inv_workers _ Hw)); [exact Hs|done|by exists j].
  - apply lookup_lt_is_Some. by rewrite (inv_slots w Hw).
  - rewrite (inv_count w Hw). lia.
Qed.

(** The token bucket never holds more than its burst, and never a negative
    number of tokens unless the burst itself is negative. *)
Theorem tokens_bounded ts w :
  reachable (ts, w) ->
  Z.min 0 (rq_burst (w_rl w)) <= rq_tokens (w_rl w) <= rq_burst (w_rl w).
Proof. intros [_ Hw]%reachable_inv. apply Hw. Qed.

Lemma initial_owns c : initial c ->
  (forall cfg, LoadConfig "config.yaml" = inl cfg -> usable cfg) ->
  all_own ownership startup_failure c.
Proof.
  intros (t & db & uuids & o & _ & ->) Hcfg. exists [before_launch]. split.
  - apply Forall2_cons; split; [|done]. eexists. split; [done|]. by apply own_main.
  - simpl. replace (before_launch ⊎ ∅) with before_launch by multiset_solver. by apply owned_fresh.
Qed.

Lemma reachable_owns c : reachable c ->
  (forall cfg, LoadConfig "config.yaml" = inl cfg -> usable cfg) ->
  all_own ownership startup_failure c.
Proof. intros (c0 & Hc0 & Hs) Hcfg. eapply own_sys; [exact Hs|by apply initial_owns]. Qed.


(** C6: a queue is closed once nobody sends.  The channel of a queue is closed only
    after [Close] was called and while no [Enqueue] is under way, and the wait
    groups of the queues and of the pool are never negative. *)
Theorem closed_when_drained ts w q :
  (forall cfg, LoadConfig "config.yaml" = inl cfg -> usable cfg) ->
  reachable (ts, w) ->
  (ch_closed (mq_jobs (get_mq q w)) = true ->
    mq_closed (get_mq q w) = true /\ mq_wg (get_mq q w) = 0) /\
  0 <= mq_wg (get_mq q w) /\ 0 <= p_wg (w_pool w) /\ 0 <= p_aliveWorkers (w_pool w).
Proof.
  intros Hcfg (ns & _ & Hs)%reachable_owns; [|done]. simpl in Hs.
  destruct (get_queue_owned q _ _ Hs) as [Hwg Hopen _ Hdr _].
  destruct (ow_pool _ _ Hs) as [Hpwg Hal _ _]. simpl in *. split_and!; [|lia..].
  intros Hc. split; [|by apply Hdr].
  destruct (mq_closed _); [done|]. by destruct (Hopen eq_refl) as [? _]; congruence.
Qed.

End system.

(** ** The server starts a goroutine for each request *)

Section server.
Context `{Storage} `{Queue} `{HttpLibs} `{Collector}.

Lemma server_executes n rs w :
  w_requests w = rs -> w_srvclosed w = false -> (length rs < n)%nat ->
  executes alone (Handler.server n) w (Blocked (with_requests [] w))
    ((fun r => Handler.ServeHTTP r;; Ret tt) <$> rs).
Proof.
  revert rs w. induction n as [|n IH]; intros rs w Hrs Hopen Hn; [lia|]. cbn [Handler.server].
  assert (executes alone Handler.accept w
    (match rs with
     | [] => Blocked (with_requests [] w)
     | r :: rs => Done (Some r) (with_requests rs w)
     end) []) as [Hrun Hsp].
  { split; cbn; rewrite Hopen, Hrs; destruct rs; cbn; rewrite ?Hopen, ?Hrs; try done.
    unfold alone. simpl. rewrite <- Hrs. by destruct w. }
  destruct rs as [|r rs]; [split; by rewrite ?run_bind, ?spawned_bind, Hrun, ?Hsp|].
  eapply (executes_bind _ _ _ _ _ _ _ [] _); [by split|].
  eapply (executes_bind _ _ _ _ _ _ _ [_] _); [apply executes_go|].
  apply (IH rs (with_requests rs w)); [done|done|simpl in *; lia].
Qed.
End server.

(** ** On a concrete process *)

Import Examples.

(** The processor of that configuration. *)
Definition the_mailer : EmailProcessor := main_processor config.
Definition the_worker (id : nat) : M unit := @Pool.worker queue (Email.processor the_mailer) turns id.
Definition the_boot : M unit :=
  @boot lite (Email.processor the_mailer) _ _ fuel rounds turns config.
Notation reached := (reachable fuel rounds turns).

Lemma the_boot_runs : run alone the_boot launched = Done tt booted.
Proof. vm_compute. reflexivity. Qed.

Lemma opens : executes alone (open_storage (cfg_Database config)) launched (Done None launched) [].
Proof. split; vm_compute; reflexivity. Qed.

Definition after_boot : M unit := wait_for_signal;; shutdown.

Lemma reached_booted : exists ts, reached (ts, booted) /\
  [after_boot; Handler.server turns; the_worker 0] ⊆+ ts.
Proof.
  pose (pre := spawned alone Router.Recover (Handlers.booting config launched)).
  assert (executes alone the_boot launched (Done tt booted)
    (@Handlers.background lite (Email.processor the_mailer) fuel rounds turns config ++ pre ++
     [Handler.server turns])) as Hboot.
  { split; [exact the_boot_runs|]. eapply Handlers.boot_spawns; [by vm_compute..|exact the_boot_runs]. }
  assert (sys_steps ([main fuel rounds turns], launched)
    ([the_boot;; after_boot], launched)) as Hopen.
  { exact (bind_sys_steps [main fuel rounds turns] launched 0 _
      (fun err => match err with
                  | Some _ => Throw "Failed to initialize storage"
                  | None => the_boot;; after_boot
                  end) _ _ _ eq_refl opens). }
  eexists. split.
  - eexists. split.
    + exists 1000000, ∅, uuids, (mkOutside [] [] posts (Some signal_at) []). split; [by intros ? ? ?|]. reflexivity.
    + etrans; [exact Hopen|].
      exact (bind_sys_steps [the_boot;; after_boot] launched 0 the_boot (fun _ => after_boot)
        tt booted _ eq_refl Hboot).
  - cbn [insert list_insert app]. apply submseteq_skip. rewrite Permutation_swap.
    do 4 apply submseteq_cons. apply submseteq_skip. do 2 apply submseteq_cons.
    apply submseteq_inserts_l. done.
Qed.

(** One more goroutine has run, the others still have to. *)
Lemma reached_next ts w p ps : reached (ts, w) -> p :: ps ⊆+ ts ->
  exists ts', reached (ts', final_state (run alone p w)) /\ ps ⊆+ ts'.
Proof.
  intros Hts Hsub. destruct (reachable_run fuel rounds turns ts w p ps Hts Hsub)
    as (ts' & _ & Hr & Hsub').
  exists ts'. split; [exact Hr|]. etrans; [|exact Hsub']. by apply submseteq_inserts_r.
Qed.

(** The server has taken the three requests, and they have been answered. *)
Lemma reached_three : exists ts, reached (ts, with_three_jobs) /\ [the_worker 0] ⊆+ ts.
Proof.
  destruct reached_booted as (ts & Hts & Hsub).
  assert ([Handler.server turns; the_worker 0] ⊆+ ts) as Hsub'
    by (etrans; [|exact Hsub]; by apply submseteq_cons). clear Hsub. rename Hsub' into Hsub.
  destruct (reachable_run fuel rounds turns ts booted _ _ Hts Hsub) as (ts0 & _ & Hts0 & Hsub0).
  destruct (server_executes turns posts booted) as [_ Hsp]; [by vm_compute..|simpl; unfold turns; lia|].
  rewrite Hsp, (Permutation_app_comm [_]) in Hsub0.
  destruct (reached_next _ _ _ _ Hts0 Hsub0) as (ts1 & Hts1 & Hsub1).
  destruct (reached_next _ _ _ _ Hts1 Hsub1) as (ts2 & Hts2 & Hsub2).
  destruct (reached_next _ _ _ _ Hts2 Hsub2) as (ts3 & Hts3 & Hsub3).
  exists ts3. split; [exact Hts3|exact Hsub3].
Qed.

(** A worker takes the jobs, the priority job first; they have no address. *)
Definition after_work : World := final_state (run alone (the_worker 0) with_three_jobs).

Lemma work_steps : exists ts ts', reached (ts, with_three_jobs) /\
  sys_steps (ts, with_three_jobs) (ts', after_work).
Proof.
  destruct reached_three as (ts & Hts & Hsub).
  destruct (reachable_run fuel rounds turns ts _ _ _ Hts Hsub) as (ts' & Hs & _). by exists ts, ts'.
Qed.

Definition row_b : Row := mkRow "b" "email" "{" "priority" 2 StatusPending 0 3 1000000 1000000 None None.

Lemma jobs_never_lost_witness : exists r',
  w_db with_three_jobs !! "b" = Some row_b /\ w_db after_work !! "b" = Some r' /\
  status r' = StatusFailed /\ row_le row_b r'.
Proof.
  destruct work_steps as (ts & ts' & Hts & Hs).
  assert (w_db with_three_jobs !! "b" = Some row_b) as Hb by (by vm_compute).
  destruct (jobs_never_lost fuel rounds turns ts with_three_jobs ts' after_work "b" row_b
    Hts Hs Hb) as (r' & Hr' & Hle).
  assert (status <$> w_db after_work !! "b" = Some StatusFailed) as Hst by (by vm_compute).
  rewrite Hr' in Hst. injection Hst as Hst.
  exists r'. exact (conj Hb (conj Hr' (conj Hst Hle))).
Defined.

Lemma persisted_before_delivered_witness : exists r,
  job "c" "rate-limited" 1 1000000 ∈ held with_three_jobs /\
  w_db with_three_jobs !! "c" = Some r.
Proof.
  destruct reached_three as (ts & Hts & _).
  assert (job "c" "rate-limited" 1 1000000 ∈ held with_three_jobs) as Hj.
  { apply list_elem_of_lookup. exists 2%nat. by vm_compute. }
  destruct (persisted_before_delivered fuel rounds turns ts with_three_jobs _ Hts Hj)
    as (r & Hr & _ & _).
  exists r. split; [exact Hj|exact Hr].
Defined.

Lemma priority_queue_sorted_witness :
  sq_jobs (w_prio with_three_jobs) = [job "b" "priority" 2 1000000] /\
  StronglySorted (fun x y => job_before x y = true) (sq_jobs (w_prio with_three_jobs)).
Proof.
  destruct reached_three as (ts & Hts & _). split; [by vm_compute|].
  apply (priority_queue_sorted fuel rounds turns ts with_three_jobs Hts).
Defined.

Lemma config_usable cfg : LoadConfig "config.yaml" = inl cfg -> usable cfg.
Proof. intros [= <-]. unfold usable. by vm_compute. Qed.

(** A driver that cannot open the database. *)
Definition broken_driver : SqlDriver := {| sql_open _ _ := Some (External "no such file") |}.


(** [main] has taken the signal and closed the queues; it waits for the workers. *)
Definition closing : World := final_state (run alone after_boot booted).

Lemma closed_when_drained_witness :
  ch_closed (mq_jobs (w_fifo closing)) = true /\ p_wg (w_pool closing) = 2 /\
  mq_closed (w_fifo closing) = true /\ mq_wg (w_fifo closing) = 0.
Proof.
  destruct reached_booted as (ts & Hts & Hsub).
  destruct (reached_next _ _ _ _ Hts Hsub) as (ts' & Hts' & _).
  assert (ch_closed (mq_jobs (w_fifo closing)) = true) as Hc by (by vm_compute).
  split; [exact Hc|]. split; [by vm_compute|].
  exact (proj1 (closed_when_drained fuel rounds turns ts' closing FIFORef config_usable Hts') Hc).
Defined.

Lemma tokens_bounded_witness :
  rq_burst (w_rl with_three_jobs) = 2 /\
  rq_tokens (w_rl with_three_jobs) <= rq_burst (w_rl with_three_jobs).
Proof.
  destruct reached_three as (ts & Hts & _). split; [by vm_compute|].
  apply (tokens_bounded fuel rounds turns ts with_three_jobs Hts).
Defined.

(** The worker in the middle of the priority job. *)
Definition during_work : World := (advance 25 (the_worker 0) with_three_jobs).2.

Lemma pool_slots_fit_witness :
  p_workers (w_pool during_work) !! 0%nat =
    Some (Some (mkWorkerState (Some (job "b" "priority" 2 1000000)) (Some 0%nat))) /\
  is_Some (p_preemptQueue (w_pool during_work) !! 0%nat).
Proof.
  destruct reached_three as (ts & Hts & Hsub).
  assert (the_worker 0 ∈ ts) as Hin by (eapply elem_of_submseteq; [by left|done]).
  destruct (reachable_advance fuel rounds turns 25 ts _ _ Hts Hin) as (ts' & Hr).
  assert (p_workers (w_pool during_work) !! 0%nat =
    Some (Some (mkWorkerState (Some (job "b" "priority" 2 1000000)) (Some 0%nat)))) as Hw
    by (by vm_compute).
  destruct (pool_slots_fit fuel rounds turns ts' during_work 0 _ _ Hr Hw eq_refl) as (_ & Hs & _).
  exact (conj Hw Hs).
Defined.

End System.
